(* ===== verification/_CoqProject ===== *)
-Q . S2P
Prelude.v
RustStd.v
Net.v
NetText.v
Lru.v
Proto.v
Instances.v
Serde.v
Packet.v
Persist.v
PersistCrash.v
Replay.v
ReplaySpec.v
F64.v
F64Round.v
Config.v
ConfigFile.v
RateLimit.v
RateBound.v
Firewall.v
Capture.v
Privsep.v
Sandbox.v
Daemon.v
DaemonRun.v
Expiry.v
Notify.v
Fwknoxd.v
Processes.v
ProcessShutdown.v
ProcessRuns.v
ProcessRefine.v
Modes.v
Shutdown.v
Client.v
Binaries.v
Testing.v
RateLimitTests.v
ConfigTests.v
ProtoTests.v
StoreTests.v
DaemonTests.v
IntegrationTests.v
