(* ===== verification/Prelude.v ===== *)
(** * fwknox: a verification library for the single-packet-authorization daemon

    fwknox opens a firewall door for whoever sends one authenticated UDP
    packet. This library models the Rust sources under src/crates as pure Rocq
    functions and proves what makes them correct. All paths below are relative
    to src/crates.

    ** The program and the files that model it

    - A packet is a header, a nonce, an AES-256-GCM ciphertext and an
      HMAC-SHA256 tag. [Proto] models fwknox-proto/src/{error,types,header,aead,
      hmac,kdf,payload}.rs, [Serde] the serde code of types.rs and payload.rs
      down to serde's data model, [Packet] models packet.rs and validate.rs.
    - The replay cache remembers the nonces that were accepted and keeps them
      on disk. [Persist] models fwknox-replay/src/persist.rs, with the write as
      one step on a map of files; [PersistCrash] is the same write call by
      call, on a disk with inodes and directory entries that can crash at any
      moment. [Replay] models cache.rs and the way the daemon opens the cache.
      [ReplaySpec] is the abstract ledger the cache implements.
    - The configuration: [Config] models fwknox-config/src, types, defaults,
      validation and loading; [ConfigFile] models the derived and written-out
      deserialisers of the same files, from the value tree of the toml parser.
    - The rate limiter has a bucket per promoted source and a global one for
      all others. [RateLimit] models fwknox-ratelimit/src, over the binary64
      arithmetic of [F64]; [F64Round] bounds the rounding errors of that
      arithmetic and [RateBound] what the buckets let through.
    - The firewall: [Firewall] models fwknox-firewall/src, the backend trait as
      the class [FirewallBackend] with its contract [FirewallLaws], the mock
      (Module [Mock]) and the nftables backend (Module [Nft]). [Expiry] gives
      the kernel a clock and its elements the deadlines of nftables.rs.
    - Packets come from a UDP socket: [Capture] models fwknox-capture/src.
    - [Daemon] models fwknox-daemon/src/matcher.rs and pipeline.rs, what the
      daemon does with one packet; [DaemonRun] models validate.rs, run.rs and
      the parent's loop of privsep_run.rs. [Modes] compares the two modes on
      the same datagrams, from the socket on.
    - In privilege-separated mode a capture worker, a crypto worker and the
      parent talk over sockets. [Privsep] models fwknox-privsep/src, the
      messages with their serde code, the framing and the two worker loops.
    - [Shutdown] models fwknox-daemon/src/shutdown.rs, a store of shared flags
      that signal handlers set, and the calls by which the worker handles of
      fwknox-privsep/src/fork.rs signal and reap, their Drop included.
    - [Sandbox] models fwknox-sandbox/src: capabilities, the change of user,
      Landlock and seccomp, as a state monad over an abstract process.
    - [Fwknoxd] models the forks of privsep_run.rs and [real_main] of
      fwknox-daemon/src/bin/fwknoxd.rs and puts all of the above together.
    - [Processes] is the privilege-separated daemon as one transition system:
      the loops of [Privsep] and [DaemonRun] as three processes, connected by
      two bounded queues of datagrams. The processes move one call at a time:
      the look at the shutdown flag, the receive, a send that may block, the
      handling of a message, the wait for a worker. Signals and kills, which
      end a worker wherever it is, are steps from outside; the runs are all
      interleavings.
      [ProcessShutdown] is about its end, [ProcessRuns] builds runs of it, and
      [ProcessRefine] compares it with the sequential daemon of [Daemon].
    - [Notify] models fwknox-sandbox/src/notify.rs and the text of panic.rs, and
      the order in which both loops notify systemd.
    - The client: [Client] models fwknox-client/src.
    - [Binaries] models fwknox-daemon/src/cli.rs, bin/fwknoxd-mock.rs and the
      [main] functions of the three binaries with their exit codes.
    - The unit tests of the crates, and the integration tests under src/tests
      that stay in one process, are translated test by test and evaluated:
      [RateLimitTests], [ConfigTests], [ProtoTests], [StoreTests],
      [DaemonTests] and [IntegrationTests], on the small test monad of
      [Testing]. They check the model against what the authors of the code
      expect of it.
    - [RustStd] and [Net] are the parts of the standard library the sources
      use (strings, integer parsing, durations, IP addresses), [NetText] the
      round trip of the text forms of addresses, [Lru] the interface of the
      lru crate, [Instances] executable instances of the external interfaces.
      This file holds results, machine integers, the tactics and the generic
      lemmas.

    ** How the code is translated

    A function that returns [Result] returns [result]; [?] is the monadic bind.
    Mutable state is passed explicitly: the replay cache with the file system,
    the limiter, the firewall backend, the process. What the code reads from
    outside (clocks, random bytes, outcomes of system calls, signals) is an
    argument. A loop of the daemon runs on a finite list of iterations, each
    with the outcomes its calls had; a theorem about all such lists is a
    theorem about every moment of every run, and the status [None] or
    [MainRunning] marks a loop that has not ended. In these loops every call
    returns, except the parent's wait for its workers, which may not; calls
    that block are the matter of [Processes]. Machine integers are [Z]
    with the wrap-around, saturation or checks of the source written out, in
    the release profile. Logging is left out, except where the limiter and the
    worker shutdown choose a level. Error texts are kept. A derived serde
    implementation is written out as the decoder it expands to: known fields,
    defaults, missing, duplicate and unknown fields, in that order.

    Code that is not in the repository is a class of operations and a class of
    the laws its documentation states, and every theorem that uses the laws
    has a witness with an instance: [Ring] (ring), [Rmp] (rmp-serde),
    [LruCache] (lru), [HashIter] (the order of a hash map), [HashAlloc] (the
    table sizes that can be allocated; asking for another is a panic), [IpNetOps]
    (ipnet), [Base64], [UnicodeTables] (the tables behind escape_debug),
    [Toml] and [Humantime] (the parsers of those crates), [EnvFilterOps]
    (tracing-subscriber),
    [NftHelper] and [RulesetApplier] (the nftables crate and the kernel; with
    deadlines, [TimedKernel] and [KernelClock]), [SdNotify] (sd_notify),
    [SandboxSys] (caps, nix, landlock, seccompiler and the kernel). The laws of
    [Ring] state functional behaviour only (tags are recomputed, opening
    inverts sealing); no theorem states that a tag cannot be guessed.

    ** What is proved

    - Soundness: a door opens only for a packet that authenticates under a
      configured key, in the clock window, with an unseen nonce and within the
      stanza's policy; for one packet ([Daemon.installed_sound],
      [Daemon.process_fails_closed]), over a run ([DaemonRun.run_doors_justified]),
      through the three processes under every interleaving
      ([Processes.system_doors_justified]) and for the whole program
      ([Fwknoxd.main_doors_justified], where the parent's messages are taken to
      be verdicts of the validation). What the parent enforces
      without trusting its workers is [DaemonRun.parent_trust_boundary].
    - Expiry: a door the daemon opened closes at most the configured maximum
      after its packet was handled ([Expiry.doors_expire], and for the parent
      whatever its workers send [Expiry.parent_doors_expire]), so that no door
      ever has more than that time left, under every interleaving of the three
      processes ([ProcessRefine.system_doors_expire]), unless a
      timeout is below a second, in which case it never closes
      ([Expiry.short_timeout_installs_forever]).
    - The three processes: packets reach the parent once and in order
      ([Processes.system_in_order]) and none is lost while they run
      ([ProcessRefine.backlog_drains]); the only deadlock is the parent waiting
      for workers blocked in full queues
      ([ProcessShutdown.stuck_only_in_shutdown]), which cannot happen when the
      queues have room ([ProcessShutdown.shutdown_completes]) and can after a
      flood ([ProcessRuns.shutdown_can_hang]); after the death of a worker the
      parent finishes the iteration it is in and begins no other
      ([ProcessShutdown.dead_worker_fails_closed]).
    - Types: whatever a packet or a configuration file holds, what parsing
      returns is within the widths and limits the code relies on
      ([Packet.parsed_payload_typed], [ConfigFile.loaded_file_typed]); a
      misspelt setting is an error ([ConfigFile.no_unknown_settings]).
    - Termination: the loop of the single process ends within one iteration of
      its termination signal, on any endless input ([Shutdown.run_terminates]);
      each of the three processes ends within the iteration it is in once its
      flag is set, unless it is blocked in a send or a wait
      ([ProcessShutdown.signalled_processes_end]); and no worker is left without
      a signal ([Shutdown.workers_always_signalled]).
    - Completeness: what a client builds, the daemon installs
      ([Daemon.built_packet_installs], [Client.client_packet_parses]), also
      through the three processes ([ProcessRefine.knock_opens_doors]).
    - Authentication: [Packet.parse_accepts_iff] characterises the accepted
      byte strings, [Packet.hmac_decides] the rejected ones.
    - Replay: no nonce is accepted twice ([Replay.no_double_accept],
      [Daemon.no_second_install]), also not across a crash
      ([Replay.restart_keeps_entries], [DaemonRun.run_durable],
      [DaemonRun.parent_durable]) and over any number of crashes and restarts
      ([ReplaySpec.no_second_accept_across_restarts]), if the capacity is at
      most the built-in one, which a restart uses ([Replay.restart_forgets]);
      the cache file reads back, and a crash leaves the old one or the new one
      whole ([PersistCrash.write_calls_crash_safe]).
    - Refinement: every interleaving of the three processes implements the
      sequential daemon, packet by packet ([ProcessRefine.system_refines_daemon]);
      the cache with its file implements a ledger of two finite maps
      ([ReplaySpec.cache_refines_ledger]); the nftables backend implements
      the contract of [FirewallBackend] (instance
      [Firewall.nft_firewall_laws]).
    - Equivalence: a run of the daemon with privilege separation and one
      without have the same effects on datagrams of at most 1500 bytes, unless
      a packet authenticates and is then rejected ([Modes.modes_agree]); the mock binary is the real one but for
      its start-up ([Binaries.mock_main_agrees]). The latter is proved with
      [Proper] instances for the configurations that differ in start-up only.
    - Rate limiting: invariant and when the construction panics, isolation of the tiers, promotion, accounting,
      the exact burst of a bucket, and in spite of all rounding errors the
      long-run rate of a bucket ([RateBound.bucket_rate_bound]), that of all
      untracked sources together ([RateBound.limiter_global_bound]) and that an
      idle second earns a packet ([RateBound.bucket_idle_second]).
    - Configuration: [Config.daemon_validate_iff] gives the accepted files.
    - Notifications: ready, one heartbeat per turn, stopping
      ([Notify.run_notifies], [Notify.parent_notifies]).
    - Sandbox: workers run only when sandboxed ([Fwknoxd.workers_sandboxed]);
      a root daemon's privilege drop always fails
      ([Fwknoxd.root_daemon_never_starts]).

    ** Bounds and fuel

    [dec] and [hex] print with a fuel above the number of digits, and their
    round-trip lemmas show it is enough. Every other recursion is structural.
    The doors of [FirewallLaws] are those of the kernel set without the passing
    of time, an over-approximation of what is open; [Expiry] bounds how long
    each of them is. The queues between the processes hold what the send
    buffer of a socket holds; its size and the cost of a datagram are arguments
    of the theorems.

    ** What is not modelled

    clap's parsing of command lines, the output of tracing, the sending of
    notifications to the socket of systemd (their order is kept), the grammars
    of toml and humantime, the form of a derived struct that reads a positional
    array, the system calls of sockets (what they return is an argument), the
    closing of inherited descriptors, the wiping of keys from memory, and the
    integration tests that start processes or need the kernel's firewall and
    sandbox. Of the unit tests those are left out that start threads of their
    own, sleep, ask the system for random bytes, or flood the limiter with
    thousands of sources. The debug assertion on the signal mask of a worker
    has no effect in a release build. Threads do not occur in the daemon; the
    limiter's mutex is modelled with its poisoning. *)

From stdpp Require Export base list numbers option decidable gmap.
From stdpp Require Import tactics.
From Stdlib Require Export ZArith Lia.

#[global] Open Scope Z_scope.

(** ** The [Result] type of the source *)

(** [Result<A, E>]; the error type comes first so that [result E] is a
    functor and the [?] operator is the monadic bind. *)
Inductive result (E A : Type) : Type :=
  | Ok (a : A)
  | Err (e : E).
Arguments Ok {E A} a.
Arguments Err {E A} e.

#[global] Instance result_eq_dec `{EqDecision E, EqDecision A} : EqDecision (result E A).
Proof. solve_decision. Defined.

#[global] Instance result_ret {E} : MRet (result E) := λ A a, Ok a.
#[global] Instance result_bind {E} : MBind (result E) := λ A B f m,
  match m with Ok a => f a | Err e => Err e end.
#[global] Instance result_fmap {E} : FMap (result E) := λ A B f m,
  match m with Ok a => Ok (f a) | Err e => Err e end.

(** [r.map_err(f)], the conversion a [?] applies to the error. *)
Definition map_err {E F A} (f : E → F) (m : result E A) : result F A :=
  match m with Ok a => Ok a | Err e => Err (f e) end.

(** [opt.ok_or(e)]. *)
Definition ok_or {E A} (e : E) (o : option A) : result E A :=
  match o with Some a => Ok a | None => Err e end.

Definition is_ok {E A} (m : result E A) : bool :=
  match m with Ok _ => true | Err _ => false end.

(** [if b { return Err(e) }] followed by the rest of the function. *)
Definition guard_err {E} (b : bool) (e : E) : result E unit :=
  if b then Err e else Ok ().

Lemma result_bind_ok {E A B} (m : result E A) (f : A → result E B) b :
  (m ≫= f) = Ok b ↔ ∃ a, m = Ok a ∧ f a = Ok b.
Proof. destruct m; naive_solver. Qed.

Lemma map_err_ok {E F A} (f : E → F) (m : result E A) a :
  map_err f m = Ok a ↔ m = Ok a.
Proof. destruct m; naive_solver. Qed.

Lemma ok_or_ok {E A} (e : E) (o : option A) a : ok_or e o = Ok a ↔ o = Some a.
Proof. destruct o; naive_solver. Qed.

Lemma guard_err_ok {E} b (e : E) u : guard_err b e = Ok u ↔ b = false.
Proof. destruct b, u; naive_solver. Qed.

Lemma bind_unit_ok {E A} (m : result E unit) (k : result E A) a :
  (m ≫= λ _, k) = Ok a ↔ m = Ok () ∧ k = Ok a.
Proof. destruct m as [[]|]; naive_solver. Qed.

(** ** Machine integers

    A [w]-bit integer of the source is a [Z] in the range of its type; the
    ranges are predicates and the wrap-around of the release build is written
    out where the code can overflow. *)

Definition u8_max : Z := 255.
Definition u16_max : Z := 65535.
Definition u32_max : Z := 4294967295.
Definition u64_max : Z := 18446744073709551615.
Definition i64_max : Z := 9223372036854775807.
Definition i64_min : Z := -9223372036854775808.

Definition is_u8 (z : Z) : Prop := 0 ≤ z ≤ u8_max.
Definition is_u16 (z : Z) : Prop := 0 ≤ z ≤ u16_max.
Definition is_u32 (z : Z) : Prop := 0 ≤ z ≤ u32_max.
Definition is_u64 (z : Z) : Prop := 0 ≤ z ≤ u64_max.
Definition is_i64 (z : Z) : Prop := i64_min ≤ z ≤ i64_max.

#[global] Instance is_u8_dec z : Decision (is_u8 z).
Proof. unfold is_u8; apply _. Defined.
#[global] Instance is_u16_dec z : Decision (is_u16 z).
Proof. unfold is_u16; apply _. Defined.
#[global] Instance is_u32_dec z : Decision (is_u32 z).
Proof. unfold is_u32; apply _. Defined.
#[global] Instance is_u64_dec z : Decision (is_u64 z).
Proof. unfold is_u64; apply _. Defined.
#[global] Instance is_i64_dec z : Decision (is_i64 z).
Proof. unfold is_i64; apply _. Defined.

(** Two's-complement wrap-around of [i64], and wrap-around of [u64]. *)
Definition wrap_i64 (z : Z) : Z := (z + 2 ^ 63) mod 2 ^ 64 - 2 ^ 63.
Definition wrap_u64 (z : Z) : Z := z mod 2 ^ 64.

(** [u32::saturating_add] and [u64::saturating_sub]. *)
Definition sat_add_u32 (a b : Z) : Z := Z.min (a + b) u32_max.
Definition sat_sub_u64 (a b : Z) : Z := Z.max (a - b) 0.

Lemma wrap_i64_id z : is_i64 z → wrap_i64 z = z.
Proof.
  unfold is_i64, wrap_i64, i64_min, i64_max; intros.
  rewrite Z.mod_small; lia.
Qed.

Lemma wrap_i64_range z : is_i64 (wrap_i64 z).
Proof.
  unfold is_i64, wrap_i64, i64_min, i64_max.
  pose proof (Z.mod_pos_bound (z + 2 ^ 63) (2 ^ 64) ltac:(lia)); lia.
Qed.

(** An integer is its high part and its low [k] bits put together again. *)
Lemma lor_shift_land n k :
  0 ≤ k → Z.lor (Z.shiftl (Z.shiftr n k) k) (Z.land n (Z.ones k)) = n.
Proof.
  intros Hk. apply Z.bits_inj'. intros i Hi.
  rewrite Z.lor_spec, Z.shiftl_spec, Z.land_spec by done. destruct (decide (i < k)).
  - rewrite (Z.testbit_neg_r _ (i - k)) by lia.
    rewrite Z.ones_spec_low by lia. by rewrite andb_true_r.
  - rewrite Z.shiftr_spec by lia. rewrite Z.ones_spec_high by lia.
    rewrite andb_false_r, orb_false_r. f_equal; lia.
Qed.

(** ** Byte strings *)

(** [Vec<u8>], [&[u8]] and [[u8; N]]. *)
Abbreviation bytes := (list Z) (only parsing).

Definition is_bytes (bs : bytes) : Prop := Forall is_u8 bs.

(** [xs.len()], a [usize]. *)
Definition len {A} (xs : list A) : Z := Z.of_nat (length xs).

(** [[x; n]]. *)
Abbreviation fill n x := (replicate (Z.to_nat n) x) (only parsing).

Lemma len_nil {A} : len (@nil A) = 0.
Proof. done. Qed.
Lemma len_cons {A} (x : A) xs : len (x :: xs) = len xs + 1.
Proof. unfold len; simpl; lia. Qed.
Lemma len_app {A} (xs ys : list A) : len (xs ++ ys) = len xs + len ys.
Proof. unfold len; rewrite length_app; lia. Qed.
Lemma len_nonneg {A} (xs : list A) : 0 ≤ len xs.
Proof. unfold len; lia. Qed.
Lemma len_take {A} n (xs : list A) : len (take n xs) = Z.min (Z.of_nat n) (len xs).
Proof. unfold len; rewrite length_take; lia. Qed.
Lemma len_drop {A} n (xs : list A) : len (drop n xs) = Z.max 0 (len xs - Z.of_nat n).
Proof. unfold len; rewrite length_drop; lia. Qed.
Lemma len_fmap {A B} (f : A → B) (xs : list A) : len (f <$> xs) = len xs.
Proof. unfold len; by rewrite length_fmap. Qed.
Lemma len_length {A} (xs : list A) n : len xs = n → length xs = Z.to_nat n.
Proof. unfold len; lia. Qed.
Lemma len_zero_nil {A} (xs : list A) : len xs = 0 → xs = [].
Proof. destruct xs; [done|rewrite len_cons; pose proof (len_nonneg xs); lia]. Qed.

(** ** Automation *)

Create HintDb fwknox discriminated.
#[export] Hint Resolve len_nonneg : fwknox.
#[export] Hint Extern 1 (is_u8 _) => (unfold is_u8, u8_max in *; lia) : fwknox.
#[export] Hint Extern 1 (is_u64 _) => (unfold is_u64, u64_max in *; lia) : fwknox.

Create Rewrite HintDb len.
#[export] Hint Rewrite @len_nil @len_cons @len_app @len_take @len_drop @len_fmap : len.

(** Invert a chain of monadic binds, guards and conversions that ended in
    [Ok], naming nothing: the equations stay in the context. *)
Ltac inv_ok :=
  repeat match goal with
  | H : (_ ≫= _) = Ok _ |- _ => apply result_bind_ok in H as (? & ? & H)
  | H : map_err _ _ = Ok _ |- _ => apply map_err_ok in H
  | H : ok_or _ _ = Ok _ |- _ => apply ok_or_ok in H
  | H : guard_err _ _ = Ok _ |- _ => apply guard_err_ok in H
  | H : Ok _ = Ok _ |- _ => injection H as H
  | H : Err _ = Ok _ |- _ => discriminate H
  | H : Ok _ = Err _ |- _ => discriminate H
  | H : mret _ = _ |- _ => unfold mret, result_ret in H
  end.

(** Turn boolean comparisons of the code into propositions for [lia]. *)
Ltac bool_prop :=
  repeat match goal with
  | H : bool_decide _ = true |- _ => apply bool_decide_eq_true_1 in H
  | H : bool_decide _ = false |- _ => apply bool_decide_eq_false_1 in H
  | H : negb _ = true |- _ => apply negb_true_iff in H
  | H : negb _ = false |- _ => apply negb_false_iff in H
  | H : (_ && _)%bool = true |- _ => apply andb_true_iff in H as [? ?]
  | H : (_ || _)%bool = false |- _ => apply orb_false_iff in H as [? ?]
  | H : (_ <? _) = _ |- _ => first [apply Z.ltb_lt in H | apply Z.ltb_ge in H]
  | H : (_ <=? _) = _ |- _ => first [apply Z.leb_le in H | apply Z.leb_gt in H]
  | H : (_ =? _) = _ |- _ => first [apply Z.eqb_eq in H | apply Z.eqb_neq in H]
  | H : (_ >? _) = _ |- _ => rewrite Z.gtb_ltb in H
  | H : (_ >=? _) = _ |- _ => rewrite Z.geb_leb in H
  end.

(** [len] arithmetic. *)
Ltac len_solve :=
  autorewrite with len in *;
  repeat match goal with
  | xs : list ?A |- _ =>
      lazymatch goal with
      | _ : 0 ≤ len xs |- _ => fail
      | _ => pose proof (len_nonneg xs)
      end
  end; lia.

(** ** Generic list lemmas *)

Lemma take_app_len {A} (xs ys : list A) n : len xs = Z.of_nat n → take n (xs ++ ys) = xs.
Proof. intros H. apply take_app_length'. unfold len in H; lia. Qed.

Lemma drop_app_len {A} (xs ys : list A) n : len xs = Z.of_nat n → drop n (xs ++ ys) = ys.
Proof. intros H. apply drop_app_length'. unfold len in H; lia. Qed.

Lemma existsb_eq_elem_of `{EqDecision A} (x : A) (l : list A) :
  existsb (λ y, bool_decide (y = x)) l = true ↔ x ∈ l.
Proof.
  rewrite existsb_exists. setoid_rewrite bool_decide_eq_true.
  setoid_rewrite <- list_elem_of_In. naive_solver.
Qed.

Lemma forallb_Forall {A} (f : A → bool) (l : list A) :
  forallb f l = true ↔ Forall (λ x, f x = true) l.
Proof.
  rewrite forallb_forall, Forall_forall. by setoid_rewrite <- list_elem_of_In.
Qed.

(** Filters that agree on the elements agree. *)
Lemma filter_ext_in {A} (P Q : A → Prop) `{∀ x, Decision (P x), ∀ x, Decision (Q x)} (l : list A) :
  (∀ x, x ∈ l → P x ↔ Q x) → filter P l = filter Q l.
Proof.
  induction l as [|x l IH]; intros Hl; [done|]. rewrite !filter_cons.
  rewrite IH by (intros; apply Hl; by right).
  pose proof (Hl x ltac:(by left)). repeat case_decide; naive_solver.
Qed.

(** The first element a predicate selects, as [iter().find(..)]. *)
Lemma find_some_split {A} (f : A → bool) (l : list A) x :
  List.find f l = Some x →
  ∃ l1 l2, l = l1 ++ x :: l2 ∧ f x = true ∧ Forall (λ y, f y = false) l1.
Proof.
  induction l as [|y l IH]; simpl; [done|].
  destruct (f y) eqn:E; intros H.
  - simplify_eq. by exists [], l.
  - destruct (IH H) as (l1 & l2 & -> & ? & ?). exists (y :: l1), l2. auto.
Qed.
