(* ===== verification/RustStd.v ===== *)
(** * The parts of Rust's standard library the sources use

    Strings are lists of Unicode scalar values, so that [char] predicates are
    predicates on [Z] and [str::len] is the length of the UTF-8 encoding.
    Durations and instants are nanosecond counts. *)

From S2P Require Import Prelude.
From Stdlib Require Strings.String Strings.Ascii.
Export Stdlib.Strings.String.StringSyntax.

(** ** [char] and [str] *)

Abbreviation char := Z (only parsing).
Abbreviation str := (list Z) (only parsing).

(** A string literal of the source. *)
Definition lit (s : String.string) : str :=
  (λ a, Z.of_N (Ascii.N_of_ascii a)) <$> String.list_ascii_of_string s.
Arguments lit s%_string_scope.

Definition len_utf8 (c : char) : Z :=
  if c <? 0x80 then 1 else if c <? 0x800 then 2 else if c <? 0x10000 then 3 else 4.

(** [str::len], in bytes. *)
Definition str_len (s : str) : Z := foldr (λ c n, len_utf8 c + n) 0 s.

Definition is_ascii_digit (c : char) : bool := (48 <=? c) && (c <=? 57).
Definition is_ascii_graphic (c : char) : bool := (33 <=? c) && (c <=? 126).
Definition is_ascii_hexdigit (c : char) : bool :=
  is_ascii_digit c || ((97 <=? c) && (c <=? 102)) || ((65 <=? c) && (c <=? 70)).

Definition to_ascii_lowercase_char (c : char) : char :=
  if (65 <=? c) && (c <=? 90) then c + 32 else c.
Definition to_ascii_lowercase (s : str) : str := to_ascii_lowercase_char <$> s.
Definition eq_ignore_ascii_case (s t : str) : bool :=
  bool_decide (to_ascii_lowercase s = to_ascii_lowercase t).

(** [char::is_whitespace]: the Unicode White_Space property. *)
Definition is_whitespace (c : char) : bool :=
  ((9 <=? c) && (c <=? 13)) || (c =? 0x20) || (c =? 0x85) || (c =? 0xA0) || (c =? 0x1680) ||
  ((0x2000 <=? c) && (c <=? 0x200A)) || (c =? 0x2028) || (c =? 0x2029) || (c =? 0x202F) ||
  (c =? 0x205F) || (c =? 0x3000).

Fixpoint trim_start (s : str) : str :=
  match s with
  | [] => []
  | c :: s' => if is_whitespace c then trim_start s' else s
  end.
Definition trim_end (s : str) : str := reverse (trim_start (reverse s)).
Definition trim (s : str) : str := trim_end (trim_start s).

(** [str::split] with a character predicate: at least one piece. *)
Fixpoint split_by (p : char → bool) (s : str) : list str :=
  match s with
  | [] => [[]]
  | c :: s' =>
      if p c then [] :: split_by p s'
      else match split_by p s' with
           | [] => [[c]]
           | w :: ws => (c :: w) :: ws
           end
  end.
Definition split_char (sep : char) (s : str) : list str := split_by (λ c, c =? sep) s.
Definition split_whitespace (s : str) : list str :=
  List.filter (λ w, negb (bool_decide (w = []))) (split_by is_whitespace s).

Fixpoint split_once (sep : char) (s : str) : option (str * str) :=
  match s with
  | [] => None
  | c :: s' =>
      if c =? sep then Some ([], s')
      else match split_once sep s' with
           | Some (a, b) => Some (c :: a, b)
           | None => None
           end
  end.

(** [str::lines]: a line loses its "\n" and one "\r" before it; a last piece
    without "\n" is kept as it is, unless it is empty. *)
Definition strip_cr (w : str) : str :=
  match reverse w with 13 :: w' => reverse w' | _ => w end.
Fixpoint lines_of (ws : list str) : list str :=
  match ws with
  | [] => []
  | [w] => if bool_decide (w = []) then [] else [w]
  | w :: ws' => strip_cr w :: lines_of ws'
  end.
Definition lines (s : str) : list str := lines_of (split_char 10 s).

Fixpoint is_prefix (p s : str) : bool :=
  match p, s with
  | [], _ => true
  | a :: p', b :: s' => (a =? b) && is_prefix p' s'
  | _, [] => false
  end.
Definition starts_with (s p : str) : bool := is_prefix p s.
Fixpoint str_contains (s p : str) : bool :=
  is_prefix p s || match s with [] => false | _ :: s' => str_contains s' p end.

(** [parts.join(sep)]. *)
Fixpoint str_join (sep : str) (ws : list str) : str :=
  match ws with
  | [] => []
  | [w] => w
  | w :: ws' => w ++ sep ++ str_join sep ws'
  end.

(** ** Numbers to text and back *)

Fixpoint dec_fuel (fuel : nat) (n : Z) : str :=
  match fuel with
  | O => []
  | S f => if n <? 10 then [48 + n] else dec_fuel f (n / 10) ++ [48 + n mod 10]
  end.
(** [Display] of an integer. Twice as many steps as bits is more than enough
    decimal digits. *)
Definition dec_nat (n : Z) : str := dec_fuel (S (Z.to_nat (Z.log2 n))) n.
Definition dec (n : Z) : str := if n <? 0 then 45 :: dec_nat (- n) else dec_nat n.

Definition hex_digit (d : Z) : char := if d <? 10 then 48 + d else 87 + d.
Fixpoint hex_fuel (fuel : nat) (n : Z) : str :=
  match fuel with
  | O => []
  | S f => if n <? 16 then [hex_digit n] else hex_fuel f (n / 16) ++ [hex_digit (n mod 16)]
  end.
(** [{:x}] of an unsigned integer; [{:#x}] has the prefix "0x". *)
Definition hex (n : Z) : str := hex_fuel (S (Z.to_nat (Z.log2 n))) n.

(** [std::num::ParseIntError] for the unsigned types. *)
Inductive ParseIntError := PieEmpty | PieInvalidDigit | PiePosOverflow.

Definition show_ParseIntError (e : ParseIntError) : str :=
  match e with
  | PieEmpty => lit "cannot parse integer from empty string"
  | PieInvalidDigit => lit "invalid digit found in string"
  | PiePosOverflow => lit "number too large to fit in target type"
  end.

Fixpoint parse_digits (max acc : Z) (s : str) : result ParseIntError Z :=
  match s with
  | [] => Ok acc
  | c :: s' =>
      if negb (is_ascii_digit c) then Err PieInvalidDigit
      else if max <? acc * 10 + (c - 48) then Err PiePosOverflow
      else parse_digits max (acc * 10 + (c - 48)) s'
  end.

(** [str::parse] to an unsigned integer type with maximum [max]: one leading
    "+" is accepted. *)
Definition parse_uint (max : Z) (s : str) : result ParseIntError Z :=
  match s with
  | [] => Err PieEmpty
  | c :: s' =>
      if c =? 43 then
        match s' with [] => Err PieInvalidDigit | _ => parse_digits max 0 s' end
      else parse_digits max 0 s
  end.

(** ** Durations and instants *)

(** [Duration] is a number of nanoseconds, [Instant] a number of nanoseconds
    since an arbitrary origin. *)
Abbreviation Duration := Z (only parsing).
Abbreviation Instant := Z (only parsing).

Definition NANOS : Z := 1000000000.
Definition from_secs (s : Z) : Duration := s * NANOS.
Definition from_millis (ms : Z) : Duration := ms * 1000000.
Definition as_secs (d : Duration) : Z := d / NANOS.
Definition subsec_nanos (d : Duration) : Z := d mod NANOS.

(** [Instant::checked_duration_since] and [Instant::duration_since], which
    saturates at zero. *)
Definition checked_duration_since (now earlier : Instant) : option Duration :=
  if now <? earlier then None else Some (now - earlier).
Definition duration_since (now earlier : Instant) : Duration := Z.max 0 (now - earlier).

(** ** Lemmas on splitting *)

(** ** std::collections::HashMap: allocation *)

(** The hash tables that are allocated for a configured number of entries: the
    two of the rate limiter and that of the replay cache. *)
Inductive hash_table := TrackedTable | CandidateTable | NonceTable.

(** [HashMap::with_capacity] does not return when a table for so many entries
    cannot be had: it panics when the size of the allocation overflows, and
    the process is aborted when there is no memory. Which capacities fit
    depends on the size of an entry and on the machine. *)
Class HashAlloc := table_fits : hash_table → Z → bool.

(** No allocation is larger than [isize::MAX] bytes, and an entry of these
    tables, with a key or a pointer to one, takes more than one byte. *)
Definition ISIZE_MAX : Z := 2 ^ 63 - 1.
Class HashAllocLaws (A : HashAlloc) := fits_isize t n : table_fits t n = true → 2 * n ≤ ISIZE_MAX.

(** A machine with room for a million entries. *)
Definition million_entries : HashAlloc := λ _ n, n <=? 1000000.
Definition million_entries_laws : HashAllocLaws million_entries.
Proof. intros t n H%Z.leb_le. unfold ISIZE_MAX. lia. Defined.

Section splitting.
Implicit Types (s w : str) (p : char → bool).

Lemma split_by_nonempty p s : split_by p s ≠ [].
Proof. destruct s as [|c s]; simpl; [done|]. destruct (p c), (split_by p s); done. Qed.

Lemma split_by_none p w : Forall (λ c, p c = false) w → split_by p w = [w].
Proof. induction 1 as [|c w Hc _ IH]; simpl; [done|]. by rewrite Hc, IH. Qed.

Lemma split_by_sep p w c s :
  Forall (λ c, p c = false) w → p c = true →
  split_by p (w ++ c :: s) = w :: split_by p s.
Proof.
  intros Hw Hc. induction Hw as [|a w Ha _ IH]; simpl; [by rewrite Hc|].
  by rewrite Ha, IH.
Qed.

Lemma split_char_none sep w : sep ∉ w → split_char sep w = [w].
Proof.
  intros H. apply split_by_none. apply Forall_forall. intros c Hc.
  apply Z.eqb_neq. set_solver.
Qed.

Lemma split_char_sep sep w s :
  sep ∉ w → split_char sep (w ++ sep :: s) = w :: split_char sep s.
Proof.
  intros H. apply split_by_sep; [|by apply Z.eqb_eq].
  apply Forall_forall. intros c Hc. apply Z.eqb_neq. set_solver.
Qed.

Lemma split_char_join sep (ws : list str) :
  ws ≠ [] → Forall (λ w, sep ∉ w) ws → split_char sep (str_join [sep] ws) = ws.
Proof.
  intros Hne Hw. induction Hw as [|w ws Hw Hws IH]; [done|].
  destruct ws as [|w' ws]; simpl.
  - by apply split_char_none.
  - rewrite split_char_sep by done. f_equal. by apply IH.
Qed.

Lemma split_once_sep sep w s : sep ∉ w → split_once sep (w ++ sep :: s) = Some (w, s).
Proof.
  induction w as [|c w IH]; simpl; intros H.
  - by rewrite Z.eqb_refl.
  - rewrite (proj2 (Z.eqb_neq c sep)) by set_solver. by rewrite IH by set_solver.
Qed.

Lemma trim_start_nonws s :
  match s with [] => True | c :: _ => is_whitespace c = false end → trim_start s = s.
Proof. destruct s as [|c s]; simpl; [done|]. by intros ->. Qed.

(** A string whose characters are no whitespace is its own trimming. *)
Lemma trim_nonws s : Forall (λ c, is_whitespace c = false) s → trim s = s.
Proof.
  intros H. unfold trim, trim_end.
  rewrite (trim_start_nonws s); [|destruct H; done].
  rewrite trim_start_nonws; [by rewrite reverse_involutive|].
  apply Forall_reverse in H. by destruct H.
Qed.

(** Only the two ends matter for trimming. *)
Lemma trim_ends a s b :
  is_whitespace a = false → is_whitespace b = false → trim (a :: s ++ [b]) = a :: s ++ [b].
Proof.
  intros Ha Hb. unfold trim, trim_end. rewrite (trim_start_nonws (a :: _)) by done.
  rewrite trim_start_nonws; [by rewrite reverse_involutive|].
  rewrite app_comm_cons, reverse_app. simpl. done.
Qed.
End splitting.

(** ** Lemmas on numbers *)

Section numbers.
Lemma parse_digits_app max acc s t :
  parse_digits max acc (s ++ t) = parse_digits max acc s ≫= λ a, parse_digits max a t.
Proof.
  revert acc; induction s as [|c s IH]; intros acc; simpl; [done|].
  destruct (negb _); [done|]. destruct (max <? _); [done|]. apply IH.
Qed.

Lemma digit_is_digit d : 0 ≤ d < 10 → is_ascii_digit (48 + d) = true.
Proof. unfold is_ascii_digit; lia. Qed.

Lemma parse_digits_dec_fuel max f n :
  0 ≤ n ≤ max → n < 2 ^ Z.of_nat f → parse_digits max 0 (dec_fuel f n) = Ok n.
Proof.
  revert n; induction f as [|f IH]; intros n Hn Hf; [simpl in *; f_equal; lia|].
  rewrite Nat2Z.inj_succ, Z.pow_succ_r in Hf by lia.
  cbn [dec_fuel]. destruct (Z.ltb_spec n 10).
  - cbn [parse_digits]. rewrite digit_is_digit by lia; simpl.
    rewrite (proj2 (Z.ltb_ge _ _)) by lia. f_equal; lia.
  - pose proof (Z.div_mod n 10 ltac:(lia)). pose proof (Z.mod_pos_bound n 10 ltac:(lia)).
    rewrite parse_digits_app, IH by lia. unfold mbind, result_bind. cbn [parse_digits].
    rewrite digit_is_digit by lia; simpl.
    rewrite (proj2 (Z.ltb_ge _ _)) by lia. f_equal; lia.
Qed.

Lemma dec_fuel_digits f n :
  0 ≤ n → Forall (λ c, is_ascii_digit c = true) (dec_fuel f n).
Proof.
  revert n; induction f as [|f IH]; intros n Hn; simpl; [constructor|].
  destruct (Z.ltb_spec n 10).
  - constructor; [apply digit_is_digit; lia|constructor].
  - apply Forall_app; split; [apply IH, Z.div_pos; lia|].
    constructor; [apply digit_is_digit, Z.mod_pos_bound; lia|constructor].
Qed.

Lemma dec_nonneg n : 0 ≤ n → dec n = dec_nat n.
Proof. intros; unfold dec. by rewrite (proj2 (Z.ltb_ge n 0)). Qed.

Lemma dec_digits n : 0 ≤ n → Forall (λ c, is_ascii_digit c = true) (dec n).
Proof. intros. rewrite dec_nonneg by done. by apply dec_fuel_digits. Qed.

Lemma dec_nonempty n : dec n ≠ [].
Proof.
  unfold dec, dec_nat. destruct (n <? 0); [done|]. simpl.
  destruct (n <? 10); [done|]. intros H. by apply app_eq_nil in H as [_ ?].
Qed.

Lemma digit_not_ws c : is_ascii_digit c = true → is_whitespace c = false.
Proof. unfold is_ascii_digit, is_whitespace; lia. Qed.

Lemma trim_dec n : 0 ≤ n → trim (dec n) = dec n.
Proof.
  intros Hn. apply trim_nonws. eapply Forall_impl; [by apply dec_digits|].
  intros c. apply digit_not_ws.
Qed.

Lemma parse_uint_digits max s :
  s ≠ [] → Forall (λ c, is_ascii_digit c = true) s → parse_uint max s = parse_digits max 0 s.
Proof.
  intros Hne Hd. destruct Hd as [|c s Hc Hs]; [done|].
  unfold parse_uint, is_ascii_digit in *. destruct (Z.eqb_spec c 43); [lia|done].
Qed.

(** Parsing the decimal text of a number in range gives the number. *)
Lemma parse_uint_dec max n : 0 ≤ n ≤ max → parse_uint max (dec n) = Ok n.
Proof.
  intros Hn. rewrite parse_uint_digits; [|apply dec_nonempty|apply dec_digits; lia].
  rewrite dec_nonneg by lia. apply parse_digits_dec_fuel; [done|].
  pose proof (Z.log2_nonneg n). rewrite Nat2Z.inj_succ, Z2Nat.id by done.
  destruct (decide (n = 0)) as [->|Hne]; [by compute|].
  apply (Z.log2_spec n); lia.
Qed.

Lemma parse_digits_bound max acc s n :
  0 ≤ acc ≤ max → parse_digits max acc s = Ok n → 0 ≤ n ≤ max.
Proof.
  revert acc; induction s as [|c s IH]; simpl; intros acc Ha H; [by simplify_eq|].
  destruct (is_ascii_digit c) eqn:Ec; simpl in H; [|done].
  destruct (Z.ltb_spec max (acc * 10 + (c - 48))) as [|Hle]; [done|].
  apply IH in H; [done|]. unfold is_ascii_digit in Ec. lia.
Qed.

Lemma parse_uint_bound max s n : 0 ≤ max → parse_uint max s = Ok n → 0 ≤ n ≤ max.
Proof.
  intros Hm H. unfold parse_uint in H. destruct s as [|c s]; [done|].
  destruct (c =? 43); [destruct s as [|c' s]; [done|]|];
    apply parse_digits_bound in H; lia.
Qed.
End numbers.

#[export] Hint Resolve digit_not_ws dec_digits dec_nonempty : fwknox.
