(* ===== verification/Net.v ===== *)
(** * Network addresses of the standard library

    [IpAddr] with its [Display] and [FromStr], and [SocketAddr]: what the
    daemon formats into rejection reasons and firewall elements, and what the
    client parses from its command line. *)

From S2P Require Import Prelude RustStd.

(** An address is its octets in network order: four for IPv4, sixteen for
    IPv6. *)
Inductive IpAddr :=
  | V4 (octets : bytes)
  | V6 (octets : bytes).

#[global] Instance IpAddr_eq_dec : EqDecision IpAddr.
Proof. solve_decision. Defined.

Definition ip_wf (ip : IpAddr) : Prop :=
  match ip with
  | V4 o => length o = 4%nat ∧ is_bytes o
  | V6 o => length o = 16%nat ∧ is_bytes o
  end.

(** [SocketAddrV6] also carries the flow label and the scope of the address. *)
Inductive SocketAddr :=
  | SockV4 (octets : bytes) (port : Z)
  | SockV6 (octets : bytes) (port flowinfo scope_id : Z).

Definition sock_ip (a : SocketAddr) : IpAddr :=
  match a with SockV4 o _ => V4 o | SockV6 o _ _ _ => V6 o end.
Definition sock_port (a : SocketAddr) : Z :=
  match a with SockV4 _ p => p | SockV6 _ p _ _ => p end.

(** [SocketAddr::new]. *)
Definition SocketAddr_new (ip : IpAddr) (port : Z) : SocketAddr :=
  match ip with V4 o => SockV4 o port | V6 o => SockV6 o port 0 0 end.

Definition sock_wf (a : SocketAddr) : Prop :=
  ip_wf (sock_ip a) ∧ is_u16 (sock_port a) ∧
  match a with SockV4 _ _ => True | SockV6 _ _ f sc => is_u32 f ∧ is_u32 sc end.

#[global] Instance SocketAddr_eq_dec : EqDecision SocketAddr.
Proof. solve_decision. Defined.

(** ** Display *)

Definition show_ipv4 (o : bytes) : str := str_join (lit ".") (dec <$> o).

(** The eight 16-bit segments of an IPv6 address. *)
Fixpoint segments (o : bytes) : list Z :=
  match o with
  | hi :: lo :: o' => (hi * 256 + lo) :: segments o'
  | _ => []
  end.

(** The first longest run of zero segments: its start and length. [cur] is
    the run that ends just before position [i]. *)
Fixpoint longest_zeros (i : Z) (cur best : Z * Z) (segs : list Z) : Z * Z :=
  match segs with
  | [] => best
  | s :: segs' =>
      if s =? 0 then
        let cur := if cur.2 =? 0 then (i, 1) else (cur.1, cur.2 + 1) in
        let best := if cur.2 >? best.2 then cur else best in
        longest_zeros (i + 1) cur best segs'
      else longest_zeros (i + 1) (0, 0) best segs'
  end.

Definition show_segments (segs : list Z) : str := str_join (lit ":") (hex <$> segs).

Definition show_ipv6 (o : bytes) : str :=
  let segs := segments o in
  if bool_decide (take 6 segs = [0; 0; 0; 0; 0; 0xffff]) then
    lit "::ffff:" ++ show_ipv4 (drop 12 o)
  else
    let '(start, n) := longest_zeros 0 (0, 0) (0, 0) segs in
    if n >? 1 then
      show_segments (take (Z.to_nat start) segs) ++ lit "::" ++
      show_segments (drop (Z.to_nat (start + n)) segs)
    else show_segments segs.

Definition show_ip (ip : IpAddr) : str :=
  match ip with V4 o => show_ipv4 o | V6 o => show_ipv6 o end.

Definition show_sock (a : SocketAddr) : str :=
  match a with
  | SockV4 o p => show_ipv4 o ++ lit ":" ++ dec p
  | SockV6 o p _ scope =>
      if scope =? 0 then lit "[" ++ show_ipv6 o ++ lit "]:" ++ dec p
      else lit "[" ++ show_ipv6 o ++ lit "%" ++ dec scope ++ lit "]:" ++ dec p
  end.

(** ** FromStr *)

(** [char::to_digit]. *)
Definition to_digit (radix : Z) (c : char) : option Z :=
  let d := if is_ascii_digit c then c - 48
           else if (97 <=? c) && (c <=? 122) then c - 87
           else if (65 <=? c) && (c <=? 90) then c - 55 else radix in
  if d <? radix then Some d else None.

Fixpoint read_digits (radix : Z) (s : str) : list Z * str :=
  match s with
  | [] => ([], [])
  | c :: s' =>
      match to_digit radix c with
      | Some d => let '(ds, r) := read_digits radix s' in (d :: ds, r)
      | None => ([], s)
      end
  end.

Definition digits_value (radix : Z) (ds : list Z) : Z :=
  foldl (λ acc d, acc * radix + d) 0 ds.

(** [Parser::read_number] with an optional digit limit, for a target type with
    maximum [tmax]. *)
Definition read_number (radix : Z) (max_digits : option Z) (tmax : Z) (allow_zero_prefix : bool) (s : str)
  : option (Z * str) :=
  let '(ds, r) := read_digits radix s in
  if (len ds =? 0) || match max_digits with Some m => len ds >? m | None => false end then None
  else if negb allow_zero_prefix && bool_decide (head ds = Some 0) && (len ds >? 1) then None
  else let v := digits_value radix ds in
       if v >? tmax then None else Some (v, r).

Definition read_given_char (c : char) (s : str) : option str :=
  match s with c' :: s' => if c' =? c then Some s' else None | [] => None end.

(** [Parser::read_separator]: no separator before the first piece. *)
Definition read_separator {A} (sep : char) (i : nat) (f : str → option (A * str)) (s : str)
  : option (A * str) :=
  match i with O => f s | S _ => read_given_char sep s ≫= f end.

Fixpoint read_octets (n i : nat) (s : str) : option (bytes * str) :=
  match n with
  | O => Some ([], s)
  | S n' =>
      '(d, s) ← read_separator 46 i (read_number 10 (Some 3) 255 false) s;
      '(ds, s) ← read_octets n' (S i) s;
      Some (d :: ds, s)
  end.
Definition read_ipv4_addr (s : str) : option (bytes * str) := read_octets 4 0 s.

(** [read_groups]: up to [limit] 16-bit groups from position [i], and whether
    they ended in an embedded IPv4 address. *)
Fixpoint read_groups (fuel i limit : nat) (s : str) : list Z * bool * str :=
  match fuel with
  | O => ([], false, s)
  | S f =>
      match (if (S i <? limit)%nat then read_separator 58 i read_ipv4_addr s else None) with
      | Some (o, s') => (segments o, true, s')
      | None =>
          match read_separator 58 i (read_number 16 (Some 4) u16_max true) s with
          | Some (g, s') =>
              let '(gs, v4, r) := read_groups f (S i) limit s' in (g :: gs, v4, r)
          | None => ([], false, s)
          end
      end
  end.

Fixpoint segment_octets (segs : list Z) : bytes :=
  match segs with
  | [] => []
  | s :: segs' => s / 256 :: s mod 256 :: segment_octets segs'
  end.

Definition read_ipv6_addr (s : str) : option (bytes * str) :=
  let '(hd, hd4, s) := read_groups 8 0 8 s in
  if (length hd =? 8)%nat then Some (segment_octets hd, s)
  else if hd4 then None
  else
    s ← read_given_char 58 s;
    s ← read_given_char 58 s;
    let limit := (8 - (length hd + 1))%nat in
    let '(tl, _, s) := read_groups limit 0 limit s in
    Some (segment_octets (hd ++ replicate (8 - length hd - length tl) 0 ++ tl), s).

(** [str::parse::<IpAddr>]: the whole input must be consumed. *)
Definition parse_ip (s : str) : option IpAddr :=
  match read_ipv4_addr s with
  | Some (o, r) => match r with [] => Some (V4 o) | _ => None end
  | None =>
      '(o, r) ← read_ipv6_addr s;
      match r with [] => Some (V6 o) | _ => None end
  end.

(** [Parser::read_port] and [Parser::read_scope_id]. *)
Definition read_port (s : str) : option (Z * str) :=
  s ← read_given_char 58 s; read_number 10 None u16_max true s.
Definition read_scope_id (s : str) : option (Z * str) :=
  s ← read_given_char 37 s; read_number 10 None u32_max true s.

Definition read_socket_addr_v4 (s : str) : option (SocketAddr * str) :=
  '(o, s) ← read_ipv4_addr s; '(p, s) ← read_port s; Some (SockV4 o p, s).

Definition read_socket_addr_v6 (s : str) : option (SocketAddr * str) :=
  s ← read_given_char 91 s;
  '(o, s) ← read_ipv6_addr s;
  let '(scope_id, s) := default (0, s) (read_scope_id s) in
  s ← read_given_char 93 s;
  '(p, s) ← read_port s;
  Some (SockV6 o p 0 scope_id, s).

(** [str::parse::<SocketAddr>]. *)
Definition parse_sock (s : str) : option SocketAddr :=
  match (match read_socket_addr_v4 s with Some x => Some x | None => read_socket_addr_v6 s end) with
  | Some (a, []) => Some a
  | _ => None
  end.

(** [Display] of [AddrParseError] for an [IpAddr]. *)
Definition show_AddrParseError : str := lit "invalid IP address syntax".

(** ** Lemmas *)

Lemma show_ipv4_chars o : is_bytes o → Forall (λ c, is_ascii_digit c || (c =? 46) = true) (show_ipv4 o).
Proof.
  unfold show_ipv4. intros Ho.
  induction Ho as [|b o Hb Ho IH]; cbn [fmap list_fmap str_join]; [constructor|].
  assert (Forall (λ c, is_ascii_digit c || (c =? 46) = true) (dec b)) as Hd.
  { eapply Forall_impl; [apply dec_digits; unfold is_u8 in Hb; lia|].
    intros c ->. done. }
  destruct o as [|b' o]; [exact Hd|].
  apply Forall_app; split; [exact Hd|]. constructor; [done|exact IH].
Qed.

Lemma read_digits_app radix s r ds :
  Forall2 (λ c d, to_digit radix c = Some d) s ds →
  match r with [] => True | c :: _ => to_digit radix c = None end →
  read_digits radix (s ++ r) = (ds, r).
Proof.
  intros H Hr. induction H as [|c d s ds Hc _ IH]; simpl.
  - destruct r as [|c r]; [done|]. simpl. by rewrite Hr.
  - by rewrite Hc, IH.
Qed.

(** The digits of an octet, as the address parser sees them. *)
Definition octet_reads (b : Z) : bool :=
  let s := dec b in
  let ds := (λ c, c - 48) <$> s in
  forallb (λ c, bool_decide (to_digit 10 c = Some (c - 48))) s &&
  negb ((len ds =? 0) || (len ds >? 3)) &&
  negb (bool_decide (head ds = Some 0) && (len ds >? 1)) && (digits_value 10 ds =? b).

Lemma octet_reads_all b : is_u8 b → octet_reads b = true.
Proof.
  intros Hb.
  assert (forallb octet_reads (seqZ 0 256) = true) as Hall by (vm_compute; reflexivity).
  rewrite forallb_Forall, Forall_forall in Hall. apply Hall. apply elem_of_seqZ.
  unfold is_u8, u8_max in Hb. lia.
Qed.

Lemma read_number_octet b r :
  is_u8 b → match r with [] => True | c :: _ => to_digit 10 c = None end →
  read_number 10 (Some 3) 255 false (dec b ++ r) = Some (b, r).
Proof.
  intros Hb Hr. pose proof (octet_reads_all b Hb) as Ho. unfold octet_reads in Ho. cbv zeta in Ho.
  apply andb_true_iff in Ho as [Ho Hv]. apply andb_true_iff in Ho as [Ho Hz].
  apply andb_true_iff in Ho as [Hd Hl]. apply negb_true_iff in Hl, Hz. apply Z.eqb_eq in Hv.
  unfold read_number. rewrite (read_digits_app 10 (dec b) r ((λ c, c - 48) <$> dec b)); [|clear -Hd|done].
  - rewrite Hl. cbn [negb andb]. rewrite Hz, Hv. unfold is_u8, u8_max in Hb.
    destruct (Z.gtb_spec b 255); [lia|done].
  - rewrite forallb_Forall in Hd. induction Hd as [|c s Hc _ IH]; [constructor|].
    constructor; [by apply bool_decide_eq_true_1 in Hc|done].
Qed.

(** An IPv4 address reads back from its text, whatever non-digit follows. *)
Lemma parse_show_ipv4 o : ip_wf (V4 o) → parse_ip (show_ip (V4 o)) = Some (V4 o).
Proof.
  intros [Hl Ho]. destruct o as [|a [|b [|c [|d [|]]]]]; try done.
  inversion Ho as [|? ? Ha Ho1]; subst. inversion Ho1 as [|? ? Hb Ho2]; subst.
  inversion Ho2 as [|? ? Hc Ho3]; subst. inversion Ho3 as [|? ? Hd _]; subst.
  unfold parse_ip, read_ipv4_addr, show_ip, show_ipv4.
  cbn [fmap list_fmap str_join read_octets read_separator].
  change (lit ".") with [46]. rewrite read_number_octet by done. cbn [mbind option_bind].
  cbn [read_given_char app]. rewrite Z.eqb_refl. cbn [mbind option_bind].
  rewrite read_number_octet by done. cbn [mbind option_bind read_given_char app].
  rewrite Z.eqb_refl. cbn [mbind option_bind].
  rewrite read_number_octet by done. cbn [mbind option_bind read_given_char app].
  rewrite Z.eqb_refl. cbn [mbind option_bind].
  rewrite <- (app_nil_r (dec d)), read_number_octet by done. done.
Qed.

Example show_v6_compressed :
  show_ip (V6 [32; 1; 13; 184; 0; 0; 0; 0; 0; 0; 0; 0; 0; 0; 0; 1]) = lit "2001:db8::1".
Proof. vm_compute. reflexivity. Qed.

Example parse_v6_compressed :
  parse_ip (lit "2001:db8::1") = Some (V6 [32; 1; 13; 184; 0; 0; 0; 0; 0; 0; 0; 0; 0; 0; 0; 1]).
Proof. vm_compute. reflexivity. Qed.

Example parse_v4_leading_zero : parse_ip (lit "10.0.0.01") = None.
Proof. vm_compute. reflexivity. Qed.
