(* ===== verification/NetText.v ===== *)
(** * Addresses as text: printing and parsing are inverse

    The wire format, the configuration file and the command line all carry
    addresses as text.  This file proves that the [FromStr] of the standard
    library's addresses (Net.v) inverts their [Display]: every IPv4 and IPv6
    address reads back from its text, compressed and mapped forms included,
    and a socket address reads back up to its flow label, which the text form
    does not carry.  It also shows that parsing yields well-formed addresses
    only. *)

From S2P Require Import Prelude RustStd Net.

(** ** Numbers *)

(** The text [s] is the digits of [n] in the given radix. *)
Definition spells (radix : Z) (s : str) (n : Z) : Prop :=
  ∃ ds, Forall2 (λ c d, to_digit radix c = Some d) s ds ∧ digits_value radix ds = n ∧ s ≠ [].

Lemma spells_snoc radix s n c d :
  spells radix s n → to_digit radix c = Some d → spells radix (s ++ [c]) (n * radix + d).
Proof.
  intros (ds&Hds&<-&Hne) Hc. exists (ds ++ [d]). split_and!.
  - apply Forall2_app; [done|by constructor].
  - unfold digits_value. by rewrite foldl_app.
  - by destruct s.
Qed.

Lemma spells_one radix c d : to_digit radix c = Some d → spells radix [c] d.
Proof. intros Hc. exists [d]. split_and!; [by constructor|cbn; lia|done]. Qed.

Lemma dec_digit_reads d : 0 ≤ d < 10 → to_digit 10 (48 + d) = Some d.
Proof.
  intros. unfold to_digit, is_ascii_digit. rewrite (proj2 (andb_true_iff _ _)) by lia.
  replace (48 + d - 48) with d by lia. by rewrite (proj2 (Z.ltb_lt d 10)) by lia.
Qed.

Lemma hex_digit_reads d : 0 ≤ d < 16 → to_digit 16 (hex_digit d) = Some d.
Proof.
  intros Hd.
  assert (forallb (λ d, bool_decide (to_digit 16 (hex_digit d) = Some d)) (seqZ 0 16) = true) as Hall
    by (vm_compute; reflexivity).
  rewrite forallb_Forall, Forall_forall in Hall.
  specialize (Hall d ltac:(apply elem_of_seqZ; lia)). by apply bool_decide_eq_true_1 in Hall.
Qed.

Lemma dec_fuel_spells f n : 0 ≤ n < 2 ^ Z.of_nat (S f) → spells 10 (dec_fuel (S f) n) n.
Proof.
  revert n. induction f as [|f IH]; intros n Hn.
  - change (2 ^ Z.of_nat 1) with 2 in Hn. cbn [dec_fuel]. rewrite (proj2 (Z.ltb_lt n 10)) by lia.
    apply spells_one, dec_digit_reads. lia.
  - assert (dec_fuel (S (S f)) n =
      if n <? 10 then [48 + n] else dec_fuel (S f) (n / 10) ++ [48 + n mod 10]) as -> by done.
    destruct (Z.ltb_spec n 10); [apply spells_one, dec_digit_reads; lia|].
    rewrite Nat2Z.inj_succ, Z.pow_succ_r in Hn by lia.
    pose proof (spells_snoc 10 (dec_fuel (S f) (n / 10)) (n / 10) (48 + n mod 10) (n mod 10)) as Hs.
    rewrite (Z.mul_comm (n / 10)), <- Z.div_mod in Hs by lia. apply Hs.
    + apply IH; split; [apply Z.div_pos; lia|apply Z.div_lt_upper_bound; lia].
    + apply dec_digit_reads, Z.mod_pos_bound. lia.
Qed.

Lemma hex_fuel_spells f n : 0 ≤ n < 2 ^ Z.of_nat (S f) → spells 16 (hex_fuel (S f) n) n.
Proof.
  revert n. induction f as [|f IH]; intros n Hn.
  - change (2 ^ Z.of_nat 1) with 2 in Hn. cbn [hex_fuel]. rewrite (proj2 (Z.ltb_lt n 16)) by lia.
    apply spells_one, hex_digit_reads. lia.
  - assert (hex_fuel (S (S f)) n =
      if n <? 16 then [hex_digit n] else hex_fuel (S f) (n / 16) ++ [hex_digit (n mod 16)]) as -> by done.
    destruct (Z.ltb_spec n 16); [apply spells_one, hex_digit_reads; lia|].
    rewrite Nat2Z.inj_succ, Z.pow_succ_r in Hn by lia.
    pose proof (spells_snoc 16 (hex_fuel (S f) (n / 16)) (n / 16) (hex_digit (n mod 16)) (n mod 16)) as Hs.
    rewrite (Z.mul_comm (n / 16)), <- Z.div_mod in Hs by lia. apply Hs.
    + apply IH; split; [apply Z.div_pos; lia|apply Z.div_lt_upper_bound; lia].
    + apply hex_digit_reads, Z.mod_pos_bound. lia.
Qed.

Lemma log2_fuel n : 0 ≤ n → n < 2 ^ Z.of_nat (S (Z.to_nat (Z.log2 n))).
Proof.
  intros Hn. rewrite Nat2Z.inj_succ, Z2Nat.id by apply Z.log2_nonneg.
  destruct (decide (n = 0)) as [->|]; [done|]. apply Z.log2_spec. lia.
Qed.

Lemma dec_spells n : 0 ≤ n → spells 10 (dec n) n.
Proof. intros Hn. rewrite dec_nonneg by done. apply dec_fuel_spells. split; [done|by apply log2_fuel]. Qed.

Lemma hex_spells n : 0 ≤ n → spells 16 (hex n) n.
Proof. intros Hn. apply hex_fuel_spells. split; [done|by apply log2_fuel]. Qed.

Lemma hex_fuel_length f n k : 0 ≤ n < 16 ^ Z.of_nat (S k) → (length (hex_fuel f n) ≤ S k)%nat.
Proof.
  revert n k. induction f as [|f IH]; intros n k Hn; cbn [hex_fuel]; [cbn; lia|].
  destruct (Z.ltb_spec n 16); [cbn; lia|]. rewrite length_app. cbn [length].
  destruct k as [|k]; [change (16 ^ Z.of_nat 1) with 16 in Hn; lia|].
  rewrite Nat2Z.inj_succ, Z.pow_succ_r in Hn by lia.
  specialize (IH (n / 16) k ltac:(split; [apply Z.div_pos; lia|apply Z.div_lt_upper_bound; lia])). lia.
Qed.

(** What stops a number: the end of the text or a character that is no digit. *)
Definition stops (radix : Z) (r : str) : Prop :=
  match r with [] => True | c :: _ => to_digit radix c = None end.

Lemma read_number_spells radix m tmax s n r :
  spells radix s n → stops radix r → n ≤ tmax →
  match m with Some m => len s ≤ m | None => True end →
  read_number radix m tmax true (s ++ r) = Some (n, r).
Proof.
  intros (ds&Hds&Hv&Hne) Hr Hn Hm. unfold read_number.
  rewrite (read_digits_app radix s r ds Hds Hr). pose proof (Forall2_length _ _ _ Hds) as Hl.
  assert (len ds ≠ 0) as Hnz by (destruct s; [done|]; unfold len; cbn in Hl; lia).
  rewrite (proj2 (Z.eqb_neq _ _) Hnz). cbn [negb orb andb].
  assert (match m with Some m => len ds >? m | None => false end = false) as ->.
  { destruct m; [|done]. unfold len in *. lia. }
  rewrite Hv. destruct (Z.gtb_spec n tmax); [lia|done].
Qed.

(** The 16-bit groups of an IPv6 address. *)
Lemma read_group g r : is_u16 g → stops 16 r → read_number 16 (Some 4) u16_max true (hex g ++ r) = Some (g, r).
Proof.
  unfold is_u16, u16_max. intros Hg Hr. apply read_number_spells; [apply hex_spells; lia|done|lia|].
  unfold len, hex. pose proof (hex_fuel_length (S (Z.to_nat (Z.log2 g))) g 3). cbn in *. lia.
Qed.

Lemma read_dec n tmax r : 0 ≤ n ≤ tmax → stops 10 r → read_number 10 None tmax true (dec n ++ r) = Some (n, r).
Proof. intros Hn Hr. apply read_number_spells; [apply dec_spells; lia|done|lia|done]. Qed.

(** ** Segments *)

Lemma segments_octets n o :
  length o = (2 * n)%nat → is_bytes o →
  segment_octets (segments o) = o ∧ Forall is_u16 (segments o) ∧ length (segments o) = n.
Proof.
  revert o. induction n as [|n IH]; intros o Hl Ho; [by destruct o|].
  destruct o as [|hi [|lo o]]; [done|cbn in Hl; lia|].
  apply Forall_cons in Ho as [Hhi Ho]. apply Forall_cons in Ho as [Hlo Ho].
  unfold is_u8, u8_max in Hhi, Hlo. destruct (IH o) as (E&Hu&Hn); [cbn in Hl; lia|done|].
  cbn [segments segment_octets]. rewrite E.
  rewrite Z.div_add_l, (Z.div_small lo 256), Z.add_0_r by lia.
  rewrite Z.add_comm, Z.mod_add, Z.mod_small by lia. split_and!; [done| |cbn; lia].
  constructor; [unfold is_u16, u16_max; lia|done].
Qed.

Lemma segment_octets_wf segs :
  Forall is_u16 segs → is_bytes (segment_octets segs) ∧ length (segment_octets segs) = (2 * length segs)%nat.
Proof.
  induction 1 as [|s segs Hs _ [IH1 IH2]]; [by split; [constructor|]|]. cbn [segment_octets]. split.
  - unfold is_u16, u16_max, is_bytes, is_u8, u8_max in *. constructor; [|constructor; [|done]].
    + split; [apply Z.div_pos; lia|]. assert (s / 256 < 256); [|lia]. apply Z.div_lt_upper_bound; lia.
    + pose proof (Z.mod_pos_bound s 256). lia.
  - cbn [length]. rewrite IH2. lia.
Qed.

(** The run that is compressed is a run of zeros. *)
Definition zero_run (segs : list Z) (run : Z * Z) : Prop :=
  0 ≤ run.1 ∧ 0 ≤ run.2 ∧ run.1 + run.2 ≤ len segs ∧
  ∀ j, run.1 ≤ j < run.1 + run.2 → segs !! Z.to_nat j = Some 0.

Lemma zero_run_empty segs : zero_run segs (0, 0).
Proof.
  pose proof (len_nonneg segs). unfold zero_run. cbn [fst snd]. split_and!; [lia..|]. intros; lia.
Qed.

Lemma longest_zeros_run segs pre cur best :
  zero_run (pre ++ segs) best → zero_run (pre ++ segs) cur →
  (0 < cur.2 → cur.1 + cur.2 = len pre) →
  zero_run (pre ++ segs) (longest_zeros (len pre) cur best segs).
Proof.
  revert pre cur best. induction segs as [|s segs IH]; intros pre cur best Hb Hc Hend; cbn [longest_zeros]; [done|].
  assert (∀ x, zero_run (pre ++ s :: segs) x ↔ zero_run ((pre ++ [s]) ++ segs) x) as Happ
    by (intros; by rewrite <- app_assoc).
  assert (len (pre ++ [s]) = len pre + 1) as Hlen by (rewrite len_app; done).
  pose proof (len_nonneg pre). rewrite Happ. rewrite <- Hlen.
  destruct (Z.eqb_spec s 0) as [->|Hne]; cbv zeta.
  - set (cur' := if cur.2 =? 0 then (len pre, 1) else (cur.1, cur.2 + 1)).
    assert (cur'.1 + cur'.2 = len pre + 1 ∧ zero_run (pre ++ 0 :: segs) cur') as [Hend' Hc'].
    { assert (∀ j, j = len pre → (pre ++ 0 :: segs) !! Z.to_nat j = Some 0) as Hz.
      { intros j ->. unfold len. rewrite Nat2Z.id. apply list_lookup_middle. done. }
      assert (len pre + 1 ≤ len (pre ++ 0 :: segs)).
      { rewrite len_app. unfold len. cbn [length]. lia. }
      destruct Hc as (H1&H2&H3&H4). unfold cur'. destruct (Z.eqb_spec cur.2 0); unfold zero_run; cbn [fst snd].
      - split; [lia|]. split_and!; [lia..|]. intros j Hj. apply Hz. lia.
      - specialize (Hend ltac:(lia)). split; [lia|]. split_and!; [lia..|]. intros j Hj.
        destruct (decide (j = len pre)); [by apply Hz|]. apply H4. lia. }
    apply IH; [apply Happ; by destruct (_ >? _)|by apply Happ|lia].
  - apply IH; [by apply Happ|apply zero_run_empty|cbn; lia].
Qed.

Lemma compressed_split segs start n :
  longest_zeros 0 (0, 0) (0, 0) segs = (start, n) →
  0 ≤ start ∧ 0 ≤ n ∧ start + n ≤ len segs ∧
  segs = take (Z.to_nat start) segs ++ replicate (Z.to_nat n) 0 ++ drop (Z.to_nat (start + n)) segs.
Proof.
  intros E. pose proof (longest_zeros_run segs [] (0, 0) (0, 0)) as H. cbn [app] in H.
  change (len []) with 0 in H. rewrite E in H.
  destruct H as (H1&H2&H3&H4).
  - apply zero_run_empty.
  - apply zero_run_empty.
  - cbn. lia.
  - cbn [fst snd] in *. split_and!; [done..|].
    rewrite <- (take_drop (Z.to_nat start) segs) at 1. f_equal.
    rewrite Z2Nat.inj_add by done. rewrite <- drop_drop.
    rewrite <- (take_drop (Z.to_nat n) (drop (Z.to_nat start) segs)) at 1. f_equal.
    unfold len in H3. apply (list_eq_same_length _ _ (Z.to_nat n)).
    + by rewrite length_replicate.
    + rewrite length_take, length_drop. lia.
    + intros i x y Hi Hx Hy. rewrite lookup_take_lt, lookup_drop in Hx by done.
      apply lookup_replicate in Hy as [-> _].
      specialize (H4 (start + Z.of_nat i) ltac:(lia)).
      rewrite Z2Nat.inj_add, Nat2Z.id in H4 by lia. congruence.
Qed.

(** ** Reading addresses *)

Lemma read_digits_suffix radix s : ∃ p, s = p ++ (read_digits radix s).2.
Proof.
  induction s as [|c s [p IH]]; [by exists []|]. cbn [read_digits].
  destruct (to_digit radix c); [|by exists []].
  destruct (read_digits radix s) as [ds r]. cbn [snd] in *. exists (c :: p). by rewrite IH at 1.
Qed.

Lemma read_number_suffix radix m tmax z s v r :
  read_number radix m tmax z s = Some (v, r) → ∃ p, s = p ++ r.
Proof.
  unfold read_number. pose proof (read_digits_suffix radix s) as [p Hp].
  destruct (read_digits radix s) as [ds r']. cbv zeta. repeat case_match; try done.
  all: intros E; injection E as _ <-; by exists p.
Qed.

(** An IPv4 address contains a dot. *)
Lemma read_ipv4_dot s x : read_ipv4_addr s = Some x → 46 ∈ s.
Proof.
  unfold read_ipv4_addr. cbn [read_octets read_separator].
  destruct (read_number 10 (Some 3) 255 false s) as [[d r]|] eqn:E; [|done]. cbn [mbind option_bind].
  apply read_number_suffix in E as [p ->]. destruct r as [|c r]; [done|]. cbn [read_given_char].
  destruct (Z.eqb_spec c 46) as [->|]; [|done]. intros _. set_solver.
Qed.

Lemma read_ipv4_no_dot s : 46 ∉ s → read_ipv4_addr s = None.
Proof. intros Hs. destruct (read_ipv4_addr s) eqn:E; [|done]. by apply read_ipv4_dot in E. Qed.

Lemma read_ipv4_stops s : stops 10 s → read_ipv4_addr s = None.
Proof.
  intros Hs. unfold read_ipv4_addr. cbn [read_octets read_separator]. unfold read_number.
  destruct s as [|c s]; [done|]. cbn [read_digits stops] in *. by rewrite Hs.
Qed.

Lemma read_number_stops radix m tmax z s : stops radix s → read_number radix m tmax z s = None.
Proof. intros Hs. unfold read_number. destruct s as [|c s]; [done|]. cbn in *. by rewrite Hs. Qed.

Lemma read_show_ipv4 o r : ip_wf (V4 o) → stops 10 r → read_ipv4_addr (show_ipv4 o ++ r) = Some (o, r).
Proof.
  intros [Hl Ho] Hr. destruct o as [|a [|b [|c [|d [|]]]]]; try done.
  repeat (apply Forall_cons in Ho as [? Ho]).
  unfold read_ipv4_addr, show_ipv4. cbn [fmap list_fmap str_join read_octets read_separator].
  change (lit ".") with [46]. rewrite <- !app_assoc.
  rewrite read_number_octet by done. cbn [mbind option_bind app read_given_char]. rewrite Z.eqb_refl. cbn [mbind option_bind].
  rewrite <- ?app_assoc, read_number_octet by done. cbn [mbind option_bind app read_given_char]. rewrite Z.eqb_refl. cbn [mbind option_bind].
  rewrite <- ?app_assoc, read_number_octet by done. cbn [mbind option_bind app read_given_char]. rewrite Z.eqb_refl. cbn [mbind option_bind].
  by rewrite read_number_octet by done.
Qed.

(** The groups as the parser reads them, each but the first after a colon. *)
Fixpoint group_text (i : nat) (gs : list Z) : str :=
  match gs with
  | [] => []
  | g :: gs => (match i with O => [] | S _ => [58] end) ++ hex g ++ group_text (S i) gs
  end.

Lemma group_text_S i j gs : group_text (S i) gs = group_text (S j) gs.
Proof. revert i j. induction gs as [|g gs IH]; intros i j; [done|]. cbn [group_text]. do 2 f_equal. apply IH. Qed.

Lemma show_segments_text gs : show_segments gs = group_text 0 gs.
Proof.
  unfold show_segments. induction gs as [|g gs IH]; [done|]. cbn [fmap list_fmap str_join group_text app].
  destruct gs as [|g' gs]; [cbn; by rewrite app_nil_r|]. rewrite IH.
  change (hex <$> g' :: gs) with (hex g' :: (hex <$> gs)). cbv iota. cbn [group_text app].
  by rewrite (group_text_S 1 0).
Qed.

(** What may follow the groups: nothing the group reader could go on with. *)
Definition ends_groups (i : nat) (r : str) : Prop :=
  (46 ∉ r) ∧ stops 16 r ∧ ((0 < i)%nat → ∀ r', r = 58 :: r' → stops 16 r').

Lemma read_groups_end fuel i limit r : ends_groups i r → read_groups fuel i limit r = ([], false, r).
Proof.
  intros (Hdot&Hst&Hr). destruct fuel as [|fuel]; [done|]. cbn [read_groups].
  assert (read_separator 58 i read_ipv4_addr r = None) as ->.
  { destruct i; cbn [read_separator]; [by apply read_ipv4_no_dot|].
    destruct r as [|c r]; [done|]. cbn [read_given_char]. destruct (c =? 58); [|done]. cbn.
    apply read_ipv4_no_dot. set_solver. }
  assert (read_separator 58 i (read_number 16 (Some 4) u16_max true) r = None) as ->.
  { destruct i; cbn [read_separator]; [by apply read_number_stops|].
    destruct r as [|c r]; [done|]. cbn [read_given_char]. destruct (Z.eqb_spec c 58) as [->|]; [|done].
    cbn [mbind option_bind]. apply read_number_stops. apply Hr; [lia|done]. }
  by destruct (S i <? limit)%nat.
Qed.

Lemma hex_no_dot g : 0 ≤ g → 46 ∉ hex g.
Proof.
  intros Hg Hin. destruct (hex_spells g Hg) as (ds&Hds&_&_).
  apply list_elem_of_lookup in Hin as [k Hk]. eapply Forall2_lookup_l in Hds as (d&_&Hd); [|exact Hk]. done.
Qed.

Lemma group_text_no_dot i gs : Forall is_u16 gs → 46 ∉ group_text i gs.
Proof.
  intros Hgs. revert i. induction Hgs as [|g gs Hg _ IH]; intros i; cbn [group_text]; [set_solver|].
  pose proof (hex_no_dot g (proj1 Hg)). specialize (IH (S i)). destruct i; set_solver.
Qed.

Lemma read_groups_text fuel i limit gs r :
  Forall is_u16 gs → ends_groups (i + length gs) r → (length gs ≤ fuel)%nat →
  read_groups fuel i limit (group_text i gs ++ r) = (gs, false, r).
Proof.
  intros Hgs. revert fuel i. induction Hgs as [|g gs Hg Hgs IH]; intros fuel i Hr Hf.
  - rewrite Nat.add_0_r in Hr. cbn [group_text app]. by apply read_groups_end.
  - destruct fuel as [|fuel]; [cbn in Hf; lia|]. cbn [group_text]. rewrite <- !app_assoc.
    assert (stops 16 (group_text (S i) gs ++ r)) as Hst by (destruct gs; [by destruct Hr as (_&?&_)|reflexivity]).
    assert (46 ∉ hex g ++ group_text (S i) gs ++ r) as Hdot.
    { pose proof (hex_no_dot g (proj1 Hg)). pose proof (group_text_no_dot (S i) gs Hgs).
      destruct Hr as [Hr _]. set_solver. }
    cbn [read_groups].
    assert (read_separator 58 i read_ipv4_addr
      ((match i with O => [] | S _ => [58] end) ++ hex g ++ group_text (S i) gs ++ r) = None) as ->.
    { destruct i; cbn; by apply read_ipv4_no_dot. }
    assert (read_separator 58 i (read_number 16 (Some 4) u16_max true)
      ((match i with O => [] | S _ => [58] end) ++ hex g ++ group_text (S i) gs ++ r) =
      Some (g, group_text (S i) gs ++ r)) as ->.
    { destruct i; cbn -[read_number]; by apply read_group. }
    rewrite IH; [by destruct (S i <? limit)%nat|by replace (S i + length gs)%nat with (i + length (g :: gs))%nat by (cbn; lia)|cbn in Hf; lia].
Qed.

(** What may follow an IPv6 address in a text. *)
Definition follows_ipv6 (r : str) : Prop :=
  (46 ∉ r) ∧ stops 16 r ∧ match r with c :: _ => c ≠ 58 | [] => True end.

Lemma follows_ends i r : follows_ipv6 r → ends_groups i r.
Proof. intros (?&?&Hc). split_and!; [done..|]. intros _ r' ->. done. Qed.

Lemma stops_16_10 r : stops 16 r → stops 10 r.
Proof.
  destruct r as [|c r]; [done|]. unfold stops, to_digit. cbv zeta.
  destruct (is_ascii_digit c) eqn:E; [|destruct (_ && _); [|destruct (_ && _)]];
    repeat case_match; try done; lia.
Qed.

(** An IPv4-mapped address, whose last four octets print in dotted form. *)
Lemma read_show_mapped o r :
  ip_wf (V6 o) → follows_ipv6 r → take 6 (segments o) = [0; 0; 0; 0; 0; 0xffff] →
  read_ipv6_addr (lit "::ffff:" ++ show_ipv4 (drop 12 o) ++ r) = Some (o, r).
Proof.
  intros [Hl Ho] Hr Hmap. destruct (segments_octets 8 o Hl Ho) as (Hso&Hu&Hn).
  assert (ip_wf (V4 (drop 12 o))) as Hv4.
  { split; [by rewrite length_drop, Hl|by apply Forall_drop]. }
  assert (segment_octets ([0; 0; 0; 0; 0; 0xffff] ++ segments (drop 12 o)) = o) as Heq.
  { rewrite <- Hso at 2. f_equal. rewrite <- (take_drop 6 (segments o)), Hmap. f_equal.
    do 12 (destruct o as [|? o]; [done|]). done. }
  destruct Hr as (Hdot&Hst&Hne). unfold read_ipv6_addr.
  change (lit "::ffff:" ++ show_ipv4 (drop 12 o) ++ r)
    with (lit "::" ++ hex 0xffff ++ 58 :: show_ipv4 (drop 12 o) ++ r).
  cbn [read_groups]. change (1 <? 8)%nat with true. cbv iota.
  rewrite (read_ipv4_stops (lit "::" ++ _)) by done. cbn [read_separator].
  rewrite (read_number_stops 16 _ _ _ (lit "::" ++ _)) by done. cbv iota. cbn [length Nat.eqb].
  change (read_given_char 58 (lit "::" ++ ?x)) with (Some (58 :: x)). cbn [mbind option_bind read_given_char].
  rewrite Z.eqb_refl. cbn [mbind option_bind]. change (8 - (0 + 1))%nat with 7%nat.
  cbn [read_groups]. change (1 <? 7)%nat with true. change (2 <? 7)%nat with true. cbv iota.
  cbn [read_separator]. rewrite read_ipv4_stops by done. rewrite read_group by done. cbv iota.
  cbn [app read_given_char]. rewrite Z.eqb_refl. cbn [mbind option_bind].
  rewrite read_show_ipv4 by (done || by apply stops_16_10).
  cbv iota beta. destruct (segments_octets 2 (drop 12 o)) as (_&_&Hs2); [apply Hv4|apply Hv4|].
  cbn [length]. rewrite Hs2. do 2 f_equal. exact Heq.
Qed.

(** The groups before and after a run of zero groups. *)
Lemma read_show_compressed o r start n :
  ip_wf (V6 o) → follows_ipv6 r → longest_zeros 0 (0, 0) (0, 0) (segments o) = (start, n) → 1 < n →
  read_ipv6_addr (show_segments (take (Z.to_nat start) (segments o)) ++ lit "::" ++
                  show_segments (drop (Z.to_nat (start + n)) (segments o)) ++ r) = Some (o, r).
Proof.
  intros [Hl Ho] Hr Ez Hgt. destruct (segments_octets 8 o Hl Ho) as (Hso&Hu&Hn).
  apply compressed_split in Ez as (H1&H2&H3&Hsplit). unfold len in H3. rewrite Hn in H3. unfold read_ipv6_addr.
  set (hd := take (Z.to_nat start) (segments o)) in *.
  set (tl := drop (Z.to_nat (start + n)) (segments o)) in *.
  assert (Forall is_u16 hd ∧ Forall is_u16 tl) as [Hhd Htl] by (split; [by apply Forall_take|by apply Forall_drop]).
  assert (length hd = Z.to_nat start) as Lh by (unfold hd; rewrite length_take, Hn; lia).
  assert (length tl = (8 - Z.to_nat (start + n))%nat) as Lt by (unfold tl; rewrite length_drop, Hn; lia).
  rewrite !show_segments_text.
  assert (46 ∉ lit "::" ++ group_text 0 tl ++ r) as Hdot.
  { pose proof (group_text_no_dot 0 tl Htl). destruct Hr as [Hr _].
    change (lit "::") with [58; 58]. set_solver. }
  rewrite (read_groups_text 8 0 8 hd); [|done| |lia].
  2: { split_and!; [done|done|]. intros _ r' E. injection E as <-. done. }
  destruct (Nat.eqb_spec (length hd) 8) as [|_]; [lia|].
  change (read_given_char 58 (lit "::" ++ ?x)) with (Some (58 :: x)). cbn [mbind option_bind read_given_char].
  rewrite Z.eqb_refl. cbn [mbind option_bind].
  rewrite read_groups_text; [|done|by apply follows_ends|lia].
  do 2 f_equal. etransitivity; [|exact Hso]. f_equal. rewrite Hsplit. do 3 f_equal. lia.
Qed.

Lemma read_show_ipv6 o r :
  ip_wf (V6 o) → follows_ipv6 r → read_ipv6_addr (show_ipv6 o ++ r) = Some (o, r).
Proof.
  intros [Hl Ho] Hr. destruct (segments_octets 8 o Hl Ho) as (Hso&Hu&Hn).
  unfold show_ipv6. cbv zeta. case_bool_decide as Hmap.
  - rewrite <- app_assoc. by apply read_show_mapped.
  - destruct (longest_zeros 0 (0, 0) (0, 0) (segments o)) as [start n] eqn:Ez.
    destruct (Z.gtb_spec n 1) as [Hgt|Hle].
    + rewrite <- !app_assoc. by apply read_show_compressed.
    + unfold read_ipv6_addr.
      rewrite show_segments_text, (read_groups_text 8 0 8 (segments o)); [|done|by apply follows_ends|lia].
      rewrite Hn. cbn [Nat.eqb]. by rewrite Hso.
Qed.

(** The text of an IPv6 address is no IPv4 address. *)
Lemma show_ipv6_not_ipv4 o r : ip_wf (V6 o) → (46 ∉ r) → read_ipv4_addr (show_ipv6 o ++ r) = None.
Proof.
  intros [Hl Ho] Hr. destruct (segments_octets 8 o Hl Ho) as (_&Hu&_). unfold show_ipv6. cbv zeta.
  case_bool_decide; [by apply read_ipv4_stops|]. destruct (longest_zeros _ _ _ _) as [start n].
  apply read_ipv4_no_dot. rewrite !show_segments_text.
  pose proof (group_text_no_dot 0 _ Hu).
  pose proof (group_text_no_dot 0 _ (Forall_take _ (Z.to_nat start) _ Hu)).
  pose proof (group_text_no_dot 0 _ (Forall_drop _ (Z.to_nat (start + n)) _ Hu)).
  change (lit "::") with [58; 58]. destruct (n >? 1); set_solver.
Qed.

Lemma follows_nil : follows_ipv6 [].
Proof. split_and!; [set_solver|done|done]. Qed.

(** Every address reads back from its text. *)
Lemma parse_show_ip ip : ip_wf ip → parse_ip (show_ip ip) = Some ip.
Proof.
  intros Hwf. unfold parse_ip. destruct ip as [o|o]; cbn [show_ip]; rewrite <- (app_nil_r (show_ipv4 _)) || rewrite <- (app_nil_r (show_ipv6 _)).
  - by rewrite read_show_ipv4.
  - rewrite show_ipv6_not_ipv4 by (done || set_solver). by rewrite read_show_ipv6 by (done || apply follows_nil).
Qed.

(** ** Parsing yields well-formed addresses *)

Lemma to_digit_nonneg radix c d : to_digit radix c = Some d → 0 ≤ d < radix.
Proof.
  unfold to_digit, is_ascii_digit. cbv zeta. intros H. repeat case_match; try done; simplify_eq; lia.
Qed.

Lemma read_number_range radix m tmax z s v r :
  0 < radix → read_number radix m tmax z s = Some (v, r) → 0 ≤ v ≤ tmax.
Proof.
  intros Hrad. unfold read_number. destruct (read_digits radix s) as [ds r'] eqn:E.
  assert (Forall (λ d, 0 ≤ d) ds) as Hds.
  { revert ds r' E. clear r. induction s as [|c s IH]; intros ds r'; cbn [read_digits]; [by intros [= <- <-]|].
    destruct (to_digit radix c) as [d|] eqn:Ed; [|by intros [= <- <-]].
    destruct (read_digits radix s) as [ds' r'']. intros [= <- <-]. apply to_digit_nonneg in Ed.
    constructor; [lia|by eapply IH]. }
  assert (0 ≤ digits_value radix ds) as Hv.
  { unfold digits_value. assert (∀ a, 0 ≤ a → 0 ≤ foldl (λ acc d, acc * radix + d) a ds) as Ha; [|by apply Ha].
    clear E. induction Hds as [|d ds Hd _ IH]; intros a Ha; [done|]. cbn. apply IH. nia. }
  destruct (_ || _); [done|]. destruct (_ && _); [done|]. cbv zeta.
  destruct (Z.gtb_spec (digits_value radix ds) tmax); [done|]. intros [= <- <-]. lia.
Qed.

Lemma read_octets_wf n i s o r :
  read_octets n i s = Some (o, r) → is_bytes o ∧ length o = n.
Proof.
  revert i s o r. induction n as [|n IH]; intros i s o r; cbn [read_octets]; [by intros [= <- _]; split; [constructor|]|].
  destruct (read_separator 46 i _ s) as [[d s1]|] eqn:E; [|done]. cbn [mbind option_bind].
  destruct (read_octets n (S i) s1) as [[ds s2]|] eqn:E2; [|done]. intros [= <- _].
  apply IH in E2 as [Hb Hl]. split; [|cbn; lia]. constructor; [|done].
  assert (∃ s0, read_number 10 (Some 3) 255 false s0 = Some (d, s1)) as [s0 E0].
  { destruct i; cbn in E; [by eexists|]. destruct (read_given_char 46 s); [by eexists|done]. }
  apply read_number_range in E0; [|done]. unfold is_u8, u8_max. lia.
Qed.

Lemma read_groups_wf fuel i limit s gs v4 r :
  (i + fuel = limit)%nat → read_groups fuel i limit s = (gs, v4, r) →
  Forall is_u16 gs ∧ (length gs ≤ fuel)%nat.
Proof.
  revert i s gs v4 r. induction fuel as [|fuel IH]; intros i s gs v4 r Hle; cbn [read_groups];
    [intros [= <- _ _]; by split; [constructor|]|].
  destruct (if (S i <? limit)%nat then _ else None) as [[o s']|] eqn:E4.
  - destruct (Nat.ltb_spec (S i) limit); [|done]. intros [= <- _ _].
    assert (∃ s0, read_ipv4_addr s0 = Some (o, s')) as [s0 E0].
    { destruct i; cbn in E4; [by eexists|]. destruct (read_given_char 58 s); [by eexists|done]. }
    apply read_octets_wf in E0 as [Hb Hl].
    destruct (segments_octets 2 o Hl Hb) as (_&Hu&Hn). rewrite Hn. split; [done|lia].
  - destruct (read_separator 58 i (read_number 16 (Some 4) u16_max true) s) as [[g s']|] eqn:E;
      [|intros [= <- _ _]; split; [constructor|cbn; lia]].
    destruct (read_groups fuel (S i) limit s') as [[gs' v4'] r'] eqn:Er. intros [= <- _ _].
    apply IH in Er as [Hu Hl]; [|lia]. split; [|cbn; lia]. constructor; [|done].
    assert (∃ s0, read_number 16 (Some 4) u16_max true s0 = Some (g, s')) as [s0 E0].
    { destruct i; cbn -[read_number] in E; [by eexists|]. destruct (read_given_char 58 s); [by eexists|done]. }
    by apply read_number_range in E0.
Qed.

Lemma read_ipv6_wf s o r : read_ipv6_addr s = Some (o, r) → ip_wf (V6 o).
Proof.
  unfold read_ipv6_addr. destruct (read_groups 8 0 8 s) as [[hd hd4] s1] eqn:Eh.
  apply read_groups_wf in Eh as [Hh Lh]; [|done]. destruct (Nat.eqb_spec (length hd) 8) as [H8|Hn].
  - intros [= <- _]. destruct (segment_octets_wf hd Hh) as [Hb Hl]. split; [lia|done].
  - destruct hd4; [done|]. destruct (read_given_char 58 s1) as [s2|]; [|done]. cbn [mbind option_bind].
    destruct (read_given_char 58 s2) as [s3|]; [|done]. cbn [mbind option_bind].
    destruct (read_groups (8 - (length hd + 1)) 0 (8 - (length hd + 1)) s3) as [[tl ?] s4] eqn:Et.
    apply read_groups_wf in Et as [Ht Lt]; [|done]. intros [= <- _].
    destruct (segment_octets_wf (hd ++ replicate (8 - length hd - length tl) 0 ++ tl)) as [Hb Hl].
    { rewrite !Forall_app. split_and!; [done| |done]. by apply Forall_replicate. }
    split; [|done]. rewrite Hl, !length_app, length_replicate. lia.
Qed.

Lemma parse_ip_wf s ip : parse_ip s = Some ip → ip_wf ip.
Proof.
  unfold parse_ip. destruct (read_ipv4_addr s) as [[o r]|] eqn:E4.
  - apply read_octets_wf in E4 as [Hb Hl]. destruct r; [|done]. by intros [= <-].
  - destruct (read_ipv6_addr s) as [[o r]|] eqn:E6; [|done]. apply read_ipv6_wf in E6. cbn.
    destruct r; [|done]. by intros [= <-].
Qed.

(** ** Socket addresses *)

(** The text form of a socket address has no flow label. *)
Definition without_flowinfo (a : SocketAddr) : SocketAddr :=
  match a with SockV4 o p => SockV4 o p | SockV6 o p _ sc => SockV6 o p 0 sc end.

Lemma read_port_show p r : is_u16 p → stops 10 r → read_port (58 :: dec p ++ r) = Some (p, r).
Proof. intros Hp Hr. unfold read_port. cbn [read_given_char]. rewrite Z.eqb_refl. by apply read_dec. Qed.

Lemma dec_no_dot n : 0 ≤ n → (46 ∉ dec n).
Proof.
  intros Hn Hin. pose proof (dec_digits n Hn) as Hd. rewrite Forall_forall in Hd. by apply Hd in Hin.
Qed.

Lemma parse_show_sock a : sock_wf a → parse_sock (show_sock a) = Some (without_flowinfo a).
Proof.
  destruct a as [o p|o p f sc]; intros (Hip&Hp&Hv6); cbn [sock_ip sock_port] in *; unfold parse_sock; cbn [show_sock without_flowinfo].
  - unfold read_socket_addr_v4. rewrite read_show_ipv4 by done. cbn [mbind option_bind].
    change (lit ":" ++ dec p) with (58 :: dec p). rewrite <- (app_nil_r (dec p)).
    by rewrite read_port_show.
  - assert (read_socket_addr_v4 (lit "[" ++ show_ipv6 o ++ lit "]:" ++ dec p) = None ∧
      read_socket_addr_v4 (lit "[" ++ show_ipv6 o ++ lit "%" ++ dec sc ++ lit "]:" ++ dec p) = None) as [E1 E2].
    { unfold read_socket_addr_v4. by rewrite !read_ipv4_stops. }
    pose proof (dec_no_dot p (proj1 Hp)) as Hdp. destruct Hv6 as [_ Hsc]. pose proof (dec_no_dot sc (proj1 Hsc)) as Hds.
    destruct (Z.eqb_spec sc 0) as [->|Hne].
    + rewrite E1. unfold read_socket_addr_v6. change (lit "[" ++ ?x) with (91 :: x). cbn [read_given_char].
      rewrite Z.eqb_refl. cbn [mbind option_bind].
      change (lit "]:" ++ dec p) with (93 :: 58 :: dec p).
      rewrite read_show_ipv6 by (done || (split_and!; [set_solver|done|done])). cbn [mbind option_bind].
      change (read_scope_id (93 :: ?x)) with (@None (Z * str)). cbn [default].
      change (read_given_char 93 (93 :: ?x)) with (Some x). cbn [mbind option_bind].
      rewrite <- (app_nil_r (dec p)). by rewrite read_port_show.
    + rewrite E2. unfold read_socket_addr_v6. change (lit "[" ++ ?x) with (91 :: x). cbn [read_given_char].
      rewrite Z.eqb_refl. cbn [mbind option_bind].
      change (lit "]:" ++ dec p) with (93 :: 58 :: dec p). change (lit "%" ++ ?x) with (37 :: x).
      rewrite read_show_ipv6 by (done || (split_and!; [set_solver|done|done])). cbn [mbind option_bind].
      unfold read_scope_id. cbn [read_given_char]. rewrite Z.eqb_refl. cbn [mbind option_bind].
      rewrite read_dec by done. cbn [default]. unfold id.
      change (read_given_char 93 (93 :: ?x)) with (Some x). cbn [mbind option_bind].
      rewrite <- (app_nil_r (dec p)). by rewrite read_port_show.
Qed.

Lemma parse_sock_flowinfo s a : parse_sock s = Some a → without_flowinfo a = a.
Proof.
  unfold parse_sock, read_socket_addr_v4, read_socket_addr_v6. intros Hp.
  repeat (case_match; try done; simplify_option_eq); done.
Qed.

Lemma parse_sock_wf s a : parse_sock s = Some a → sock_wf a.
Proof.
  unfold parse_sock.
  assert (∀ s p r, read_port s = Some (p, r) → is_u16 p) as Hport.
  { intros s0 p r. unfold read_port. destruct (read_given_char 58 s0); [|done]. cbn. by intros ?%read_number_range. }
  destruct (read_socket_addr_v4 s) as [[a' r]|] eqn:E4.
  - destruct r; [|done]. intros [= <-]. revert E4. unfold read_socket_addr_v4.
    destruct (read_ipv4_addr s) as [[o s1]|] eqn:Eo; [|done]. cbn [mbind option_bind].
    destruct (read_port s1) as [[p s2]|] eqn:Ep; [|done]. intros [= <- _].
    apply read_octets_wf in Eo as [Hb Hl]. split_and!; [done..|by eapply Hport|done].
  - destruct (read_socket_addr_v6 s) as [[a' r]|] eqn:E6; [|done]. destruct r; [|done]. intros [= <-].
    revert E6. unfold read_socket_addr_v6. destruct (read_given_char 91 s) as [s1|]; [|done]. cbn [mbind option_bind].
    destruct (read_ipv6_addr s1) as [[o s2]|] eqn:Eo; [|done]. cbn [mbind option_bind].
    assert (is_u32 (default (0, s2) (read_scope_id s2)).1) as Hsc.
    { unfold read_scope_id. destruct (read_given_char 37 s2) as [s3|]; [|done]. cbn [mbind option_bind].
      destruct (read_number _ _ _ _ s3) as [[v r]|] eqn:En; [|done]. by apply read_number_range in En. }
    destruct (default _ _) as [sc s3]. destruct (read_given_char 93 s3) as [s4|]; [|done]. cbn [mbind option_bind].
    destruct (read_port s4) as [[p s5]|] eqn:Ep; [|done]. intros [= <- _].
    apply read_ipv6_wf in Eo as [Hl Hb]. split_and!; [done..|by eapply Hport|done|done].
Qed.

(** ** The characters of an address *)

(** Decimal digits, lower-case hexadecimal letters, dots and colons. *)
Definition is_ip_char (c : char) : bool :=
  is_ascii_digit c || ((97 <=? c) && (c <=? 102)) || (c =? 46) || (c =? 58).

Lemma hex_fuel_chars f n : 0 ≤ n → Forall (λ c, is_ip_char c = true) (hex_fuel f n).
Proof.
  assert (∀ d, 0 ≤ d < 16 → is_ip_char (hex_digit d) = true) as Hd.
  { intros d Hd. unfold is_ip_char, hex_digit, is_ascii_digit. destruct (Z.ltb_spec d 10); lia. }
  revert n. induction f as [|f IH]; intros n Hn; cbn [hex_fuel]; [constructor|].
  destruct (Z.ltb_spec n 16); [constructor; [apply Hd; lia|constructor]|].
  apply Forall_app; split; [apply IH, Z.div_pos; lia|].
  constructor; [apply Hd, Z.mod_pos_bound; lia|constructor].
Qed.

Lemma group_text_chars i gs : Forall is_u16 gs → Forall (λ c, is_ip_char c = true) (group_text i gs).
Proof.
  intros Hgs. revert i. induction Hgs as [|g gs Hg _ IH]; intros i; cbn [group_text]; [constructor|].
  rewrite !Forall_app. split_and!; [|apply hex_fuel_chars, Hg|apply IH].
  destruct i; repeat constructor.
Qed.

Lemma show_ip_chars ip : ip_wf ip → Forall (λ c, is_ip_char c = true) (show_ip ip).
Proof.
  assert (∀ o, is_bytes o → Forall (λ c, is_ip_char c = true) (show_ipv4 o)) as Hv4.
  { intros o Ho. eapply Forall_impl; [by apply show_ipv4_chars|]. intros c Hc. unfold is_ip_char, is_ascii_digit in *. lia. }
  destruct ip as [o|o]; intros [Hl Ho]; cbn [show_ip]; [by apply Hv4|].
  destruct (segments_octets 8 o Hl Ho) as (_&Hu&_). unfold show_ipv6. cbv zeta. case_bool_decide.
  - apply Forall_app; split; [repeat constructor|]. by apply Hv4, Forall_drop.
  - destruct (longest_zeros _ _ _ _) as [start n]. rewrite !show_segments_text.
    destruct (n >? 1); rewrite ?Forall_app; [|by apply group_text_chars].
    split_and!; [by apply group_text_chars, Forall_take|repeat constructor|by apply group_text_chars, Forall_drop].
Qed.
