(* ===== verification/Lru.v ===== *)
(** * The interface of the [lru] crate

    [LruCache] lists the operations the replay cache and the rate limiter call
    and [LruLaws] what the crate documents about them, as equations on the
    entries in the order of [iter()], most recently used first. [list_lru] is
    an executable instance. *)

From S2P Require Import Prelude.

Section assoc.
Context {K V : Type} `{EqDecision K}.
Implicit Types (es : list (K * V)) (k : K) (v : V).

Definition assoc_get k es : option V := snd <$> List.find (λ e, bool_decide (e.1 = k)) es.
Definition assoc_remove k es : list (K * V) := filter (λ e, e.1 ≠ k) es.

(** The entries after an insertion at capacity [cap]: the new entry is the
    most recent; an old entry of the key is replaced, else the least recent
    entry makes room when the cache is full. *)
Definition lru_insert (cap : Z) k v es : list (K * V) :=
  (k, v) :: (if decide (k ∈ es.*1) then assoc_remove k es
             else if len es <? cap then es else removelast es).

(** What [push] hands back: the replaced or the evicted entry. *)
Definition lru_pushed_out (cap : Z) k es : option (K * V) :=
  match assoc_get k es with
  | Some v => Some (k, v)
  | None => if len es <? cap then None else last es
  end.
End assoc.

Class LruCache (K V : Type) := {
  lru : Type;
  lru_new : Z → lru;
  lru_cap : lru → Z;
  lru_len : lru → Z;
  lru_iter : lru → list (K * V);
  lru_contains : lru → K → bool;
  lru_put : lru → K → V → lru;
  lru_push : lru → K → V → option (K * V) * lru;
  lru_pop : lru → K → lru;
  lru_clear : lru → lru;
  (** [get_mut] gives the value and, for the value written through the
      reference, the cache with the entry promoted. *)
  lru_get_mut : lru → K → option (V * (V → lru))
}.
Arguments lru K V {_}.

Class LruLaws (K V : Type) `{EqDecision K} (L : LruCache K V) := {
  lru_new_spec n : 0 < n → lru_iter (lru_new n) = [] ∧ lru_cap (lru_new n) = n;
  lru_cap_pos c : 0 < lru_cap c;
  lru_nodup c : NoDup (lru_iter c).*1;
  lru_bounded c : len (lru_iter c) ≤ lru_cap c;
  lru_len_spec c : lru_len c = len (lru_iter c);
  lru_contains_spec c k : lru_contains c k = bool_decide (k ∈ (lru_iter c).*1);
  lru_put_spec c k v :
    lru_iter (lru_put c k v) = lru_insert (lru_cap c) k v (lru_iter c) ∧
    lru_cap (lru_put c k v) = lru_cap c;
  lru_push_spec c k v :
    lru_iter (lru_push c k v).2 = lru_insert (lru_cap c) k v (lru_iter c) ∧
    lru_cap (lru_push c k v).2 = lru_cap c ∧
    (lru_push c k v).1 = lru_pushed_out (lru_cap c) k (lru_iter c);
  lru_pop_spec c k :
    lru_iter (lru_pop c k) = assoc_remove k (lru_iter c) ∧ lru_cap (lru_pop c k) = lru_cap c;
  lru_clear_spec c : lru_iter (lru_clear c) = [] ∧ lru_cap (lru_clear c) = lru_cap c;
  lru_get_mut_spec c k :
    match lru_get_mut c k with
    | Some (v, wb) =>
        assoc_get k (lru_iter c) = Some v ∧
        ∀ v', lru_iter (wb v') = (k, v') :: assoc_remove k (lru_iter c) ∧ lru_cap (wb v') = lru_cap c
    | None => k ∉ (lru_iter c).*1
    end
}.

(** ** Lemmas on association lists *)

Section assoc_lemmas.
Context {K V : Type} `{EqDecision K}.
Implicit Types (es : list (K * V)) (k : K) (v : V).

Lemma elem_of_keys k es : k ∈ es.*1 ↔ ∃ v, (k, v) ∈ es.
Proof.
  rewrite list_elem_of_fmap. split.
  - intros ([k' v] & -> & H). eauto.
  - intros [v H]. by exists (k, v).
Qed.

Lemma assoc_get_elem_of k v es : assoc_get k es = Some v → (k, v) ∈ es.
Proof.
  unfold assoc_get. rewrite fmap_Some. intros ([k' v'] & Hf & ->).
  apply List.find_some in Hf as [Hi He]. apply bool_decide_eq_true in He. simpl in He. subst.
  by apply list_elem_of_In.
Qed.

Lemma assoc_get_None k es : assoc_get k es = None ↔ k ∉ es.*1.
Proof.
  unfold assoc_get. rewrite fmap_None. split.
  - intros Hf Hk. apply elem_of_keys in Hk as [v Hv]. apply list_elem_of_In in Hv.
    pose proof (List.find_none _ _ Hf _ Hv) as He. simpl in He.
    by rewrite bool_decide_eq_true_2 in He.
  - intros Hk. destruct (List.find _ es) as [[k' v]|] eqn:Hf; [|done].
    apply List.find_some in Hf as [Hi He]. apply bool_decide_eq_true in He. simpl in He. subst.
    destruct Hk. apply elem_of_keys. exists v. by apply list_elem_of_In.
Qed.

Lemma nodup_keys_inj k v v' es : NoDup es.*1 → (k, v) ∈ es → (k, v') ∈ es → v = v'.
Proof.
  induction es as [|[k1 v1] es IH]; simpl; [set_solver|]. rewrite NoDup_cons. intros [Hk Hn].
  rewrite !elem_of_cons. intros [?|H1] [?|H2]; simplify_eq; try done.
  - destruct Hk. apply elem_of_keys. eauto.
  - destruct Hk. apply elem_of_keys. eauto.
  - eauto.
Qed.

Lemma elem_of_assoc_remove k k' v es :
  (k', v) ∈ assoc_remove k es ↔ k' ≠ k ∧ (k', v) ∈ es.
Proof. unfold assoc_remove. by rewrite list_elem_of_filter. Qed.

Lemma keys_assoc_remove k k' es : k' ∈ (assoc_remove k es).*1 ↔ k' ≠ k ∧ k' ∈ es.*1.
Proof. rewrite !elem_of_keys. setoid_rewrite elem_of_assoc_remove. naive_solver. Qed.

Lemma assoc_remove_notin k es : k ∉ es.*1 → assoc_remove k es = es.
Proof.
  unfold assoc_remove. induction es as [|[k' v] es IH]; simpl; [done|]. intros Hk.
  rewrite filter_cons, decide_True by set_solver. f_equal. set_solver.
Qed.

Lemma assoc_remove_app k (l1 l2 : list (K * V)) :
  assoc_remove k (l1 ++ l2) = assoc_remove k l1 ++ assoc_remove k l2.
Proof. apply filter_app. Qed.

Lemma len_assoc_remove k es : len (assoc_remove k es) ≤ len es.
Proof. unfold len, assoc_remove. pose proof (length_filter (λ e, e.1 ≠ k) es). lia. Qed.

Lemma removelast_take {A} (l : list A) : removelast l = take (pred (length l)) l.
Proof. apply removelast_firstn_len. Qed.

Lemma nodup_assoc_remove k es : NoDup es.*1 → NoDup (assoc_remove k es).*1.
Proof.
  induction es as [|[k' v] es IH]; simpl; [done|]. rewrite NoDup_cons. intros [Hk Hn].
  unfold assoc_remove. rewrite filter_cons. case_decide; [|by apply IH].
  simpl. apply NoDup_cons. split; [|by apply IH].
  intros Hin. apply (keys_assoc_remove k k' es) in Hin as [_ ?]. done.
Qed.

Lemma nodup_take_keys n es : NoDup es.*1 → NoDup (take n es).*1.
Proof.
  intros H. rewrite <- (take_drop n es) in H. rewrite fmap_app in H.
  by apply NoDup_app in H as [? _].
Qed.

Lemma keys_take n k es : k ∈ (take n es).*1 → k ∈ es.*1.
Proof.
  intros Hk. rewrite <- (take_drop n es), fmap_app. apply elem_of_app. by left.
Qed.

Lemma lru_insert_nodup cap k v es : NoDup es.*1 → NoDup (lru_insert cap k v es).*1.
Proof.
  intros Hn. unfold lru_insert. simpl. apply NoDup_cons. case_decide as Hk.
  - rewrite keys_assoc_remove. split; [naive_solver|by apply nodup_assoc_remove].
  - destruct (len es <? cap); [done|]. rewrite removelast_take.
    split; [|by apply nodup_take_keys]. intros Hin. by apply keys_take in Hin.
Qed.

Lemma assoc_remove_present_len k es : k ∈ es.*1 → len (assoc_remove k es) + 1 ≤ len es.
Proof.
  induction es as [|[k' v] es IH]; simpl; [set_solver|]. intros Hk.
  unfold assoc_remove. rewrite filter_cons. rewrite len_cons. case_decide; simpl in *.
  - rewrite len_cons. apply elem_of_cons in Hk as [->|Hk]; [done|].
    specialize (IH Hk). unfold assoc_remove in IH. lia.
  - pose proof (len_assoc_remove k es). unfold assoc_remove in *. lia.
Qed.

Lemma lru_insert_bounded cap k v es :
  0 < cap → len es ≤ cap → len (lru_insert cap k v es) ≤ cap.
Proof.
  intros Hc Hl. unfold lru_insert. rewrite len_cons. case_decide as Hk.
  - apply assoc_remove_present_len in Hk. lia.
  - destruct (Z.ltb_spec (len es) cap); [lia|]. rewrite removelast_take, len_take.
    unfold len in *. lia.
Qed.

Lemma lru_insert_present cap k v es :
  k ∈ es.*1 → lru_insert cap k v es = (k, v) :: assoc_remove k es.
Proof. intros Hk. unfold lru_insert. by rewrite decide_True. Qed.

(** Writing one key's entry leaves the entries of the others. *)
Lemma assoc_get_other k k' v es :
  k' ≠ k → assoc_get k' ((k, v) :: assoc_remove k es) = assoc_get k' es.
Proof.
  intros Hk. unfold assoc_get, assoc_remove. cbn [List.find fst].
  rewrite bool_decide_eq_false_2 by done. f_equal.
  induction es as [|[k1 v1] es IH]; [done|]. rewrite filter_cons. cbn [fst List.find].
  destruct (decide (k1 = k)) as [->|Hne].
  - rewrite decide_False by naive_solver. by rewrite bool_decide_eq_false_2.
  - rewrite decide_True by done. cbn [List.find fst]. by rewrite IH.
Qed.

Lemma lru_insert_head cap k v es : (k, v) ∈ lru_insert cap k v es.
Proof. unfold lru_insert. apply elem_of_cons. by left. Qed.

Lemma lru_insert_elem cap k v e es :
  e ∈ lru_insert cap k v es → e = (k, v) ∨ e ∈ es.
Proof.
  unfold lru_insert. rewrite elem_of_cons. intros [->|He]; [by left|]. right.
  revert He. case_decide.
  - destruct e. rewrite elem_of_assoc_remove. naive_solver.
  - destruct (len es <? cap); [done|]. rewrite removelast_take. intros He.
    rewrite <- (take_drop (pred (length es)) es). apply elem_of_app. by left.
Qed.
End assoc_lemmas.

(** ** An executable instance *)

Section list_lru.
Context {K V : Type} `{EqDecision K}.

(** Entries and capacity, with the two invariants. *)
Record list_lru := {
  ll_cap : Z;
  ll_entries : list (K * V);
  ll_cap_pos : 0 < ll_cap;
  ll_nodup : NoDup ll_entries.*1;
  ll_bounded : len ll_entries ≤ ll_cap
}.

Program Definition ll_new (n : Z) : list_lru :=
  {| ll_cap := Z.max 1 n; ll_entries := [] |}.
Next Obligation. lia. Qed.
Next Obligation. constructor. Qed.
Next Obligation. simpl. rewrite len_nil. lia. Qed.

Program Definition ll_insert (c : list_lru) (k : K) (v : V) : list_lru :=
  {| ll_cap := ll_cap c; ll_entries := lru_insert (ll_cap c) k v (ll_entries c) |}.
Next Obligation. intros. apply ll_cap_pos. Qed.
Next Obligation. intros. apply lru_insert_nodup, ll_nodup. Qed.
Next Obligation. intros. apply lru_insert_bounded; [apply ll_cap_pos|apply ll_bounded]. Qed.

Program Definition ll_remove (c : list_lru) (k : K) : list_lru :=
  {| ll_cap := ll_cap c; ll_entries := assoc_remove k (ll_entries c) |}.
Next Obligation. intros. apply ll_cap_pos. Qed.
Next Obligation. intros. apply nodup_assoc_remove, ll_nodup. Qed.
Next Obligation.
  intros. simpl. pose proof (len_assoc_remove k (ll_entries c)). pose proof (ll_bounded c). lia.
Qed.

Program Definition ll_clear (c : list_lru) : list_lru :=
  {| ll_cap := ll_cap c; ll_entries := [] |}.
Next Obligation. intros. apply ll_cap_pos. Qed.
Next Obligation. constructor. Qed.
Next Obligation. intros. simpl. rewrite len_nil. pose proof (ll_cap_pos c). lia. Qed.

#[global] Instance list_lru_cache : LruCache K V := {
  lru := list_lru;
  lru_new := ll_new;
  lru_cap := ll_cap;
  lru_len c := len (ll_entries c);
  lru_iter := ll_entries;
  lru_contains c k := bool_decide (k ∈ (ll_entries c).*1);
  lru_put := ll_insert;
  lru_push c k v := (lru_pushed_out (ll_cap c) k (ll_entries c), ll_insert c k v);
  lru_pop := ll_remove;
  lru_clear := ll_clear;
  lru_get_mut c k :=
    match assoc_get k (ll_entries c) with
    | Some v => Some (v, ll_insert c k)
    | None => None
    end
}.

#[global] Instance list_lru_laws : LruLaws K V list_lru_cache.
Proof.
  split; simpl; try done.
  - intros n Hn. split; [done|]. lia.
  - apply ll_cap_pos.
  - apply ll_nodup.
  - apply ll_bounded.
  - intros c k. destruct (assoc_get k (ll_entries c)) as [v|] eqn:E; [|by apply assoc_get_None].
    split; [done|]. intros v'. split; [|done].
    apply (lru_insert_present (ll_cap c)), elem_of_keys. exists v. by apply assoc_get_elem_of.
Qed.
End list_lru.
