(* ===== verification/Proto.v ===== *)
(** * fwknox-proto: value types, header, cryptographic wrappers, payload

    Models crates/fwknox-proto/src: error.rs, types.rs, header.rs, aead.rs,
    hmac.rs, kdf.rs and payload.rs. The primitives of [ring] and the
    MessagePack codec of [rmp_serde] are interfaces ([Ring], [Rmp]) with the
    laws their documentation states ([RingLaws], [RmpLaws]). *)

From S2P Require Import Prelude RustStd Net NetText.

(** ** error.rs *)

Inductive ProtoError :=
  | PacketTooShort (got need : Z)
  | PacketTooLong (got max : Z)
  | UnsupportedVersion (v : Z)
  | ReservedFlag (bits : Z)
  | HmacFailed
  | AeadFailed
  | PayloadDecode (msg : str)
  | PayloadEncode (msg : str)
  | HkdfFailed
  | InvalidField (what : str)
  | PacketTooOld (age_secs max_secs : Z)
  | PacketInFuture (skew_secs : Z).

#[global] Instance ProtoError_eq_dec : EqDecision ProtoError.
Proof. solve_decision. Defined.

(** The [Display] texts of the error attributes. *)
Definition show_ProtoError (e : ProtoError) : str :=
  match e with
  | PacketTooShort got need =>
      lit "packet too short: got " ++ dec got ++ lit " bytes, need at least " ++ dec need
  | PacketTooLong got max =>
      lit "packet too long: got " ++ dec got ++ lit " bytes, max " ++ dec max
  | UnsupportedVersion v => lit "unsupported protocol version: 0x" ++ hex v
  | ReservedFlag b => lit "reserved flag bit set: 0x" ++ hex b
  | HmacFailed => lit "HMAC verification failed"
  | AeadFailed => lit "AEAD decryption failed"
  | PayloadDecode m => lit "payload decode error: " ++ m
  | PayloadEncode m => lit "payload encode error: " ++ m
  | HkdfFailed => lit "HKDF expand failed"
  | InvalidField w => lit "invalid field: " ++ w
  | PacketTooOld a m =>
      lit "packet age " ++ dec a ++ lit "s exceeds maximum " ++ dec m ++ lit "s"
  | PacketInFuture s => lit "packet timestamp is " ++ dec s ++ lit "s in the future"
  end.

(** ** types.rs *)

Inductive Protocol := Tcp | Udp.

#[global] Instance Protocol_eq_dec : EqDecision Protocol.
Proof. solve_decision. Defined.

Definition show_Protocol (p : Protocol) : str :=
  match p with Tcp => lit "tcp" | Udp => lit "udp" end.

Record PortProto := { proto : Protocol; port : Z }.

#[global] Instance PortProto_eq_dec : EqDecision PortProto.
Proof. solve_decision. Defined.

Definition PortProto_new (p : Protocol) (n : Z) : PortProto := {| proto := p; port := n |}.

Definition show_PortProto (pp : PortProto) : str :=
  show_Protocol (proto pp) ++ lit "/" ++ dec (port pp).

Inductive SpaMessage :=
  | Access (source_ip : IpAddr) (ports : list PortProto)
  | Nat (source_ip : IpAddr) (ports : list PortProto) (nat_dest : SocketAddr)
  | LocalNat (source_ip : IpAddr) (ports : list PortProto) (nat_dest : SocketAddr)
  | Command (source_ip : IpAddr) (command : str).

#[global] Instance SpaMessage_eq_dec : EqDecision SpaMessage.
Proof. solve_decision. Defined.

(** ** header.rs *)

Definition PROTO_VERSION : Z := 0x01.
Definition HEADER_LEN : Z := 4.

(** [Flags(u8)] is its raw byte. *)
Abbreviation Flags := Z (only parsing).

Definition FLAG_NAT : Z := 1.
Definition FLAG_CLIENT_TIMEOUT : Z := 2.
Definition FLAG_COMMAND : Z := 4.
Definition FLAG_ASYMMETRIC : Z := 8.
Definition FLAG_ALL_DEFINED : Z :=
  Z.lor (Z.lor (Z.lor FLAG_NAT FLAG_CLIENT_TIMEOUT) FLAG_COMMAND) FLAG_ASYMMETRIC.

Definition Flags_new : Flags := 0.

Definition Flags_raw (f : Flags) : Z := f.
Definition Flags_from_raw_unchecked (byte : Z) : Flags := byte.

(** [!mask] on [u8] is the exclusive or with 0xff. *)
Definition Flags_from_raw (byte : Z) : result ProtoError Flags :=
  let reserved := Z.land byte (Z.lxor FLAG_ALL_DEFINED 0xff) in
  if negb (reserved =? 0) then Err (ReservedFlag reserved) else Ok byte.

Definition Flags_contains (f : Flags) (mask : Z) : bool := negb (Z.land f mask =? 0).
Definition Flags_set (f : Flags) (mask : Z) : Flags := Z.lor f mask.

Record Header := { version : Z; flags : Flags; payload_len : Z }.

#[global] Instance Header_eq_dec : EqDecision Header.
Proof. solve_decision. Defined.

Definition Header_new (f : Flags) (n : Z) : Header :=
  {| version := PROTO_VERSION; flags := f; payload_len := n |}.

(** [u16::to_be_bytes] and [u16::from_be_bytes]. *)
Definition u16_to_be_bytes (n : Z) : bytes := [Z.shiftr n 8; Z.land n 0xff].
Definition u16_from_be_bytes (hi lo : Z) : Z := Z.lor (Z.shiftl hi 8) lo.

Definition Header_encode (h : Header) : bytes :=
  version h :: Flags_raw (flags h) :: u16_to_be_bytes (payload_len h).

(** The four indexed reads cannot go out of range after the length check; a
    shorter slice takes the [PacketTooShort] branch. *)
Definition Header_decode (bs : bytes) : result ProtoError Header :=
  match bs with
  | b0 :: b1 :: b2 :: b3 :: _ =>
      if negb (b0 =? PROTO_VERSION) then Err (UnsupportedVersion b0)
      else
        flags ← Flags_from_raw b1;
        Ok {| version := b0; flags := flags; payload_len := u16_from_be_bytes b2 b3 |}
  | _ => Err (PacketTooShort (len bs) HEADER_LEN)
  end.

(** ** The [ring] interface *)

(** HMAC-SHA256 sign and verify, HKDF-SHA256 (salt, input key, info, output
    length), and AES-256-GCM seal and open (key, nonce, associated data). *)
Class Ring := {
  ring_hmac_sign : bytes → bytes → bytes;
  ring_hmac_verify : bytes → bytes → bytes → bool;
  ring_hkdf : bytes → bytes → bytes → Z → option bytes;
  ring_seal : bytes → bytes → bytes → bytes → option bytes;
  ring_open : bytes → bytes → bytes → bytes → option bytes
}.

(** What the documentation of these primitives promises: tags of 32 bytes,
    verification is recomputation, key derivation succeeds for the lengths in
    use, and GCM opening inverts sealing in both directions. *)
Class RingLaws (R : Ring) := {
  hmac_sign_len k m : length (ring_hmac_sign k m) = 32%nat;
  hmac_verify_spec k m t : ring_hmac_verify k m t = true ↔ t = ring_hmac_sign k m;
  hkdf_total salt ikm info n :
    0 ≤ n ≤ 255 * 32 → ∃ okm, ring_hkdf salt ikm info n = Some okm ∧ len okm = n;
  seal_total k n a p :
    len k = 32 → len n = 12 → ∃ c, ring_seal k n a p = Some c;
  seal_len k n a p c : ring_seal k n a p = Some c → len c = len p + 16;
  open_spec k n a p c : ring_open k n a c = Some p ↔ ring_seal k n a p = Some c
}.

(** ** aead.rs, hmac.rs, kdf.rs *)

Definition KEY_LEN : Z := 32.
Definition NONCE_LEN : Z := 12.
Definition TAG_LEN : Z := 16.
Definition HMAC_LEN : Z := 32.
Definition SUBKEY_LEN : Z := 32.

Section crypto.
Context `{Ring}.

(** [rng] is what [SystemRandom::fill] left in the buffer, if it succeeded. *)
Definition generate_nonce (rng : option bytes) : result ProtoError bytes :=
  ok_or AeadFailed rng.

Definition aead_seal (key nonce aad plaintext : bytes) : result ProtoError bytes :=
  if negb (len key =? KEY_LEN) then Err AeadFailed
  else ok_or AeadFailed (ring_seal key nonce aad plaintext).

Definition aead_open (key nonce aad ciphertext_and_tag : bytes) : result ProtoError bytes :=
  if negb (len key =? KEY_LEN) then Err AeadFailed
  else if len ciphertext_and_tag <? TAG_LEN then Err AeadFailed
  else ok_or AeadFailed (ring_open key nonce aad ciphertext_and_tag).

Definition hmac_sign (key message : bytes) : bytes := ring_hmac_sign key message.

Definition hmac_verify (key message tag : bytes) : result ProtoError unit :=
  if negb (len tag =? HMAC_LEN) then Err HmacFailed
  else if ring_hmac_verify key message tag then Ok () else Err HmacFailed.

Definition ENC_SALT : bytes := lit "fwknox-enc-v1".
Definition HMAC_SALT : bytes := lit "fwknox-hmac-v1".
Definition ENC_INFO : bytes := lit "encryption".
Definition HMAC_INFO : bytes := lit "authentication".

(** [SubKey([u8; 32])] is its bytes; its [Debug] form shows none of them. *)
Definition SubKey_as_bytes (k : bytes) : bytes := k.
Definition SubKey_debug (k : bytes) : str := lit "SubKey(<redacted>)".

Definition derive_one (ikm salt info : bytes) : result ProtoError bytes :=
  ok_or HkdfFailed (ring_hkdf salt ikm info SUBKEY_LEN).
End crypto.

Record DerivedKeys := { enc : bytes; hmac : bytes }.

Definition DerivedKeys_derive `{Ring} (master_key : bytes) : result ProtoError DerivedKeys :=
  enc ← derive_one master_key ENC_SALT ENC_INFO;
  hmac ← derive_one master_key HMAC_SALT HMAC_INFO;
  Ok {| enc := enc; hmac := hmac |}.

(** ** payload.rs *)

Record SpaPayload := {
  nonce : bytes;
  timestamp : Z;
  username : str;
  message : SpaMessage;
  client_timeout : option Z
}.

#[global] Instance SpaPayload_eq_dec : EqDecision SpaPayload.
Proof. solve_decision. Defined.

Definition MAX_USERNAME_LEN : Z := 64.
Definition MAX_ENCODED_LEN : Z := 1024.

(** [rmp_serde::to_vec] and [rmp_serde::from_slice] at one type; an error is
    its text. *)
Class Rmp (A : Type) := {
  rmp_to_vec : A → result str bytes;
  rmp_from_slice : bytes → result str A
}.

(** The values of a type that the codec carries: in the range of the Rust
    type and, for addresses, without what their text form leaves out. *)
Class Portable (A : Type) := portable : A → Prop.

(** A portable value that serialises deserialises to itself, and nothing but
    portable values comes out of deserialisation. *)
Class RmpLaws (A : Type) `{Rmp A} `{Portable A} := {
  rmp_roundtrip (a : A) v : portable a → rmp_to_vec a = Ok v → rmp_from_slice v = Ok a;
  rmp_portable v (a : A) : rmp_from_slice v = Ok a → portable a
}.

Definition ports_typed (pps : list PortProto) : Prop := Forall (λ pp, is_u16 (port pp)) pps.

Definition message_portable (m : SpaMessage) : Prop :=
  match m with
  | Access ip ports => ip_wf ip ∧ ports_typed ports
  | Nat ip ports dest | LocalNat ip ports dest =>
      ip_wf ip ∧ ports_typed ports ∧ sock_wf dest ∧ without_flowinfo dest = dest
  | Command ip _ => ip_wf ip
  end.

#[global] Instance payload_portable : Portable SpaPayload := λ p,
  (length (nonce p) = 16%nat ∧ is_bytes (nonce p)) ∧ is_i64 (timestamp p) ∧
  message_portable (message p) ∧ match client_timeout p with Some t => is_u32 t | None => True end.

Definition validate_structure (p : SpaPayload) : result ProtoError unit :=
  if str_len (username p) >? MAX_USERNAME_LEN then Err (InvalidField (lit "username too long"))
  else if negb (forallb (λ c, is_ascii_graphic c || (c =? 32)) (username p)) then
    Err (InvalidField (lit "username contains control bytes"))
  else Ok ().

Section payload.
Context `{Rmp SpaPayload}.

Definition SpaPayload_encode (p : SpaPayload) : result ProtoError bytes :=
  bytes ← map_err PayloadEncode (rmp_to_vec p);
  if len bytes >? MAX_ENCODED_LEN then Err (InvalidField (lit "payload too large"))
  else Ok bytes.

Definition SpaPayload_decode (bs : bytes) : result ProtoError SpaPayload :=
  payload ← map_err PayloadDecode (rmp_from_slice bs);
  _ ← validate_structure payload;
  Ok payload.
End payload.

(** ** Lemmas *)

Lemma u16_be_bytes_roundtrip n :
  u16_from_be_bytes (Z.shiftr n 8) (Z.land n 0xff) = n.
Proof. by apply (lor_shift_land n 8). Qed.

Lemma land_shiftl8_small hi lo : is_u8 lo → Z.land (Z.shiftl hi 8) lo = 0.
Proof.
  unfold is_u8, u8_max. intros Hl. apply Z.bits_inj'. intros i Hi.
  rewrite Z.land_spec, Z.bits_0, Z.shiftl_spec by done.
  destruct (decide (i < 8)); [by rewrite (Z.testbit_neg_r _ (i - 8)) by lia|].
  rewrite (Z.bits_above_log2 lo); [apply andb_false_r|lia|].
  destruct (decide (lo = 0)) as [->|]; [simpl; lia|].
  apply Z.log2_lt_pow2; [lia|]. apply Z.lt_le_trans with (2 ^ 8); [lia|].
  apply Z.pow_le_mono_r; lia.
Qed.

Lemma u16_from_be_arith hi lo : is_u8 lo → u16_from_be_bytes hi lo = hi * 256 + lo.
Proof.
  intros Hl. unfold u16_from_be_bytes.
  rewrite <- Z.lxor_lor, <- Z.add_nocarry_lxor by (by apply land_shiftl8_small).
  by rewrite Z.shiftl_mul_pow2.
Qed.

Lemma u16_to_be_arith n : u16_to_be_bytes n = [n / 256; n mod 256].
Proof.
  unfold u16_to_be_bytes. rewrite Z.shiftr_div_pow2 by done.
  change 0xff with (Z.ones 8). by rewrite Z.land_ones.
Qed.

(** A header the receiver accepts: the current version, no reserved flag bit,
    a 16-bit length. *)
Definition header_wf (h : Header) : Prop :=
  version h = PROTO_VERSION ∧ Flags_from_raw (flags h) = Ok (flags h) ∧ is_u16 (payload_len h).

Lemma Flags_from_raw_ok b f : Flags_from_raw b = Ok f → f = b.
Proof. unfold Flags_from_raw. case_match; naive_solver. Qed.

Lemma Header_encode_len h : len (Header_encode h) = HEADER_LEN.
Proof. done. Qed.

Lemma Header_decode_encode h rest :
  header_wf h → Header_decode (Header_encode h ++ rest) = Ok h.
Proof.
  intros (Hv & Hf & Hl). simpl. rewrite Hv, Z.eqb_refl. simpl. unfold Flags_raw. rewrite Hf. simpl.
  rewrite u16_be_bytes_roundtrip. destruct h; simpl in *. by subst.
Qed.

Lemma Header_decode_ok bs h :
  is_bytes bs → Header_decode bs = Ok h →
  header_wf h ∧ bs = Header_encode h ++ drop 4 bs.
Proof.
  intros Hb H. destruct bs as [|b0 [|b1 [|b2 [|b3 bs]]]]; try done.
  unfold Header_decode in H. destruct (negb (b0 =? PROTO_VERSION)) eqn:E0; [done|].
  bool_prop. inv_ok. pose proof (Flags_from_raw_ok _ _ H0) as ->.
  repeat (apply Forall_cons in Hb as [? Hb]).
  unfold header_wf, Header_encode, Flags_raw. subst h. cbn [version flags payload_len].
  rewrite u16_to_be_arith, u16_from_be_arith by done.
  unfold is_u8, is_u16, u8_max, u16_max in *. split_and!; try done; try lia.
  rewrite Z.div_add_l, Z.div_small, Z.add_0_r by lia.
  rewrite (Z.add_comm (_ * 256)), Z.mod_add, Z.mod_small by lia. done.
Qed.

(** Decoding inverts encoding and accepts nothing else. A byte string
    decodes to a header exactly when the header is well formed (current
    version, no reserved flag, 16-bit length) and its four encoded bytes are
    the first ones of the string. *)
Theorem header_decode_iff bs h :
  is_bytes bs →
  Header_decode bs = Ok h ↔ header_wf h ∧ ∃ rest, bs = Header_encode h ++ rest.
Proof.
  intros Hb. split.
  - intros Hd. destruct (Header_decode_ok bs h Hb Hd) as [Hw He]. eauto.
  - intros [Hw [rest ->]]. by apply Header_decode_encode.
Qed.

Lemma header_decode_iff_witness :
  Header_decode [1; 2; 1; 44; 9] = Ok {| version := 1; flags := 2; payload_len := 300 |} ↔
  header_wf {| version := 1; flags := 2; payload_len := 300 |} ∧
  ∃ rest, [1; 2; 1; 44; 9] = Header_encode {| version := 1; flags := 2; payload_len := 300 |} ++ rest.
Proof.
  apply header_decode_iff. unfold is_bytes, is_u8, u8_max. apply (bool_decide_unpack _).
  vm_compute. exact I.
Defined.

Section crypto_lemmas.
Context `{RL : RingLaws}.

Lemma derive_one_total ikm salt info :
  ∃ k, derive_one ikm salt info = Ok k ∧ len k = 32.
Proof.
  destruct (hkdf_total salt ikm info SUBKEY_LEN) as (k & Hk & ?); [by compute|].
  exists k. unfold derive_one. by rewrite Hk.
Qed.

(** Key derivation cannot fail, and both subkeys have 32 bytes. *)
Lemma derive_total mk :
  ∃ keys, DerivedKeys_derive mk = Ok keys ∧ len (enc keys) = 32 ∧ len (hmac keys) = 32.
Proof.
  destruct (derive_one_total mk ENC_SALT ENC_INFO) as (ke & He & ?).
  destruct (derive_one_total mk HMAC_SALT HMAC_INFO) as (kh & Hh & ?).
  exists {| enc := ke; hmac := kh |}. unfold DerivedKeys_derive. rewrite He; simpl.
  by rewrite Hh.
Qed.

Lemma derive_lens mk keys :
  DerivedKeys_derive mk = Ok keys → len (enc keys) = 32 ∧ len (hmac keys) = 32.
Proof. destruct (derive_total mk) as (? & -> & ?). naive_solver. Qed.

Lemma hmac_sign_32 k m : len (hmac_sign k m) = 32.
Proof. unfold len, hmac_sign. by rewrite hmac_sign_len. Qed.

Lemma hmac_verify_iff k m t : hmac_verify k m t = Ok () ↔ t = hmac_sign k m.
Proof.
  unfold hmac_verify. destruct (Z.eqb_spec (len t) HMAC_LEN) as [Hl|Hl]; simpl.
  - destruct (ring_hmac_verify k m t) eqn:E; [apply hmac_verify_spec in E; naive_solver|].
    split; [done|]. intros ->. by rewrite (proj2 (hmac_verify_spec _ _ _) eq_refl) in E.
  - split; [done|]. intros ->. by rewrite hmac_sign_32 in Hl.
Qed.

(** The only error of [verify] is [HmacFailed]. *)
Lemma hmac_verify_dec k m t :
  hmac_verify k m t = if decide (t = hmac_sign k m) then Ok () else Err HmacFailed.
Proof.
  case_decide as Ht; [by apply hmac_verify_iff|].
  destruct (hmac_verify k m t) as [[]|e] eqn:E; [by apply hmac_verify_iff in E|].
  revert E. unfold hmac_verify. repeat case_match; naive_solver.
Qed.

Lemma aead_seal_ok k n a p c : aead_seal k n a p = Ok c ↔ len k = 32 ∧ ring_seal k n a p = Some c.
Proof.
  unfold aead_seal, KEY_LEN. destruct (Z.eqb_spec (len k) 32); simpl; [|naive_solver].
  rewrite ok_or_ok. naive_solver.
Qed.

(** Opening accepts exactly what sealing produced. *)
Lemma aead_open_ok k n a p c : aead_open k n a c = Ok p ↔ aead_seal k n a p = Ok c.
Proof.
  rewrite aead_seal_ok. unfold aead_open, KEY_LEN.
  destruct (Z.eqb_spec (len k) 32); simpl; [|naive_solver].
  destruct (Z.ltb_spec (len c) TAG_LEN) as [Hc|].
  - split; [done|]. intros [_ Hs]. apply seal_len in Hs.
    pose proof (len_nonneg p). unfold TAG_LEN in Hc. lia.
  - rewrite ok_or_ok, open_spec. naive_solver.
Qed.
End crypto_lemmas.

Lemma SpaPayload_encode_ok `{Rmp SpaPayload} p v :
  SpaPayload_encode p = Ok v ↔ rmp_to_vec p = Ok v ∧ len v ≤ MAX_ENCODED_LEN.
Proof.
  unfold SpaPayload_encode. destruct (rmp_to_vec p) as [v'|]; simpl; [|naive_solver].
  rewrite Z.gtb_ltb. destruct (Z.ltb_spec MAX_ENCODED_LEN (len v')); naive_solver lia.
Qed.
