(* ===== verification/Instances.v ===== *)
(** * Concrete instances of the external interfaces

    Executable functions that satisfy the laws of [Ring] and [Rmp]. They carry
    no security: they show that the laws are consistent and let the theorems
    be run on concrete packets. *)

From S2P Require Import Prelude RustStd Net Proto.

(** A one-byte checksum of a byte string. *)
Definition checksum (bs : bytes) : Z := foldl (λ a b, (a * 31 + b + 7) mod 256) 5 bs.

Definition toy_seal (k n a p : bytes) : option bytes :=
  if (len k =? 32) && (len n =? 12) then Some (p ++ replicate 16 (checksum (k ++ n ++ a ++ p)))
  else None.

Definition toy_open (k n a c : bytes) : option bytes :=
  let p := take (length c - 16) c in
  if decide (toy_seal k n a p = Some c) then Some p else None.

#[global] Instance toy_ring : Ring := {
  ring_hmac_sign k m := replicate 32 (checksum (k ++ m));
  ring_hmac_verify k m t := bool_decide (t = replicate 32 (checksum (k ++ m)));
  ring_hkdf salt ikm info n :=
    if (0 <=? n) && (n <=? 255 * 32) then Some (fill n (checksum (salt ++ ikm ++ info))) else None;
  ring_seal := toy_seal;
  ring_open := toy_open
}.

#[global] Instance toy_ring_laws : RingLaws toy_ring.
Proof.
  split; cbn -[replicate].
  - done.
  - intros. apply bool_decide_eq_true.
  - intros salt ikm info n Hn. eexists. rewrite (proj2 (andb_true_iff _ _)) by lia.
    split; [done|]. unfold len. rewrite length_replicate. lia.
  - intros k n a p Hk Hn. unfold toy_seal. rewrite Hk, Hn. eauto.
  - intros k n a p c. unfold toy_seal. case_match; [|done]. intros [= <-].
    by rewrite len_app.
  - intros k n a p c. unfold toy_open. split.
    + case_decide; naive_solver.
    + intros Hs. assert (take (length c - 16) c = p) as ->.
      { revert Hs. unfold toy_seal. case_match; [|done]. intros [= <-].
        apply take_app_length'. rewrite length_app. simpl. lia. }
      by rewrite decide_True.
Qed.

(** A codec for a finite table of values: a value is written as its index. *)
Section table.
Context {A : Type} `{EqDecision A} `{Portable A} (samples : list A).

Definition table_to_vec (a : A) : result str bytes :=
  match list_find (λ x, x = a) samples with
  | Some (i, _) => Ok [Z.of_nat i]
  | None => Err (lit "value not in table")
  end.

Definition table_from_slice (bs : bytes) : result str A :=
  match bs with
  | [i] => ok_or (lit "index out of table") (samples !! Z.to_nat i)
  | _ => Err (lit "not an index")
  end.

Definition table_rmp : Rmp A :=
  {| rmp_to_vec := table_to_vec; rmp_from_slice := table_from_slice |}.

Lemma table_rmp_laws : Forall portable samples → @RmpLaws A table_rmp _.
Proof.
  intros Hs. constructor.
  - intros a v _. simpl. unfold table_to_vec.
    destruct (list_find _ _) as [[i x]|] eqn:E; [|done]. intros [= <-].
    apply list_find_Some in E as (Hi & -> & _). simpl. by rewrite Nat2Z.id, Hi.
  - intros v a. simpl. unfold table_from_slice. destruct v as [|i [|]]; try done.
    destruct (samples !! Z.to_nat i) as [x|] eqn:E; [|done]. intros [= <-].
    by eapply Forall_lookup_1 in E.
Qed.
End table.
