(* ===== verification/Serde.v ===== *)
(** * How payloads are serialised

    crates/fwknox-proto/src/types.rs serialises the addresses of a message as
    text (the modules [serde_ip] and [serde_sock]); the derived
    implementations serialise everything else field by field.  The codec
    rmp_serde is therefore a parameter at the forms below, in which an address
    is a string, and the codec of a payload is derived from it.  This file
    shows that the derived codec has the laws the protocol relies on. *)

From S2P Require Import Prelude RustStd Net NetText Proto Instances.

(** ** The serialised forms *)

Inductive WireMessage :=
  | WireAccess (source_ip : str) (ports : list PortProto)
  | WireNat (source_ip : str) (ports : list PortProto) (nat_dest : str)
  | WireLocalNat (source_ip : str) (ports : list PortProto) (nat_dest : str)
  | WireCommand (source_ip : str) (command : str).

Record WirePayload := {
  wire_nonce : bytes;
  wire_timestamp : Z;
  wire_username : str;
  wire_message : WireMessage;
  wire_client_timeout : option Z
}.

#[global] Instance WireMessage_eq_dec : EqDecision WireMessage.
Proof. solve_decision. Defined.
#[global] Instance WirePayload_eq_dec : EqDecision WirePayload.
Proof. solve_decision. Defined.

(** ** serde_ip and serde_sock *)

(** [serde::de::Error::custom]: the text of the codec's error for a message. *)
Class SerdeError := serde_custom : str → str.

Definition serde_ip_serialize (ip : IpAddr) : str := show_ip ip.

Definition serde_ip_deserialize `{SerdeError} (raw : str) : result str IpAddr :=
  ok_or (serde_custom (lit "invalid IP address syntax")) (parse_ip raw).

Definition serde_sock_serialize (addr : SocketAddr) : str := show_sock addr.

Definition serde_sock_deserialize `{SerdeError} (raw : str) : result str SocketAddr :=
  ok_or (serde_custom (lit "invalid socket address syntax")) (parse_sock raw).

Section derived.
Context `{SE : SerdeError}.

Definition serialize_message (m : SpaMessage) : WireMessage :=
  match m with
  | Access ip ports => WireAccess (serde_ip_serialize ip) ports
  | Nat ip ports dest => WireNat (serde_ip_serialize ip) ports (serde_sock_serialize dest)
  | LocalNat ip ports dest => WireLocalNat (serde_ip_serialize ip) ports (serde_sock_serialize dest)
  | Command ip command => WireCommand (serde_ip_serialize ip) command
  end.

Definition deserialize_message (w : WireMessage) : result str SpaMessage :=
  match w with
  | WireAccess ip ports => ip ← serde_ip_deserialize ip; Ok (Access ip ports)
  | WireNat ip ports dest =>
      ip ← serde_ip_deserialize ip; dest ← serde_sock_deserialize dest; Ok (Nat ip ports dest)
  | WireLocalNat ip ports dest =>
      ip ← serde_ip_deserialize ip; dest ← serde_sock_deserialize dest; Ok (LocalNat ip ports dest)
  | WireCommand ip command => ip ← serde_ip_deserialize ip; Ok (Command ip command)
  end.

Definition serialize_payload (p : SpaPayload) : WirePayload := {|
  wire_nonce := nonce p; wire_timestamp := timestamp p; wire_username := username p;
  wire_message := serialize_message (message p); wire_client_timeout := client_timeout p |}.

Definition deserialize_payload (w : WirePayload) : result str SpaPayload :=
  message ← deserialize_message (wire_message w);
  Ok {| nonce := wire_nonce w; timestamp := wire_timestamp w; username := wire_username w;
        message := message; client_timeout := wire_client_timeout w |}.

(** The codec of a payload. When both an address and a later field are
    malformed, which of the two texts the error carries is the codec's
    affair; the daemon only logs it. *)
Definition payload_rmp `{W : Rmp WirePayload} : Rmp SpaPayload := {|
  rmp_to_vec p := rmp_to_vec (serialize_payload p);
  rmp_from_slice bs := w ← rmp_from_slice bs; deserialize_payload w
|}.

(** What survives of a message. *)
Definition drop_flowinfo (m : SpaMessage) : SpaMessage :=
  match m with
  | Nat ip ports dest => Nat ip ports (without_flowinfo dest)
  | LocalNat ip ports dest => LocalNat ip ports (without_flowinfo dest)
  | m => m
  end.

(** ** Laws *)

Definition wire_ports (w : WireMessage) : list PortProto :=
  match w with
  | WireAccess _ ports | WireNat _ ports _ | WireLocalNat _ ports _ => ports
  | WireCommand _ _ => []
  end.

(** The values of the Rust types. *)
#[global] Instance wire_portable : Portable WirePayload := λ w,
  (length (wire_nonce w) = 16%nat ∧ is_bytes (wire_nonce w)) ∧ is_i64 (wire_timestamp w) ∧
  ports_typed (wire_ports (wire_message w)) ∧
  match wire_client_timeout w with Some t => is_u32 t | None => True end.

Lemma show_sock_flowinfo a : serde_sock_serialize (without_flowinfo a) = serde_sock_serialize a.
Proof. by destruct a. Qed.

Lemma ip_roundtrip ip : ip_wf ip → serde_ip_deserialize (serde_ip_serialize ip) = Ok ip.
Proof. intros Hip. unfold serde_ip_deserialize, serde_ip_serialize. by rewrite parse_show_ip. Qed.

Lemma sock_roundtrip a :
  sock_wf a → serde_sock_deserialize (serde_sock_serialize a) = Ok (without_flowinfo a).
Proof. intros Ha. unfold serde_sock_deserialize, serde_sock_serialize. by rewrite parse_show_sock. Qed.

Lemma ip_deserialize_wf raw ip : serde_ip_deserialize raw = Ok ip → ip_wf ip.
Proof. unfold serde_ip_deserialize. rewrite ok_or_ok. apply parse_ip_wf. Qed.

Lemma sock_deserialize_wf raw a :
  serde_sock_deserialize raw = Ok a → sock_wf a ∧ without_flowinfo a = a.
Proof.
  unfold serde_sock_deserialize. rewrite ok_or_ok. intros Ha. split; [by eapply parse_sock_wf|].
  by eapply parse_sock_flowinfo.
Qed.

Lemma message_roundtrip m :
  message_portable m → deserialize_message (serialize_message m) = Ok m.
Proof.
  destruct m; cbn [message_portable serialize_message deserialize_message];
    [intros [Hip _]|intros (Hip&_&Hs&He)|intros (Hip&_&Hs&He)|intros Hip];
    rewrite ip_roundtrip by done; cbn [mbind result_bind]; [done| | |done];
    rewrite sock_roundtrip by done; cbn [mbind result_bind]; by rewrite He.
Qed.

Lemma deserialized_portable w m :
  ports_typed (wire_ports w) → deserialize_message w = Ok m → message_portable m.
Proof.
  intros Hp Hd. destruct w; cbn [deserialize_message wire_ports] in *; inv_ok; subst;
    cbn [message_portable]; repeat match goal with
    | H : serde_ip_deserialize _ = Ok _ |- _ => apply ip_deserialize_wf in H
    | H : serde_sock_deserialize _ = Ok _ |- _ => apply sock_deserialize_wf in H as [? ?]
    end; by split_and?.
Qed.

Lemma serialize_portable p : portable p → portable (serialize_payload p).
Proof.
  intros (Hn&Ht&Hm&Hc). split_and!; [apply Hn|apply Hn|done| |done]. cbn.
  destruct (message p); cbn [message_portable serialize_message wire_ports] in *; naive_solver constructor.
Qed.

Lemma payload_roundtrip p : portable p → deserialize_payload (serialize_payload p) = Ok p.
Proof.
  intros (_&_&Hm&_). unfold deserialize_payload. cbn [wire_message serialize_payload].
  rewrite message_roundtrip by done. by destruct p.
Qed.

Lemma deserialize_portable w p : portable w → deserialize_payload w = Ok p → portable p.
Proof.
  unfold deserialize_payload. intros (Hn&Ht&Hp&Hc) Hd. inv_ok. subst.
  split_and!; [apply Hn|apply Hn|done| |done]. by eapply deserialized_portable.
Qed.

Lemma payload_rmp_laws `{W : Rmp WirePayload} `{WL : !RmpLaws WirePayload} : @RmpLaws SpaPayload payload_rmp _.
Proof.
  constructor.
  - intros p v Hp Hv. cbn in *. rewrite (rmp_roundtrip _ _ (serialize_portable p Hp) Hv).
    by apply payload_roundtrip.
  - intros v p Hv. cbn in Hv. inv_ok. eapply deserialize_portable; [|done]. by eapply rmp_portable.
Qed.

(** C35: serialising a payload and deserialising the result gives the payload
    back, for IPv4 and IPv6 sources in every text form they print to, except
    that the flow label of a NAT destination comes back as zero, because the
    text form of a socket address does not hold it. *)
Theorem payload_serde_roundtrip p :
  portable {| nonce := nonce p; timestamp := timestamp p; username := username p;
              message := drop_flowinfo (message p); client_timeout := client_timeout p |} →
  deserialize_payload (serialize_payload p) =
    Ok {| nonce := nonce p; timestamp := timestamp p; username := username p;
          message := drop_flowinfo (message p); client_timeout := client_timeout p |}.
Proof.
  intros Hp. rewrite <- (payload_roundtrip _ Hp). f_equal. unfold serialize_payload. cbn. f_equal.
  destruct (message p); cbn; f_equal; by rewrite show_sock_flowinfo.
Qed.
End derived.

(** ** Witness *)

(** A destination with a scope and a flow label: the label is lost. *)
Definition nat_payload (flowinfo : Z) : SpaPayload := {|
  nonce := replicate 16 1; timestamp := 0; username := [];
  message := Nat (V6 (254 :: 128 :: replicate 13 0 ++ [1])) [PortProto_new Udp 53]
                 (SockV6 (254 :: 128 :: replicate 13 0 ++ [2]) 53 flowinfo 3);
  client_timeout := None |}.

Lemma payload_serde_roundtrip_witness :
  @deserialize_payload (λ m, m) (serialize_payload (nat_payload 7)) = Ok (nat_payload 0).
Proof.
  apply (@payload_serde_roundtrip (λ m, m) (nat_payload 7)).
  repeat split; try (apply (bool_decide_unpack _); vm_compute; exact I); done.
Defined.
