(* ===== verification/Packet.v ===== *)
(** * fwknox-proto: packet construction, parsing and clock validation

    Models crates/fwknox-proto/src/packet.rs and validate.rs, and proves that
    parsing inverts building, that an accepted packet is exactly one that a
    holder of the key can build, that the HMAC decides before anything else,
    and that the size checks and the clock check do what they promise. *)

From S2P Require Import Prelude RustStd Net Proto Instances NetText Serde.

(** ** packet.rs *)

Definition MASTER_KEY_LEN : Z := 32.
Definition MAX_PACKET_LEN : Z := 1500.
Definition MIN_PACKET_LEN : Z := HEADER_LEN + NONCE_LEN + TAG_LEN + HMAC_LEN.

Definition derive_flags (m : SpaMessage) (has_client_timeout : bool) : Flags :=
  let f := match m with
           | Access _ _ => Flags_new
           | Nat _ _ _ | LocalNat _ _ _ => Flags_set Flags_new FLAG_NAT
           | Command _ _ => Flags_set Flags_new FLAG_COMMAND
           end in
  if has_client_timeout then Flags_set f FLAG_CLIENT_TIMEOUT else f.

Definition check_flags_match_payload (f : Flags) (p : SpaPayload) : result ProtoError unit :=
  let expected := derive_flags (message p) (bool_decide (is_Some (client_timeout p))) in
  if negb (f =? expected) then Err (InvalidField (lit "flag/payload mismatch")) else Ok ().

Section packet.
Context `{Ring, Rmp SpaPayload}.

Definition build_packet (payload : SpaPayload) (master_key : bytes) (rng : option bytes)
  : result ProtoError bytes :=
  _ ← guard_err (negb (len master_key =? MASTER_KEY_LEN))
        (InvalidField (lit "master_key must be 32 bytes"));
  plaintext ← SpaPayload_encode payload;
  nonce ← generate_nonce rng;
  let flags := derive_flags (message payload) (bool_decide (is_Some (client_timeout payload))) in
  _ ← guard_err (len plaintext + TAG_LEN >? u16_max)
        (PacketTooLong (len plaintext + TAG_LEN) u16_max);
  let header_bytes := Header_encode (Header_new flags (len plaintext + TAG_LEN)) in
  keys ← DerivedKeys_derive master_key;
  ciphertext ← aead_seal (enc keys) nonce header_bytes plaintext;
  let signed := header_bytes ++ nonce ++ ciphertext in
  let packet := signed ++ hmac_sign (hmac keys) signed in
  _ ← guard_err (len packet >? MAX_PACKET_LEN) (PacketTooLong (len packet) MAX_PACKET_LEN);
  Ok packet.

(** The slice ranges are in bounds because of [MIN_PACKET_LEN]. *)
Definition parse_packet (wire master_key : bytes) : result ProtoError SpaPayload :=
  _ ← guard_err (negb (len master_key =? MASTER_KEY_LEN))
        (InvalidField (lit "master_key must be 32 bytes"));
  _ ← guard_err (len wire <? MIN_PACKET_LEN) (PacketTooShort (len wire) MIN_PACKET_LEN);
  _ ← guard_err (len wire >? MAX_PACKET_LEN) (PacketTooLong (len wire) MAX_PACKET_LEN);
  let signed := take (Z.to_nat (len wire - HMAC_LEN)) wire in
  let tag := drop (Z.to_nat (len wire - HMAC_LEN)) wire in
  keys ← DerivedKeys_derive master_key;
  _ ← hmac_verify (hmac keys) signed tag;
  let header_bytes := take (Z.to_nat HEADER_LEN) signed in
  header ← Header_decode header_bytes;
  let nonce := take (Z.to_nat NONCE_LEN) (drop (Z.to_nat HEADER_LEN) signed) in
  let ciphertext := drop (Z.to_nat (HEADER_LEN + NONCE_LEN)) signed in
  _ ← guard_err (negb (len ciphertext =? payload_len header))
        (InvalidField (lit "payload_len mismatch"));
  plaintext ← aead_open (enc keys) nonce header_bytes ciphertext;
  payload ← SpaPayload_decode plaintext;
  _ ← check_flags_match_payload (flags header) payload;
  Ok payload.
End packet.

(** ** validate.rs *)

Definition DEFAULT_MAX_AGE_SECS : Z := 120.
Definition DEFAULT_MAX_SKEW_SECS : Z := 30.

(** The two [i64] operations that can leave the range, the subtraction and the
    negations, wrap as in the release profile. *)
Definition validate_against_clock (p : SpaPayload) (now_unix max_age_secs max_skew_secs : Z)
  : result ProtoError unit :=
  let delta := wrap_i64 (now_unix - timestamp p) in
  if delta <? wrap_i64 (- max_skew_secs) then Err (PacketInFuture (wrap_i64 (- delta)))
  else if delta >? max_age_secs then Err (PacketTooOld delta max_age_secs)
  else Ok ().

(** ** Wire layout *)

(** The bytes a packet with given keys, flags, nonce and ciphertext has. *)
Definition wire_of `{Ring} (keys : DerivedKeys) (f : Flags) (n ct : bytes) : bytes :=
  let signed := Header_encode (Header_new f (len ct)) ++ n ++ ct in
  signed ++ hmac_sign (hmac keys) signed.

(** Header, nonce and ciphertext make up the signed part. *)
Lemma signed_split (s : bytes) : take 4 s ++ take 12 (drop 4 s) ++ drop 16 s = s.
Proof. change 16%nat with (4 + 12)%nat. by rewrite <- drop_drop, !take_drop. Qed.

Lemma derive_flags_valid m b : Flags_from_raw (derive_flags m b) = Ok (derive_flags m b).
Proof. by destruct m, b. Qed.

Lemma check_flags_ok f p :
  check_flags_match_payload f p = Ok () ↔
  f = derive_flags (message p) (bool_decide (is_Some (client_timeout p))).
Proof.
  unfold check_flags_match_payload. destruct (Z.eqb_spec f
    (derive_flags (message p) (bool_decide (is_Some (client_timeout p))))); naive_solver.
Qed.

Section layout.
Context `{RL : RingLaws} `{RS : Rmp SpaPayload}.

Lemma wire_of_len keys f n ct : len n = 12 → len (wire_of keys f n ct) = len ct + 48.
Proof.
  intros Hn. unfold wire_of. rewrite len_app, hmac_sign_32, !len_app, Header_encode_len, Hn.
  unfold HEADER_LEN. lia.
Qed.

(** What is left of [parse_packet] once the lengths are in range, the tag is
    right and the header decodes. *)
Lemma parse_wire_of mk keys f n ct :
  len mk = 32 → DerivedKeys_derive mk = Ok keys → len n = 12 →
  Flags_from_raw f = Ok f → 16 ≤ len ct ≤ 1452 →
  parse_packet (wire_of keys f n ct) mk =
    (plaintext ← aead_open (enc keys) n (Header_encode (Header_new f (len ct))) ct;
     payload ← SpaPayload_decode plaintext;
     _ ← check_flags_match_payload f payload; Ok payload).
Proof.
  intros Hmk Hk Hn Hf Hct. unfold parse_packet. rewrite (wire_of_len keys f n ct Hn).
  unfold guard_err. rewrite Hmk.
  rewrite (proj2 (Z.ltb_ge _ _)) by (unfold MIN_PACKET_LEN, HEADER_LEN, NONCE_LEN, TAG_LEN, HMAC_LEN; lia).
  rewrite Z.gtb_ltb, (proj2 (Z.ltb_ge _ _)) by (unfold MAX_PACKET_LEN; lia).
  unfold wire_of. set (h := Header_encode (Header_new f (len ct))).
  assert (len h = 4) as Hh by done.
  assert (Z.to_nat (len ct + 48 - HMAC_LEN) = length (h ++ n ++ ct)) as ->.
  { rewrite !length_app. unfold len, HMAC_LEN in *. lia. }
  rewrite take_app_length, drop_app_length.
  cbn [mbind result_bind negb]. rewrite Hk. cbn [mbind result_bind].
  rewrite (proj2 (hmac_verify_iff _ _ _)) by done. cbn [mbind result_bind].
  rewrite (take_app_len h), (drop_app_len h), (take_app_len n) by done.
  assert (Header_decode h = Ok (Header_new f (len ct))) as ->.
  { rewrite <- (app_nil_r h). apply Header_decode_encode.
    split_and!; [done|done|unfold is_u16, u16_max; simpl; lia]. }
  cbn [mbind result_bind payload_len flags Header_new].
  rewrite (assoc_L _ h n ct), (drop_app_len (h ++ n)) by (by rewrite len_app, Hh, Hn).
  by rewrite Z.eqb_refl.
Qed.

Lemma build_packet_inv p mk rng wire :
  build_packet p mk rng = Ok wire →
  ∃ n pt keys ct,
    rng = Some n ∧ len mk = 32 ∧ rmp_to_vec p = Ok pt ∧ len pt ≤ 1024 ∧
    DerivedKeys_derive mk = Ok keys ∧
    let f := derive_flags (message p) (bool_decide (is_Some (client_timeout p))) in
    aead_seal (enc keys) n (Header_encode (Header_new f (len ct))) pt = Ok ct ∧
    len ct = len pt + 16 ∧ wire = wire_of keys f n ct.
Proof.
  unfold build_packet, generate_nonce. intros Hb. inv_ok. bool_prop.
  match goal with He : SpaPayload_encode _ = Ok _ |- _ =>
    apply SpaPayload_encode_ok in He as [? ?] end.
  match goal with Hs : aead_seal (enc ?keys) ?n _ ?pt = Ok ?ct |- _ =>
    pose proof Hs as Hl; apply aead_seal_ok in Hl as [_ Hl]; apply seal_len in Hl;
    exists n, pt, keys, ct end.
  unfold wire_of, TAG_LEN, MASTER_KEY_LEN in *. rewrite Hl. by split_and!.
Qed.
End layout.

(** ** Properties *)

Section properties.
Context `{RL : RingLaws} `{RS : Rmp SpaPayload} `{PL : !RmpLaws SpaPayload}.

Lemma built_short p mk rng wire : build_packet p mk rng = Ok wire → len wire ≤ MAX_PACKET_LEN.
Proof. unfold build_packet. intros Hb. inv_ok. subst. rewrite Z.gtb_ltb in *. by apply Z.ltb_ge. Qed.

Lemma parse_built p mk n wire :
  portable p → len n = NONCE_LEN → build_packet p mk (Some n) = Ok wire →
  parse_packet wire mk = (_ ← validate_structure p; Ok p).
Proof.
  intros Hport Hn Hb. apply build_packet_inv in Hb
    as (n' & pt & keys & ct & [= <-] & Hmk & Hpt & Hlen & Hk & Hs & Hct & ->).
  pose proof (len_nonneg pt).
  rewrite parse_wire_of by (done || apply derive_flags_valid || lia).
  rewrite (proj2 (aead_open_ok _ _ _ _ _) Hs). simpl.
  unfold SpaPayload_decode. rewrite (rmp_roundtrip _ _ Hport Hpt). simpl.
  destruct (validate_structure p) as [[]|]; simpl; [|done].
  by rewrite (proj2 (check_flags_ok _ _)).
Qed.

(** C20: a packet built under a key parses under the same key to the payload
    it was built from (a payload of the Rust type whose NAT destination, if
    any, has no flow label), unless the payload's user name is one the receiver
    refuses, and then with that refusal: the sender does not check it. *)
Theorem build_parse_roundtrip p mk n wire :
  portable p → len n = NONCE_LEN → build_packet p mk (Some n) = Ok wire →
  parse_packet wire mk = (_ ← validate_structure p; Ok p).
Proof. apply parse_built. Qed.

Lemma parsed_portable wire mk p :
  parse_packet wire mk = Ok p → portable p ∧ validate_structure p = Ok ().
Proof.
  unfold parse_packet, SpaPayload_decode. intros Hp. inv_ok. subst.
  repeat match goal with u : unit |- _ => destruct u end.
  split; [by eapply rmp_portable|done].
Qed.

(** Whatever a packet contains, the payload that parsing returns has the
    types of the Rust structure: a nonce of 16 bytes, a 64-bit timestamp, an
    address of 4 or 16 bytes, 16-bit ports, a 32-bit timeout; and it passed the
    structural checks. *)
Theorem parsed_payload_typed wire mk p :
  parse_packet wire mk = Ok p → portable p ∧ validate_structure p = Ok ().
Proof. apply parsed_portable. Qed.

(** A payload whose encoding fits the 1024-byte budget always becomes a
    packet, of exactly 64 more bytes and so far below the 1500-byte limit:
    the two [PacketTooLong] branches of [build_packet] are unreachable. *)
Theorem build_packet_total p mk n v :
  rmp_to_vec p = Ok v → len v ≤ MAX_ENCODED_LEN → len mk = MASTER_KEY_LEN → len n = NONCE_LEN →
  ∃ wire, build_packet p mk (Some n) = Ok wire ∧ len wire = len v + 64 ∧ len wire ≤ 1088.
Proof.
  intros Hv Hl Hmk Hn. destruct (derive_total mk) as (keys & Hk & He & _).
  destruct (seal_total (enc keys) n
    (Header_encode (Header_new (derive_flags (message p)
       (bool_decide (is_Some (client_timeout p)))) (len v + TAG_LEN))) v) as (ct & Hct); [done..|].
  pose proof (seal_len _ _ _ _ _ Hct) as Hlct.
  set (h := Header_encode _) in Hct. assert (len h = 4) as Hh by done.
  assert (len (h ++ n ++ ct ++ hmac_sign (hmac keys) (h ++ n ++ ct)) = len v + 64) as Hw.
  { rewrite !len_app, Hh, Hn, hmac_sign_32, Hlct. unfold NONCE_LEN. lia. }
  exists (h ++ n ++ ct ++ hmac_sign (hmac keys) (h ++ n ++ ct)).
  unfold MAX_ENCODED_LEN, u16_max in *. rewrite Hw. split; [|lia].
  unfold build_packet. rewrite Hmk. cbn [guard_err negb Z.eqb mbind result_bind].
  rewrite (proj2 (SpaPayload_encode_ok p v)) by done.
  cbn [mbind result_bind generate_nonce ok_or].
  rewrite Z.gtb_ltb, (proj2 (Z.ltb_ge _ (len v + _))) by (unfold u16_max, TAG_LEN; lia).
  cbn [mbind result_bind guard_err]. rewrite Hk. cbn [mbind result_bind]. fold h.
  rewrite (proj2 (aead_seal_ok _ _ _ _ _)) by done. cbn [mbind result_bind].
  rewrite <- !(assoc_L (++)), Hw.
  by rewrite Z.gtb_ltb, (proj2 (Z.ltb_ge _ _)) by (unfold MAX_PACKET_LEN; lia).
Qed.

(** Within the length limits the HMAC alone decides whether a packet is
    for this key: parsing fails with [HmacFailed] exactly when the trailing
    32 bytes are not the tag of the bytes before them, whatever those are. *)
Theorem hmac_decides wire mk keys :
  len mk = MASTER_KEY_LEN → MIN_PACKET_LEN ≤ len wire ≤ MAX_PACKET_LEN →
  DerivedKeys_derive mk = Ok keys →
  let k := Z.to_nat (len wire - HMAC_LEN) in
  parse_packet wire mk = Err HmacFailed ↔
  drop k wire ≠ hmac_sign (hmac keys) (take k wire).
Proof.
  intros Hmk Hw Hk k. unfold parse_packet, guard_err. rewrite Hmk, Z.eqb_refl.
  rewrite (proj2 (Z.ltb_ge (len wire) _)), Z.gtb_ltb, (proj2 (Z.ltb_ge _ (len wire))) by lia.
  cbn [negb mbind result_bind]. rewrite Hk. cbn [mbind result_bind].
  rewrite hmac_verify_dec. fold k. case_decide as Ht; [|by simpl].
  cbn [mbind result_bind]. split; [|done]. intros He. exfalso. revert He.
  unfold Header_decode, Flags_from_raw, aead_open, SpaPayload_decode, validate_structure,
    check_flags_match_payload, ok_or, map_err, mbind, result_bind.
  by repeat (case_match; simplify_eq).
Qed.

(** C2: authenticity. A packet is accepted under a key if and only if it is,
    byte for byte, the wire form that key produces for some nonce and for a
    plaintext that decodes to the payload, with the header flags the payload
    calls for. *)
Theorem parse_accepts_iff wire mk p :
  is_bytes wire →
  parse_packet wire mk = Ok p ↔
  ∃ keys n pt ct,
    len mk = MASTER_KEY_LEN ∧ DerivedKeys_derive mk = Ok keys ∧ len n = NONCE_LEN ∧
    let f := derive_flags (message p) (bool_decide (is_Some (client_timeout p))) in
    aead_seal (enc keys) n (Header_encode (Header_new f (len ct))) pt = Ok ct ∧
    wire = wire_of keys f n ct ∧ len wire ≤ MAX_PACKET_LEN ∧ SpaPayload_decode pt = Ok p.
Proof.
  intros Hb. split.
  - unfold parse_packet. intros Hp. inv_ok. bool_prop.
    unfold MIN_PACKET_LEN, MAX_PACKET_LEN, HEADER_LEN, NONCE_LEN, TAG_LEN, HMAC_LEN in *.
    set (k := Z.to_nat (len wire - 32)) in *.
    repeat match goal with u : unit |- _ => destruct u end.
    match goal with Hc : check_flags_match_payload _ _ = _ |- _ =>
      apply check_flags_ok in Hc as Hflags end.
    match goal with Hv : hmac_verify _ _ _ = _ |- _ => apply hmac_verify_iff in Hv as Htag end.
    match goal with Hh : Header_decode _ = Ok ?h |- _ =>
      apply Header_decode_ok in Hh as [(Hver & _ & _) Hhdr]; [|by do 2 apply Forall_take];
      assert (h = Header_new (flags h) (payload_len h)) as Heq
        by (destruct h; simpl in *; by subst) end.
    rewrite drop_ge, app_nil_r in Hhdr by (rewrite length_take; lia).
    match goal with Hl : len (drop _ _) = payload_len _ |- _ => rename Hl into Hplen end.
    match goal with Ho : aead_open (enc ?keys) ?n _ ?c = Ok ?pt |- _ =>
      apply aead_open_ok in Ho; exists keys, n, pt, c end.
    subst p. rewrite <- Hflags, Hplen, <- Heq, <- Hhdr. split_and!; try done.
    + rewrite len_take, len_drop, len_take. unfold k. lia.
    + unfold wire_of. rewrite Hplen, <- Heq, <- Hhdr.
      change (Z.to_nat 4) with 4%nat. change (Z.to_nat 12) with 12%nat.
      change (Z.to_nat (4 + 12)) with 16%nat. by rewrite signed_split, <- Htag, take_drop.
  - intros (keys & n & pt & ct & Hmk & Hk & Hn & Hs & -> & Hl & Hd).
    rewrite wire_of_len in Hl by done. pose proof Hs as Hc.
    apply aead_seal_ok in Hc as [_ Hc]. apply seal_len in Hc. pose proof (len_nonneg pt).
    unfold MAX_PACKET_LEN in Hl.
    rewrite parse_wire_of by (done || apply derive_flags_valid || lia).
    rewrite (proj2 (aead_open_ok _ _ _ _ _) Hs). simpl. rewrite Hd. simpl.
    by rewrite (proj2 (check_flags_ok _ _)).
Qed.
End properties.

(** C38: the clock check accepts exactly the timestamps from [max_age] seconds
    ago to [max_skew] seconds ahead, for every 64-bit timestamp: the wrapping
    subtraction never lets a packet in or keeps one out. *)
Theorem clock_window p now max_age max_skew :
  is_i64 (timestamp p) → 0 ≤ now → 0 ≤ max_skew → now + max_skew ≤ i64_max →
  0 ≤ max_age ≤ i64_max →
  validate_against_clock p now max_age max_skew = Ok () ↔
  now - max_age ≤ timestamp p ≤ now + max_skew.
Proof.
  intros Ht Hn Hs Hns Ha. unfold validate_against_clock.
  unfold is_i64, i64_min, i64_max in *.
  rewrite (wrap_i64_id (- max_skew)) by (unfold is_i64, i64_min, i64_max; lia).
  destruct (decide (now - timestamp p ≤ 9223372036854775807)) as [Hd|Hd].
  - rewrite (wrap_i64_id (now - _)) by (unfold is_i64, i64_min, i64_max; lia).
    rewrite Z.gtb_ltb. repeat case_match; bool_prop; split; try done; lia.
  - assert (wrap_i64 (now - timestamp p) = now - timestamp p - 2 ^ 64) as ->.
    { unfold wrap_i64. rewrite <- (Z.mod_add _ (-1)) by lia. rewrite Z.mod_small; lia. }
    rewrite (proj2 (Z.ltb_lt _ _)) by lia. split; [done|lia].
Qed.

(** ** Witnesses *)

Definition sample_payload : SpaPayload := {|
  nonce := replicate 16 171; timestamp := 1700000000; username := lit "alice";
  message := Access (V4 [192; 168; 1; 5]) [PortProto_new Tcp 22];
  client_timeout := Some 60 |}.
Definition bad_user_payload : SpaPayload := {|
  nonce := replicate 16 9; timestamp := 1700000000; username := [97; 7];
  message := Command (V4 [10; 0; 0; 1]) (lit "/bin/true");
  client_timeout := None |}.
Definition sample_key : bytes := replicate 32 17.
Definition sample_nonce : bytes := replicate 12 34.
(** A codec for two serialised payloads, and the payload codec it gives. *)
#[global] Instance plain_serde_error : SerdeError := λ msg, msg.
Definition sample_wire_rmp : Rmp WirePayload :=
  table_rmp (serialize_payload <$> [sample_payload; bad_user_payload]).
Definition sample_rmp : Rmp SpaPayload := @payload_rmp _ sample_wire_rmp.
#[local] Existing Instance sample_rmp.

Lemma sample_rmp_laws : RmpLaws SpaPayload.
Proof.
  apply (@payload_rmp_laws _ sample_wire_rmp), table_rmp_laws.
  repeat constructor; apply (bool_decide_unpack _); vm_compute; exact I.
Qed.
#[local] Existing Instance sample_rmp_laws.

Lemma sample_portable : portable sample_payload ∧ portable bad_user_payload.
Proof. split; (split_and!; [| | |split_and?|]; try done; apply (bool_decide_unpack _); vm_compute; exact I). Qed.

Definition build_or_nil (p : SpaPayload) (k n : bytes) : bytes :=
  match build_packet p k (Some n) with Ok w => w | Err _ => [] end.
Definition sample_wire : bytes := build_or_nil sample_payload sample_key sample_nonce.
Definition bad_user_wire : bytes := build_or_nil bad_user_payload sample_key sample_nonce.

Lemma build_parse_roundtrip_witness :
  parse_packet sample_wire sample_key = Ok sample_payload ∧
  parse_packet bad_user_wire sample_key =
    Err (InvalidField (lit "username contains control bytes")).
Proof.
  split.
  - rewrite (build_parse_roundtrip sample_payload sample_key sample_nonce sample_wire (proj1 sample_portable));
      vm_compute; reflexivity.
  - rewrite (build_parse_roundtrip bad_user_payload sample_key sample_nonce bad_user_wire (proj2 sample_portable));
      vm_compute; reflexivity.
Defined.

Lemma parsed_payload_typed_witness : portable sample_payload ∧ validate_structure sample_payload = Ok ().
Proof. apply (parsed_payload_typed sample_wire sample_key). vm_compute. reflexivity. Defined.

Lemma build_packet_total_witness :
  ∃ wire, build_packet sample_payload sample_key (Some sample_nonce) = Ok wire ∧
          len wire = len [0] + 64 ∧ len wire ≤ 1088.
Proof. apply (build_packet_total sample_payload sample_key sample_nonce [0]); by vm_compute. Defined.

Definition sample_keys : DerivedKeys :=
  match DerivedKeys_derive sample_key with
  | Ok k => k
  | Err _ => {| enc := []; hmac := [] |}
  end.

Lemma hmac_decides_witness :
  parse_packet (replicate 64 0) sample_key = Err HmacFailed ∧
  parse_packet sample_wire sample_key ≠ Err HmacFailed.
Proof.
  split.
  - apply (hmac_decides (replicate 64 0) sample_key sample_keys); by vm_compute.
  - intros E. revert E. rewrite (hmac_decides sample_wire sample_key sample_keys); by vm_compute.
Defined.

Lemma parse_accepts_iff_witness :
  ∃ keys n pt ct,
    len sample_key = MASTER_KEY_LEN ∧ DerivedKeys_derive sample_key = Ok keys ∧ len n = NONCE_LEN ∧
    let f := derive_flags (message sample_payload) true in
    aead_seal (enc keys) n (Header_encode (Header_new f (len ct))) pt = Ok ct ∧
    sample_wire = wire_of keys f n ct ∧ len sample_wire ≤ MAX_PACKET_LEN ∧
    SpaPayload_decode pt = Ok sample_payload.
Proof.
  apply (parse_accepts_iff sample_wire sample_key sample_payload).
  - apply (bool_decide_unpack _). vm_compute. exact I.
  - vm_compute. reflexivity.
Defined.

Lemma clock_window_witness :
  validate_against_clock sample_payload 1700000005 120 30 = Ok () ∧
  validate_against_clock
    {| nonce := []; timestamp := i64_min; username := [];
       message := message sample_payload; client_timeout := None |} 1700000005 120 30 ≠ Ok ().
Proof.
  split.
  - apply (clock_window sample_payload 1700000005 120 30); vm_compute; intuition discriminate.
  - rewrite clock_window; vm_compute; intuition discriminate.
Defined.
