(* ===== verification/Persist.v ===== *)
(** * fwknox-replay: the cache file

    Models crates/fwknox-replay/src/persist.rs and error.rs: the text format,
    reading with its four format errors, the atomic write through a temporary
    file, and the hexadecimal codec. The file system is a map from paths to
    contents; every system call of the write can fail and the caller says
    which one does. *)

From S2P Require Import Prelude RustStd.

(** ** error.rs *)

(** [std::io::Error] is its text. *)
Abbreviation IoError := str (only parsing).

Inductive ReplayError :=
  | ReplayRead (path : str) (source : IoError)
  | ReplayWrite (path : str) (source : IoError)
  | ReplayInvalidFormat (path reason : str).

#[global] Instance ReplayError_eq_dec : EqDecision ReplayError.
Proof. solve_decision. Defined.

Definition show_ReplayError (e : ReplayError) : str :=
  match e with
  | ReplayRead p s => lit "failed to read replay cache " ++ p ++ lit ": " ++ s
  | ReplayWrite p s => lit "failed to write replay cache " ++ p ++ lit ": " ++ s
  | ReplayInvalidFormat p r => lit "invalid cache format in " ++ p ++ lit ": " ++ r
  end.

(** ** The environment *)

(** [Nonce = [u8; 16]]. *)
Abbreviation Nonce := bytes (only parsing).

Definition nonce_wf (n : Nonce) : Prop := length n = 16%nat ∧ is_bytes n.

#[global] Instance nonce_wf_dec n : Decision (nonce_wf n).
Proof. unfold nonce_wf, is_bytes; apply _. Defined.

(** File contents by path. *)
Abbreviation Fs := (gmap str str) (only parsing).

(** Which step of a write fails, and with what; [None] means it succeeds. *)
Record WriteFaults := {
  create_dir_fault : option IoError;
  tempfile_fault : option IoError;
  write_fault : option IoError;
  sync_fault : option IoError;
  rename_fault : option IoError
}.
Definition no_faults : WriteFaults := {|
  create_dir_fault := None; tempfile_fault := None; write_fault := None;
  sync_fault := None; rename_fault := None |}.

(** The iteration order of a [HashMap] is unspecified: some enumeration of its
    entries. *)
Class HashIter := hash_iter : gmap Nonce Z → list (Nonce * Z).
Class HashIterLaws (HI : HashIter) := hash_iter_perm m : hash_iter m ≡ₚ map_to_list m.

(** ** persist.rs *)

Definition nibble_to_hex (n : Z) : char :=
  if n <=? 9 then 48 + n
  else if n <=? 15 then 97 + n - 10
  else 0 (* unreachable!(): callers pass four bits, see [nibble_to_hex_reached] *).

Fixpoint encode_nonce_hex (n : Nonce) : str :=
  match n with
  | [] => []
  | b :: n' => nibble_to_hex (Z.shiftr b 4) :: nibble_to_hex (Z.land b 0xF) :: encode_nonce_hex n'
  end.

Definition hex_to_nibble (c : Z) : option Z :=
  if (48 <=? c) && (c <=? 57) then Some (c - 48)
  else if (97 <=? c) && (c <=? 102) then Some (c - 97 + 10)
  else if (65 <=? c) && (c <=? 70) then Some (c - 65 + 10)
  else None.

(** The loop over byte pairs; after the checks of [parse_nonce_hex] there are
    sixteen of them and the characters are the bytes. *)
Fixpoint parse_hex_pairs (s : str) : option bytes :=
  match s with
  | a :: b :: s' =>
      hi ← hex_to_nibble a;
      lo ← hex_to_nibble b;
      rest ← parse_hex_pairs s';
      Some (Z.lor (Z.shiftl hi 4) lo :: rest)
  | _ => Some []
  end.

Definition parse_nonce_hex (s : str) : option Nonce :=
  if negb (str_len s =? 32) || negb (forallb is_ascii_hexdigit s) then None
  else parse_hex_pairs s.

(** One line of the file: nothing for a blank line or a comment, an entry, or
    the reason it is malformed. [n] is the line number from 1. *)
Definition parse_cache_line (n : Z) (raw : str) : result str (option (Nonce * Z)) :=
  let line := trim raw in
  if bool_decide (line = []) || starts_with line (lit "#") then Ok None
  else
    let parts := split_whitespace line in
    nonce_hex ← ok_or (lit "line " ++ dec n ++ lit ": missing nonce field") (parts !! 0%nat);
    ts_str ← ok_or (lit "line " ++ dec n ++ lit ": missing timestamp field") (parts !! 1%nat);
    nonce ← ok_or (lit "line " ++ dec n ++ lit ": nonce is not 32 hex chars")
              (parse_nonce_hex nonce_hex);
    ts ← map_err (λ _, lit "line " ++ dec n ++ lit ": timestamp is not a u64")
           (parse_uint u64_max ts_str);
    Ok (Some (nonce, ts)).

Fixpoint parse_cache_lines (n : Z) (out : gmap Nonce Z) (ls : list str)
  : result str (gmap Nonce Z) :=
  match ls with
  | [] => Ok out
  | raw :: ls' =>
      e ← parse_cache_line n raw;
      parse_cache_lines (n + 1) (match e with Some (k, v) => <[k:=v]> out | None => out end) ls'
  end.

(** [read_fault] is a read error other than a missing file. *)
Definition read_cache_file (path : str) (read_fault : option IoError) (fs : Fs)
  : result ReplayError (gmap Nonce Z) :=
  match read_fault with
  | Some e => Err (ReplayRead path e)
  | None =>
      match fs !! path with
      | None => Ok ∅
      | Some text => map_err (ReplayInvalidFormat path) (parse_cache_lines 1 ∅ (lines text))
      end
  end.

Definition entry_line (e : Nonce * Z) : str := encode_nonce_hex e.1 ++ lit " " ++ dec e.2.

Definition cache_text (entries : list (Nonce * Z)) : str :=
  lit "# fwknox replay cache" ++ [10] ++ concat ((λ e, entry_line e ++ [10]) <$> entries).

(** The temporary file is renamed over the target only after all its bytes
    are written and synced; until then the target keeps its contents. The sync
    of the directory is best effort and its result is dropped. This is the
    function as one step on the files; PersistCrash.v derives it from the calls
    it makes and says what a crash between them leaves. *)
Definition write_cache_file `{HashIter} (path : str) (entries : gmap Nonce Z)
    (faults : WriteFaults) (fs : Fs) : Fs * result ReplayError unit :=
  match create_dir_fault faults with
  | Some e => (fs, Err (ReplayWrite path e))
  | None =>
      match tempfile_fault faults with
      | Some e => (fs, Err (ReplayWrite path e))
      | None =>
          let tmp := cache_text (hash_iter entries) in
          match write_fault faults with
          | Some e => (fs, Err (ReplayWrite path e))
          | None =>
              match sync_fault faults with
              | Some e => (fs, Err (ReplayWrite path e))
              | None =>
                  match rename_fault faults with
                  | Some e => (fs, Err (ReplayWrite path e))
                  | None => (<[path := tmp]> fs, Ok ())
                  end
              end
          end
      end
  end.

(** ** Lemmas *)

Lemma nibble_to_hex_reached b : is_u8 b → 0 ≤ Z.shiftr b 4 ≤ 15 ∧ 0 ≤ Z.land b 0xF ≤ 15.
Proof.
  unfold is_u8, u8_max. intros Hb. rewrite Z.shiftr_div_pow2 by done.
  change (Z.land b 0xF) with (Z.land b (Z.ones 4)). rewrite Z.land_ones by done.
  change (2 ^ 4) with 16. pose proof (Z.mod_pos_bound b 16 ltac:(lia)).
  split; [|lia]. split; [apply Z.div_pos; lia|].
  apply Z.lt_succ_r, Z.div_lt_upper_bound; lia.
Qed.

Lemma hex_to_nibble_to_hex n : 0 ≤ n ≤ 15 → hex_to_nibble (nibble_to_hex n) = Some n.
Proof.
  intros Hn. unfold hex_to_nibble, nibble_to_hex.
  repeat case_match; bool_prop; try (f_equal; lia); exfalso; lia.
Qed.

Lemma nibble_to_hex_hexdigit n :
  0 ≤ n ≤ 15 → is_ascii_hexdigit (nibble_to_hex n) = true ∧
               48 ≤ nibble_to_hex n ≤ 102.
Proof.
  intros Hn. unfold nibble_to_hex, is_ascii_hexdigit, is_ascii_digit.
  repeat case_match; bool_prop; lia.
Qed.

Lemma encode_nonce_hex_chars n :
  is_bytes n → Forall (λ c, is_ascii_hexdigit c = true ∧ 48 ≤ c ≤ 102) (encode_nonce_hex n).
Proof.
  induction 1 as [|b n Hb _ IH]; simpl; [constructor|].
  apply nibble_to_hex_reached in Hb as [Hh Hl].
  apply Forall_cons; split; [by apply nibble_to_hex_hexdigit|].
  apply Forall_cons; split; [by apply nibble_to_hex_hexdigit|done].
Qed.

Lemma length_encode_nonce_hex n : length (encode_nonce_hex n) = (2 * length n)%nat.
Proof. induction n; simpl; lia. Qed.

Lemma str_len_ascii s : Forall (λ c, c < 0x80) s → str_len s = len s.
Proof.
  induction 1 as [|c s Hc _ IH]; [done|]. cbn [str_len foldr]. rewrite len_cons.
  unfold str_len in IH. rewrite IH. unfold len_utf8. rewrite (proj2 (Z.ltb_lt _ _)) by done. lia.
Qed.

Lemma parse_hex_pairs_encode n : is_bytes n → parse_hex_pairs (encode_nonce_hex n) = Some n.
Proof.
  induction 1 as [|b n Hb _ IH]; [done|]. cbn [encode_nonce_hex parse_hex_pairs].
  apply nibble_to_hex_reached in Hb as [Hh Hl].
  rewrite !hex_to_nibble_to_hex by done. simpl. rewrite IH. simpl. do 2 f_equal.
  by apply (lor_shift_land b 4).
Qed.

Lemma parse_nonce_hex_encode n : nonce_wf n → parse_nonce_hex (encode_nonce_hex n) = Some n.
Proof.
  intros [Hlen Hb]. pose proof (encode_nonce_hex_chars n Hb) as Hc.
  unfold parse_nonce_hex. rewrite str_len_ascii by (eapply Forall_impl; [exact Hc|simpl; lia]).
  unfold len. rewrite length_encode_nonce_hex, Hlen. simpl.
  rewrite (proj2 (forallb_Forall _ _)) by (eapply Forall_impl; [exact Hc|simpl; naive_solver]).
  by apply parse_hex_pairs_encode.
Qed.

Lemma trim_first_last s a b :
  head s = Some a → last s = Some b → is_whitespace a = false → is_whitespace b = false →
  trim s = s.
Proof.
  intros Ha Hb Hwa Hwb. unfold trim, trim_end. rewrite (trim_start_nonws s).
  - rewrite trim_start_nonws; [by rewrite reverse_involutive|].
    rewrite <- head_reverse in Hb. destruct (reverse s); naive_solver.
  - destruct s; naive_solver.
Qed.

Section entry.
Context (k : Nonce) (v : Z) (Hk : nonce_wf k) (Hv : is_u64 v).

Lemma entry_hex : ∃ c s, encode_nonce_hex k = c :: s ∧ 48 ≤ c ≤ 102.
Proof.
  destruct Hk as [Hlen Hb]. pose proof (encode_nonce_hex_chars k Hb) as Hc.
  destruct (encode_nonce_hex k) as [|c s] eqn:E.
  - pose proof (length_encode_nonce_hex k) as Hl. rewrite E, Hlen in Hl. done.
  - apply Forall_cons in Hc as [[_ ?] _]. eauto.
Qed.

Lemma entry_dec : Forall (λ c, is_ascii_digit c = true) (dec v) ∧ dec v ≠ [].
Proof. split; [apply dec_digits; apply Hv|apply dec_nonempty]. Qed.

Lemma entry_hex_nows : Forall (λ c, is_whitespace c = false) (encode_nonce_hex k).
Proof.
  eapply Forall_impl; [apply encode_nonce_hex_chars, Hk|].
  intros c [_ Hc]. unfold is_whitespace. lia.
Qed.

Lemma entry_dec_nows : Forall (λ c, is_whitespace c = false) (dec v).
Proof. eapply Forall_impl; [apply entry_dec|]. apply digit_not_ws. Qed.

Lemma entry_line_trim : trim (entry_line (k, v)) = entry_line (k, v).
Proof.
  destruct entry_hex as (c & s & Hs & Hc). destruct entry_dec as [Hd Hne].
  destruct (dec v) as [|d0 ds] eqn:Ed using rev_ind; [done|]. clear IHds.
  eapply (trim_first_last _ c d0).
  - unfold entry_line. simpl. by rewrite Hs.
  - unfold entry_line. cbn [fst snd]. rewrite Ed, !(assoc_L (++)). apply last_snoc.
  - unfold is_whitespace. lia.
  - apply Forall_app in Hd as [_ Hd]. apply Forall_cons in Hd as [Hd _]. by apply digit_not_ws.
Qed.

Lemma entry_line_split : split_whitespace (entry_line (k, v)) = [encode_nonce_hex k; dec v].
Proof.
  unfold split_whitespace, entry_line. simpl.
  rewrite split_by_sep by (done || apply entry_hex_nows).
  rewrite split_by_none by apply entry_dec_nows.
  destruct entry_hex as (c & s & -> & _). destruct entry_dec as [_ Hne]. simpl.
  by rewrite bool_decide_eq_false_2.
Qed.

(** A written line parses to the entry it was written for. *)
Lemma parse_entry_line n : parse_cache_line n (entry_line (k, v)) = Ok (Some (k, v)).
Proof.
  unfold parse_cache_line. rewrite entry_line_trim, entry_line_split.
  destruct entry_hex as (c & s & Hs & Hc).
  assert (entry_line (k, v) = c :: s ++ lit " " ++ dec v) as El
    by (unfold entry_line; simpl; by rewrite Hs).
  rewrite El. rewrite bool_decide_eq_false_2 by done.
  unfold starts_with. change (lit "#") with [35]. cbn [is_prefix orb].
  rewrite (proj2 (Z.eqb_neq 35 c)) by lia. simpl.
  rewrite parse_nonce_hex_encode by done. simpl.
  by rewrite parse_uint_dec by (unfold is_u64 in Hv; lia).
Qed.

Lemma entry_line_no_nl : 10 ∉ entry_line (k, v).
Proof.
  unfold entry_line. rewrite !elem_of_app. simpl. intros [Hin|[Hin|Hin]].
  - pose proof entry_hex_nows as H. rewrite Forall_forall in H. by specialize (H _ Hin).
  - set_solver.
  - pose proof entry_dec_nows as H. rewrite Forall_forall in H. by specialize (H _ Hin).
Qed.

Lemma entry_line_no_cr : strip_cr (entry_line (k, v)) = entry_line (k, v).
Proof.
  unfold strip_cr. destruct entry_dec as [Hd Hne]. unfold entry_line; cbn [fst snd].
  destruct (dec v) as [|d0 ds] eqn:Ed using rev_ind; [done|]. clear IHds.
  rewrite !(assoc_L (++)), reverse_snoc.
  apply Forall_app in Hd as [_ Hd]. apply Forall_cons in Hd as [Hd _].
  destruct (decide (d0 = 13)) as [->|]; [done|].
  repeat case_match; done.
Qed.
End entry.

(** Lines that contain no newline and end in no carriage return come back
    from the text that joins them. *)
Lemma split_nl_concat (ws : list str) :
  Forall (λ w, 10 ∉ w) ws → split_char 10 (concat ((λ w, w ++ [10]) <$> ws)) = ws ++ [[]].
Proof.
  induction 1 as [|w ws Hw _ IH]; [done|]. cbn [fmap list_fmap concat].
  rewrite <- (assoc_L (++)). simpl. rewrite split_char_sep by done. by rewrite IH.
Qed.

Lemma lines_of_terminated (ws : list str) :
  Forall (λ w, strip_cr w = w) ws → lines_of (ws ++ [[]]) = ws.
Proof.
  induction 1 as [|w ws Hw _ IH]; [done|]. cbn [app lines_of].
  destruct (ws ++ [[]]) eqn:E; [by destruct ws|]. by rewrite Hw, IH.
Qed.

Definition entries_wf (es : list (Nonce * Z)) : Prop :=
  Forall (λ e, nonce_wf e.1 ∧ is_u64 e.2) es.

Lemma lines_cache_text es :
  entries_wf es → lines (cache_text es) = lit "# fwknox replay cache" :: (entry_line <$> es).
Proof.
  intros Hes. unfold lines, cache_text.
  change (λ e, entry_line e ++ [10]) with ((λ w, w ++ [10]) ∘ entry_line).
  rewrite list_fmap_compose.
  change (lit "# fwknox replay cache" ++ [10] ++ ?r) with
    (concat ((λ w, w ++ [10]) <$> [lit "# fwknox replay cache"]) ++ r).
  rewrite <- concat_app, <- fmap_app. rewrite split_nl_concat, lines_of_terminated; [done|..].
  - apply Forall_cons; split; [done|]. apply Forall_fmap.
    eapply Forall_impl; [exact Hes|]. intros [k v] [??]. by apply entry_line_no_cr.
  - apply Forall_cons; split; [apply (bool_decide_unpack _); by vm_compute|]. apply Forall_fmap.
    eapply Forall_impl; [exact Hes|]. intros [k v] [??]. by apply entry_line_no_nl.
Qed.

Definition insert_all (out : gmap Nonce Z) (es : list (Nonce * Z)) : gmap Nonce Z :=
  foldl (λ m e, <[e.1:=e.2]> m) out es.

Lemma parse_entry_lines n out es :
  entries_wf es → parse_cache_lines n out (entry_line <$> es) = Ok (insert_all out es).
Proof.
  intros Hes. revert n out. induction Hes as [|[k v] es [Hk Hv] _ IH]; intros n out; [done|].
  cbn [fmap list_fmap parse_cache_lines]. rewrite parse_entry_line by done. apply IH.
Qed.

Lemma insert_all_list_to_map acc es :
  insert_all (list_to_map acc) es = list_to_map (reverse es ++ acc).
Proof.
  revert acc. induction es as [|[k v] es IH]; intros acc; [done|].
  cbn [insert_all foldl]. specialize (IH ((k, v) :: acc)). unfold insert_all in IH.
  cbn [list_to_map foldr fst snd curry] in IH |- *. unfold list_to_map in *. simpl in *.
  rewrite IH. by rewrite reverse_cons, <- (assoc_L (++)).
Qed.

Lemma insert_all_nodup es : NoDup es.*1 → insert_all ∅ es = list_to_map es.
Proof.
  intros Hn. change ∅ with (list_to_map [] : gmap Nonce Z). rewrite insert_all_list_to_map, app_nil_r.
  apply list_to_map_proper; [by rewrite fmap_reverse, reverse_Permutation|apply reverse_Permutation].
Qed.

Lemma write_cache_file_cases `{HashIter} path m faults fs :
  (write_cache_file path m faults fs = (<[path := cache_text (hash_iter m)]> fs, Ok ())) ∨
  (∃ e, write_cache_file path m faults fs = (fs, Err (ReplayWrite path e))).
Proof. unfold write_cache_file. repeat case_match; eauto. Qed.

(** What a cache may hold: 16-byte nonces with 64-bit timestamps. *)
Definition map_wf (m : gmap Nonce Z) : Prop := map_Forall (λ k v, nonce_wf k ∧ is_u64 v) m.

(** Whatever a file holds, what is read from it are nonces and [u64]s. *)
Lemma hex_to_nibble_bound c v : hex_to_nibble c = Some v → v ∈ seqZ 0 16.
Proof. rewrite elem_of_seqZ. unfold hex_to_nibble. repeat case_match; intros; bool_prop; simplify_eq; lia. Qed.

Lemma nibbles_byte hi lo : hi ∈ seqZ 0 16 → lo ∈ seqZ 0 16 → 0 ≤ Z.lor (Z.shiftl hi 4) lo < 256.
Proof.
  assert (Forall (λ hi, Forall (λ lo, 0 ≤ Z.lor (Z.shiftl hi 4) lo < 256) (seqZ 0 16)) (seqZ 0 16)) as H
    by (apply (bool_decide_unpack _); vm_compute; exact I).
  rewrite Forall_forall in H. intros Hh Hl. specialize (H hi Hh). rewrite Forall_forall in H. by apply H.
Qed.

Lemma parse_hex_pairs_wf k s n : length s = (2 * k)%nat → parse_hex_pairs s = Some n → length n = k ∧ is_bytes n.
Proof.
  revert s n. induction k as [|k IH]; intros s n Hs.
  { apply nil_length_inv in Hs as ->. intros [= <-]. by split; [|constructor]. }
  destruct s as [|a [|b s]]; cbn in Hs; [lia|lia|]. cbn [parse_hex_pairs].
  destruct (hex_to_nibble a) as [hi|] eqn:Ha; [|done]. destruct (hex_to_nibble b) as [lo|] eqn:Hb; [|done]. cbn.
  destruct (parse_hex_pairs s) as [rest|] eqn:Hr; [|done]. intros [= <-].
  destruct (IH s rest ltac:(lia) Hr) as [Hl Hbs]. split; [cbn; lia|]. constructor; [|done].
  pose proof (nibbles_byte hi lo (hex_to_nibble_bound _ _ Ha) (hex_to_nibble_bound _ _ Hb)). unfold is_u8, u8_max. lia.
Qed.

Lemma parse_nonce_hex_wf s n : parse_nonce_hex s = Some n → nonce_wf n.
Proof.
  unfold parse_nonce_hex. destruct (Z.eqb_spec (str_len s) 32) as [Hl|]; [|done].
  destruct (forallb is_ascii_hexdigit s) eqn:Hh; [|done]. cbn. apply parse_hex_pairs_wf.
  assert (Forall (λ c, c < 0x80) s) as Ha.
  { apply forallb_Forall in Hh. eapply Forall_impl; [exact Hh|]. intros c Hc. cbn in Hc.
    unfold is_ascii_hexdigit, is_ascii_digit in Hc. bool_prop. lia. }
  rewrite (str_len_ascii s Ha) in Hl. unfold len in Hl. lia.
Qed.

Lemma read_cache_wf path fs m : read_cache_file path None fs = Ok m → map_wf m.
Proof.
  unfold read_cache_file. destruct (fs !! path) as [text|]; [|by intros [= <-]].
  assert (∀ n out ls, map_wf out → parse_cache_lines n out ls = Ok m → map_wf m) as H.
  2: { intros Hm. destruct (parse_cache_lines 1 ∅ (lines text)) as [m'|] eqn:E; [|done]. injection Hm as ->.
       by eapply (H 1 ∅). }
  intros n out ls. revert n out. induction ls as [|raw ls IH]; intros n out Ho; cbn [parse_cache_lines]; [by intros [= <-]|].
  unfold parse_cache_line. destruct (_ || _); [by apply IH|]. intros Hp. inv_ok. subst. eapply IH; [|eassumption].
  apply map_Forall_insert_2; [|done]. split; [eapply parse_nonce_hex_wf; eassumption|].
  eapply parse_uint_bound; [done|]. eassumption.
Qed.

Section roundtrip.
Context `{HL : HashIterLaws}.

Lemma hash_iter_wf m : map_wf m → entries_wf (hash_iter m).
Proof.
  intros Hm. unfold entries_wf. rewrite hash_iter_perm. apply Forall_forall.
  intros [k v] Hin. apply elem_of_map_to_list in Hin. by apply Hm in Hin.
Qed.

Lemma hash_iter_nodup m : NoDup (hash_iter m).*1.
Proof. rewrite hash_iter_perm. apply NoDup_fst_map_to_list. Qed.

Lemma hash_iter_to_map m : list_to_map (hash_iter m) = m.
Proof.
  rewrite (list_to_map_proper _ (map_to_list m)); [apply list_to_map_to_list|..].
  - apply hash_iter_nodup.
  - apply hash_iter_perm.
Qed.

Lemma parse_cache_text m :
  map_wf m → parse_cache_lines 1 ∅ (lines (cache_text (hash_iter m))) = Ok m.
Proof.
  intros Hm. rewrite lines_cache_text by by apply hash_iter_wf.
  cbn [parse_cache_lines]. change (parse_cache_line 1 _) with (@Ok str (option (Nonce * Z)) None).
  cbn [mbind result_bind]. rewrite parse_entry_lines by by apply hash_iter_wf.
  by rewrite insert_all_nodup, hash_iter_to_map by apply hash_iter_nodup.
Qed.

(** A cache file that was written reads back to the same entries,
    whatever order the hash map was enumerated in. *)
Theorem cache_file_roundtrip path m faults fs fs' :
  map_wf m → write_cache_file path m faults fs = (fs', Ok ()) →
  read_cache_file path None fs' = Ok m.
Proof.
  intros Hm Hw. destruct (write_cache_file_cases path m faults fs) as [E|[e E]];
    rewrite E in Hw; simplify_eq.
  unfold read_cache_file. rewrite lookup_insert_eq. by rewrite parse_cache_text.
Qed.
End roundtrip.

(** ** Witnesses *)

Definition sorted_hash_iter : HashIter := map_to_list.
Definition sorted_hash_iter_laws : HashIterLaws sorted_hash_iter := λ m, reflexivity _.

Definition sample_cache_map : gmap Nonce Z :=
  {[ replicate 16 171 := 1700000000; replicate 16 7 := 12 ]}.

Lemma cache_file_roundtrip_witness :
  read_cache_file (lit "/c") None
    (@write_cache_file sorted_hash_iter (lit "/c") sample_cache_map no_faults ∅).1
  = Ok sample_cache_map.
Proof.
  apply (cache_file_roundtrip (HL := sorted_hash_iter_laws) (lit "/c") sample_cache_map no_faults ∅).
  - apply (bool_decide_unpack _). vm_compute. exact I.
  - vm_compute. reflexivity.
Defined.
