(* ===== verification/PersistCrash.v ===== *)
(** * The write of the cache file, call by call

    [write_cache_file] of crates/fwknox-replay/src/persist.rs makes a temporary
    file in the directory of the target, writes it line by line, syncs it,
    renames it over the target and syncs the directory; when a call fails, the
    temporary file is removed on the way out. Persist.v takes this as one step
    on a map from paths to contents. Here it is the sequence of the calls, on a
    disk with inodes and directory entries, where a crash can come between any
    two of them and in the middle of a write: the step of Persist.v is proved
    of the calls, and so is what a crash can leave behind. *)

From S2P Require Import Prelude RustStd Persist.

(** ** A disk *)

(** The contents of a file as a process sees them, and whether they have
    reached the disk. *)
Record inode := { content : str; synced : bool }.

(** [since] are the states the directory went through since it was last synced,
    before the present one [names]. *)
Record disk := { inodes : gmap nat inode; names : gmap str nat; since : list (gmap str nat) }.

Definition read (d : disk) (p : str) : option str := i ← names d !! p; content <$> inodes d !! i.
Definition states (d : disk) : list (gmap str nat) := since d ++ [names d].

(** Entries point to files, and did so before. *)
Definition disk_wf (d : disk) : Prop :=
  ∀ nm p i, nm ∈ states d → nm !! p = Some i → is_Some (inodes d !! i).

(** What a crash leaves: the directory in one of the states since its last
    sync, the contents of the files that were synced, and anything at all in
    those that were not. *)
Record crash (d d' : disk) : Prop := {
  crash_names : names d' ∈ states d;
  crash_since : since d' = [];
  crash_inodes i n : inodes d !! i = Some n →
    ∃ n', inodes d' !! i = Some n' ∧ synced n' = true ∧ (synced n = true → content n' = content n);
}.

(** ** Calls *)

(** A computation returns the disks it passed through, the last one, and its
    result. *)
Definition io (A : Type) : Type := disk → list disk * disk * result IoError A.

#[global] Instance io_ret : MRet io := λ A a d, ([], d, Ok a).
#[global] Instance io_bind : MBind io := λ A B k m d,
  match m d with
  | (tr, d', Ok a) => let '(tr', d'', r) := k a d' in (tr ++ d' :: tr', d'', r)
  | (tr, d', Err e) => (tr, d', Err e)
  end.

Definition set_names (d : disk) (nm : gmap str nat) : disk :=
  {| inodes := inodes d; names := nm; since := since d ++ [names d] |}.
Definition set_inode (d : disk) (i : nat) (n : inode) : disk :=
  {| inodes := <[i := n]> (inodes d); names := names d; since := since d |}.

(** A call that fails does nothing. *)
Definition call {A : Type} (fault : option IoError) (act : disk → disk * A) : io A :=
  λ d, match fault with
       | Some e => ([], d, Err e)
       | None => let '(d', a) := act d in ([], d', Ok a)
       end.

(** The directories are not modelled: making them changes no file. *)
Definition create_dir_all (fault : option IoError) : io unit := call fault (λ d, (d, ())).

(** [NamedTempFile::new_in]: an empty file under a name not yet taken. *)
Definition new_in (tmp : str) (fault : option IoError) : io nat :=
  call fault (λ d,
    let i := fresh (dom (inodes d)) in
    (set_names (set_inode d i {| content := []; synced := false |}) (<[tmp := i]> (names d)), i)).

Definition append (i : nat) (s : str) (d : disk) : disk :=
  match inodes d !! i with
  | Some n => set_inode d i {| content := content n ++ s; synced := false |}
  | None => d
  end.

(** [writeln!]: the bytes go out in pieces, and the call may fail after [k] of
    them. *)
Definition write_line (i : nat) (line : str) (fault : option (nat * IoError)) : io unit :=
  λ d, let pieces n := (λ k, append i (take k line) d) <$> seq 0 n in
       match fault with
       | Some (k, e) => (pieces k, append i (take k line) d, Err e)
       | None => (pieces (length line), append i line d, Ok ())
       end.

Fixpoint write_lines (i : nat) (ls : list str) (faults : list (option (nat * IoError))) : io unit :=
  match ls with
  | [] => mret ()
  | l :: ls => _ ← write_line i l (default None (head faults)); write_lines i ls (tail faults)
  end.

(** [sync_all] on the file. *)
Definition sync_all (i : nat) (fault : option IoError) : io unit :=
  call fault (λ d,
    (match inodes d !! i with
     | Some n => set_inode d i {| content := content n; synced := true |}
     | None => d
     end, ())).

(** [persist]: the temporary name becomes the target's. *)
Definition persist (tmp path : str) (fault : option IoError) : io unit :=
  call fault (λ d,
    (match names d !! tmp with
     | Some i => set_names d (<[path := i]> (delete tmp (names d)))
     | None => d
     end, ())).

(** The sync of the directory is best effort. *)
Definition sync_dir (ok : bool) : io unit :=
  call None (λ d, (if ok then {| inodes := inodes d; names := names d; since := [] |} else d, ())).

(** Dropping a [NamedTempFile] that was not persisted removes it; an error of
    the removal is ignored. *)
Definition dropping {A : Type} (tmp : str) (ok : bool) (m : io A) : io A :=
  λ d, match m d with
       | (tr, d', Err e) => (tr ++ [d'], if ok then set_names d' (delete tmp (names d')) else d', Err e)
       | res => res
       end.

(** ** The function *)

(** Which calls fail. *)
Record CallFaults := {
  c_create_dir : option IoError;
  c_new_in : option IoError;
  c_lines : list (option (nat * IoError));
  c_sync : option IoError;
  c_persist : option IoError;
  c_removed : bool;
  c_sync_dir : bool;
}.

Definition cache_lines (entries : list (Nonce * Z)) : list str :=
  (lit "# fwknox replay cache" ++ [10]) :: ((λ e, entry_line e ++ [10]) <$> entries).

(** [tmp] is the name that is chosen for the temporary file. *)
Definition write_calls (path tmp : str) (entries : list (Nonce * Z)) (f : CallFaults) : io unit :=
  _ ← create_dir_all (c_create_dir f);
  i ← new_in tmp (c_new_in f);
  _ ← dropping tmp (c_removed f) (
        _ ← write_lines i (cache_lines entries) (c_lines f);
        _ ← sync_all i (c_sync f);
        persist tmp path (c_persist f));
  sync_dir (c_sync_dir f).

(** The same faults as Persist.v sees them: the first line that fails. *)
Fixpoint first_fault (ls : list str) (faults : list (option (nat * IoError))) : option IoError :=
  match ls with
  | [] => None
  | _ :: ls =>
      match default None (head faults) with
      | Some (_, e) => Some e
      | None => first_fault ls (tail faults)
      end
  end.
Definition write_faults (entries : list (Nonce * Z)) (f : CallFaults) : WriteFaults := {|
  create_dir_fault := c_create_dir f; tempfile_fault := c_new_in f;
  write_fault := first_fault (cache_lines entries) (c_lines f);
  sync_fault := c_sync f; rename_fault := c_persist f |}.

Lemma cache_lines_text entries : concat (cache_lines entries) = cache_text entries.
Proof. unfold cache_lines, cache_text. cbn [concat]. by rewrite <- app_assoc. Qed.

(** ** Lemmas *)

(** [s] differs from [d] in the file [i] alone. *)
Definition only (i : nat) (d s : disk) : Prop :=
  names s = names d ∧ since s = since d ∧ (∀ j, j ≠ i → inodes s !! j = inodes d !! j) ∧ is_Some (inodes s !! i).

Lemma only_refl i d : is_Some (inodes d !! i) → only i d d.
Proof. intros Hi. by split_and!. Qed.

Lemma only_trans i d s1 s2 : only i d s1 → only i s1 s2 → only i d s2.
Proof.
  intros (E1 & E2 & Hj & _) (E1' & E2' & Hj' & Hi). split_and!; [congruence|congruence| |done].
  intros j Hne. by rewrite Hj', Hj.
Qed.

Lemma append_only i s d : is_Some (inodes d !! i) → only i d (append i s d).
Proof.
  intros [n Hn]. unfold append. rewrite Hn. split_and!; [done|done| |].
  - intros j Hj. cbn. by rewrite lookup_insert_ne.
  - cbn. rewrite lookup_insert_eq. by eexists.
Qed.

Lemma write_line_spec i l fault d n :
  inodes d !! i = Some n →
  let '(tr, d', r) := write_line i l fault d in
  Forall (only i d) tr ∧ only i d d' ∧
  match fault with
  | Some (_, e) => r = Err e
  | None => r = Ok () ∧ inodes d' !! i = Some {| content := content n ++ l; synced := false |}
  end.
Proof.
  intros Hn. assert (is_Some (inodes d !! i)) as Hi by by eexists. unfold write_line.
  assert (∀ m, Forall (only i d) ((λ k, append i (take k l) d) <$> seq 0 m)) as Hp.
  { intros m. apply Forall_fmap, Forall_forall. intros k _. by apply append_only. }
  destruct fault as [[k e]|]; [by split_and!; [apply Hp|apply append_only|]|].
  split_and!; [apply Hp|by apply append_only|done|]. unfold append. rewrite Hn. cbn. by rewrite lookup_insert_eq.
Qed.

Lemma write_lines_spec i ls faults d n :
  inodes d !! i = Some n →
  let '(tr, d', r) := write_lines i ls faults d in
  Forall (only i d) tr ∧ only i d d' ∧
  match first_fault ls faults with
  | Some e => r = Err e
  | None => r = Ok () ∧ ∃ b, inodes d' !! i = Some {| content := content n ++ concat ls; synced := b |}
  end.
Proof.
  revert faults d n. induction ls as [|l ls IH]; intros faults d n Hn.
  { cbn [write_lines first_fault concat]. unfold mret, io_ret. split_and!; [constructor|by apply only_refl|done|]. exists (synced n). rewrite app_nil_r. by destruct n. }
  cbn [write_lines first_fault concat]. unfold mbind, io_bind.
  pose proof (write_line_spec i l (default None (head faults)) d n Hn) as Hl.
  destruct (write_line i l _ d) as [[tr1 d1] r1]. destruct Hl as (Ht1 & Ho1 & Hr1).
  destruct (default None (head faults)) as [[k e]|]; [by subst r1|]. destruct Hr1 as [-> Hn1].
  specialize (IH (tail faults) d1 _ Hn1). destruct (write_lines i ls (tail faults) d1) as [[tr2 d2] r2].
  destruct IH as (Ht2 & Ho2 & Hr2). split_and!.
  - apply Forall_app. split; [done|]. constructor; [done|].
    eapply Forall_impl; [exact Ht2|]. intros s. by apply only_trans.
  - by eapply only_trans.
  - destruct (first_fault ls (tail faults)); [done|]. destruct Hr2 as [-> [b Hb]]. split; [done|]. exists b.
    rewrite Hb. cbn [content]. by rewrite app_assoc.
Qed.

(** ** What a crash can leave *)

Section crashes.
Context (d : disk) (path tmp : str) (text : str) (i : nat).
Context (Hwf : disk_wf d) (Hfresh : inodes d !! i = None).

(** A directory as it was before the write, or one with the new file in the
    place of the target; in both the temporary file may show. *)
Definition old_names (nm : gmap str nat) : Prop :=
  ∃ nm0, nm0 ∈ states d ∧ ∀ p, p ≠ tmp → nm !! p = nm0 !! p.
Definition new_names (nm : gmap str nat) : Prop :=
  nm !! path = Some i ∧ ∃ nm0, nm0 ∈ states d ∧ ∀ p, p ≠ tmp → p ≠ path → nm !! p = nm0 !! p.

(** At every moment: the other files are as before, and the target's entry
    points to the new file only when it is complete and synced. *)
Definition guarded (s : disk) : Prop :=
  (∀ j, j ≠ i → inodes s !! j = inodes d !! j) ∧
  ∀ nm, nm ∈ states s →
    old_names nm ∨ new_names nm ∧ inodes s !! i = Some {| content := text; synced := true |}.

(** What the crash of a disk leaves, in terms of what a crash could have left
    before the write. *)
Definition old_or_new (s' : disk) : Prop :=
  ∃ d0, crash d d0 ∧ (∀ p, p ≠ tmp → p ≠ path → read s' p = read d0 p) ∧
    (read s' path = read d0 path ∨ read s' path = Some text).

Lemma guarded_crash s s' : tmp ≠ path → guarded s → crash s s' → old_or_new s'.
Proof using Hwf Hfresh.
  intros Hne [Hino Hst] [Hn _ Hi].
  assert (∀ nm0, nm0 ∈ states d → crash d {| inodes := inodes s'; names := nm0; since := [] |}) as Hd0.
  { intros nm0 Hnm. split; [done|done|]. intros j n Hj. apply Hi. rewrite Hino; [done|]. congruence. }
  destruct (Hst _ Hn) as [(nm0 & Hnm0 & Hp)|[(Hpath & nm0 & Hnm0 & Hp) Hnew]];
    exists {| inodes := inodes s'; names := nm0; since := [] |}; (split_and!; [by apply Hd0|..]).
  - intros p H1 _. unfold read. cbn. by rewrite Hp.
  - left. unfold read. cbn. by rewrite Hp.
  - intros p H1 H2. unfold read. cbn. by rewrite Hp.
  - right. destruct (Hi _ _ Hnew) as (n' & Hn' & _ & Hc). unfold read. rewrite Hpath. cbn. rewrite Hn'. cbn. by rewrite Hc.
Qed.

Lemma guarded_start : guarded d.
Proof. split; [done|]. intros nm Hnm. left. by exists nm. Qed.

(** Until the rename there are only old entries. *)
Definition pending (s : disk) : Prop :=
  (∀ j, j ≠ i → inodes s !! j = inodes d !! j) ∧ Forall old_names (states s).

Lemma pending_guarded s : pending s → guarded s.
Proof. intros [Hi Hs]. split; [done|]. rewrite Forall_forall in Hs. auto. Qed.

Lemma only_pending s s' : pending s → only i s s' → pending s'.
Proof.
  intros [Hi Hs] (E1 & E2 & Hj & _). split; [intros j Hne; by rewrite Hj, Hi|]. unfold states in *. by rewrite E1, E2.
Qed.

Lemma old_names_tmp nm nm' : old_names nm → (∀ p, p ≠ tmp → nm' !! p = nm !! p) → old_names nm'.
Proof. intros (nm0 & Hin & Hp) Hp'. exists nm0. split; [done|]. intros p Hne. by rewrite Hp', Hp. Qed.

Lemma set_names_pending s nm : pending s → (∀ p, p ≠ tmp → nm !! p = names s !! p) → pending (set_names s nm).
Proof.
  intros [Hi Hs] Hp. split; [done|]. unfold states. cbn. apply Forall_app. split; [done|]. constructor; [|constructor].
  unfold states in Hs. apply Forall_app in Hs as [_ Hs]. apply Forall_cons in Hs as [Hs _]. by eapply old_names_tmp.
Qed.

Lemma renamed_guarded s :
  pending s → names s !! tmp = Some i → inodes s !! i = Some {| content := text; synced := true |} →
  guarded (set_names s (<[path := i]> (delete tmp (names s)))).
Proof.
  intros [Hi Hs] Ht Hc. split; [done|]. unfold states. cbn. intros nm [Hnm|Hnm]%elem_of_app.
  - left. rewrite Forall_forall in Hs. by apply Hs.
  - apply list_elem_of_singleton in Hnm as ->. right. split; [|done]. split; [apply lookup_insert_eq|].
    unfold states in Hs. apply Forall_app in Hs as [_ Hs]. apply Forall_cons in Hs as [(nm0 & Hin & Hp) _].
    exists nm0. split; [done|]. intros p H1 H2. rewrite lookup_insert_ne, lookup_delete_ne by done. by apply Hp.
Qed.

Lemma guarded_read s p : guarded s → names s !! p = names d !! p → read s p = read d p.
Proof using Hwf Hfresh.
  intros [Hi _] Hp. unfold read. rewrite Hp. destruct (names d !! p) as [j|] eqn:Hj; [|done]. cbn.
  destruct (Hwf (names d) p j) as [n Hn]; [unfold states; set_solver|done|]. rewrite Hi; [done|]. congruence.
Qed.

(** The work on the temporary file, from its creation to the rename. *)
Lemma body_spec s f ls b :
  concat ls = text → pending s → names s !! tmp = Some i → inodes s !! i = Some {| content := []; synced := b |} →
  let '(tr, d', r) := (_ ← write_lines i ls (c_lines f); _ ← sync_all i (c_sync f); persist tmp path (c_persist f)) s in
  Forall guarded tr ∧
  match first_fault ls (c_lines f), c_sync f, c_persist f with
  | Some e, _, _ | None, Some e, _ | None, None, Some e => r = Err e ∧ pending d' ∧ names d' = names s
  | None, None, None =>
      r = Ok () ∧ guarded d' ∧ names d' = <[path := i]> (delete tmp (names s)) ∧
      inodes d' !! i = Some {| content := text; synced := true |}
  end.
Proof.
  intros Htext Hp Ht Hi. unfold mbind, io_bind.
  pose proof (write_lines_spec i ls (c_lines f) s _ Hi) as Hw.
  destruct (write_lines i ls (c_lines f) s) as [[tr1 d1] r1]. destruct Hw as (Htr1 & Ho1 & Hr1).
  assert (Forall guarded tr1) as Hg1.
  { eapply Forall_impl; [exact Htr1|]. intros s' Ho. by apply pending_guarded, (only_pending s). }
  pose proof (only_pending _ _ Hp Ho1) as Hp1. pose proof Ho1 as (En & _).
  destruct (first_fault ls (c_lines f)) as [e|]; [by subst r1|]. destruct Hr1 as [-> [b' Hi1]].
  cbn [content] in Hi1. rewrite Htext in Hi1. cbn in Hi1.
  unfold sync_all, call. destruct (c_sync f) as [e|].
  { split; [|done]. apply Forall_app. split; [done|]. constructor; [by apply pending_guarded|constructor]. }
  rewrite Hi1. cbn [content]. set (d2 := set_inode d1 i _).
  assert (only i d1 d2) as Ho2.
  { split_and!; [done|done|intros j Hj; cbn; by rewrite lookup_insert_ne|]. cbn. rewrite lookup_insert_eq. by eexists. }
  assert (inodes d2 !! i = Some {| content := text; synced := true |}) as Hi2 by apply lookup_insert_eq.
  pose proof (only_pending _ _ Hp1 Ho2) as Hp2.
  assert (Forall guarded (tr1 ++ [d1; d2])) as Hg2.
  { apply Forall_app. split; [done|]. constructor; [by apply pending_guarded|].
    constructor; [by apply pending_guarded|constructor]. }
  unfold persist, call. destruct (c_persist f) as [e|]; [by split|].
  cbn [names set_inode d2]. rewrite En, Ht. split; [done|]. split; [done|].
  assert (names d2 !! tmp = Some i) as Ht2 by (cbn; by rewrite En).
  pose proof (renamed_guarded d2 Hp2 Ht2 Hi2) as Hg3. split_and!; [|done|done].
  cbn [names set_inode d2] in Hg3. by rewrite En in Hg3.
Qed.

(** The temporary file is dropped after an error. *)
Lemma dropped_spec s (ok : bool) :
  pending s → names s = <[tmp := i]> (names d) →
  let s' := if ok then set_names s (delete tmp (names s)) else s in
  pending s' ∧ (∀ p, p ≠ tmp → read s' p = read d p) ∧ (ok = true → read s' tmp = None).
Proof using All.
  intros Hp En. cbv zeta.
  assert (pending (if ok then set_names s (delete tmp (names s)) else s)) as Hp'.
  { destruct ok; [|done]. apply set_names_pending; [done|]. intros p Hne. by rewrite lookup_delete_ne. }
  split_and!; [done| |intros ->; unfold read; cbn; by rewrite lookup_delete_eq].
  intros p Hne. apply guarded_read; [by apply pending_guarded|].
  destruct ok; cbn; rewrite ?lookup_delete_ne by done; by rewrite En, lookup_insert_ne.
Qed.

(** After the rename, with or without the sync of the directory. *)
Lemma finished_spec s (ok : bool) :
  tmp ≠ path → guarded s → names s = <[path := i]> (delete tmp (<[tmp := i]> (names d))) →
  inodes s !! i = Some {| content := text; synced := true |} →
  let s' := if ok then {| inodes := inodes s; names := names s; since := [] |} else s in
  guarded s' ∧ (∀ p, p ≠ tmp → read s' p = if decide (p = path) then Some text else read d p) ∧
  read s' tmp = None ∧ (ok = true → ∀ s'', crash s' s'' → read s'' path = Some text).
Proof using All.
  intros Hne Hg En Hi. cbv zeta. set (s' := if ok then _ else s).
  assert (guarded s' ∧ inodes s' = inodes s ∧ names s' = names s) as (Hg' & Ei' & En').
  { unfold s'. destruct ok; [|done]. split_and!; [|done|done]. destruct Hg as [Hino Hst].
    split; [done|]. intros nm Hnm. apply Hst. unfold states in *. cbn in Hnm. set_solver. }
  split_and!; [done| | |].
  - intros p Hp. case_decide as E.
    + subst p. unfold read. rewrite En', En, lookup_insert_eq, Ei'. cbn. by rewrite Hi.
    + apply guarded_read; [done|]. by rewrite En', En, lookup_insert_ne, lookup_delete_ne, lookup_insert_ne.
  - unfold read. by rewrite En', En, lookup_insert_ne, lookup_delete_eq by done.
  - intros -> s'' [Hn _ Hin]. cbn in Hn. apply list_elem_of_singleton in Hn.
    destruct (Hin _ _ Hi) as (n' & Hn' & _ & Hc). unfold read.
    rewrite Hn, En, lookup_insert_eq. cbn. rewrite Hn'. cbn. by rewrite Hc.
Qed.
End crashes.

(** ** The theorem *)

(** C36: the write is atomic, also for a crash. Take any disk, any choice of
    calls that fail, writes that fail half way included, and a name for the
    temporary file that is not taken. The calls of the function give the
    result of [write_cache_file] in Persist.v, and leave its files and no
    temporary one, unless the removal of that fails after an error. And
    whenever the machine crashes, between two calls or inside a write, every
    file but the temporary one has afterwards contents that a crash could have
    left before the write began, or, the target only, all the new ones, never
    a part of them. Once the function has returned without an error and the
    sync of the directory worked, it is the new ones. *)
Theorem write_calls_crash_safe `{HashIter} path tmp m f d fs :
  disk_wf d → names d !! tmp = None → tmp ≠ path → (∀ p, read d p = fs !! p) →
  let text := cache_text (hash_iter m) in
  let '(tr, d', r) := write_calls path tmp (hash_iter m) f d in
  let '(fs', r') := write_cache_file path m (write_faults (hash_iter m) f) fs in
  map_err (ReplayWrite path) r = r' ∧ (∀ p, p ≠ tmp → read d' p = fs' !! p) ∧
  (r = Ok () ∨ c_removed f = true → read d' tmp = None) ∧
  (∀ s s', s ∈ d :: tr ++ [d'] → crash s s' → old_or_new d path tmp text s') ∧
  (r = Ok () → c_sync_dir f = true → ∀ s', crash d' s' → read s' path = Some text).
Proof.
  intros Hwf Htmp Hne Hfs text. set (i := fresh (dom (inodes d))).
  assert (inodes d !! i = None) as Hfresh by (apply not_elem_of_dom, is_fresh).
  assert (∀ l s s', Forall (guarded d path tmp text i) l → s ∈ l → crash s s' → old_or_new d path tmp text s') as Hsafe.
  { intros l s s' Hg Hin. rewrite Forall_forall in Hg. eapply guarded_crash; [done|done|done|by apply Hg]. }
  assert (guarded d path tmp text i d) as Hg0 by apply guarded_start.
  assert (read d tmp = None) as Hrt by (unfold read; by rewrite Htmp).
  unfold write_calls, write_cache_file, write_faults. cbn [create_dir_fault tempfile_fault write_fault sync_fault rename_fault].
  unfold create_dir_all, new_in, call, mbind at 1, io_bind at 1.
  destruct (c_create_dir f) as [e|].
  { split_and!; [done|done|done| |done]. intros s s'. apply Hsafe. cbn. by rewrite !Forall_cons, Forall_nil. }
  unfold mbind at 1, io_bind at 1. destruct (c_new_in f) as [e|].
  { split_and!; [done|done|done| |done]. intros s s'. apply Hsafe. cbn. by rewrite !Forall_cons, Forall_nil. }
  cbv zeta. fold i. set (d1 := set_names _ _).
  assert (pending d tmp i d1) as Hp1.
  { apply set_names_pending.
    - split; [intros j Hj; cbn; by rewrite lookup_insert_ne|]. apply Forall_forall. intros nm Hnm. by exists nm.
    - intros p Hp. by rewrite lookup_insert_ne. }
  assert (guarded d path tmp text i d1) as Hg1 by by apply pending_guarded.
  unfold mbind at 1, io_bind at 1, dropping.
  pose proof (body_spec d path tmp text i d1 f (cache_lines (hash_iter m)) false (cache_lines_text _) Hp1
    (lookup_insert_eq _ _ _) (lookup_insert_eq _ _ _)) as Hb.
  destruct ((_ ← write_lines i _ _; _) d1) as [[tr2 d2] r2]. destruct Hb as [Htr2 Hb].
  destruct (first_fault _ _) as [e|]; [|destruct (c_sync f) as [e|]; [|destruct (c_persist f) as [e|]]].
  1-3: destruct Hb as (-> & Hp2 & En);
    destruct (dropped_spec d path tmp text i Hwf Hfresh d2 (c_removed f) Hp2 En) as (Hp3 & Hrd & Hrm);
    split_and!; [done|intros p Hp; by rewrite Hrd|intros [?|?]; [done|by apply Hrm]| |done];
    intros s s'; apply Hsafe; cbn; rewrite !Forall_cons, !Forall_app, !Forall_cons, !Forall_nil;
    split_and!; try done; by apply pending_guarded.
  destruct Hb as (-> & Hg2 & En & Hi2). unfold sync_dir, call. cbn [fst snd].
  destruct (finished_spec d path tmp text i Hwf Hfresh d2 (c_sync_dir f) Hne Hg2 En Hi2) as (Hg3 & Hrd & Hrm & Hdur).
  split_and!; [done| |by intros _| |by intros _].
  - intros p Hp. rewrite Hrd by done. case_decide as E; [subst p; by rewrite lookup_insert_eq|].
    by rewrite lookup_insert_ne, <- Hfs by done.
  - intros s s'. apply Hsafe. cbn. by rewrite !Forall_cons, !Forall_app, !Forall_cons, !Forall_nil.
Qed.

(** ** Witness *)

#[local] Existing Instance sorted_hash_iter.

(** A directory with an old cache file; every call succeeds. *)
Definition sample_disk : disk := {|
  inodes := {[ 0%nat := {| content := lit "old"; synced := true |} ]};
  names := {[ lit "c" := 0%nat ]}; since := [] |}.
Definition no_call_faults : CallFaults := {|
  c_create_dir := None; c_new_in := None; c_lines := []; c_sync := None; c_persist := None;
  c_removed := true; c_sync_dir := true |}.

Lemma write_calls_crash_safe_witness :
  let res := write_calls (lit "c") (lit "t") (hash_iter sample_cache_map) no_call_faults sample_disk in
  let text := cache_text (hash_iter sample_cache_map) in
  res.2 = Ok () ∧ read res.1.2 (lit "c") = Some text ∧ read res.1.2 (lit "t") = None ∧
  (∀ s s', s ∈ sample_disk :: res.1.1 ++ [res.1.2] → crash s s' → old_or_new sample_disk (lit "c") (lit "t") text s') ∧
  ∀ s', crash res.1.2 s' → read s' (lit "c") = Some text.
Proof.
  intros res text.
  pose proof (write_calls_crash_safe (lit "c") (lit "t") sample_cache_map no_call_faults sample_disk
    {[ lit "c" := lit "old" ]}) as Hw.
  assert (res.2 = Ok ()) as Hr by (vm_compute; reflexivity).
  assert (read res.1.2 (lit "c") = Some text) as Hc by (vm_compute; reflexivity).
  cbv zeta in Hw. fold res in Hw. destruct res as [[tr d'] r]. cbn [fst snd] in *.
  destruct (write_cache_file (lit "c") sample_cache_map _ _) as [fs' r'].
  destruct Hw as (_ & _ & Htmp & Hs & Hd).
  - intros nm p i ->%list_elem_of_singleton Hi. cbn [names sample_disk] in Hi.
    apply lookup_singleton_Some in Hi as [_ <-]. eexists. reflexivity.
  - vm_compute. reflexivity.
  - vm_compute. discriminate.
  - intros p. destruct (decide (p = lit "c")) as [->|Hp]; [vm_compute; reflexivity|].
    unfold read. cbn [names sample_disk]. by rewrite !lookup_singleton_ne.
  - split; [exact Hr|]. split; [exact Hc|]. split; [apply Htmp; left; exact Hr|]. split; [exact Hs|].
    apply Hd; [exact Hr|reflexivity].
Defined.
