(* ===== verification/Replay.v ===== *)
(** * fwknox-replay: the replay cache

    Models crates/fwknox-replay/src/cache.rs and the way the daemon binary
    opens the cache (crates/fwknox-daemon/src/bin/fwknoxd.rs). Operations take
    the wall clock as seconds since the epoch, the faults of the write they
    may perform, and the file system, and return the new cache, the new file
    system and the result. *)

From S2P Require Import Prelude RustStd Lru Persist.

Definition DEFAULT_MAX_ENTRIES : Z := 10000.

Section cache.
Context `{L : LruCache Nonce Z} `{HI : HashIter}.

Record ReplayCache := { inner : lru Nonce Z; persist_path : option str }.

Definition sized (capacity : Z) : ReplayCache :=
  {| inner := lru_new capacity; persist_path := None |}.

(** [LruCache::new] allocates its table at once: [None] is the panic when the
    table does not fit. *)
Definition with_capacity `{HA : HashAlloc} (capacity : Z) : option ReplayCache :=
  if table_fits NonceTable capacity then Some (sized capacity) else None.

(** There is always room for the ten thousand entries built in. *)
Definition ReplayCache_new : ReplayCache := sized DEFAULT_MAX_ENTRIES.

Definition set_persist_path (c : ReplayCache) (path : str) : ReplayCache :=
  {| inner := inner c; persist_path := Some path |}.

Definition with_inner (c : ReplayCache) (l : lru Nonce Z) : ReplayCache :=
  {| inner := l; persist_path := persist_path c |}.

Definition cache_len (c : ReplayCache) : Z := lru_len (inner c).
Definition is_empty (c : ReplayCache) : bool := cache_len c =? 0.
Definition ReplayCache_default : ReplayCache := ReplayCache_new.
Definition cache_capacity (c : ReplayCache) : Z := lru_cap (inner c).

(** The entries are collected into a hash map before they are written. *)
Definition save_to_file (c : ReplayCache) (path : str) (faults : WriteFaults) (fs : Fs)
  : Fs * result ReplayError unit :=
  write_cache_file path (list_to_map (lru_iter (inner c))) faults fs.

Definition check_and_insert (c : ReplayCache) (nonce : Nonce) (now : Z)
    (faults : WriteFaults) (fs : Fs) : ReplayCache * Fs * result ReplayError bool :=
  if lru_contains (inner c) nonce then (c, fs, Ok false)
  else
    let c' := with_inner c (lru_put (inner c) nonce now) in
    match persist_path c' with
    | Some path =>
        match save_to_file c' path faults fs with
        | (fs', Err e) => (with_inner c' (lru_pop (inner c') nonce), fs', Err e)
        | (fs', Ok _) => (c', fs', Ok true)
        end
    | None => (c', fs, Ok true)
    end.

Definition prune_older_than (c : ReplayCache) (max_age : Duration) (now : Z)
    (faults : WriteFaults) (fs : Fs) : ReplayCache * Fs * result ReplayError Z :=
  let cutoff := sat_sub_u64 now (as_secs max_age) in
  let before := lru_len (inner c) in
  let stale := (filter (λ e, e.2 < cutoff) (lru_iter (inner c))).*1 in
  let c' := with_inner c (foldl lru_pop (inner c) stale) in
  let pruned := before - lru_len (inner c') in
  if pruned >? 0 then
    match persist_path c' with
    | Some path =>
        match save_to_file c' path faults fs with
        | (fs', Err e) => (c', fs', Err e)
        | (fs', Ok _) => (c', fs', Ok pruned)
        end
    | None => (c', fs, Ok pruned)
    end
  else (c', fs, Ok pruned).

Definition load_from_file (path : str) (read_fault : option IoError) (fs : Fs)
  : result ReplayError ReplayCache :=
  entries ← read_cache_file path read_fault fs;
  Ok {| inner := foldl (λ l e, lru_put l e.1 e.2) (lru_new DEFAULT_MAX_ENTRIES)
                   (hash_iter entries);
        persist_path := None |}.

(** Step 3 of [real_main]: a capacity of zero becomes one; an existing file
    is loaded, else the cache starts empty at the configured capacity, if a
    table of that capacity can be had ([None] when it cannot). *)
Definition open_replay `{HA : HashAlloc} (cache_path : str) (max_entries : Z) (read_fault : option IoError)
    (fs : Fs) : option (result ReplayError ReplayCache) :=
  let cap := if max_entries =? 0 then 1 else max_entries in
  replay ← (match fs !! cache_path with
            | Some _ => Some (load_from_file cache_path read_fault fs)
            | None => Ok <$> with_capacity cap
            end);
  Some (c ← replay; Ok (set_persist_path c cache_path)).

(** ** Sequences of operations *)

Inductive replay_op :=
  | OpInsert (n : Nonce) (now : Z) (faults : WriteFaults)
  | OpPrune (max_age : Duration) (now : Z) (faults : WriteFaults).

Definition replay_exec (s : ReplayCache * Fs) (op : replay_op) : ReplayCache * Fs :=
  match op with
  | OpInsert n now faults => (check_and_insert s.1 n now faults s.2).1
  | OpPrune max_age now faults => (prune_older_than s.1 max_age now faults s.2).1
  end.
Definition replay_run (s : ReplayCache * Fs) (ops : list replay_op) : ReplayCache * Fs :=
  foldl replay_exec s ops.
End cache.
Arguments ReplayCache {_}.

(** ** Lemmas *)

Section lemmas.
Context `{L : LruCache Nonce Z} `{LL : !LruLaws Nonce Z L} `{HL : HashIterLaws}.
Implicit Types (c : ReplayCache) (fs : Fs).

Definition cache_entries c : list (Nonce * Z) := lru_iter (inner c).
Definition cache_keys c : list Nonce := (cache_entries c).*1.

Lemma foldl_pop (l : lru Nonce Z) ks :
  lru_iter (foldl lru_pop l ks) = filter (λ e, e.1 ∉ ks) (lru_iter l) ∧
  lru_cap (foldl lru_pop l ks) = lru_cap l.
Proof.
  revert l. induction ks as [|k ks IH]; intros l; simpl.
  - split; [|done]. symmetry. induction (lru_iter l) as [|e es IH]; [done|].
    rewrite filter_cons, decide_True by set_solver. by rewrite IH.
  - destruct (IH (lru_pop l k)) as [-> ->]. destruct (lru_pop_spec l k) as [-> ->].
    split; [|done]. unfold assoc_remove. rewrite list_filter_filter.
    apply list_filter_iff. intros e. set_solver.
Qed.

Lemma filter_stale_keys (es : list (Nonce * Z)) cutoff :
  NoDup es.*1 →
  filter (λ e, e.1 ∉ (filter (λ e, e.2 < cutoff) es).*1) es = filter (λ e, cutoff ≤ e.2) es.
Proof.
  intros Hn. apply filter_ext_in. intros [k v] Hin. simpl. rewrite elem_of_keys. split.
  - intros H. destruct (decide (cutoff ≤ v)); [done|]. destruct H. exists v.
    apply list_elem_of_filter. split; [simpl; lia|done].
  - intros Hv [v' Hf]. apply list_elem_of_filter in Hf as [Hlt Hin']. simpl in Hlt.
    assert (v = v') by (by eapply nodup_keys_inj). lia.
Qed.

(** The entries that stay when a new nonce needs a place. *)
Definition make_room c : list (Nonce * Z) :=
  if cache_len c <? cache_capacity c then cache_entries c else removelast (cache_entries c).

Lemma make_room_incl c e : e ∈ make_room c → e ∈ cache_entries c.
Proof.
  unfold make_room. case_match; [done|]. rewrite removelast_take. intros He.
  rewrite <- (take_drop (pred (length (cache_entries c))) (cache_entries c)).
  apply elem_of_app. by left.
Qed.

Lemma put_entries c n now :
  n ∉ cache_keys c → lru_iter (lru_put (inner c) n now) = (n, now) :: make_room c.
Proof.
  intros Hn. rewrite (proj1 (lru_put_spec (inner c) n now)). unfold lru_insert.
  rewrite decide_False by done. unfold make_room, cache_len, cache_capacity.
  by rewrite lru_len_spec.
Qed.

Lemma rollback_entries c n now :
  n ∉ cache_keys c → lru_iter (lru_pop (lru_put (inner c) n now) n) = make_room c.
Proof.
  intros Hn. rewrite (proj1 (lru_pop_spec _ _)), put_entries by done.
  unfold assoc_remove. rewrite filter_cons, decide_False by (simpl; naive_solver).
  apply assoc_remove_notin. intros Hin. apply elem_of_keys in Hin as [v Hv].
  apply make_room_incl in Hv. apply Hn, elem_of_keys. eauto.
Qed.

Lemma check_and_insert_cases c n now faults fs :
  ((n ∈ cache_keys c) ∧ check_and_insert c n now faults fs = (c, fs, Ok false)) ∨
  ((n ∉ cache_keys c) ∧ ∃ c' fs',
     check_and_insert c n now faults fs = (c', fs', Ok true) ∧
     persist_path c' = persist_path c ∧ cache_capacity c' = cache_capacity c ∧
     cache_entries c' = (n, now) :: make_room c ∧
     match persist_path c with
     | None => fs' = fs
     | Some p => fs' = <[p := cache_text (hash_iter (list_to_map (cache_entries c')))]> fs
     end) ∨
  ((n ∉ cache_keys c) ∧ ∃ c' p io,
     check_and_insert c n now faults fs = (c', fs, Err (ReplayWrite p io)) ∧
     persist_path c = Some p ∧ persist_path c' = Some p ∧
     cache_capacity c' = cache_capacity c ∧ cache_entries c' = make_room c).
Proof.
  unfold check_and_insert, save_to_file. rewrite lru_contains_spec.
  fold (cache_entries c). fold (cache_keys c).
  destruct (decide (n ∈ cache_keys c)) as [Hn|Hn];
    [left; by rewrite bool_decide_eq_true_2 by done|right].
  rewrite bool_decide_eq_false_2 by done. cbn [with_inner inner persist_path].
  pose proof (proj2 (lru_put_spec (inner c) n now)) as Hcap.
  destruct (persist_path c) as [p|] eqn:Hp.
  - destruct (write_cache_file_cases p (list_to_map (lru_iter (lru_put (inner c) n now))) faults fs)
      as [->|[io ->]].
    + left. split; [done|]. do 2 eexists. split; [done|]. unfold cache_entries, cache_capacity; simpl.
      split_and!; [by rewrite Hp|done|by apply put_entries|done].
    + right. split; [done|]. do 3 eexists. split; [done|]. unfold cache_entries, cache_capacity; simpl.
      split_and!; [done|by rewrite Hp| |by apply rollback_entries].
      by rewrite (proj2 (lru_pop_spec _ _)).
  - left. split; [done|]. do 2 eexists. split; [done|]. unfold cache_entries, cache_capacity; simpl.
    split_and!; [by rewrite Hp|done|by apply put_entries|done].
Qed.

(** A fresh nonce is accepted when the write succeeds. *)
Lemma check_and_insert_accepts c n now fs :
  n ∉ cache_keys c → (check_and_insert c n now no_faults fs).2 = Ok true.
Proof.
  intros Hn. unfold check_and_insert, save_to_file. rewrite lru_contains_spec.
  rewrite bool_decide_eq_false_2 by done. cbn [with_inner persist_path].
  by destruct (persist_path c).
Qed.

Lemma prune_entries c max_age now faults fs :
  let c' := (prune_older_than c max_age now faults fs).1.1 in
  cache_entries c' =
    filter (λ e, sat_sub_u64 now (as_secs max_age) ≤ e.2) (cache_entries c) ∧
  cache_capacity c' = cache_capacity c ∧ persist_path c' = persist_path c.
Proof.
  assert (cache_entries (with_inner c (foldl lru_pop (inner c)
    (filter (λ e, e.2 < sat_sub_u64 now (as_secs max_age)) (lru_iter (inner c))).*1)) =
    filter (λ e, sat_sub_u64 now (as_secs max_age) ≤ e.2) (cache_entries c)) as He.
  { unfold cache_entries; simpl. rewrite (proj1 (foldl_pop _ _)).
    apply filter_stale_keys, lru_nodup. }
  unfold prune_older_than. cbv zeta. repeat (case_match; simpl); (split_and!; [exact He| |done]);
    unfold cache_capacity; simpl; apply foldl_pop.
Qed.

Lemma foldl_put_fresh (l : lru Nonce Z) es :
  NoDup (es.*1 ++ (lru_iter l).*1) → len es + len (lru_iter l) ≤ lru_cap l →
  lru_iter (foldl (λ l e, lru_put l e.1 e.2) l es) = reverse es ++ lru_iter l ∧
  lru_cap (foldl (λ l e, lru_put l e.1 e.2) l es) = lru_cap l.
Proof.
  revert l. induction es as [|[k v] es IH]; intros l Hn Hl; [done|].
  cbn [foldl fst snd]. simpl in Hn. apply NoDup_cons in Hn as [Hk Hn].
  rewrite len_cons in Hl. pose proof (len_nonneg es).
  destruct (lru_put_spec l k v) as [Hi Hc].
  assert (lru_iter (lru_put l k v) = (k, v) :: lru_iter l) as Hi'.
  { rewrite Hi. unfold lru_insert. rewrite decide_False by set_solver.
    by rewrite (proj2 (Z.ltb_lt _ _)) by lia. }
  destruct (IH (lru_put l k v)) as [-> ->].
  - rewrite Hi'. simpl. rewrite <- Permutation_middle. by apply NoDup_cons.
  - rewrite Hi', len_cons, Hc. lia.
  - rewrite Hi', reverse_cons, <- (assoc_L (++)). done.
Qed.
End lemmas.

(** ** Properties *)

Section properties.
Context `{L : LruCache Nonce Z} `{LL : !LruLaws Nonce Z L} `{HL : HashIterLaws}.
Implicit Types (c : ReplayCache) (fs : Fs) (ops : list replay_op).

(** [check_and_insert] on every branch. A known nonce is a replay and
    changes nothing. A fresh one is accepted as the most recent entry, the
    least recent making room if the cache is full, and with a persistence
    path the file then holds the new cache. If the write fails the nonce is
    not in the cache and the file is untouched; the entry that made room is
    not put back. *)
Theorem check_and_insert_spec c n now faults fs :
  match check_and_insert c n now faults fs with
  | (c', fs', Ok false) => n ∈ cache_keys c ∧ c' = c ∧ fs' = fs
  | (c', fs', Ok true) =>
      (n ∉ cache_keys c) ∧ cache_entries c' = (n, now) :: make_room c ∧
      match persist_path c with
      | None => fs' = fs
      | Some p => fs' = <[p := cache_text (hash_iter (list_to_map (cache_entries c')))]> fs
      end
  | (c', fs', Err e) =>
      (n ∉ cache_keys c) ∧ (n ∉ cache_keys c') ∧ cache_entries c' = make_room c ∧ fs' = fs ∧
      ∃ p io, persist_path c = Some p ∧ e = ReplayWrite p io
  end.
Proof.
  destruct (check_and_insert_cases c n now faults fs)
    as [[Hn ->]|[(Hn & c' & fs' & -> & _ & _ & He & Hf)|(Hn & c' & p & io & -> & Hp & _ & _ & He)]];
    [done|done|].
  split_and!; eauto. intros Hin. apply elem_of_keys in Hin as [v Hv].
  unfold cache_entries in *. rewrite He in Hv. apply make_room_incl in Hv.
  apply Hn, elem_of_keys. eauto.
Qed.

(** Pruning keeps exactly the entries whose timestamp has reached the
    cutoff, which never goes below zero, and a success reports how many
    entries went. *)
Theorem prune_older_than_spec c max_age now faults fs :
  match prune_older_than c max_age now faults fs with
  | (c', fs', r) =>
      cache_entries c' =
        filter (λ e, sat_sub_u64 now (as_secs max_age) ≤ e.2) (cache_entries c) ∧
      (∀ k, r = Ok k → k = len (cache_entries c) - len (cache_entries c')) ∧
      (∀ e, r = Err e → ∃ p io, persist_path c = Some p ∧ e = ReplayWrite p io ∧ fs' = fs)
  end.
Proof.
  pose proof (prune_entries c max_age now faults fs) as (He & _ & _). revert He.
  unfold prune_older_than, save_to_file. cbv zeta. cbn [with_inner persist_path inner].
  rewrite !lru_len_spec. case_match; simpl; [|naive_solver].
  destruct (persist_path c) as [p|] eqn:Hp; simpl; [|naive_solver].
  match goal with |- context [write_cache_file ?p ?m ?f ?fs] =>
    destruct (write_cache_file_cases p m f fs) as [->|[io ->]] end; simpl; naive_solver.
Qed.

(** An entry is safe for [m] more insertions while at most that many younger
    entries may come before it. *)
Definition protected c n t m : Prop :=
  ∃ l1 l2, cache_entries c = l1 ++ (n, t) :: l2 ∧ len l1 + m < cache_capacity c.

Lemma protected_keys c n t m : protected c n t m → n ∈ cache_keys c.
Proof.
  intros (l1 & l2 & He & _). apply elem_of_keys. exists t. rewrite He. set_solver.
Qed.

Lemma make_room_protected c n t m :
  0 < m → protected c n t m →
  ∃ l1 l2, make_room c = l1 ++ (n, t) :: l2 ∧ len l1 + m < cache_capacity c.
Proof.
  intros Hm (l1 & l2 & He & Hl). unfold make_room, cache_len. rewrite lru_len_spec.
  fold (cache_entries c). rewrite He.
  destruct (Z.ltb_spec (len (l1 ++ (n, t) :: l2)) (cache_capacity c)) as [|Hge]; [eauto|].
  destruct l2 as [|e l2]; [rewrite len_app, len_cons, len_nil in Hge; lia|].
  exists l1, (removelast (e :: l2)). split; [|done].
  rewrite removelast_app by done. done.
Qed.

Definition op_inserts (op : replay_op) : Z :=
  match op with OpInsert _ _ _ => 1 | OpPrune _ _ _ => 0 end.
Definition count_inserts ops : Z := foldr (λ op k, op_inserts op + k) 0 ops.

(** A prune whose cutoff lies after [t] would drop an entry made at [t]. *)
Definition op_keeps (t : Z) (op : replay_op) : Prop :=
  match op with
  | OpInsert _ _ _ => True
  | OpPrune max_age now _ => sat_sub_u64 now (as_secs max_age) ≤ t
  end.

Lemma count_inserts_nonneg ops : 0 ≤ count_inserts ops.
Proof. induction ops as [|[] ops IH]; simpl; lia. Qed.

Lemma exec_protected c fs op n t m :
  op_keeps t op → 0 ≤ m → protected c n t (m + op_inserts op) →
  protected (replay_exec (c, fs) op).1 n t m.
Proof.
  intros Hop Hm Hp. destruct op as [n' now faults|max_age now faults]; simpl in *.
  - destruct (check_and_insert_cases c n' now faults fs)
      as [[_ ->]|[(_ & c' & fs' & -> & _ & Hc & He & _)|(_ & c' & p & io & -> & _ & _ & Hc & He)]]; simpl.
    + destruct Hp as (l1 & l2 & ? & ?). exists l1, l2. split; [done|lia].
    + destruct (make_room_protected c n t (m + 1)) as (l1 & l2 & Hr & Hl); [lia|done|].
      exists ((n', now) :: l1), l2. rewrite He, Hr, Hc, len_cons. split; [done|lia].
    + destruct (make_room_protected c n t (m + 1)) as (l1 & l2 & Hr & Hl); [lia|done|].
      exists l1, l2. rewrite He, Hr, Hc. split; [done|lia].
  - destruct (prune_entries c max_age now faults fs) as (He & Hc & _).
    destruct Hp as (l1 & l2 & Hl & Hlen). exists
      (filter (λ e, sat_sub_u64 now (as_secs max_age) ≤ e.2) l1),
      (filter (λ e, sat_sub_u64 now (as_secs max_age) ≤ e.2) l2).
    rewrite He, Hl, filter_app, filter_cons, decide_True by done. split; [done|].
    rewrite Hc. unfold len in *.
    pose proof (length_filter (λ e, sat_sub_u64 now (as_secs max_age) ≤ e.2) l1). lia.
Qed.

Lemma run_protected c fs ops n t :
  Forall (op_keeps t) ops → protected c n t (count_inserts ops) →
  protected (replay_run (c, fs) ops).1 n t 0.
Proof.
  intros Hops. revert c fs. induction Hops as [|op ops Hop _ IH]; intros c fs Hp; [done|].
  simpl in Hp. cbn [replay_run foldl].
  destruct (replay_exec (c, fs) op) as [c1 fs1] eqn:E. apply IH.
  pose proof (count_inserts_nonneg ops).
  replace c1 with (replay_exec (c, fs) op).1 by by rewrite E.
  apply exec_protected; [done|done|]. by rewrite Z.add_comm.
Qed.

(** An accepted nonce is still in the cache after such a run. *)
Lemma accepted_stays_known n c t faults fs c1 fs1 ops :
  check_and_insert c n t faults fs = (c1, fs1, Ok true) →
  Forall (op_keeps t) ops → count_inserts ops < cache_capacity c →
  n ∈ cache_keys (replay_run (c1, fs1) ops).1.
Proof.
  intros Hi Hops Hcount.
  destruct (check_and_insert_cases c n t faults fs)
    as [[_ E]|[(_ & c' & fs' & E & _ & Hc & He & _)|(_ & c' & p & io & E & _)]];
    rewrite E in Hi; simplify_eq.
  eapply protected_keys, run_protected; [exact Hops|].
  exists [], (make_room c). rewrite He, Hc, len_nil. split; [done|lia].
Qed.

Lemma known_is_replay c n now faults fs :
  n ∈ cache_keys c → check_and_insert c n now faults fs = (c, fs, Ok false).
Proof.
  intros Hn. destruct (check_and_insert_cases c n now faults fs) as [[_ ->]|[(? & _)|(? & _)]]; done.
Qed.

(** No nonce is accepted twice. After an acceptance at time [t], and
    through any sequence of fewer insertions than the capacity and of prunes
    whose cutoff does not pass [t], with writes failing anywhere, presenting
    the nonce again is reported as a replay. *)
Theorem no_double_accept c n t faults fs c1 fs1 ops now' faults' :
  check_and_insert c n t faults fs = (c1, fs1, Ok true) →
  Forall (op_keeps t) ops → count_inserts ops < cache_capacity c →
  let '(c2, fs2) := replay_run (c1, fs1) ops in
  (check_and_insert c2 n now' faults' fs2).2 = Ok false.
Proof.
  intros Hi Hops Hcount. pose proof (accepted_stays_known n c t faults fs c1 fs1 ops Hi Hops Hcount) as Hin.
  destruct (replay_run (c1, fs1) ops) as [c2 fs2]. by rewrite known_is_replay.
Qed.
End properties.

(** ** Durability *)

Section durability.
Context `{L : LruCache Nonce Z} `{LL : !LruLaws Nonce Z L} `{HL : HashIterLaws} `{HA : HashAlloc}.
Implicit Types (c : ReplayCache) (fs : Fs) (ops : list replay_op).

(** Every entry in memory is on disk, and the disk holds no more than one
    cache worth of entries. *)
Definition disk_covers c fs : Prop :=
  match persist_path c with
  | None => True
  | Some p =>
      ∃ m, read_cache_file p None fs = Ok m ∧ map_wf m ∧ Z.of_nat (size m) ≤ cache_capacity c ∧
           ∀ k v, (k, v) ∈ cache_entries c → m !! k = Some v
  end.

Definition cache_ok (s : ReplayCache * Fs) : Prop :=
  entries_wf (cache_entries s.1) ∧ disk_covers s.1 s.2.

(** The nonce and the clock reading of an operation have the widths of their
    types. *)
Definition op_wf (op : replay_op) : Prop :=
  match op with OpInsert n now _ => nonce_wf n ∧ is_u64 now | OpPrune _ _ _ => True end.

Lemma cache_entries_nodup c : NoDup (cache_entries c).*1.
Proof. apply lru_nodup. Qed.

Lemma entries_map_lookup c k v :
  (k, v) ∈ cache_entries c ↔ (list_to_map (cache_entries c) : gmap Nonce Z) !! k = Some v.
Proof. apply elem_of_list_to_map, cache_entries_nodup. Qed.

Lemma entries_map_wf c : entries_wf (cache_entries c) → map_wf (list_to_map (cache_entries c)).
Proof.
  intros Hw k v Hk. apply entries_map_lookup in Hk.
  unfold entries_wf in Hw. rewrite Forall_forall in Hw. by apply Hw in Hk.
Qed.

Lemma entries_map_size c :
  Z.of_nat (size (list_to_map (cache_entries c) : gmap Nonce Z)) ≤ cache_capacity c.
Proof.
  rewrite map_size_list_to_map by apply cache_entries_nodup.
  pose proof (lru_bounded (inner c)). unfold cache_entries, cache_capacity, len in *. done.
Qed.

(** A file just written for a cache covers it. *)
Lemma written_covers c p fs :
  entries_wf (cache_entries c) → persist_path c = Some p →
  disk_covers c (<[p := cache_text (hash_iter (list_to_map (cache_entries c)))]> fs).
Proof.
  intros Hw Hp. unfold disk_covers. rewrite Hp. exists (list_to_map (cache_entries c)).
  split_and!; [|by apply entries_map_wf|apply entries_map_size|by intros k v ?%entries_map_lookup].
  unfold read_cache_file. rewrite lookup_insert_eq.
  by rewrite parse_cache_text by by apply entries_map_wf.
Qed.

(** A cache with fewer entries stays covered by the same file. *)
Lemma shrunk_covers c c' fs :
  disk_covers c fs → persist_path c' = persist_path c → cache_capacity c' = cache_capacity c →
  (∀ e, e ∈ cache_entries c' → e ∈ cache_entries c) → disk_covers c' fs.
Proof.
  unfold disk_covers. intros Hd -> Hc Hsub. destruct (persist_path c); [|done].
  destruct Hd as (m & ? & ? & ? & Hm). exists m. rewrite Hc. split_and!; auto.
Qed.

Lemma shrunk_wf (es es' : list (Nonce * Z)) :
  entries_wf es → (∀ e, e ∈ es' → e ∈ es) → entries_wf es'.
Proof. unfold entries_wf. rewrite !Forall_forall. auto. Qed.

Lemma insert_ok c n now faults fs :
  nonce_wf n → is_u64 now → cache_ok (c, fs) → cache_ok (check_and_insert c n now faults fs).1.
Proof.
  intros Hn Hnow [Hw Hd]; simpl in *.
  assert (entries_wf (make_room c)) as Hroom by (eapply shrunk_wf; [done|apply make_room_incl]).
  destruct (check_and_insert_cases c n now faults fs)
    as [[_ ->]|[(_ & c' & fs' & -> & Hp & Hc & He & Hf)|(_ & c' & p & io & -> & Hp & Hp' & Hc & He)]].
  - done.
  - assert (entries_wf (cache_entries c')) as Hw' by (rewrite He; by constructor).
    split; [done|]. simpl. destruct (persist_path c) as [p|] eqn:E.
    + subst fs'. by apply written_covers.
    + unfold disk_covers. by rewrite Hp.
  - split; simpl; [by rewrite He|]. apply (shrunk_covers c); [done|by rewrite Hp, Hp'|done|].
    rewrite He. apply make_room_incl.
Qed.

Lemma prune_ok c max_age now faults fs :
  cache_ok (c, fs) → cache_ok (prune_older_than c max_age now faults fs).1.
Proof.
  intros [Hw Hd]; simpl in *. pose proof (prune_entries c max_age now faults fs) as (He & Hc & Hp).
  set (r := prune_older_than c max_age now faults fs) in *.
  assert (∀ e, e ∈ cache_entries r.1.1 → e ∈ cache_entries c) as Hsub.
  { rewrite He. intros e. rewrite list_elem_of_filter. naive_solver. }
  assert (entries_wf (cache_entries r.1.1)) as Hw' by by eapply shrunk_wf.
  assert (r.1.2 = fs ∨ ∃ p, persist_path r.1.1 = Some p ∧
    r.1.2 = <[p := cache_text (hash_iter (list_to_map (cache_entries r.1.1)))]> fs) as Hf.
  { unfold r, prune_older_than, save_to_file. cbv zeta. cbn [with_inner persist_path inner].
    case_match; [|by left]. destruct (persist_path c) as [p|] eqn:E; [|by left].
    match goal with |- context [write_cache_file ?p ?m ?f ?fs] =>
      destruct (write_cache_file_cases p m f fs) as [->|[io ->]] end; simpl; [right|by left].
    exists p. by rewrite E. }
  split; [done|]. destruct Hf as [->|(p & Hpp & ->)].
  - by apply (shrunk_covers c).
  - by apply written_covers.
Qed.

(** Invariant. Starting from a cache whose file covers it, no sequence
    of insertions and prunes, with writes failing anywhere, ever leaves in
    memory an entry that is not on disk. *)
Theorem replay_run_ok s ops : cache_ok s → Forall op_wf ops → cache_ok (replay_run s ops).
Proof.
  intros Hs Hops. revert s Hs. induction Hops as [|op ops Hop _ IH]; intros [c fs] Hs; [done|].
  cbn [replay_run foldl]. apply IH. destruct op; simpl.
  - destruct Hop. by apply insert_ok.
  - by apply prune_ok.
Qed.

(** Crash recovery. At any point of a run, opening the cache again from
    the file of a cache of at most 10000 entries succeeds, knows every nonce
    the lost process had in memory, and is again covered by the file; only when
    there is no file must a table of the configured capacity fit. *)
Theorem restart_keeps_entries c fs p max_entries :
  cache_ok (c, fs) → persist_path c = Some p → cache_capacity c ≤ DEFAULT_MAX_ENTRIES →
  0 ≤ max_entries → (fs !! p = None → table_fits NonceTable (Z.max 1 max_entries) = true) →
  ∃ c', open_replay p max_entries None fs = Some (Ok c') ∧ cache_ok (c', fs) ∧
        ∀ e, e ∈ cache_entries c → e ∈ cache_entries c'.
Proof.
  intros [Hw Hd] Hp Hcap Hmax Hfit. unfold disk_covers in Hd; cbn [fst snd] in Hd, Hw. rewrite Hp in Hd.
  destruct Hd as (m & Hread & Hmwf & Hsize & Hm). unfold open_replay, load_from_file.
  destruct (fs !! p) as [text|] eqn:Ef.
  - rewrite Hread. cbn [mbind result_bind]. eexists; split; [done|].
    destruct (lru_new_spec DEFAULT_MAX_ENTRIES) as [Hni Hnc]; [done|].
    assert (len (hash_iter m) = Z.of_nat (size m)) as Hl.
    { unfold len. by rewrite (Permutation_length (hash_iter_perm m)), length_map_to_list. }
    destruct (foldl_put_fresh (lru_new DEFAULT_MAX_ENTRIES) (hash_iter m)) as [Hi Hc].
    { rewrite Hni, app_nil_r. apply hash_iter_nodup. }
    { rewrite Hni, Hnc, Hl, len_nil. lia. }
    rewrite Hni, app_nil_r in Hi. rewrite Hnc in Hc.
    assert (∀ k v, (k, v) ∈ reverse (hash_iter m) ↔ m !! k = Some v) as Hel.
    { intros k v. rewrite elem_of_reverse, hash_iter_perm. apply elem_of_map_to_list. }
    unfold cache_ok, disk_covers, cache_entries, cache_capacity, set_persist_path;
      cbn [fst snd inner persist_path]. rewrite Hi, Hc. split_and!.
    + unfold entries_wf. apply Forall_reverse. by apply hash_iter_wf.
    + exists m. split_and!; [done|done|lia|]. intros k v. by rewrite Hel.
    + intros [k v] He. apply Hel. by apply Hm.
  - assert ((if max_entries =? 0 then 1 else max_entries) = Z.max 1 max_entries) as Ecap
      by (case_match; bool_prop; lia).
    unfold with_capacity. rewrite Ecap, (Hfit eq_refl). eexists; split; [done|]. rewrite <- Ecap.
    assert (m = ∅) as -> by (unfold read_cache_file in Hread; rewrite Ef in Hread; by simplify_eq).
    destruct (lru_new_spec (if max_entries =? 0 then 1 else max_entries)) as [Hni Hnc];
      [case_match; bool_prop; lia|].
    unfold cache_ok, disk_covers, cache_entries, cache_capacity, set_persist_path, sized;
      cbn [fst snd inner persist_path]. rewrite Hni, Hnc.
    split_and!; [constructor| |].
    + exists ∅. split_and!; [done|done| |set_solver].
      rewrite map_size_empty. case_match; bool_prop; lia.
    + intros [k v] He. by apply Hm in He.
Qed.

(** The configured [max_entries] bounds the cache only while there is no
    cache file: after a restart the capacity is the built-in 10000, whatever
    the configuration says. *)
Theorem open_replay_capacity p max_entries fs c :
  0 ≤ max_entries → open_replay p max_entries None fs = Some (Ok c) →
  cache_capacity c =
    match fs !! p with
    | Some _ => DEFAULT_MAX_ENTRIES
    | None => Z.max 1 max_entries
    end.
Proof.
  intros Hmax Ho. unfold open_replay, load_from_file, with_capacity in Ho.
  destruct (fs !! p); [cbn in Ho; apply (inj Some) in Ho; inv_ok; subst|].
  - unfold cache_capacity; simpl. generalize (hash_iter x0) as es.
    assert (lru_cap (lru_new DEFAULT_MAX_ENTRIES) = DEFAULT_MAX_ENTRIES) as E
      by (by apply (proj2 (lru_new_spec DEFAULT_MAX_ENTRIES ltac:(done)))). revert E. generalize (lru_new DEFAULT_MAX_ENTRIES) as l0.
    intros l0 E es. revert l0 E. induction es as [|e es IH]; intros l0 E; [done|].
    simpl. apply IH. by rewrite (proj2 (lru_put_spec _ _ _)).
  - destruct (table_fits _ _); [|done]. injection Ho as <-. unfold cache_capacity, set_persist_path, sized. cbn [inner].
    destruct (lru_new_spec (if max_entries =? 0 then 1 else max_entries)) as [_ ->];
      case_match; bool_prop; lia.
Qed.

(** So a restart forgets nonces of a cache that was configured larger: when
    the file holds more than 10000, some of them are not known any more. *)
Lemma restart_forgets p max_entries fs m c :
  0 ≤ max_entries → is_Some (fs !! p) → read_cache_file p None fs = Ok m →
  DEFAULT_MAX_ENTRIES < Z.of_nat (size m) → open_replay p max_entries None fs = Some (Ok c) →
  ∃ k v, m !! k = Some v ∧ (k, v) ∉ cache_entries c.
Proof.
  intros Hmax [text Hf] Hr Hbig Ho. destruct (decide (map_Forall (λ k v, (k, v) ∈ cache_entries c) m)) as [Hall|Hn].
  - exfalso. pose proof (entries_map_size c) as Hs.
    rewrite (open_replay_capacity _ _ _ _ Hmax Ho), Hf in Hs.
    assert (m ⊆ list_to_map (cache_entries c)) as Hsub%map_subseteq_size.
    { apply map_subseteq_spec. intros k v Hkv. apply entries_map_lookup. by apply Hall. }
    lia.
  - apply map_not_Forall in Hn as (k & v & ? & ?); [by exists k, v|]. apply _.
Qed.
End durability.

(** ** Witnesses *)

#[local] Existing Instance sorted_hash_iter.
#[local] Existing Instance sorted_hash_iter_laws.

(** A two-entry cache persisted at ["c"], with concrete nonces. *)
Definition sample_nonce_of (k : Z) : Nonce := replicate 16 k.
Definition sample_cache : ReplayCache := set_persist_path (sized 2) (lit "c").

Lemma check_and_insert_spec_witness :
  let '(c, fs, _) := check_and_insert sample_cache (sample_nonce_of 1) 100 no_faults ∅ in
  cache_entries c = [(sample_nonce_of 1, 100)] ∧
  fs = <[lit "c" := cache_text (hash_iter (list_to_map (cache_entries c)))]> ∅.
Proof.
  pose proof (check_and_insert_spec sample_cache (sample_nonce_of 1) 100 no_faults ∅) as H.
  assert ((check_and_insert sample_cache (sample_nonce_of 1) 100 no_faults ∅).2 = Ok true) as E
    by (vm_compute; reflexivity).
  destruct (check_and_insert sample_cache (sample_nonce_of 1) 100 no_faults ∅) as [[c fs] r].
  cbn [snd] in E. subst r. destruct H as (_ & He & Hf). split; [exact He|exact Hf].
Defined.

Lemma prune_older_than_spec_witness :
  cache_entries (prune_older_than sample_cache (from_secs 60) 150 no_faults ∅).1.1 =
  filter (λ e, 90 ≤ e.2) (cache_entries sample_cache).
Proof.
  pose proof (prune_older_than_spec sample_cache (from_secs 60) 150 no_faults ∅) as H.
  destruct (prune_older_than sample_cache (from_secs 60) 150 no_faults ∅) as [[c fs] r].
  exact (proj1 H).
Defined.

Lemma no_double_accept_witness :
  ∃ c1 fs1,
    check_and_insert sample_cache (sample_nonce_of 1) 100 no_faults ∅ = (c1, fs1, Ok true) ∧
    let '(c2, fs2) :=
      replay_run (c1, fs1) [OpPrune (from_secs 60) 150 no_faults;
                            OpInsert (sample_nonce_of 2) 151 no_faults] in
    (check_and_insert c2 (sample_nonce_of 1) 152 no_faults fs2).2 = Ok false.
Proof.
  eexists _, _. split; [vm_compute; reflexivity|].
  apply (no_double_accept sample_cache (sample_nonce_of 1) 100 no_faults ∅).
  - vm_compute. reflexivity.
  - repeat constructor; vm_compute; discriminate.
  - vm_compute. reflexivity.
Defined.

Lemma empty_cache_ok : cache_ok (sample_cache, ∅).
Proof.
  split; [constructor|]. exists ∅. split_and!; [reflexivity|done|done|].
  intros k v Hin. change (cache_entries sample_cache) with (@nil (Nonce * Z)) in Hin. set_solver.
Qed.

Lemma replay_run_ok_witness :
  cache_ok (replay_run (sample_cache, ∅) [OpInsert (sample_nonce_of 1) 100 no_faults]).
Proof.
  apply (replay_run_ok (sample_cache, ∅)); [apply empty_cache_ok|].
  constructor; [|constructor]. split; apply (bool_decide_unpack _); vm_compute; exact I.
Defined.

#[local] Existing Instance million_entries.

Lemma restart_keeps_entries_witness :
  ∃ c', open_replay (lit "c") 2 None ∅ = Some (Ok c') ∧ cache_ok (c', ∅) ∧
        ∀ e, e ∈ cache_entries sample_cache → e ∈ cache_entries c'.
Proof.
  apply (restart_keeps_entries sample_cache ∅ (lit "c") 2).
  - apply empty_cache_ok.
  - reflexivity.
  - vm_compute. discriminate.
  - lia.
  - reflexivity.
Defined.

(** A cache opened at capacity 2 has room for 10000 entries once it has been
    written and opened again. *)
Lemma open_replay_capacity_witness :
  ∃ c, open_replay (lit "c") 2 None {[ lit "c" := [] ]} = Some (Ok c) ∧ cache_capacity c = 10000.
Proof.
  eexists. split; [vm_compute; reflexivity|].
  refine (open_replay_capacity (lit "c") 2 {[ lit "c" := [] ]} _ _ _); [lia|].
  vm_compute. reflexivity.
Defined.
