(* ===== verification/ReplaySpec.v ===== *)
(** * What the replay cache promises

    An abstract ledger of nonces, as a transition system with events, and the
    proof that the cache of crates/fwknox-replay (Replay.v) implements it: an
    operation of the cache, with its write succeeding or failing, and a crash
    followed by a restart from the file, are steps of the ledger with the same
    event.  Safety is then proved of the ledger by induction on its runs. *)

From S2P Require Import Prelude RustStd Lru Persist Replay.

(** ** The ledger *)

(** [known] are the nonces held against replays, newest first; [saved] is what
    a crash leaves; [room] how many nonces fit. *)
Record ledger := { known : list (Nonce * Z); saved : gmap Nonce Z; room : Z }.

Inductive event :=
  | Accepted (n : Nonce) (t : Z)
  | Replayed (n : Nonce)
  | Refused (n : Nonce)
  | Pruned (cutoff : Z) (count : option Z)
  | Restarted.

(** The newest entries that stay when one more needs a place. *)
Definition make_place (a : ledger) : list (Nonce * Z) :=
  if len (known a) <? room a then known a else removelast (known a).

Definition keep_from (cutoff : Z) (es : list (Nonce * Z)) : list (Nonce * Z) :=
  filter (λ e, cutoff ≤ e.2) es.
Definition forgotten (cutoff : Z) (a : ledger) : Z := len (known a) - len (keep_from cutoff (known a)).

(** A nonce is accepted only if it is not known, and only together with the
    write that makes it survive a crash. A failed write refuses it, but the
    place it needed stays empty. A prune reports how many nonces it forgot and
    brings the disk up to date if there were any; when that write fails it
    reports no number and is effective in memory alone. *)
Inductive ledger_step : ledger → event → ledger → Prop :=
  | step_accept a n t :
      n ∉ (known a).*1 →
      ledger_step a (Accepted n t)
        {| known := (n, t) :: make_place a; saved := list_to_map ((n, t) :: make_place a); room := room a |}
  | step_replay a n : n ∈ (known a).*1 → ledger_step a (Replayed n) a
  | step_refuse a n :
      n ∉ (known a).*1 →
      ledger_step a (Refused n) {| known := make_place a; saved := saved a; room := room a |}
  | step_prune a cutoff :
      ledger_step a (Pruned cutoff (Some (forgotten cutoff a)))
        {| known := keep_from cutoff (known a);
           saved := if 0 <? forgotten cutoff a then list_to_map (keep_from cutoff (known a)) else saved a;
           room := room a |}
  | step_prune_unsaved a cutoff :
      0 < forgotten cutoff a →
      ledger_step a (Pruned cutoff None)
        {| known := keep_from cutoff (known a); saved := saved a; room := room a |}
  | step_restart a es r :
      es ≡ₚ map_to_list (saved a) → Z.of_nat (size (saved a)) ≤ r → 1 ≤ r →
      ledger_step a Restarted {| known := es; saved := saved a; room := r |}.

Inductive ledger_run : ledger → list event → ledger → Prop :=
  | run_nil a : ledger_run a [] a
  | run_cons a e b es c : ledger_step a e b → ledger_run b es c → ledger_run a (e :: es) c.

(** ** The cache as a transition system *)

Section refinement.
Context `{L : LruCache Nonce Z} `{LL : !LruLaws Nonce Z L} `{HI : HashIter} `{HL : !HashIterLaws HI} `{HA : HashAlloc}.
Context (p : str) (max_entries : Z).
Implicit Types (c : ReplayCache) (fs : Fs) (a : ledger) (s : ReplayCache * Fs).

(** What a caller sees of an insertion. *)
Definition insert_event (n : Nonce) (now : Z) (r : result ReplayError bool) : event :=
  match r with Ok true => Accepted n now | Ok false => Replayed n | Err _ => Refused n end.
(** And of a prune. *)
Definition prune_event (cutoff : Z) (r : result ReplayError Z) : event :=
  Pruned cutoff (match r with Ok count => Some count | Err _ => None end).

Inductive cache_step : ReplayCache * Fs → event → ReplayCache * Fs → Prop :=
  | cache_insert c fs n now faults c' fs' r :
      nonce_wf n → is_u64 now → check_and_insert c n now faults fs = (c', fs', r) →
      cache_step (c, fs) (insert_event n now r) (c', fs')
  | cache_prune c fs max_age now faults c' fs' r :
      prune_older_than c max_age now faults fs = (c', fs', r) →
      cache_step (c, fs) (prune_event (sat_sub_u64 now (as_secs max_age)) r) (c', fs')
  | cache_restart c fs c' :
      open_replay p max_entries None fs = Some (Ok c') → cache_step (c, fs) Restarted (c', fs).

Inductive cache_run : ReplayCache * Fs → list event → ReplayCache * Fs → Prop :=
  | cache_nil s : cache_run s [] s
  | cache_cons s e s' es s'' : cache_step s e s' → cache_run s' es s'' → cache_run s (e :: es) s''.

(** The ledger a cache and its file stand for. *)
Definition implements s a : Prop :=
  let '(c, fs) := s in
  cache_entries c = known a ∧ cache_capacity c = room a ∧ persist_path c = Some p ∧
  read_cache_file p None fs = Ok (saved a) ∧ map_wf (saved a) ∧ entries_wf (known a) ∧
  Z.of_nat (size (saved a)) ≤ DEFAULT_MAX_ENTRIES ∧ room a ≤ DEFAULT_MAX_ENTRIES.

Lemma make_place_room c a :
  cache_entries c = known a → cache_capacity c = room a → make_room c = make_place a.
Proof.
  intros He Hc. unfold make_room, make_place, cache_len. rewrite lru_len_spec, Hc, <- He. done.
Qed.

(** A file just written is what is saved. *)
Lemma written_saved c fs :
  entries_wf (cache_entries c) →
  read_cache_file p None (<[p := cache_text (hash_iter (list_to_map (cache_entries c)))]> fs) =
    Ok (list_to_map (cache_entries c)).
Proof.
  intros Hw. unfold read_cache_file. rewrite lookup_insert_eq.
  by rewrite parse_cache_text by by apply entries_map_wf.
Qed.

Lemma insert_simulated c fs a n now faults c' fs' r :
  nonce_wf n → is_u64 now → implements (c, fs) a →
  check_and_insert c n now faults fs = (c', fs', r) →
  ∃ a', ledger_step a (insert_event n now r) a' ∧ implements (c', fs') a'.
Proof.
  intros Hn Hnow (He&Hc&Hp&Hr&Hm&Hw&Hs&Hb) E. pose proof (make_place_room c a He Hc) as Hroom.
  assert (entries_wf (make_place a)) as Hwp.
  { rewrite <- Hroom. eapply shrunk_wf; [|apply make_room_incl]. by rewrite He. }
  unfold cache_keys in *.
  destruct (check_and_insert_cases c n now faults fs)
    as [[Hin E']|[(Hin&c1&fs1&E'&Hp'&Hc'&He'&Hf)|(Hin&c1&p1&io&E'&Hpc&Hp'&Hc'&He')]];
    rewrite E' in E; injection E as <- <- <-; unfold cache_keys in Hin; rewrite He in Hin; cbn [insert_event].
  - exists a. split; [by constructor|]. by split_and!.
  - eexists. split; [by constructor|]. rewrite Hp in Hf, Hp'. rewrite Hroom in He'. rewrite Hc in Hc'.
    rewrite <- He'. subst fs1.
    assert (entries_wf (cache_entries c1)) as Hw1 by (rewrite He'; constructor; [by split|done]).
    pose proof (entries_map_size c1) as Hsz. rewrite Hc' in Hsz.
    unfold implements. cbn [known saved room].
    split_and!; [done|done|done|by apply written_saved|by apply entries_map_wf|done|lia|done].
  - eexists. split; [by constructor|]. unfold implements. cbn [known saved room]. rewrite Hroom in He'.
    split_and!; [done|by rewrite Hc'|by rewrite Hp in Hpc; simplify_eq|done..].
Qed.

(** The file after a prune: rewritten if and only if something was removed and
    the write succeeded. *)
Lemma prune_file c max_age now faults fs c' fs' r :
  persist_path c = Some p → prune_older_than c max_age now faults fs = (c', fs', r) →
  let count := len (cache_entries c) - len (cache_entries c') in
  (count ≤ 0 ∧ fs' = fs ∧ r = Ok count) ∨
  (0 < count ∧ fs' = <[p := cache_text (hash_iter (list_to_map (cache_entries c')))]> fs ∧ r = Ok count) ∨
  (0 < count ∧ fs' = fs ∧ ∃ e, r = Err e).
Proof.
  intros Hp. unfold prune_older_than, save_to_file. cbv zeta. cbn [with_inner persist_path inner]. rewrite Hp.
  rewrite !lru_len_spec. fold (cache_entries c).
  set (inner' := foldl lru_pop _ _).
  destruct (Z.gtb_spec (len (cache_entries c) - len (lru_iter inner')) 0) as [Hc|Hc].
  - destruct (write_cache_file_cases p (list_to_map (lru_iter inner')) faults fs) as [E|[io E]]; rewrite E;
      intros [= <- <- <-]; right; [left|right]; split_and!; eauto.
  - intros [= <- <- <-]. by left.
Qed.

Lemma prune_simulated c fs a max_age now faults c' fs' r :
  implements (c, fs) a → prune_older_than c max_age now faults fs = (c', fs', r) →
  ∃ a', ledger_step a (prune_event (sat_sub_u64 now (as_secs max_age)) r) a' ∧ implements (c', fs') a'.
Proof.
  intros (He&Hc&Hp&Hr&Hm&Hw&Hs&Hb) E. set (cutoff := sat_sub_u64 now (as_secs max_age)).
  pose proof (prune_entries c max_age now faults fs) as (Hpe&Hpc&Hpp). rewrite E in Hpe, Hpc, Hpp. cbn [fst] in *.
  rewrite He in Hpe. fold cutoff in Hpe. fold (keep_from cutoff (known a)) in Hpe.
  assert (entries_wf (keep_from cutoff (known a))) as Hw'.
  { eapply shrunk_wf; [exact Hw|]. intros e. unfold keep_from. rewrite list_elem_of_filter. naive_solver. }
  pose proof (entries_map_size c') as Hsz. rewrite Hpc, Hc in Hsz.
  pose proof (step_prune a cutoff) as Hok. pose proof (step_prune_unsaved a cutoff) as Hbad.
  apply prune_file in E; [|done]. cbv zeta in E. rewrite He, Hpe in E. fold (forgotten cutoff a) in E.
  destruct E as [(Hle&->&->)|[(Hlt&->& ->)|(Hlt&->&e&->)]]; cbn [prune_event].
  - rewrite (proj2 (Z.ltb_ge _ _) Hle) in Hok. eexists. split; [exact Hok|].
    unfold implements. cbn [known saved room]. split_and!; try done; by rewrite ?Hpc, ?Hpp.
  - rewrite (proj2 (Z.ltb_lt _ _) Hlt) in Hok. eexists. split; [exact Hok|].
    rewrite <- Hpe in Hw' |- *. unfold implements. cbn [known saved room].
    split_and!; [done|by rewrite Hpc|by rewrite Hpp|by apply written_saved|by apply entries_map_wf|done|lia|done].
  - eexists. split; [exact (Hbad Hlt)|].
    unfold implements. cbn [known saved room]. split_and!; try done; by rewrite ?Hpc, ?Hpp.
Qed.

(** Opening the cache from its file, at most the built-in capacity of entries. *)
Lemma open_simulated fs a c' :
  0 ≤ max_entries ≤ DEFAULT_MAX_ENTRIES → read_cache_file p None fs = Ok (saved a) →
  Z.of_nat (size (saved a)) ≤ DEFAULT_MAX_ENTRIES → open_replay p max_entries None fs = Some (Ok c') →
  ∃ a', ledger_step a Restarted a' ∧ implements (c', fs) a'.
Proof.
  intros Hmax Hr Hs E. pose proof (read_cache_wf _ _ _ Hr) as Hm. unfold open_replay, load_from_file, with_capacity in E.
  destruct (fs !! p) as [text|] eqn:Ef.
  - rewrite Hr in E. cbn [mbind option_bind result_bind] in E. injection E as <-.
    destruct (lru_new_spec DEFAULT_MAX_ENTRIES) as [Hni Hnc]; [done|].
    assert (len (hash_iter (saved a)) = Z.of_nat (size (saved a))) as Hl.
    { unfold len. by rewrite (Permutation_length (hash_iter_perm _)), length_map_to_list. }
    destruct (foldl_put_fresh (lru_new DEFAULT_MAX_ENTRIES) (hash_iter (saved a))) as [Hi Hcap].
    { rewrite Hni, app_nil_r. apply hash_iter_nodup. }
    { rewrite Hni, Hnc, Hl, len_nil. lia. }
    rewrite Hni, app_nil_r in Hi. rewrite Hnc in Hcap.
    exists {| known := reverse (hash_iter (saved a)); saved := saved a; room := DEFAULT_MAX_ENTRIES |}. split.
    + constructor; [|done|done]. by rewrite reverse_Permutation, hash_iter_perm.
    + unfold implements, cache_entries, cache_capacity, set_persist_path. cbn [known saved room inner persist_path].
      split_and!; [done|done|done|done|done|by apply Forall_reverse, hash_iter_wf|done|done].
  - destruct (table_fits _ _); [|done]. cbn [fmap option_fmap option_map mbind option_bind result_bind] in E. injection E as <-.
    assert (saved a = ∅) as Em by (unfold read_cache_file in Hr; rewrite Ef in Hr; by simplify_eq).
    destruct (lru_new_spec (if max_entries =? 0 then 1 else max_entries)) as [Hni Hnc];
      [case_match; bool_prop; lia|].
    exists {| known := []; saved := saved a; room := if max_entries =? 0 then 1 else max_entries |}. split.
    + constructor; [by rewrite Em, map_to_list_empty|rewrite Em, map_size_empty|]; case_match; bool_prop; lia.
    + unfold implements, cache_entries, cache_capacity, set_persist_path, sized.
      cbn [known saved room inner persist_path]. rewrite Hni, Hnc.
      split_and!; [done..|constructor|done|]. case_match; unfold DEFAULT_MAX_ENTRIES in *; lia.
Qed.

Lemma step_simulated s e s' a :
  0 ≤ max_entries ≤ DEFAULT_MAX_ENTRIES → implements s a → cache_step s e s' →
  ∃ a', ledger_step a e a' ∧ implements s' a'.
Proof.
  intros Hmax Hi Hs. destruct Hs as [| |c fs c' Ho]; [by eapply insert_simulated|by eapply prune_simulated|].
  destruct Hi as (_&_&_&Hr&_&_&Hs&_). by eapply open_simulated.
Qed.

Lemma run_simulated s es s' a :
  0 ≤ max_entries ≤ DEFAULT_MAX_ENTRIES → implements s a → cache_run s es s' →
  ∃ a', ledger_run a es a' ∧ implements s' a'.
Proof.
  intros Hmax Hi Hr. revert a Hi. induction Hr as [s|s e s1 es s2 Hs _ IH]; intros a Hi; [exists a; by split; [constructor|]|].
  destruct (step_simulated _ _ _ _ Hmax Hi Hs) as (a1&Hs1&Hi1). destruct (IH a1 Hi1) as (a2&Hr2&Hi2).
  exists a2. split; [by econstructor|done].
Qed.

(** Before the daemon runs there is only the file. *)
Definition file_ledger (m : gmap Nonce Z) : ledger := {| known := []; saved := m; room := 1 |}.

(** C18: refinement. Let the configured capacity be at most the 10000 built in,
    and let the daemon start with no cache file, or with one that can be read
    and holds at most 10000 entries. Every run of the cache from there, with
    writes failing at will and crashes followed by restarts anywhere, is a run
    of the ledger with the same events, which begins with the restart from
    that file, and at its end memory and file are the ledger's. *)
Theorem cache_refines_ledger fs m c es s' :
  0 ≤ max_entries ≤ DEFAULT_MAX_ENTRIES →
  read_cache_file p None fs = Ok m → Z.of_nat (size m) ≤ DEFAULT_MAX_ENTRIES →
  open_replay p max_entries None fs = Some (Ok c) → cache_run (c, fs) es s' →
  ∃ a', ledger_run (file_ledger m) (Restarted :: es) a' ∧
    cache_entries s'.1 = known a' ∧ read_cache_file p None s'.2 = Ok (saved a') ∧
    cache_capacity s'.1 = room a'.
Proof.
  intros Hmax Hf Hm Ho Hr. destruct (open_simulated fs (file_ledger m) c Hmax Hf Hm Ho) as (a&Hs&Hi).
  destruct (run_simulated _ _ _ _ Hmax Hi Hr) as (a'&Hr'&Hi').
  exists a'. destruct s' as [c' fs']. destruct Hi' as (?&?&_&?&_). split_and!; [by econstructor|done..].
Qed.
End refinement.

(** ** Safety of the ledger *)

Definition ledger_inv (a : ledger) : Prop :=
  NoDup (known a).*1 ∧ (∀ k v, (k, v) ∈ known a → saved a !! k = Some v) ∧ len (known a) ≤ room a ∧ 1 ≤ room a.

Lemma make_place_incl a e : e ∈ make_place a → e ∈ known a.
Proof.
  unfold make_place. case_match; [done|]. rewrite removelast_take. intros He.
  rewrite <- (take_drop (pred (length (known a))) (known a)). apply elem_of_app. by left.
Qed.

Lemma make_place_keys a : NoDup (known a).*1 → NoDup (make_place a).*1.
Proof.
  unfold make_place. case_match; [done|]. rewrite removelast_take. intros Hn.
  rewrite <- (take_drop (pred (length (known a))) (known a)), fmap_app in Hn.
  by apply NoDup_app in Hn as [Hn _].
Qed.

Lemma make_place_len a : len (known a) ≤ room a → 1 ≤ room a → len (make_place a) < room a.
Proof.
  intros Hl Hr. unfold make_place. destruct (Z.ltb_spec (len (known a)) (room a)); [done|].
  rewrite removelast_take. unfold len in *. rewrite length_take. lia.
Qed.

Lemma keep_from_shrinks cutoff a :
  NoDup (known a).*1 →
  (∀ e, e ∈ keep_from cutoff (known a) → e ∈ known a) ∧ NoDup (keep_from cutoff (known a)).*1 ∧
  len (keep_from cutoff (known a)) ≤ len (known a).
Proof.
  intros Hn. unfold keep_from, len. split_and!.
  - intros e. rewrite list_elem_of_filter. naive_solver.
  - eapply sublist_NoDup; [exact Hn|]. apply fmap_sublist, sublist_filter.
  - pose proof (length_filter (λ e, cutoff ≤ e.2) (known a)). lia.
Qed.

Lemma ledger_step_inv a e b : ledger_inv a → ledger_step a e b → ledger_inv b.
Proof.
  intros (Hn&Hs&Hl&Hr) Hstep. pose proof (make_place_len a Hl Hr) as Hpl. pose proof (make_place_keys a Hn) as Hpk.
  assert (∀ k v, (k, v) ∈ make_place a → (k, v) ∈ known a) as Hpi by (intros; by apply make_place_incl).
  destruct Hstep as [a n t Hin|a n Hin|a n Hin|a cutoff|a cutoff _|a es r Hes Hsz Hr1]; unfold ledger_inv; cbn [known saved room].
  - assert (NoDup ((n, t) :: make_place a).*1) as Hnd.
    { apply NoDup_cons. split; [|done]. intros Hk. apply Hin. apply elem_of_keys in Hk as [v Hv].
      apply elem_of_keys. eauto. }
    split_and!; [done| |rewrite len_cons; lia|done].
    intros k v Hkv. by apply elem_of_list_to_map.
  - by split_and!.
  - split_and!; [done|auto|lia|done].
  - destruct (keep_from_shrinks cutoff a Hn) as (Hk&Hnd&Hle). split_and!; [done| |lia|done].
    intros k v Hkv. case_match; [by apply elem_of_list_to_map|auto].
  - destruct (keep_from_shrinks cutoff a Hn) as (Hk&Hnd&Hle). split_and!; [done|auto|lia|done].
  - split_and!; [rewrite Hes; apply NoDup_fst_map_to_list| |unfold len; rewrite Hes, length_map_to_list; lia|done].
    intros k v. rewrite Hes. apply elem_of_map_to_list.
Qed.

(** A step that keeps the entry [(n, t)]: no prune passes [t], and a place is
    taken only while there is one. *)
Definition keeps (t : Z) (a : ledger) (e : event) : Prop :=
  match e with
  | Accepted _ _ | Refused _ => len (known a) < room a
  | Pruned cutoff _ => cutoff ≤ t
  | Replayed _ | Restarted => True
  end.

Lemma step_keeps a e b n t :
  ledger_inv a → ledger_step a e b → keeps t a e → (n, t) ∈ known a →
  (n, t) ∈ known b ∧ ∀ t', e ≠ Accepted n t'.
Proof.
  intros (_&Hs&_&_) Hstep Hk Hin.
  assert (n ∈ (known a).*1) as Hkey by (apply elem_of_keys; eauto).
  assert (len (known a) < room a → (n, t) ∈ make_place a) as Hp.
  { intros Hlt. unfold make_place. by rewrite (proj2 (Z.ltb_lt _ _) Hlt). }
  destruct Hstep as [a n' t' Hn'|a n' Hn'|a n' Hn'|a cutoff|a cutoff _|a es r Hes Hsz Hr1]; cbn [known keeps] in *.
  - split; [apply elem_of_cons; right; auto|]. intros t'' [= -> _]. done.
  - done.
  - split; [auto|done].
  - split; [|done]. unfold keep_from. by apply list_elem_of_filter.
  - split; [|done]. unfold keep_from. by apply list_elem_of_filter.
  - split; [|done]. rewrite Hes. apply elem_of_map_to_list. auto.
Qed.

(** ** No nonce twice, across crashes *)

Section safety.
Context `{L : LruCache Nonce Z} `{LL : !LruLaws Nonce Z L} `{HI : HashIter} `{HL : !HashIterLaws HI} `{HA : HashAlloc}.
Context (p : str) (max_entries : Z).

(** A run of the cache in which every new entry finds a free place and no
    prune passes [t]. *)
Inductive gentle_run (t : Z) : ReplayCache * Fs → list event → ReplayCache * Fs → Prop :=
  | gentle_nil s : gentle_run t s [] s
  | gentle_cons s e s' es s'' :
      cache_step p max_entries s e s' →
      match e with
      | Accepted _ _ | Refused _ => cache_len s.1 < cache_capacity s.1
      | Pruned cutoff _ => cutoff ≤ t
      | Replayed _ | Restarted => True
      end →
      gentle_run t s' es s'' → gentle_run t s (e :: es) s''.

Lemma gentle_known t s es s' a n :
  0 ≤ max_entries ≤ DEFAULT_MAX_ENTRIES →
  implements p s a → ledger_inv a → (n, t) ∈ known a → gentle_run t s es s' → ∀ t', Accepted n t' ∉ es.
Proof using LL HL.
  intros Hmax Hi Hv Hin Hr. revert a Hi Hv Hin.
  induction Hr as [s|s e s1 es s2 Hs Hg _ IH]; intros a Hi Hv Hin t'; [set_solver|].
  destruct (step_simulated p max_entries _ _ _ _ Hmax Hi Hs) as (a1&Hs1&Hi1).
  destruct (step_keeps a e a1 n t) as [Hin1 Hne]; [done|done| |done|].
  - destruct s as [c fs]. destruct Hi as (He&Hc&_). cbn [fst] in Hg. unfold keeps, cache_len in *.
    rewrite lru_len_spec in Hg. unfold cache_entries in He. rewrite <- He, <- Hc. done.
  - apply not_elem_of_cons. split; [by apply not_eq_sym|].
    eapply IH; [done|by eapply ledger_step_inv|done].
Qed.

Lemma ledger_run_inv a es b : ledger_inv a → ledger_run a es b → ledger_inv b.
Proof. intros Ha Hr. induction Hr as [|a e b es c Hst _ IH]; [done|]. apply IH. by eapply ledger_step_inv. Qed.

Lemma file_ledger_inv m : ledger_inv (file_ledger m).
Proof. unfold ledger_inv, file_ledger. cbn [known saved room]. rewrite len_nil. split_and!; [constructor|set_solver|lia|lia]. Qed.

(** C3: a nonce is accepted at most once, even across crashes. Let the
    configured capacity be at most the 10000 built in, and let the daemon
    start with no cache file, or with one that can be read and holds at most
    10000 entries. Once the cache accepted a nonce, at any point of a run from
    there, and as long as every further nonce finds a free place and no prune
    passes it, it is never accepted again, however often the daemon crashes
    and restarts and whichever writes fail. *)
Theorem no_second_accept_across_restarts fs m c es s n t es' s' s'' :
  0 ≤ max_entries ≤ DEFAULT_MAX_ENTRIES →
  read_cache_file p None fs = Ok m → Z.of_nat (size m) ≤ DEFAULT_MAX_ENTRIES →
  open_replay p max_entries None fs = Some (Ok c) →
  cache_run p max_entries (c, fs) es s → cache_step p max_entries s (Accepted n t) s' →
  gentle_run t s' es' s'' → ∀ t', Accepted n t' ∉ es'.
Proof using LL HL.
  intros Hmax Hf Hm Ho Hr Hs Hg.
  destruct (open_simulated p max_entries fs (file_ledger m) c Hmax Hf Hm Ho) as (a0&Hs0&Hi0).
  destruct (run_simulated p max_entries _ _ _ _ Hmax Hi0 Hr) as (a&Hra&Hi).
  destruct (step_simulated p max_entries _ _ _ _ Hmax Hi Hs) as (a1&Hsa&Hi1).
  assert (ledger_inv a1) as Hv1.
  { eapply ledger_step_inv; [|exact Hsa]. eapply ledger_run_inv; [|exact Hra].
    eapply ledger_step_inv; [apply file_ledger_inv|exact Hs0]. }
  eapply gentle_known; [exact Hmax|exact Hi1|exact Hv1| |exact Hg].
  inversion Hsa; subst; cbn [known]. apply list_elem_of_here.
Qed.
End safety.

(** ** Witnesses *)

#[local] Existing Instance sorted_hash_iter.
#[local] Existing Instance sorted_hash_iter_laws.
#[local] Existing Instance million_entries.

(** A nonce is accepted, the daemon crashes and starts again, and the nonce is
    presented once more. *)
Definition after_insert : ReplayCache * Fs :=
  (check_and_insert sample_cache (sample_nonce_of 1) 100 no_faults ∅).1.
Definition after_restart : ReplayCache :=
  match open_replay (lit "c") 2 None after_insert.2 with Some (Ok c) => c | _ => sample_cache end.
Definition second_try : ReplayCache * Fs * result ReplayError bool :=
  check_and_insert after_restart (sample_nonce_of 1) 150 no_faults after_insert.2.

Lemma sample_accept :
  cache_step (lit "c") 2 (sample_cache, ∅) (Accepted (sample_nonce_of 1) 100) after_insert.
Proof.
  assert ((check_and_insert sample_cache (sample_nonce_of 1) 100 no_faults ∅).2 = Ok true) as E
    by (vm_compute; reflexivity).
  pose proof (cache_insert (lit "c") 2 sample_cache ∅ (sample_nonce_of 1) 100 no_faults
    after_insert.1 after_insert.2 (check_and_insert sample_cache (sample_nonce_of 1) 100 no_faults ∅).2) as H.
  rewrite E in H. unfold after_insert. rewrite (surjective_pairing (check_and_insert _ _ _ _ _).1).
  apply H; [apply (bool_decide_unpack _); vm_compute; exact I|vm_compute; split; discriminate|].
  rewrite <- E. unfold after_insert. by rewrite <- !surjective_pairing.
Qed.

Lemma sample_restart : cache_step (lit "c") 2 after_insert Restarted (after_restart, after_insert.2).
Proof.
  rewrite (surjective_pairing after_insert) at 1. apply cache_restart. unfold after_restart.
  assert (match open_replay (lit "c") 2 None after_insert.2 with Some (Ok _) => true | _ => false end = true) as E
    by (vm_compute; reflexivity).
  by destruct (open_replay (lit "c") 2 None after_insert.2) as [[c|e]|].
Qed.

Lemma sample_second_try :
  cache_step (lit "c") 2 (after_restart, after_insert.2) (insert_event (sample_nonce_of 1) 150 second_try.2) second_try.1.
Proof.
  rewrite (surjective_pairing second_try.1). eapply cache_insert.
  - apply (bool_decide_unpack _). vm_compute. exact I.
  - vm_compute. split; discriminate.
  - unfold second_try. by rewrite <- !surjective_pairing.
Qed.

Lemma cache_refines_ledger_witness :
  ∃ a', ledger_run (file_ledger ∅) [Restarted; Accepted (sample_nonce_of 1) 100; Restarted] a' ∧
    cache_entries after_restart = known a' ∧ read_cache_file (lit "c") None after_insert.2 = Ok (saved a') ∧
    cache_capacity after_restart = room a'.
Proof.
  apply (cache_refines_ledger (lit "c") 2 ∅ ∅ sample_cache
    [Accepted (sample_nonce_of 1) 100; Restarted] (after_restart, after_insert.2));
    [unfold DEFAULT_MAX_ENTRIES; lia|reflexivity|vm_compute; discriminate|reflexivity|].
  eapply cache_cons; [apply sample_accept|]. eapply cache_cons; [apply sample_restart|]. constructor.
Defined.

(** The second presentation is an event of the run, and it is not an
    acceptance. *)
Lemma no_second_accept_across_restarts_witness :
  second_try.2 = Ok false ∧
  Accepted (sample_nonce_of 1) 150 ∉ [Restarted; insert_event (sample_nonce_of 1) 150 second_try.2].
Proof.
  split; [vm_compute; reflexivity|].
  apply (no_second_accept_across_restarts (lit "c") 2 ∅ ∅ sample_cache []
    (sample_cache, ∅) (sample_nonce_of 1) 100
    [Restarted; insert_event (sample_nonce_of 1) 150 second_try.2] after_insert second_try.1) with (t' := 150);
    [unfold DEFAULT_MAX_ENTRIES; lia|reflexivity|vm_compute; discriminate|reflexivity|constructor|apply sample_accept|].
  eapply gentle_cons; [apply sample_restart|exact I|].
  eapply gentle_cons; [apply sample_second_try|vm_compute; exact I|constructor].
Defined.
