(* ===== verification/F64.v ===== *)
(** * The [f64] of the token buckets

    Binary64 as the Standard Library specifies it (round to nearest, ties to
    even), with the operations bucket.rs uses, and the facts about integers
    below 2^53, on which subtraction of one and comparison are exact. *)

From S2P Require Import Prelude RustStd.
From Stdlib Require Export SpecFloat.

Abbreviation f64 := spec_float (only parsing).
Definition f64_prec : Z := 53.
Definition f64_emax : Z := 1024.

Definition f64_add : f64 → f64 → f64 := SFadd f64_prec f64_emax.
Definition f64_sub : f64 → f64 → f64 := SFsub f64_prec f64_emax.
Definition f64_mul : f64 → f64 → f64 := SFmul f64_prec f64_emax.
Definition f64_div : f64 → f64 → f64 := SFdiv f64_prec f64_emax.
(** [a >= b], false on NaN. *)
Definition f64_ge (a b : f64) : bool := SFleb b a.

(** [f64::min]: a NaN operand is ignored. *)
Definition f64_min (a b : f64) : f64 :=
  match a, b with
  | S754_nan, _ => b
  | _, S754_nan => a
  | _, _ => if SFltb a b then a else b
  end.

(** [x as f64] for an unsigned [x]. *)
Definition f64_of_u64 (x : Z) : f64 := binary_normalize f64_prec f64_emax x 0 false.

(** [Duration::as_secs_f64]. *)
Definition as_secs_f64 (d : Duration) : f64 :=
  f64_add (f64_of_u64 (as_secs d)) (f64_div (f64_of_u64 (subsec_nanos d)) (f64_of_u64 NANOS)).

(** ** Exact integers *)

Section exact.
Implicit Types (q m : positive) (n : nat) (e : Z).

Definition digits (m : positive) : Z := Zpos (digits2_pos m).

Lemma digits_pos m : 1 ≤ digits m.
Proof. unfold digits. lia. Qed.

Lemma digits_bounds m : 2 ^ (digits m - 1) ≤ Zpos m < 2 ^ digits m.
Proof.
  unfold digits. induction m as [m IH|m IH|]; cbn [digits2_pos]; [| |done].
  all: set (d := Zpos (digits2_pos m)) in *; assert (1 ≤ d) by (subst d; lia);
    rewrite Pos2Z.inj_succ; fold d; replace (Z.succ d - 1) with (Z.succ (d - 1)) by lia;
    rewrite !Z.pow_succ_r by lia; lia.
Qed.

Lemma digits_shift m n : digits (Nat.iter n xO m) = digits m + Z.of_nat n.
Proof.
  unfold digits. induction n as [|n IH]; [cbn; lia|]. rewrite Nat.iter_succ.
  change (digits2_pos (Nat.iter n xO m)~0) with (Pos.succ (digits2_pos (Nat.iter n xO m))). lia.
Qed.

Lemma digits_mono m q : (m ≤ q)%positive → digits m ≤ digits q.
Proof.
  intros Hle. pose proof (digits_bounds m). pose proof (digits_bounds q).
  destruct (decide (digits m ≤ digits q)); [done|].
  pose proof (Z.pow_le_mono_r 2 (digits q) (digits m - 1) ltac:(lia) ltac:(lia)). lia.
Qed.

Lemma shift_value m n : Zpos (Nat.iter n xO m) = Zpos m * 2 ^ Z.of_nat n.
Proof.
  induction n as [|n IH]; [cbn; lia|]. rewrite Nat.iter_succ.
  change (Zpos (Nat.iter n xO m)~0) with (2 * Zpos (Nat.iter n xO m)). rewrite IH.
  rewrite Nat2Z.inj_succ, Z.pow_succ_r by lia. lia.
Qed.

Lemma iter_pos_nat {A} (f : A → A) p x : iter_pos f p x = Nat.iter (Pos.to_nat p) f x.
Proof.
  revert x. induction p as [p IH|p IH|]; intros x; cbn [iter_pos].
  - rewrite !IH, <- Nat.iter_add. rewrite <- Nat.iter_succ_r. f_equal. lia.
  - rewrite !IH, <- Nat.iter_add. f_equal. lia.
  - done.
Qed.

Lemma pos_iter_nat {A} (f : A → A) p x : Pos.iter f x p = Nat.iter (Pos.to_nat p) f x.
Proof. apply Pos2Nat.inj_iter. Qed.

Lemma shr_exact n m :
  Nat.iter n shr_1 {| shr_m := Zpos (Nat.iter n xO m); shr_r := false; shr_s := false |} =
  {| shr_m := Zpos m; shr_r := false; shr_s := false |}.
Proof. induction n as [|n IH]; [done|]. rewrite Nat.iter_succ_r. exact IH. Qed.

(** Rounding leaves a mantissa of exactly 53 bits alone. *)
Lemma round_aux_exact m e n :
  digits m = 53 → -1074 ≤ e + Z.of_nat n → e + Z.of_nat n ≤ 971 →
  binary_round_aux f64_prec f64_emax false (Zpos (Nat.iter n xO m)) e loc_Exact =
  S754_finite false m (e + Z.of_nat n).
Proof.
  intros Hd Hlo Hhi. unfold binary_round_aux, shr_fexp.
  cbn [Zdigits2]. fold (digits (Nat.iter n xO m)). rewrite digits_shift, Hd.
  assert (∀ x, -1074 ≤ x → fexp f64_prec f64_emax (53 + x) = x) as Hf.
  { intros x Hx. unfold fexp, emin, f64_prec, f64_emax. lia. }
  rewrite <- Z.add_assoc, (Z.add_comm (Z.of_nat n) e), Hf by lia.
  replace (e + Z.of_nat n - e) with (Z.of_nat n) by lia.
  assert (shr (shr_record_of_loc (Zpos (Nat.iter n xO m)) loc_Exact) e (Z.of_nat n) =
    ({| shr_m := Zpos m; shr_r := false; shr_s := false |}, e + Z.of_nat n)) as ->.
  { unfold shr, shr_record_of_loc. destruct n as [|n]; [by rewrite Z.add_0_r|].
    change (Z.of_nat (S n)) with (Zpos (Pos.of_succ_nat n)). cbv iota. by rewrite iter_pos_nat, SuccNat2Pos.id_succ, shr_exact. }
  cbn [loc_of_shr_record round_nearest_even shr_m Zdigits2]. fold (digits m). rewrite Hd, Hf by lia.
  rewrite Z.sub_diag. cbn [shr shr_record_of_loc shr_m].
  by rewrite (proj2 (Z.leb_le _ _)) by (unfold f64_prec, f64_emax; lia).
Qed.

(** The float of [q * 2^e] for [q] of at most 53 bits, whatever power of two
    was moved from the exponent to the mantissa. *)
Definition canon q e : f64 :=
  S754_finite false (Nat.iter (Z.to_nat (53 - digits q)) xO q) (e + digits q - 53).

Lemma round_exact q n e :
  digits q ≤ 53 → -1074 ≤ e + digits q - 53 → e + Z.of_nat n + digits q - 53 ≤ 971 →
  binary_round f64_prec f64_emax false (Nat.iter n xO q) e = canon q (e + Z.of_nat n).
Proof.
  intros Hd Hlo Hhi. pose proof (digits_pos q). unfold binary_round, shl_align, canon.
  fold (digits (Nat.iter n xO q)). rewrite digits_shift.
  assert (fexp f64_prec f64_emax (digits q + Z.of_nat n + e) = digits q + Z.of_nat n + e - 53) as ->
    by (unfold fexp, emin, f64_prec, f64_emax; lia).
  replace (digits q + Z.of_nat n + e - 53 - e) with (digits q + Z.of_nat n - 53) by lia.
  set (k := Z.to_nat (53 - digits q)).
  assert (digits (Nat.iter k xO q) = 53) as Hk by (rewrite digits_shift; lia).
  destruct (decide (digits q + Z.of_nat n < 53)) as [Hlt|Hge].
  - destruct (digits q + Z.of_nat n - 53) as [| |d] eqn:E; [lia|lia|].
    rewrite pos_iter_nat, <- Nat.iter_add.
    replace (Pos.to_nat d + n)%nat with k by lia.
    etransitivity; [apply (round_aux_exact (Nat.iter k xO q) _ 0); (done || lia)|].
    f_equal. lia.
  - assert (match digits q + Z.of_nat n - 53 with
            | Zneg d => (Pos.iter xO (Nat.iter n xO q) d, digits q + Z.of_nat n + e - 53)
            | _ => (Nat.iter n xO q, e) end = (Nat.iter n xO q, e)) as ->
      by (destruct (digits q + Z.of_nat n - 53) eqn:E; lia || done).
    replace n with (n - k + k)%nat by lia. rewrite Nat.iter_add.
    rewrite (round_aux_exact _ e (n - k)%nat) by (done || lia). f_equal. lia.
Qed.

Lemma f64_of_pos q : digits q ≤ 53 → f64_of_u64 (Zpos q) = canon q 0.
Proof.
  intros Hd. unfold f64_of_u64; cbn [binary_normalize]. pose proof (digits_pos q).
  apply (round_exact q 0 0); simpl; lia.
Qed.

Lemma digits_small q : Zpos q < 2 ^ 53 → digits q ≤ 53.
Proof.
  intros Hq. pose proof (digits_bounds q). destruct (decide (digits q ≤ 53)); [done|].
  pose proof (Z.pow_le_mono_r 2 53 (digits q - 1) ltac:(lia) ltac:(lia)). lia.
Qed.

Lemma shl_align_canon q :
  digits q ≤ 53 →
  Zpos (fst (shl_align (Nat.iter (Z.to_nat (53 - digits q)) xO q) (digits q - 53) (-52))) =
  Zpos q * 2 ^ 52.
Proof.
  intros Hd. pose proof (digits_pos q). unfold shl_align.
  destruct (-52 - (digits q - 53)) as [| |d] eqn:E; cbn [fst]; [|lia|].
  - rewrite shift_value. do 2 f_equal. lia.
  - rewrite pos_iter_nat, <- Nat.iter_add, shift_value. do 2 f_equal. lia.
Qed.

(** Subtracting one from an integer below 2^53 is exact. *)
Lemma f64_pred z : 1 ≤ z < 2 ^ 53 → f64_sub (f64_of_u64 z) (f64_of_u64 1) = f64_of_u64 (z - 1).
Proof.
  intros Hz. destruct z as [|q|]; [lia| |lia].
  pose proof (digits_small q ltac:(lia)) as Hd. pose proof (digits_pos q).
  rewrite (f64_of_pos q), (f64_of_pos 1) by done. unfold f64_sub, canon. cbn [SFsub].
  rewrite !Z.add_0_l.
  replace (Z.min (digits q - 53) (digits 1 - 53)) with (-52) by (change (digits 1) with 1; lia).
  cbn [cond_Zopp]. rewrite !shl_align_canon by done. rewrite <- Z.mul_sub_distr_r.
  destruct (Zpos q - 1) as [|p|] eqn:E; [done| |lia].
  assert (digits p ≤ 53) as Hp by (apply digits_small; lia). pose proof (digits_pos p).
  rewrite f64_of_pos by done.
  replace (Zpos p * 2 ^ 52) with (Zpos (Nat.iter 52 xO p)) by (rewrite shift_value; done).
  cbn [binary_normalize]. rewrite round_exact by lia. done.
Qed.

Lemma f64_compare_canon p q :
  digits p ≤ 53 → digits q ≤ 53 → SFcompare (canon p 0) (canon q 0) = Some (Z.compare (Zpos p) (Zpos q)).
Proof.
  intros Hp Hq. unfold canon. cbn [SFcompare]. f_equal. rewrite !Z.add_0_l.
  pose proof (digits_bounds p). pose proof (digits_bounds q).
  destruct (Z.compare_spec (digits p - 53) (digits q - 53)) as [E|E|E].
  - change (Pos.compare_cont Eq ?a ?b) with (Z.compare (Zpos a) (Zpos b)).
    replace (digits q) with (digits p) by lia. rewrite !shift_value.
    symmetry. apply Zmult_compare_compat_r. apply Z.lt_gt, Z.pow_pos_nonneg; lia.
  - symmetry. apply Z.compare_lt_iff.
    pose proof (Z.pow_le_mono_r 2 (digits p) (digits q - 1) ltac:(lia) ltac:(lia)). lia.
  - symmetry. apply Z.compare_gt_iff.
    pose proof (Z.pow_le_mono_r 2 (digits q) (digits p - 1) ltac:(lia) ltac:(lia)). lia.
Qed.

Lemma f64_compare_int a b :
  0 ≤ a < 2 ^ 53 → 0 ≤ b < 2 ^ 53 →
  SFcompare (f64_of_u64 a) (f64_of_u64 b) = Some (Z.compare a b).
Proof.
  intros Ha Hb. destruct a as [|p|], b as [|q|]; try lia; try done;
    rewrite ?(f64_of_pos p), ?(f64_of_pos q) by (apply digits_small; lia); try done.
  apply f64_compare_canon; apply digits_small; lia.
Qed.

Lemma f64_ge_int a b :
  0 ≤ a < 2 ^ 53 → 0 ≤ b < 2 ^ 53 → f64_ge (f64_of_u64 a) (f64_of_u64 b) = (b <=? a).
Proof.
  intros. unfold f64_ge, SFleb. rewrite f64_compare_int by done.
  by rewrite Z.leb_compare.
Qed.

Lemma f64_min_int a b :
  0 ≤ a ≤ b → b < 2 ^ 53 → f64_min (f64_of_u64 a) (f64_of_u64 b) = f64_of_u64 a.
Proof.
  intros Ha Hb. assert (f64_min (f64_of_u64 a) (f64_of_u64 b) =
    if SFltb (f64_of_u64 a) (f64_of_u64 b) then f64_of_u64 a else f64_of_u64 b) as ->.
  { pose proof (f64_compare_int a b ltac:(lia) ltac:(lia)) as Hc.
    unfold f64_min. destruct (f64_of_u64 a), (f64_of_u64 b); done. }
  unfold SFltb. rewrite f64_compare_int by lia.
  destruct (Z.compare_spec a b); [by subst|done|lia].
Qed.
End exact.

(** ** Comparison with a bound *)

Lemma f64_compare_refl x : x ≠ S754_nan → SFcompare x x = Some Eq.
Proof.
  destruct x as [s|s| |s m e]; try done; intros _; cbn [SFcompare]; destruct s; try done.
  all: rewrite Z.compare_refl; change (Pos.compare_cont Eq m m) with (Pos.compare m m);
    by rewrite Pos.compare_refl.
Qed.

(** The minimum with a bound that is a number is at most the bound. *)
Lemma f64_min_le a b : b ≠ S754_nan → f64_ge b (f64_min a b) = true.
Proof.
  intros Hb. unfold f64_ge.
  assert (SFleb b b = true) as Hr by (unfold SFleb; by rewrite f64_compare_refl).
  assert ((if SFltb a b then SFleb a b else SFleb b b) = true) as Hm.
  { unfold SFltb. destruct (SFcompare a b) as [[]|] eqn:E; try done. unfold SFleb. by rewrite E. }
  unfold f64_min. destruct a, b; try done; by destruct (SFltb _ _).
Qed.
