(* ===== verification/F64Round.v ===== *)
(** * Rounding of the [f64] operations

    The token buckets add, multiply and divide non-negative numbers whose
    exact results are not always binary64 numbers.  This file bounds what the
    rounding does: [num] is the value of a finite non-negative float counted in
    units of 2^-1074 (so it is an integer), [rounded v N S] says that [v] is
    the correctly rounded [N/S], and each operation of F64.v is shown to
    return a finite non-negative float that is the correctly rounded exact
    result.  Comparison of two such floats is comparison of their values. *)

From S2P Require Import Prelude RustStd F64.

(** ** Shifting right keeps the position of the exact value *)

(** The exact value [N], measured with a unit of [2 * H] at the last place,
    lies where mantissa, round and sticky bit say. *)
Definition located (mrs : shr_record) (H N : Z) : Prop :=
  let base := shr_m mrs * (2 * H) in
  match shr_r mrs, shr_s mrs with
  | false, false => N = base
  | false, true => base < N < base + H
  | true, false => N = base + H
  | true, true => base + H < N < base + 2 * H
  end.

Lemma located_shr_1 mrs H N :
  0 < H → 0 ≤ shr_m mrs → located mrs H N →
  located (shr_1 mrs) (2 * H) N ∧ shr_m (shr_1 mrs) = shr_m mrs / 2.
Proof.
  intros HH Hm Hl. destruct mrs as [m r s]. unfold located in *. cbn [shr_m shr_r shr_s] in *.
  assert (∃ h b, m = 2 * h + Z.b2z b ∧ 0 ≤ h ∧
    shr_1 {| shr_m := m; shr_r := r; shr_s := s |} = {| shr_m := h; shr_r := b; shr_s := r || s |})
    as (h&b&Hmb&Hh&->).
  { destruct m as [|[p|p|]|]; [exists 0, false|exists (Zpos p), true|exists (Zpos p), false|exists 0, true|lia];
      cbn; repeat split; lia. }
  cbn [shr_m shr_r shr_s]. split.
  - subst m. destruct b, r, s; cbn [orb Z.b2z] in *; lia.
  - subst m. destruct b; cbn [Z.b2z];
      [apply (Z.div_unique _ _ _ 1)|apply (Z.div_unique _ _ _ 0)]; lia.
Qed.

Lemma located_iter n mrs H N :
  0 < H → 0 ≤ shr_m mrs → located mrs H N →
  located (Nat.iter n shr_1 mrs) (H * 2 ^ Z.of_nat n) N ∧
  shr_m (Nat.iter n shr_1 mrs) = shr_m mrs / 2 ^ Z.of_nat n.
Proof.
  intros HH Hm Hl. induction n as [|n [IH1 IH2]].
  - cbn. by rewrite Z.mul_1_r, Z.div_1_r.
  - rewrite Nat.iter_succ, Nat2Z.inj_succ, Z.pow_succ_r by lia.
    assert (0 < 2 ^ Z.of_nat n) by (apply Z.pow_pos_nonneg; lia).
    assert (0 ≤ shr_m (Nat.iter n shr_1 mrs)) by (rewrite IH2; apply Z.div_pos; lia).
    destruct (located_shr_1 (Nat.iter n shr_1 mrs) (H * 2 ^ Z.of_nat n) N) as [Hs Hd]; [lia|done|done|].
    replace (H * (2 * 2 ^ Z.of_nat n)) with (2 * (H * 2 ^ Z.of_nat n)) by lia. split; [done|].
    rewrite Hd, IH2, Z.div_div by lia. f_equal. lia.
Qed.

(** Rounding to nearest moves the value by at most half a unit. *)
Lemma located_round mrs H N :
  0 < H → located mrs H N →
  let R := round_nearest_even (shr_m mrs) (loc_of_shr_record mrs) in
  Z.abs (R * (2 * H) - N) ≤ H ∧ shr_m mrs ≤ R ≤ shr_m mrs + 1.
Proof.
  intros HH. destruct mrs as [m [] []]; unfold located; cbn [shr_m shr_r shr_s loc_of_shr_record round_nearest_even];
    intros Hl; try (destruct (Z.even m)); lia.
Qed.

(** ** Finite non-negative floats and their values *)

Definition finite_nonneg (f : f64) : Prop :=
  match f with
  | S754_zero false => True
  | S754_finite false m e =>
      Zpos m < 2 ^ 53 ∧ -1074 ≤ e ≤ 971 ∧ (e = -1074 ∨ 2 ^ 52 ≤ Zpos m)
  | _ => False
  end.

(** The value in units of 2^-1074, the smallest positive binary64 number. *)
Definition num (f : f64) : Z :=
  match f with S754_finite false m e => Zpos m * 2 ^ (e + 1074) | _ => 0 end.

(** [v] is [N/S] correctly rounded: off by half a unit in the last place at
    most, and never on the other side of a representable number. *)
Definition rounded (v N S : Z) : Prop :=
  (2 ^ 53 * Z.abs (v * S - N) ≤ N ∨ 2 * Z.abs (v * S - N) ≤ S) ∧
  ∀ g, finite_nonneg g → (num g * S ≤ N → num g ≤ v) ∧ (N ≤ num g * S → v ≤ num g).

Lemma pow2_pos k : 0 ≤ k → 0 < 2 ^ k.
Proof. intros. apply Z.pow_pos_nonneg; lia. Qed.

Lemma pow2_half k : 1 ≤ k → 2 * 2 ^ (k - 1) = 2 ^ k.
Proof. intros. rewrite <- Z.pow_succ_r by lia. f_equal. lia. Qed.

Lemma num_nonneg f : finite_nonneg f → 0 ≤ num f.
Proof.
  destruct f as [|[]| |[] m e]; cbn; try done. intros (?&?&?). pose proof (pow2_pos (e + 1074)). lia.
Qed.

(** The floats of the specification are the finite non-negative ones. *)
Lemma finite_nonneg_valid m e :
  finite_nonneg (S754_finite false m e) ↔ bounded f64_prec f64_emax m e = true.
Proof.
  unfold finite_nonneg, bounded, canonical_mantissa, fexp, emin, f64_prec, f64_emax. fold (digits m).
  rewrite andb_true_iff, Z.eqb_eq, Z.leb_le.
  pose proof (digits_bounds m) as [Hl Hu]. pose proof (digits_pos m). split.
  - intros (Hm&He&Hc). pose proof (digits_small m Hm).
    destruct Hc as [->|Hc]; [lia|]. assert (53 ≤ digits m); [|lia].
    destruct (decide (53 ≤ digits m)); [done|].
    pose proof (Z.pow_le_mono_r 2 (digits m) 52 ltac:(lia) ltac:(lia)). lia.
  - intros [Hf He]. assert (digits m ≤ 53) by lia.
    pose proof (Z.pow_le_mono_r 2 (digits m) 53 ltac:(lia) ltac:(lia)).
    split_and!; [lia..|]. destruct (decide (e = -1074)); [by left|right].
    assert (digits m = 53) as E by lia. by rewrite E in Hl.
Qed.

(** ** Correct rounding of [binary_round_aux] *)

Section round.
Context (mx ex D c N : Z) (lx : location).
Context (HD : 0 < D) (Hc : 1 ≤ ex + c) (Hmx : 0 ≤ mx).
Context (Hloc : located (shr_record_of_loc mx lx) (D * 2 ^ (ex + c - 1)) N).
Let e' := fexp f64_prec f64_emax (Zdigits2 mx + ex).
Context (He' : ex ≤ e').
Let m' := mx / 2 ^ (e' - ex).
Let H' := D * 2 ^ (e' + c - 1).

Lemma e'_low : -1074 ≤ e'.
Proof using Type. clear. unfold e', fexp, emin, f64_prec, f64_emax. lia. Qed.

Lemma shifted :
  ∃ mrs, shr_fexp f64_prec f64_emax mx ex lx = (mrs, e') ∧ located mrs H' N ∧ shr_m mrs = m'.
Proof.
  assert (shr_m (shr_record_of_loc mx lx) = mx) as Hm by (by destruct lx as [|[]]).
  pose proof (pow2_pos (ex + c - 1) ltac:(lia)).
  destruct (located_iter (Z.to_nat (e' - ex)) (shr_record_of_loc mx lx) (D * 2 ^ (ex + c - 1)) N)
    as [H1 H2]; [nia|lia|done|].
  rewrite Z2Nat.id in H1, H2 by lia. rewrite Hm in H2.
  rewrite <- Z.mul_assoc, <- Z.pow_add_r in H1 by lia.
  replace (ex + c - 1 + (e' - ex)) with (e' + c - 1) in H1 by lia.
  eexists. split; [|split; [exact H1|exact H2]].
  unfold shr_fexp, shr. fold e'. destruct (e' - ex) as [|p|p] eqn:E; [| |lia].
  - change (Z.to_nat 0) with 0%nat. cbn. f_equal. lia.
  - rewrite iter_pos_nat. cbn [Z.to_nat]. f_equal. lia.
Qed.

Lemma m'_bounds : 0 ≤ m' < 2 ^ 53 ∧ (e' = -1074 ∨ 2 ^ 52 ≤ m').
Proof using Hmx He'.
  clear -Hmx He'. unfold m'. pose proof (pow2_pos (e' - ex) ltac:(lia)) as Hp.
  destruct mx as [|p|]; [|clear Hmx|lia].
  - rewrite Z.div_0_l by lia. split; [lia|]. left. revert He'.
    unfold e', fexp, emin, f64_prec, f64_emax. cbn. lia.
  - pose proof (digits_bounds p) as [Hl Hu]. pose proof (digits_pos p).
    assert (e' = Z.max (digits p + ex - 53) (-1074)) as E.
    { unfold e', fexp, emin, f64_prec, f64_emax, digits. cbn [Zdigits2]. lia. }
    split; [split|].
    + apply Z.div_pos; lia.
    + apply Z.div_lt_upper_bound; [lia|]. rewrite <- Z.pow_add_r by lia.
      eapply Z.lt_le_trans; [exact Hu|]. apply Z.pow_le_mono_r; lia.
    + destruct (decide (e' = -1074)) as [|Hne]; [by left|right].
      apply Z.div_le_lower_bound; [lia|]. rewrite <- Z.pow_add_r by lia.
      replace (e' - ex + 52) with (digits p - 1) by lia. done.
Qed.

(** The second normalisation only renames 2^53 units as 2^52 double units. *)
Lemma renormalise R :
  0 ≤ R ≤ 2 ^ 53 → (e' = -1074 ∨ 2 ^ 52 ≤ R) → e' ≤ 970 →
  ∃ f, (let '(mrs'', e'') := shr_fexp f64_prec f64_emax R e' loc_Exact in
    match shr_m mrs'' with
    | Z0 => S754_zero false
    | Zpos m => if e'' <=? f64_emax - f64_prec then S754_finite false m e'' else S754_infinity false
    | _ => S754_nan
    end) = f ∧ finite_nonneg f ∧ num f = R * 2 ^ (e' + 1074).
Proof.
  intros HR Hcan Hhi. pose proof e'_low. unfold shr_fexp.
  destruct (decide (R = 2 ^ 53)) as [->|Hne].
  - replace (fexp f64_prec f64_emax (Zdigits2 (2 ^ 53) + e') - e') with 1
      by (unfold fexp, emin, f64_prec, f64_emax; change (Zdigits2 (2 ^ 53)) with 54; lia).
    assert (shr (shr_record_of_loc (2 ^ 53) loc_Exact) e' 1 =
      (shr_record_of_loc (2 ^ 52) loc_Exact, e' + 1)) as -> by done.
    change (shr_m (shr_record_of_loc (2 ^ 52) loc_Exact)) with (Zpos (2 ^ 52)%positive). cbv iota.
    rewrite (proj2 (Z.leb_le _ _)) by (unfold f64_prec, f64_emax; lia).
    eexists. split; [done|]. cbn [finite_nonneg num]. split; [lia|].
    replace (e' + 1 + 1074) with (Z.succ (e' + 1074)) by lia. rewrite Z.pow_succ_r by lia. lia.
  - assert (shr (shr_record_of_loc R loc_Exact) e' (fexp f64_prec f64_emax (Zdigits2 R + e') - e') =
      (shr_record_of_loc R loc_Exact, e')) as ->.
    { assert (Zdigits2 R ≤ 53) as Hd.
      { destruct R as [|p|]; [cbn; lia|apply digits_small; lia|lia]. }
      assert (fexp f64_prec f64_emax (Zdigits2 R + e') - e' ≤ 0)
        by (unfold fexp, emin, f64_prec, f64_emax; lia).
      unfold shr. by destruct (fexp _ _ _ - _); [| lia |]. }
    cbn [shr_record_of_loc shr_m]. destruct R as [|p|]; [| |lia].
    + eexists. split; [done|]. cbn. lia.
    + rewrite (proj2 (Z.leb_le _ _)) by (unfold f64_prec, f64_emax; lia).
      eexists. split; [done|]. cbn -[Z.pow]. split; [|done]. lia.
Qed.

(** The exact value and its rounding, in the unit of the rounded mantissa. *)
Lemma round_aux_units :
  N < D * 2 ^ (1000 + c) →
  ∃ R, let f := binary_round_aux f64_prec f64_emax false mx ex lx in
    finite_nonneg f ∧ num f = R * 2 ^ (e' + 1074) ∧ m' ≤ R ∧
    Z.abs (R * (2 * H') - N) ≤ H' ∧ m' * (2 * H') ≤ N.
Proof.
  intros HN. destruct shifted as (mrs&Hs&Hl&Hm). destruct m'_bounds as [Hm' Hcan]. pose proof e'_low.
  assert (0 < H') as HH by (unfold H'; pose proof (pow2_pos (e' + c - 1)); nia).
  destruct (located_round mrs H' N HH Hl) as [Hr HRm].
  assert (m' * (2 * H') ≤ N) as HmN.
  { rewrite <- Hm. revert Hl. unfold located. destruct (shr_r mrs), (shr_s mrs); lia. }
  assert (e' ≤ 970) as Hhi.
  { destruct Hcan as [->|Hcan]; [lia|]. destruct (decide (e' ≤ 970)); [done|exfalso].
    assert (2 * H' = D * 2 ^ (e' + c)) as E by (unfold H'; pose proof (pow2_half (e' + c)); lia).
    pose proof (Z.pow_le_mono_r 2 (1000 + c) (52 + (e' + c)) ltac:(lia) ltac:(lia)) as Hp.
    rewrite (Z.pow_add_r 2 52) in Hp by lia. nia. }
  eexists. unfold binary_round_aux. rewrite Hs.
  set (R := round_nearest_even (shr_m mrs) (loc_of_shr_record mrs)) in *.
  destruct (renormalise R) as (f&Hf&Hfin&Hnum); [lia|lia|done|].
  rewrite Hf. cbv zeta. rewrite Hnum. split_and!; [done|reflexivity|lia|done|done].
Qed.
End round.

(** [binary_round_aux] rounds [N / (D * 2^c)] correctly. *)
Lemma round_aux_rounded mx ex lx D c N :
  0 < D → 1 ≤ ex + c → 1074 ≤ c → 0 ≤ mx →
  located (shr_record_of_loc mx lx) (D * 2 ^ (ex + c - 1)) N →
  ex ≤ fexp f64_prec f64_emax (Zdigits2 mx + ex) →
  N < D * 2 ^ (1000 + c) →
  let f := binary_round_aux f64_prec f64_emax false mx ex lx in
  finite_nonneg f ∧ rounded (num f) N (D * 2 ^ (c - 1074)).
Proof.
  intros HD Hex Hc Hmx Hloc He HN.
  pose proof (m'_bounds mx ex Hmx He) as [Hm Hcan]. pose proof (e'_low mx ex) as Hlow.
  destruct (round_aux_units mx ex D c N lx HD Hex Hmx Hloc He HN) as (R&Hfin&Hnum&HmR&Hr&HmN).
  cbv zeta. split; [done|]. rewrite Hnum.
  set (e' := fexp _ _ _) in *. set (m' := mx / _) in *.
  set (S := D * 2 ^ (c - 1074)). set (u := 2 ^ (e' + 1074)).
  assert (0 < S) by (unfold S; pose proof (pow2_pos (c - 1074)); nia).
  assert (0 < u) by (apply pow2_pos; lia).
  assert (2 * (D * 2 ^ (e' + c - 1)) = u * S) as HU.
  { transitivity (D * 2 ^ (e' + c)); [pose proof (pow2_half (e' + c)); lia|].
    unfold u, S. replace (e' + c) with (e' + 1074 + (c - 1074)) by lia.
    rewrite (Z.pow_add_r 2 (e' + 1074)) by lia. lia. }
  rewrite HU in *. set (H' := D * 2 ^ (e' + c - 1)) in *. split.
  - destruct Hcan as [E|Hcan].
    + right. assert (u = 1) by (unfold u; by rewrite E). nia.
    + left. nia.
  - intros g Hg. destruct g as [[]|[]| |[] mg eg]; try done; cbn [num].
    + split; [nia|]. intros. assert (R * (u * S) ≤ H') by nia. assert (R ≤ 0) by nia. nia.
    + destruct Hg as (Hmg&Heg&_). destruct (decide (e' ≤ eg)) as [Hge|Hlt].
      * assert (2 ^ (eg + 1074) = 2 ^ (eg - e') * u) as ->.
        { unfold u. rewrite <- Z.pow_add_r by lia. f_equal. lia. }
        rewrite !Z.mul_assoc. set (M := Zpos mg * 2 ^ (eg - e')). split; intros HMN.
        -- assert (M ≤ R); [|nia]. rewrite <- Z.mul_assoc in HMN. nia.
        -- assert (R ≤ M); [|nia]. rewrite <- Z.mul_assoc in HMN. nia.
      * destruct Hcan as [E|Hcan]; [lia|].
        assert (Zpos mg * 2 ^ (eg + 1074) < 2 ^ 52 * u) as Hlt'.
        { unfold u. replace (e' + 1074) with (Z.succ (e' + 1073)) by lia. rewrite Z.pow_succ_r by lia.
          pose proof (Z.pow_le_mono_r 2 (eg + 1074) (e' + 1073) ltac:(lia) ltac:(lia)).
          pose proof (pow2_pos (eg + 1074)). nia. }
        split; [nia|]. intros. exfalso. set (x := Zpos mg * 2 ^ (eg + 1074)) in *. nia.
Qed.

(** ** The operations *)

Lemma rounded_scale v N S N' S' :
  0 < S → 0 < S' → N * S' = N' * S → rounded v N S → rounded v N' S'.
Proof.
  intros HS HS' E [Hn Hm]. split.
  - assert (Z.abs (v * S' - N') * S = Z.abs (v * S - N) * S') as Ea.
    { rewrite <- (Z.abs_eq S) at 1 by lia. rewrite <- (Z.abs_eq S') at 2 by lia.
      rewrite <- !Z.abs_mul. f_equal. nia. }
    set (a := Z.abs (v * S - N)) in *. set (b := Z.abs (v * S' - N')) in *.
    destruct Hn as [Hn|Hn]; [left|right].
    + apply (Z.mul_le_mono_pos_r _ _ S); [done|]. rewrite <- E. nia.
    + apply (Z.mul_le_mono_pos_r _ _ S); [done|]. nia.
  - intros g Hg. destruct (Hm g Hg) as [H1 H2]. split; intros Hle.
    + apply H1. apply (Z.mul_le_mono_pos_r _ _ S'); [done|]. nia.
    + apply H2. apply (Z.mul_le_mono_pos_r _ _ S'); [done|]. nia.
Qed.

Lemma rounded_exact f : finite_nonneg f → rounded (num f) (num f) 1.
Proof. intros Hf. pose proof (num_nonneg f Hf). split; [left; rewrite Z.mul_1_r; lia|]. intros g _. lia. Qed.

Lemma fexp_mono a b : a ≤ b → fexp f64_prec f64_emax a ≤ fexp f64_prec f64_emax b.
Proof. unfold fexp. lia. Qed.

Lemma shl_align_value m e e' :
  let '(mz, ez) := shl_align m e e' in
  ez = Z.min e e' ∧ digits mz + ez = digits m + e ∧ Zpos mz = Zpos m * 2 ^ (e - ez).
Proof.
  unfold shl_align. destruct (e' - e) as [|d|d] eqn:E.
  - rewrite Z.sub_diag. lia.
  - rewrite Z.sub_diag. lia.
  - rewrite pos_iter_nat, digits_shift, shift_value. replace (e - e') with (Zpos d) by lia.
    rewrite positive_nat_Z. lia.
Qed.

Lemma shl_align_fst m e e' :
  e' ≤ e → Zpos (fst (shl_align m e e')) = Zpos m * 2 ^ (e - e').
Proof.
  intros He. pose proof (shl_align_value m e e') as H. destruct (shl_align m e e') as [mz ez].
  destruct H as (->&_&H). cbn [fst]. by rewrite Z.min_r in H by lia.
Qed.

Lemma binary_round_rounded q e :
  -1074 ≤ e → Zpos q * 2 ^ (e + 1074) < 2 ^ 2074 →
  let f := binary_round f64_prec f64_emax false q e in
  finite_nonneg f ∧ rounded (num f) (Zpos q * 2 ^ (e + 1074)) 1.
Proof.
  intros He. unfold binary_round. fold (digits q).
  pose proof (shl_align_value q e (fexp f64_prec f64_emax (digits q + e))) as H.
  destruct (shl_align _ _ _) as [mz ez]. destruct H as (Hez&Hd&Hv).
  assert (-1074 ≤ ez) by (rewrite Hez; unfold fexp, emin, f64_prec, f64_emax; lia).
  assert (2 * 2 ^ (ez + 1075 - 1) = 2 ^ (ez + 1075)) as Hh by (apply pow2_half; lia).
  assert (Zpos mz * 2 ^ (ez + 1075) = 2 * (Zpos q * 2 ^ (e + 1074))) as HN.
  { rewrite Hv, <- Z.mul_assoc, <- Z.pow_add_r by lia.
    replace (e - ez + (ez + 1075)) with (Z.succ (e + 1074)) by lia. rewrite Z.pow_succ_r by lia. lia. }
  intros Hq. destruct (round_aux_rounded (Zpos mz) ez loc_Exact 1 1075 (Zpos mz * 2 ^ (ez + 1075)))
    as [Hf Hr]; [clear Hq..| |].
  - lia.
  - lia.
  - lia.
  - lia.
  - cbn -[Z.mul Z.pow Z.add Z.sub]. by rewrite Z.mul_1_l, Hh.
  - cbn [Zdigits2]. fold (digits mz). rewrite Hd. lia.
  - rewrite HN, Z.mul_1_l. change (2 ^ (1000 + 1075)) with (2 * 2 ^ 2074).
    by apply Z.mul_lt_mono_pos_l.
  - split; [done|]. eapply rounded_scale; [..|exact Hr]; [done|done|]. rewrite HN.
    change (1 * 2 ^ (1075 - 1074)) with 2. clear. lia.
Qed.

Lemma normalize_rounded z e :
  0 ≤ z → -1074 ≤ e → z * 2 ^ (e + 1074) < 2 ^ 2074 →
  let f := binary_normalize f64_prec f64_emax z e false in
  finite_nonneg f ∧ rounded (num f) (z * 2 ^ (e + 1074)) 1.
Proof.
  intros Hz He Hlt. destruct z as [|q|]; [|by apply binary_round_rounded|lia].
  split; [done|]. apply (rounded_exact (S754_zero false)). done.
Qed.

(** The scaled one. *)
Definition ONE : Z := 2 ^ 1074.

Lemma f64_of_u64_rounded x :
  0 ≤ x < 2 ^ 1000 → finite_nonneg (f64_of_u64 x) ∧ rounded (num (f64_of_u64 x)) (x * ONE) 1.
Proof.
  intros Hx. apply (normalize_rounded x 0); [lia|lia|].
  change (2 ^ 2074) with (2 ^ 1000 * ONE). apply Z.mul_lt_mono_pos_r; [by apply pow2_pos|lia].
Qed.

Lemma aligned m e e' : -1074 ≤ e' → e' ≤ e →
  Zpos (fst (shl_align m e e')) * 2 ^ (e' + 1074) = Zpos m * 2 ^ (e + 1074).
Proof.
  intros. rewrite shl_align_fst, <- Z.mul_assoc, <- Z.pow_add_r by lia. do 2 f_equal. lia.
Qed.

Lemma f64_add_rounded x y :
  finite_nonneg x → finite_nonneg y → num x + num y < 2 ^ 2074 →
  finite_nonneg (f64_add x y) ∧ rounded (num (f64_add x y)) (num x + num y) 1.
Proof.
  intros Hx Hy. unfold f64_add.
  destruct x as [[]|[]| |[] mx ex], y as [[]|[]| |[] my ey]; try done; cbn [SFadd].
  - split; [done|]. by apply (rounded_exact (S754_zero false)).
  - split; [done|]. by apply (rounded_exact (S754_finite false my ey)).
  - split; [done|]. rewrite Z.add_0_r. by apply (rounded_exact (S754_finite false mx ex)).
  - destruct Hx as (_&?&_), Hy as (_&?&_). cbn [cond_Zopp]. cbn [num] in *.
    rewrite <- (aligned mx ex (Z.min ex ey)), <- (aligned my ey (Z.min ex ey)),
      <- Z.mul_add_distr_r by lia. assert (-1074 ≤ Z.min ex ey) by lia. intros Hlt.
    by apply normalize_rounded.
Qed.

Lemma f64_sub_rounded x y :
  finite_nonneg x → finite_nonneg y → num y ≤ num x → num x < 2 ^ 2074 →
  finite_nonneg (f64_sub x y) ∧ rounded (num (f64_sub x y)) (num x - num y) 1.
Proof.
  intros Hx Hy Hle. unfold f64_sub. pose proof (num_nonneg y Hy).
  destruct x as [[]|[]| |[] mx ex], y as [[]|[]| |[] my ey]; try done; cbn [SFsub].
  - split; [done|]. by apply (rounded_exact (S754_zero false)).
  - destruct Hy as (_&?&_). cbn [num] in Hle. pose proof (pow2_pos (ey + 1074)). lia.
  - split; [done|]. rewrite Z.sub_0_r. by apply (rounded_exact (S754_finite false mx ex)).
  - destruct Hx as (_&?&_), Hy as (_&?&_). cbn [cond_Zopp]. cbn [num] in *.
    rewrite <- (aligned mx ex (Z.min ex ey)), <- (aligned my ey (Z.min ex ey)) in * by lia.
    rewrite <- Z.mul_sub_distr_r. set (a := Zpos (fst (shl_align mx _ _))) in *.
    set (b := Zpos (fst (shl_align my _ _))) in *. set (p := 2 ^ (Z.min ex ey + 1074)) in *.
    assert (0 < p) by (apply pow2_pos; lia). assert (0 ≤ a - b) by nia.
    assert ((a - b) * p ≤ a * p) as Hap by (apply Z.mul_le_mono_nonneg_r; lia).
    assert (-1074 ≤ Z.min ex ey) by lia. intros Hlt.
    apply normalize_rounded; [done|done|]. eapply Z.le_lt_trans; [exact Hap|exact Hlt].
Qed.

Lemma digits_mul_ge p q : digits p + digits q - 1 ≤ digits (p * q).
Proof.
  pose proof (digits_bounds p) as [Hp _]. pose proof (digits_bounds q) as [Hq _].
  pose proof (digits_bounds (p * q)) as [_ Hpq]. pose proof (digits_pos p). pose proof (digits_pos q).
  assert (digits p + digits q - 2 < digits (p * q)); [|lia].
  apply (Z.pow_lt_mono_r_iff 2); [lia|unfold digits; lia|].
  eapply Z.le_lt_trans; [|exact Hpq].
  replace (digits p + digits q - 2) with ((digits p - 1) + (digits q - 1)) by lia.
  rewrite Z.pow_add_r by lia. rewrite Pos2Z.inj_mul.
  apply Z.mul_le_mono_nonneg; (apply Z.pow_nonneg; lia) || done.
Qed.

(** A float that is not subnormal has all 53 digits. *)
Lemma finite_digits m e : finite_nonneg (S754_finite false m e) → e = -1074 ∨ digits m = 53.
Proof.
  intros Hf. apply finite_nonneg_valid in Hf.
  revert Hf. unfold bounded, canonical_mantissa, fexp, emin, f64_prec, f64_emax. fold (digits m).
  rewrite andb_true_iff, Z.eqb_eq. lia.
Qed.

Lemma f64_mul_rounded x y :
  finite_nonneg x → finite_nonneg y → num x * num y < 2 ^ 3000 →
  finite_nonneg (f64_mul x y) ∧ rounded (num (f64_mul x y)) (num x * num y) ONE.
Proof.
  intros Hx Hy. unfold f64_mul.
  assert (∀ N, N = 0 → finite_nonneg (S754_zero false) ∧ rounded 0 N ONE) as Hz.
  { intros N ->. split; [done|]. eapply (rounded_scale _ 0 1); [done|done|done|].
    by apply (rounded_exact (S754_zero false)). }
  destruct x as [[]|[]| |[] mx ex], y as [[]|[]| |[] my ey]; try done; cbn [SFmul xorb].
  1-3: intros _; apply Hz; cbn [num]; lia.
  pose proof (finite_digits mx ex Hx). pose proof (finite_digits my ey Hy).
  destruct Hx as (_&?&_), Hy as (_&?&_). cbn [num]. pose proof (digits_mul_ge mx my).
  pose proof (digits_pos mx). pose proof (digits_pos my).
  set (N := Zpos (mx * my) * 2 ^ (ex + ey + 2149)).
  assert (N = 2 * (Zpos mx * 2 ^ (ex + 1074) * (Zpos my * 2 ^ (ey + 1074)))) as HN.
  { unfold N. replace (ex + ey + 2149) with (1 + ((ex + 1074) + (ey + 1074))) by lia.
    rewrite !Z.pow_add_r by lia. rewrite Pos2Z.inj_mul. lia. }
  intros Hlt. destruct (round_aux_rounded (Zpos (mx * my)) (ex + ey) loc_Exact 1 2149 N) as [Hf Hr]; [clear Hlt..| |].
  - lia.
  - lia.
  - lia.
  - lia.
  - cbn -[Z.mul Z.pow Z.add Z.sub Pos.mul]. unfold N. rewrite <- pow2_half by lia. lia.
  - cbn [Zdigits2]. fold (digits (mx * my)). unfold fexp, emin, f64_prec, f64_emax. lia.
  - rewrite HN, Z.mul_1_l. change (2 ^ (1000 + 2149)) with (2 * 2 ^ 3148).
    apply Z.mul_lt_mono_pos_l; [done|]. eapply Z.lt_le_trans; [exact Hlt|]. by apply Z.pow_le_mono_r.
  - split; [done|]. eapply rounded_scale; [..|exact Hr]; [done|done|]. rewrite HN.
    change (1 * 2 ^ (2149 - 1074)) with (2 * ONE). clear. lia.
Qed.

Lemma new_location_located m2 q r B :
  0 < m2 → 0 < B → 0 ≤ r < m2 →
  located (shr_record_of_loc q (new_location m2 r)) (m2 * B) ((q * m2 + r) * (2 * B)).
Proof.
  intros Hm HB Hr. unfold new_location, new_location_even, new_location_odd.
  replace ((q * m2 + r) * (2 * B)) with (q * (2 * (m2 * B)) + 2 * (r * B)) by lia.
  destruct (decide (r = 0)) as [->|Hne]; [destruct (Z.even m2); cbn -[Z.mul Z.add]; lia|].
  rewrite Zeven_mod.
  assert (∀ o, located (shr_record_of_loc q (loc_Inexact o)) (m2 * B) (q * (2 * (m2 * B)) + 2 * (r * B)) ↔
    match o with Lt => 0 < 2 * (r * B) < m2 * B | Eq => 2 * (r * B) = m2 * B
               | Gt => m2 * B < 2 * (r * B) < 2 * (m2 * B) end) as Ho.
  { intros []; unfold located; cbn [shr_record_of_loc shr_m shr_r shr_s];
      generalize (q * (2 * (m2 * B))) as base; lia. }
  destruct (Z.eqb_spec (m2 mod 2) 0) as [Hev|Hodd]; rewrite (proj2 (Z.eqb_neq r 0)) by done.
  - apply Ho. destruct (Z.compare_spec (2 * r) m2); nia.
  - assert (2 * r ≠ m2).
    { intros <-. rewrite Z.mul_comm, Z.mod_mul in Hodd by lia. done. }
    apply Ho. destruct (Z.compare_spec (2 * r + 1) m2); nia.
Qed.

(** The quotient before rounding, with where the remainder puts the exact one. *)
Lemma div_core m1 e1 m2 e2 :
  let '(q, e', l) := SFdiv_core_binary f64_prec f64_emax (Zpos m1) e1 (Zpos m2) e2 in
  e' = Z.min (fexp f64_prec f64_emax (digits m1 + e1 - (digits m2 + e2))) (e1 - e2) ∧
  0 ≤ q ∧ digits m1 + (e1 - e2 - e') - digits m2 ≤ Zdigits2 q ∧
  ∀ B, 0 < B → located (shr_record_of_loc q l) (Zpos m2 * B) (Zpos m1 * 2 ^ (e1 - e2 - e') * (2 * B)).
Proof.
  unfold SFdiv_core_binary. cbn [Zdigits2]. fold (digits m1) (digits m2).
  set (e' := Z.min _ _). set (s := e1 - e2 - e'). assert (0 ≤ s) by lia.
  assert (match s with Z0 => Zpos m1 | Zpos _ => Z.shiftl (Zpos m1) s | Zneg _ => 0 end = Zpos m1 * 2 ^ s) as ->.
  { destruct s; [cbn; lia| |lia]. apply Z.shiftl_mul_pow2. lia. }
  pose proof (pow2_pos s ltac:(lia)).
  pose proof (Z_div_mod (Zpos m1 * 2 ^ s) (Zpos m2) ltac:(lia)) as Hdm.
  destruct (Z.div_eucl _ _) as [q r]. destruct Hdm as [Hdm Hr].
  assert (0 ≤ q) by nia. split_and!; [done|done| |].
  - pose proof (digits_bounds m1) as [Hl1 _]. pose proof (digits_bounds m2) as [_ Hu2].
    pose proof (digits_pos m1). pose proof (digits_pos m2).
    destruct (decide (digits m1 + s - digits m2 ≤ 0)) as [|Hgt]; [destruct q; cbn; lia|].
    assert (2 ^ (digits m1 - 1) * 2 ^ s ≤ Zpos m1 * 2 ^ s) as Hl by (apply Z.mul_le_mono_nonneg_r; lia).
    destruct q as [|q|]; [| |lia].
    + exfalso. assert (2 ^ (digits m1 - 1) * 2 ^ s < 2 ^ digits m2) by lia.
      rewrite <- Z.pow_add_r in * by lia.
      assert (2 ^ digits m2 ≤ 2 ^ (digits m1 - 1 + s)) by (apply Z.pow_le_mono_r; lia). lia.
    + cbn [Zdigits2]. fold (digits q). pose proof (digits_bounds q) as [_ Huq]. pose proof (digits_pos q).
      assert (digits m1 - 1 + s < digits q + digits m2); [|lia].
      apply (Z.pow_lt_mono_r_iff 2); [lia|lia|]. rewrite !Z.pow_add_r by lia.
      assert (Zpos m2 * Zpos q + r < Zpos m2 * (Zpos q + 1)) by lia. nia.
  - intros B HB. fold s. rewrite Hdm, (Z.mul_comm (Zpos m2) q). apply new_location_located; lia.
Qed.

Lemma f64_div_rounded x y :
  finite_nonneg x → finite_nonneg y → 0 < num y → num x * ONE < num y * 2 ^ 2000 →
  finite_nonneg (f64_div x y) ∧ rounded (num (f64_div x y)) (num x * ONE) (num y).
Proof.
  intros Hx Hy Hpos. unfold f64_div.
  destruct x as [[]|[]| |[] mx ex], y as [[]|[]| |[] my ey]; try done; cbn [SFdiv xorb].
  { split; [done|]. eapply (rounded_scale _ 0 1); [done|done|done|].
    by apply (rounded_exact (S754_zero false)). }
  destruct Hx as (_&?&_), Hy as (_&?&_). cbn [num] in *.
  pose proof (div_core mx ex my ey) as Hc. destruct (SFdiv_core_binary _ _ _ _ _ _) as [[q e'] l].
  destruct Hc as (He'&Hq&Hdig&Hloc).
  assert (-2100 ≤ e') by (rewrite He'; unfold fexp, emin, f64_prec, f64_emax; lia).
  set (N := Zpos mx * 2 ^ (ex - ey + 4000)).
  assert (N * (Zpos my * 2 ^ (ey + 1074)) =
    Zpos mx * 2 ^ (ex + 1074) * ONE * (Zpos my * 2 ^ (4000 - 1074))) as HN.
  { unfold N, ONE. transitivity (Zpos mx * Zpos my * 2 ^ (ex + 5074)).
    - replace (ex + 5074) with ((ex - ey + 4000) + (ey + 1074)) by lia. rewrite (Z.pow_add_r 2 (ex - ey + 4000)) by lia. lia.
    - replace (ex + 5074) with ((ex + 1074) + (1074 + (4000 - 1074))) by lia.
      rewrite (Z.pow_add_r 2 (ex + 1074)), (Z.pow_add_r 2 1074) by lia. lia. }
  intros Hlt. destruct (round_aux_rounded q e' l (Zpos my) 4000 N) as [Hf Hr]; [clear Hlt HN; lia..|clear Hlt|clear Hlt| |].
  - assert (Zpos mx * 2 ^ (ex - ey - e') * (2 * 2 ^ (e' + 4000 - 1)) = N) as <-.
    { rewrite pow2_half, <- Z.mul_assoc, <- Z.pow_add_r by lia. unfold N. do 2 f_equal. lia. }
    apply Hloc. apply pow2_pos. lia.
  - rewrite He' at 1. etransitivity; [apply Z.le_min_l|]. apply fexp_mono. lia.
  - pose proof (pow2_pos (ey + 1074) ltac:(lia)).
    apply (Z.mul_lt_mono_pos_r (Zpos my * 2 ^ (ey + 1074))); [done|]. rewrite HN.
    replace (Zpos my * 2 ^ (1000 + 4000) * (Zpos my * 2 ^ (ey + 1074)))
      with (Zpos my * 2 ^ (ey + 1074) * 2 ^ 2000 * (2 ^ 74 * (Zpos my * 2 ^ (4000 - 1074)))).
    + assert (0 < Zpos my * 2 ^ (4000 - 1074)) as Hk by (apply Z.mul_pos_pos; [lia|by apply pow2_pos]).
      revert Hlt Hk. generalize (Zpos my * 2 ^ (4000 - 1074)) as k. intros k Hlt Hk.
      set (a := Zpos mx * _ * _) in *. set (b := Zpos my * _ * _) in *. assert (0 ≤ a) as Ha.
      { apply Z.mul_nonneg_nonneg; [|done]. apply Z.mul_nonneg_nonneg; [done|]. by apply Z.pow_nonneg. }
      clearbody a b. clear -Hlt Hk Ha. nia.
    + change (2 ^ (1000 + 4000)) with (2 ^ 2000 * (2 ^ 74 * 2 ^ (4000 - 1074))).
      generalize (2 ^ 2000), (2 ^ 74), (2 ^ (4000 - 1074)). intros. ring.
  - split; [done|]. eapply rounded_scale; [..|exact Hr]; [lia|done|exact HN].
Qed.

(** ** Comparison is comparison of values *)

Lemma f64_compare_num x y :
  finite_nonneg x → finite_nonneg y → SFcompare x y = Some (num x ?= num y).
Proof.
  intros Hx Hy. pose proof (num_nonneg x Hx). pose proof (num_nonneg y Hy).
  destruct x as [[]|[]| |[] mx ex], y as [[]|[]| |[] my ey]; try done; cbn [SFcompare]; f_equal.
  - destruct Hy as (_&?&_). symmetry. apply Z.compare_lt_iff. cbn [num]. pose proof (pow2_pos (ey + 1074)). lia.
  - destruct Hx as (_&?&_). symmetry. apply Z.compare_gt_iff. cbn [num]. pose proof (pow2_pos (ex + 1074)). lia.
  - destruct Hx as (Hmx&?&Hcx), Hy as (Hmy&?&Hcy). cbn [num].
    assert (∀ m e m' e', Zpos m < 2 ^ 53 → 2 ^ 52 ≤ Zpos m' → -1074 ≤ e < e' →
      Zpos m * 2 ^ (e + 1074) < Zpos m' * 2 ^ (e' + 1074)) as Hlt.
    { intros m e m' e' Hm Hm' He.
      pose proof (Z.pow_le_mono_r 2 (Z.succ (e + 1074)) (e' + 1074) ltac:(lia) ltac:(lia)) as Hp.
      rewrite Z.pow_succ_r in Hp by lia. pose proof (pow2_pos (e + 1074) ltac:(lia)). nia. }
    destruct (Z.compare_spec ex ey) as [->|E|E].
    + change (Pos.compare_cont Eq mx my) with (Z.compare (Zpos mx) (Zpos my)).
      apply Zmult_compare_compat_r. apply Z.lt_gt, pow2_pos. lia.
    + symmetry. apply Z.compare_lt_iff. apply Hlt; lia.
    + symmetry. apply Z.compare_gt_iff. apply Hlt; lia.
Qed.

Lemma f64_ge_num x y : finite_nonneg x → finite_nonneg y → f64_ge x y = (num y <=? num x).
Proof. intros. unfold f64_ge, SFleb. rewrite f64_compare_num by done. by rewrite Z.leb_compare. Qed.

Lemma f64_min_num x y :
  finite_nonneg x → finite_nonneg y →
  finite_nonneg (f64_min x y) ∧ num (f64_min x y) = Z.min (num x) (num y).
Proof.
  intros Hx Hy. assert (f64_min x y = if SFltb x y then x else y) as ->.
  { unfold f64_min. by destruct x, y. }
  unfold SFltb. rewrite f64_compare_num by done. destruct (Z.compare_spec (num x) (num y)); split; lia || done.
Qed.
