(* ===== verification/Config.v ===== *)
(** * fwknox-config: the configuration of daemon and client

    Models crates/fwknox-config/src/{error,shared,daemon,client,load}.rs: the
    types with their defaults, the hand-written deserialisers, and the
    validation that runs before the daemon or the client uses a file. The
    [ipnet], [base64] and [toml] crates are parameters. *)

From S2P Require Import Prelude RustStd Net Proto NetText.

(** ** Third-party code *)

(** [ipnet::IpNet]: an address with a prefix length. *)
Class IpNetOps := {
  IpNet : Type;
  IpNet_eq_dec :: EqDecision IpNet;
  net_contains : IpNet → IpAddr → bool;
  net_parse : str → option IpNet;
  net_show : IpNet → str;
}.

(** The [Display] and [FromStr] of [IpNet] fit together, every text form has
    a prefix length after a slash, and none starts or ends in white space. *)
Class IpNetLaws (N : IpNetOps) : Prop := {
  net_parse_show n : net_parse (net_show n) = Some n;
  net_parse_slash s n : net_parse s = Some n → 47 ∈ s;
  net_show_trim n : trim (net_show n) = net_show n;
}.

(** The standard alphabet of the [base64] crate. *)
Class Base64 := {
  b64_encode : bytes → str;
  b64_decode : str → result str bytes;
}.
Class Base64Laws (B : Base64) : Prop := {
  b64_decode_encode bs : is_bytes bs → b64_decode (b64_encode bs) = Ok bs;
}.

(** Which characters beyond ASCII [char::escape_debug] prints as they are: the
    Unicode tables compiled into the standard library. *)
Class UnicodeTables := { debug_plain : char → bool }.

(** [{:?}] of a string. *)
Definition debug_char `{UnicodeTables} (c : char) : str :=
  if c =? 0 then lit "\0" else if c =? 9 then lit "\t" else if c =? 10 then lit "\n"
  else if c =? 13 then lit "\r" else if c =? 34 then [92; 34] else if c =? 92 then lit "\\"
  else if ((32 <=? c) && (c <=? 126)) || ((127 <? c) && debug_plain c) then [c]
  else lit "\u{" ++ hex c ++ lit "}".
Definition debug_str `{UnicodeTables} (s : str) : str := [34] ++ mjoin (debug_char <$> s) ++ [34].

(** ** error.rs *)

(** The errors of the I/O, TOML and base64 layers are carried as their
    messages. *)
Inductive ConfigError :=
  | ConfigIo (path source : str)
  | ConfigToml (path source : str)
  | Invalid (msg : str)
  | ConfigBase64 (field source : str).

Section shared.
Context `{N : IpNetOps} `{B : Base64} `{U : UnicodeTables}.

(** ** shared.rs *)

Inductive SourceSpec :=
  | Any
  | Cidr (net : IpNet)
  | Single (ip : IpAddr).

#[global] Instance SourceSpec_eq_dec : EqDecision SourceSpec.
Proof. solve_decision. Defined.

Definition SourceSpec_matches (spec : SourceSpec) (ip : IpAddr) : bool :=
  match spec with
  | Any => true
  | Cidr net => net_contains net ip
  | Single addr => bool_decide (addr = ip)
  end.

Definition SourceSpec_from_str (s : str) : result ConfigError SourceSpec :=
  let s := trim s in
  if eq_ignore_ascii_case s (lit "any") then Ok Any
  else match net_parse s with
  | Some net => Ok (Cidr net)
  | None =>
      match parse_ip s with
      | Some ip => Ok (Single ip)
      | None => Err (Invalid (lit "could not parse source spec: " ++ debug_str s))
      end
  end.

(** The string [Serialize] writes. *)
Definition SourceSpec_serialize (spec : SourceSpec) : str :=
  match spec with
  | Any => lit "any"
  | Cidr net => net_show net
  | Single ip => show_ip ip
  end.

Definition parse_port_proto (s : str) : result ConfigError PortProto :=
  '(p, n) ← ok_or (Invalid (lit "expected proto/port, got " ++ debug_str s)) (split_once 47 s);
  let lower := to_ascii_lowercase (trim p) in
  pr ← (if bool_decide (lower = lit "tcp") then Ok Tcp
        else if bool_decide (lower = lit "udp") then Ok Udp
        else Err (Invalid (lit "unknown protocol: " ++ debug_str lower)));
  n ← map_err (λ e, Invalid (lit "invalid port: " ++ show_ParseIntError e))
        (parse_uint u16_max (trim n));
  _ ← guard_err (n =? 0) (Invalid (lit "port must be > 0"));
  Ok (PortProto_new pr n).

Definition MAX_PORTS_PER_STANZA : Z := 1024.

(** [map_err(serde::de::Error::custom)] keeps the text of the error. *)
Definition show_ConfigError (e : ConfigError) : str :=
  match e with
  | ConfigIo path source => lit "failed to read config file " ++ path ++ lit ": " ++ source
  | ConfigToml path source => lit "failed to parse TOML in " ++ path ++ lit ": " ++ source
  | Invalid msg => lit "invalid configuration: " ++ msg
  | ConfigBase64 field source => lit "invalid base64 in field " ++ field ++ lit ": " ++ source
  end.

Fixpoint parse_port_protos (ss : list str) : result ConfigError (list PortProto) :=
  match ss with
  | [] => Ok []
  | s :: ss' => pp ← parse_port_proto s; pps ← parse_port_protos ss'; Ok (pp :: pps)
  end.

(** [PortProtoList] from the strings of the file. *)
Definition PortProtoList_deserialize (ss : list str) : result str (list PortProto) :=
  _ ← guard_err (len ss >? MAX_PORTS_PER_STANZA)
        (lit "open_ports list has " ++ dec (len ss) ++ lit " entries, exceeds maximum of " ++
         dec MAX_PORTS_PER_STANZA);
  map_err show_ConfigError (parse_port_protos ss).

(** [Base64Key([u8; 32])] is its bytes. *)
Definition Base64Key_deserialize (s : str) : result str bytes :=
  bs ← b64_decode s;
  _ ← guard_err (negb (len bs =? 32)) (lit "expected 32-byte key, got " ++ dec (len bs));
  Ok bs.
Definition Base64Key_serialize (k : bytes) : str := b64_encode k.

Definition Base64Key_as_bytes (k : bytes) : bytes := k.
Definition Base64Key_debug (k : bytes) : str := lit "Base64Key(<redacted>)".

Definition is_all_zero (k : bytes) : bool := forallb (λ b, b =? 0) k.

(** ** daemon.rs *)

Definition MAX_SOURCES_PER_STANZA : Z := 1024.
Definition MAX_ACCESS_STANZAS : Z := 256.

Definition SourceSpec_deserialize (s : str) : result str SourceSpec :=
  map_err show_ConfigError (SourceSpec_from_str s).

Definition BoundedSources_deserialize (v : list SourceSpec) : result str (list SourceSpec) :=
  _ ← guard_err (len v >? MAX_SOURCES_PER_STANZA)
        (lit "source list has " ++ dec (len v) ++ lit " entries, exceeds maximum of " ++
         dec MAX_SOURCES_PER_STANZA);
  Ok v.

Inductive FirewallBackendKind := Nftables | Iptables.

Record DaemonSection := {
  listen_addr : IpAddr;
  listen_port : Z;
  firewall_backend : FirewallBackendKind;
  run_user : str;
  run_group : str;
  max_spa_packet_age : Duration;
  flush_rules_at_init : bool;
  flush_rules_at_exit : bool;
  default_fw_timeout : Duration;
  max_fw_timeout : Duration;
  enable_systemd : bool;
  enable_sandbox : bool;
  enable_privsep : bool;
  landlock_enabled : bool;
}.

(** The [serde] defaults of the three sections, each one function of the
    source; the section defaults below call them. *)
Definition default_listen_addr : IpAddr := default (V4 []) (parse_ip (lit "0.0.0.0")).
Definition default_listen_port : Z := 62201.
Definition default_firewall_backend : FirewallBackendKind := Nftables.
Definition default_run_user : str := lit "fwknox".
Definition default_run_group : str := lit "fwknox".
Definition default_max_age : Duration := from_secs 120.
Definition default_fw_timeout_value : Duration := from_secs 30.
Definition default_max_fw_timeout : Duration := from_secs 300.
Definition default_replay_path : str := lit "/var/lib/fwknox/replay.cache".
Definition default_replay_max_age : Duration := from_secs 86400.
Definition default_replay_max_entries : Z := 10000.
Definition default_per_source_rate_per_sec : Z := 10.
Definition default_per_source_burst : Z := 20.
Definition default_tracked_sources_capacity : Z := 1024.
Definition default_global_rate_per_sec : Z := 500.
Definition default_global_burst : Z := 1000.
Definition default_promotion_threshold : Z := 5.
Definition default_ipv6_prefix_len : Z := 64.
Definition yes : bool := true.

Definition DaemonSection_default : DaemonSection := {|
  listen_addr := default_listen_addr;
  listen_port := default_listen_port;
  firewall_backend := default_firewall_backend;
  run_user := default_run_user;
  run_group := default_run_group;
  max_spa_packet_age := default_max_age;
  flush_rules_at_init := true;
  flush_rules_at_exit := true;
  default_fw_timeout := default_fw_timeout_value;
  max_fw_timeout := default_max_fw_timeout;
  enable_systemd := true;
  enable_sandbox := true;
  enable_privsep := true;
  landlock_enabled := false;
|}.

Record ReplaySection := { cache_path : str; max_age : Duration; max_entries : Z }.

Definition ReplaySection_default : ReplaySection := {|
  cache_path := default_replay_path;
  max_age := default_replay_max_age;
  max_entries := default_replay_max_entries;
|}.

Record RateLimitSection := {
  enabled : bool;
  per_source_rate_per_sec : Z;
  per_source_burst : Z;
  tracked_sources_capacity : Z;
  global_rate_per_sec : Z;
  global_burst : Z;
  promotion_threshold : Z;
  ipv6_prefix_len : Z;
}.

Definition RateLimitSection_default : RateLimitSection := {|
  enabled := true;
  per_source_rate_per_sec := default_per_source_rate_per_sec;
  per_source_burst := default_per_source_burst;
  tracked_sources_capacity := default_tracked_sources_capacity;
  global_rate_per_sec := default_global_rate_per_sec;
  global_burst := default_global_burst;
  promotion_threshold := default_promotion_threshold;
  ipv6_prefix_len := default_ipv6_prefix_len;
|}.

Record AccessStanza := {
  stanza_name : str;
  source : list SourceSpec;
  open_ports : list PortProto;
  master_key_base64 : bytes;
  fw_timeout : option Duration;
  stanza_max_fw_timeout : option Duration;
  require_source_match : bool;
  require_username : option str;
  enable_nat : bool;
  nat_destination : option str;
  enable_cmd_exec : bool;
  cmd_exec_user : option str;
  expiration_date : option str;
}.

Definition BoundedAccess_deserialize (v : list AccessStanza) : result str (list AccessStanza) :=
  _ ← guard_err (len v >? MAX_ACCESS_STANZAS)
        (lit "access list has " ++ dec (len v) ++ lit " stanzas, exceeds maximum of " ++
         dec MAX_ACCESS_STANZAS);
  Ok v.

Record DaemonConfig := {
  daemon : DaemonSection;
  replay : ReplaySection;
  rate_limit : RateLimitSection;
  access : list AccessStanza;
}.

(** The message of a feature the daemon refuses; the dash is U+2014. *)
Definition not_yet (name field : str) : str :=
  lit "access stanza " ++ debug_str name ++ lit " sets " ++ field ++
  lit ", which is not yet implemented " ++ [0x2014] ++
  lit " remove the field or wait for a future release".

(** The body of the loop over stanzas; [seen_names] is the hash set. *)
Definition validate_stanza (seen_names : gset str) (s : AccessStanza)
  : result ConfigError (gset str) :=
  let name := stanza_name s in
  _ ← guard_err (bool_decide (name ∈ seen_names))
        (Invalid (lit "duplicate access stanza name: " ++ name));
  _ ← guard_err (bool_decide (open_ports s = []))
        (Invalid (lit "access stanza " ++ name ++ lit " has empty open_ports"));
  _ ← guard_err (enable_nat s && bool_decide (nat_destination s = None))
        (Invalid (lit "access stanza " ++ name ++
                  lit " has enable_nat=true but no nat_destination"));
  _ ← guard_err (is_all_zero (master_key_base64 s))
        (Invalid (lit "access stanza " ++ debug_str name ++
                  lit " uses the all-zero example placeholder key; generate a real one with `head -c 32 /dev/urandom | base64`"));
  _ ← guard_err (negb (bool_decide (expiration_date s = None)))
        (Invalid (not_yet name (lit "expiration_date")));
  _ ← guard_err (enable_nat s) (Invalid (not_yet name (lit "enable_nat")));
  _ ← guard_err (enable_cmd_exec s) (Invalid (not_yet name (lit "enable_cmd_exec")));
  Ok ({[ name ]} ∪ seen_names).

Fixpoint validate_stanzas (seen_names : gset str) (ss : list AccessStanza)
  : result ConfigError unit :=
  match ss with
  | [] => Ok ()
  | s :: ss' => seen ← validate_stanza seen_names s; validate_stanzas seen ss'
  end.

Definition validate_duration (name : str) (d : Duration) : result ConfigError unit :=
  _ ← guard_err (d =? 0) (Invalid (name ++ lit " must be > 0"));
  guard_err (d >? from_secs (86400 * 7)) (Invalid (name ++ lit " must be <= 7 days")).

Definition validate_durations (c : DaemonConfig) : result ConfigError unit :=
  _ ← validate_duration (lit "daemon.default_fw_timeout") (default_fw_timeout (daemon c));
  _ ← validate_duration (lit "daemon.max_fw_timeout") (max_fw_timeout (daemon c));
  _ ← validate_duration (lit "daemon.max_spa_packet_age") (max_spa_packet_age (daemon c));
  validate_duration (lit "replay.max_age") (max_age (replay c)).

(** [Path::is_absolute], and whether [Path::components] has a [ParentDir]. *)
Definition is_absolute (p : str) : bool := starts_with p (lit "/").
Definition has_parent_dir (p : str) : bool :=
  existsb (λ comp, bool_decide (comp = lit "..")) (split_char 47 p).

Definition validate_replay_cache_path (c : DaemonConfig) : result ConfigError unit :=
  _ ← guard_err (negb (is_absolute (cache_path (replay c))))
        (Invalid (lit "replay.cache_path must be absolute"));
  guard_err (has_parent_dir (cache_path (replay c)))
    (Invalid (lit "replay.cache_path must not contain '..'")).

Definition validate_rate_limit (r : RateLimitSection) : result ConfigError unit :=
  if enabled r then
    _ ← guard_err (per_source_rate_per_sec r <? 1)
          (Invalid (lit "per_source_rate_per_sec must be >= 1 when rate limiting is enabled"));
    _ ← guard_err (global_rate_per_sec r <? 1)
          (Invalid (lit "global_rate_per_sec must be >= 1 when rate limiting is enabled"));
    _ ← guard_err (per_source_burst r <? per_source_rate_per_sec r)
          (Invalid (lit "per_source_burst must be >= per_source_rate_per_sec"));
    _ ← guard_err (global_burst r <? global_rate_per_sec r)
          (Invalid (lit "global_burst must be >= global_rate_per_sec"));
    _ ← guard_err (tracked_sources_capacity r =? 0)
          (Invalid (lit "tracked_sources_capacity must be >= 1"));
    _ ← guard_err (promotion_threshold r =? 0)
          (Invalid (lit "promotion_threshold must be >= 1"));
    guard_err (negb ((1 <=? ipv6_prefix_len r) && (ipv6_prefix_len r <=? 128)))
      (Invalid (lit "ipv6_prefix_len must be in 1..=128"))
  else Ok ().

Definition DaemonConfig_validate (c : DaemonConfig) : result ConfigError unit :=
  _ ← guard_err (bool_decide (access c = []))
        (Invalid (lit "at least one [[access]] stanza is required"));
  _ ← validate_stanzas ∅ (access c);
  _ ← validate_durations c;
  _ ← guard_err (default_fw_timeout (daemon c) >? max_fw_timeout (daemon c))
        (Invalid (lit "default_fw_timeout must be <= max_fw_timeout"));
  _ ← validate_replay_cache_path c;
  validate_rate_limit (rate_limit c).

Definition find_by_master_key (c : DaemonConfig) (key : bytes) : option AccessStanza :=
  List.find (λ s, bool_decide (master_key_base64 s = key)) (access c).

(** ** client.rs *)

Inductive ClientTransport := TransportUdp | TransportTcp | TransportHttp.

Record DefaultsSection := {
  transport : ClientTransport;
  resolve_ip : bool;
  verbose : bool;
}.
Definition DefaultsSection_default : DefaultsSection := {|
  transport := TransportUdp; resolve_ip := false; verbose := false |}.

Record ServerEntry := {
  server_name : str;
  destination : str;
  server_port : Z;
  server_access : list PortProto;
  server_master_key : bytes;
  server_fw_timeout : option Duration;
  server_source_ip : str;
}.
Definition default_port : Z := 62201.
Definition default_source_ip : str := lit "auto".

Record ClientConfig := { defaults : DefaultsSection; servers : list ServerEntry }.

Definition validate_server (seen : gset str) (s : ServerEntry) : result ConfigError (gset str) :=
  let name := server_name s in
  _ ← guard_err (bool_decide (name ∈ seen)) (Invalid (lit "duplicate server name: " ++ name));
  _ ← guard_err (bool_decide (server_access s = []))
        (Invalid (lit "server " ++ name ++ lit " has empty access list"));
  _ ← guard_err (bool_decide (trim (destination s) = []))
        (Invalid (lit "server " ++ name ++ lit ": destination is empty"));
  _ ← guard_err (server_port s =? 0) (Invalid (lit "server " ++ name ++ lit ": port is 0"));
  Ok ({[ name ]} ∪ seen).

Fixpoint validate_servers (seen : gset str) (ss : list ServerEntry) : result ConfigError unit :=
  match ss with
  | [] => Ok ()
  | s :: ss' => seen' ← validate_server seen s; validate_servers seen' ss'
  end.

Definition ClientConfig_validate (c : ClientConfig) : result ConfigError unit :=
  validate_servers ∅ (servers c).

Definition find_server (c : ClientConfig) (name : str) : option ServerEntry :=
  List.find (λ s, bool_decide (server_name s = name)) (servers c).

(** ** load.rs

    [read] is [fs::read_to_string] and [from_str] is [toml::from_str]. *)

Definition load_daemon_config (read : str → result str str)
    (from_str : str → result str DaemonConfig) (path : str) : result ConfigError DaemonConfig :=
  text ← map_err (ConfigIo path) (read path);
  cfg ← map_err (ConfigToml path) (from_str text);
  _ ← DaemonConfig_validate cfg;
  Ok cfg.

Definition load_client_config (read : str → result str str)
    (from_str : str → result str ClientConfig) (path : str) : result ConfigError ClientConfig :=
  text ← map_err (ConfigIo path) (read path);
  cfg ← map_err (ConfigToml path) (from_str text);
  _ ← ClientConfig_validate cfg;
  Ok cfg.
End shared.

(** ** Properties *)

Section properties.
Context `{N : IpNetOps} `{U : UnicodeTables}.

(** What validation promises about a stanza. *)
Definition stanza_valid (s : AccessStanza) : Prop :=
  open_ports s ≠ [] ∧ is_all_zero (master_key_base64 s) = false ∧
  expiration_date s = None ∧ enable_nat s = false ∧ enable_cmd_exec s = false.

Definition duration_valid (d : Duration) : Prop := d ≠ 0 ∧ d ≤ from_secs 604800.

Definition path_valid (p : str) : Prop :=
  (∃ p', p = 47 :: p') ∧ lit ".." ∉ split_char 47 p.

Definition rate_limit_valid (r : RateLimitSection) : Prop :=
  enabled r = true →
  1 ≤ per_source_rate_per_sec r ≤ per_source_burst r ∧
  1 ≤ global_rate_per_sec r ≤ global_burst r ∧
  tracked_sources_capacity r ≠ 0 ∧ promotion_threshold r ≠ 0 ∧ 1 ≤ ipv6_prefix_len r ≤ 128.

Definition config_valid (c : DaemonConfig) : Prop :=
  access c ≠ [] ∧ NoDup (stanza_name <$> access c) ∧ Forall stanza_valid (access c) ∧
  Forall duration_valid [default_fw_timeout (daemon c); max_fw_timeout (daemon c);
                         max_spa_packet_age (daemon c); max_age (replay c)] ∧
  default_fw_timeout (daemon c) ≤ max_fw_timeout (daemon c) ∧
  path_valid (cache_path (replay c)) ∧ rate_limit_valid (rate_limit c).

Lemma validate_stanza_ok seen s seen' :
  validate_stanza seen s = Ok seen' ↔
  (stanza_name s ∉ seen) ∧ stanza_valid s ∧ seen' = {[ stanza_name s ]} ∪ seen.
Proof.
  unfold validate_stanza, stanza_valid. cbv zeta. rewrite !bind_unit_ok, !guard_err_ok.
  rewrite andb_false_iff, negb_false_iff, bool_decide_eq_true, !bool_decide_eq_false.
  naive_solver.
Qed.

(** A loop that rejects repeated names and invalid elements. *)
Lemma unique_loop_ok {A E} (name : A → str) (valid : A → Prop)
    (step : gset str → A → result E (gset str)) (loop : gset str → list A → result E unit) :
  (∀ seen, loop seen [] = Ok ()) →
  (∀ seen x l, loop seen (x :: l) = step seen x ≫= λ seen', loop seen' l) →
  (∀ seen x seen', step seen x = Ok seen' ↔
     (name x ∉ seen) ∧ valid x ∧ seen' = {[ name x ]} ∪ seen) →
  ∀ l seen u, loop seen l = Ok u ↔
    NoDup (name <$> l) ∧ Forall (λ x, name x ∉ seen) l ∧ Forall valid l.
Proof.
  intros Hnil Hcons Hstep l. induction l as [|x l IH]; intros seen u.
  { rewrite Hnil. destruct u. split; [by repeat constructor|done]. }
  rewrite Hcons, fmap_cons, result_bind_ok, NoDup_cons, !Forall_cons, list_elem_of_fmap.
  setoid_rewrite Hstep. setoid_rewrite IH. split.
  - intros (seen' & (Hn & Hv & ->) & Hnd & Hf & Hvs). rewrite Forall_forall in Hf.
    split_and!; [|done|done| |done|done].
    + intros (x' & ? & Hin). specialize (Hf x' Hin). set_solver.
    + apply Forall_forall. intros x' Hin. specialize (Hf x' Hin). set_solver.
  - intros ([Hni Hnd] & [Hn Hf] & Hv & Hvs). eexists. split; [done|].
    split_and!; [done| |done]. apply Forall_forall. intros x' Hin.
    rewrite Forall_forall in Hf. specialize (Hf x' Hin). set_solver.
Qed.

Lemma validate_stanzas_ok seen ss u :
  validate_stanzas seen ss = Ok u ↔
  NoDup (stanza_name <$> ss) ∧ Forall (λ s, stanza_name s ∉ seen) ss ∧ Forall stanza_valid ss.
Proof. by apply (unique_loop_ok _ _ validate_stanza), validate_stanza_ok. Qed.

Lemma validate_duration_ok name d u :
  validate_duration name d = Ok u ↔ duration_valid d.
Proof.
  unfold validate_duration, duration_valid. rewrite bind_unit_ok, !guard_err_ok.
  rewrite Z.eqb_neq, Z.gtb_ltb, Z.ltb_ge. done.
Qed.

Lemma is_absolute_iff p : is_absolute p = true ↔ ∃ p', p = 47 :: p'.
Proof.
  unfold is_absolute, starts_with. change (lit "/") with [47].
  destruct p as [|c p]; cbn [is_prefix]; [naive_solver|].
  rewrite andb_true_r, Z.eqb_eq. naive_solver.
Qed.

Lemma validate_replay_cache_path_ok c u :
  validate_replay_cache_path c = Ok u ↔ path_valid (cache_path (replay c)).
Proof.
  unfold validate_replay_cache_path, path_valid, has_parent_dir.
  rewrite bind_unit_ok, !guard_err_ok, negb_false_iff, is_absolute_iff.
  rewrite <- not_true_iff_false, existsb_eq_elem_of. done.
Qed.

Lemma validate_rate_limit_ok r u : validate_rate_limit r = Ok u ↔ rate_limit_valid r.
Proof.
  unfold validate_rate_limit, rate_limit_valid. destruct (enabled r); [|destruct u; naive_solver].
  rewrite !bind_unit_ok, !guard_err_ok, negb_false_iff, andb_true_iff.
  rewrite !Z.ltb_ge, !Z.eqb_neq, !Z.leb_le. naive_solver lia.
Qed.

Lemma validate_iff c : DaemonConfig_validate c = Ok () ↔ config_valid c.
Proof.
  unfold DaemonConfig_validate, config_valid, validate_durations.
  rewrite !bind_unit_ok, !guard_err_ok, bool_decide_eq_false, validate_stanzas_ok,
    !validate_duration_ok, validate_replay_cache_path_ok, validate_rate_limit_ok.
  rewrite !Forall_cons, Forall_nil, Z.gtb_ltb, Z.ltb_ge.
  assert (Forall (λ s, stanza_name s ∉ (∅ : gset str)) (access c)) by (apply Forall_forall; set_solver).
  naive_solver.
Qed.

(** [validate] accepts exactly the configurations with a stanza, unique
    stanza names, no refused feature or placeholder key, durations between
    zero and seven days, ordered firewall timeouts, an absolute cache path
    without parent components and, when rate limiting is on, usable rates. *)
Theorem daemon_validate_iff c : DaemonConfig_validate c = Ok () ↔ config_valid c.
Proof. apply validate_iff. Qed.

Lemma parse_show_port_proto pp :
  1 ≤ port pp ≤ u16_max → parse_port_proto (show_PortProto pp) = Ok pp.
Proof.
  intros Hp. unfold parse_port_proto, show_PortProto.
  assert (47 ∉ show_Protocol (proto pp)) as Hs by by destruct (proto pp); vm_compute; set_solver.
  change (lit "/") with [47]. cbn [app]. rewrite (split_once_sep 47) by done. cbn [ok_or mbind result_bind].
  assert (to_ascii_lowercase (trim (show_Protocol (proto pp))) = show_Protocol (proto pp)) as ->
    by by destruct (proto pp).
  assert ((if bool_decide (show_Protocol (proto pp) = lit "tcp") then Ok Tcp
           else if bool_decide (show_Protocol (proto pp) = lit "udp") then Ok Udp
           else Err (Invalid (lit "unknown protocol: " ++ debug_str (show_Protocol (proto pp)))))
          = Ok (proto pp)) as -> by by destruct (proto pp).
  cbn [mbind result_bind]. rewrite trim_dec, parse_uint_dec by lia.
  cbn [map_err mbind result_bind]. rewrite (proj2 (Z.eqb_neq _ _)) by lia. by destruct pp.
Qed.

(** A [proto/port] pair prints to a string that parses back to it, for
    every protocol and nonzero port. *)
Theorem port_proto_roundtrip pp :
  1 ≤ port pp ≤ u16_max → parse_port_proto (show_PortProto pp) = Ok pp.
Proof. apply parse_show_port_proto. Qed.

Lemma parse_port_proto_range s pp : parse_port_proto s = Ok pp → 1 ≤ port pp ≤ u16_max.
Proof.
  unfold parse_port_proto. intros Hp. apply result_bind_ok in Hp as ([p n] & _ & Hp).
  apply result_bind_ok in Hp as (pr & _ & Hp). apply result_bind_ok in Hp as (k & Hk & Hp).
  apply map_err_ok in Hk. apply parse_uint_bound in Hk; [|done].
  inv_ok. bool_prop. subst; simpl. lia.
Qed.

(** A parsed port list is within the limit, element by element the parse
    of the strings, and holds no port zero. *)
Theorem port_list_sound ss pps :
  PortProtoList_deserialize ss = Ok pps →
  len ss ≤ MAX_PORTS_PER_STANZA ∧
  Forall2 (λ s pp, parse_port_proto s = Ok pp ∧ 1 ≤ port pp ≤ u16_max) ss pps.
Proof.
  unfold PortProtoList_deserialize. rewrite bind_unit_ok, guard_err_ok, map_err_ok.
  intros [Hl Hp]. bool_prop. split; [lia|]. clear Hl. revert pps Hp.
  induction ss as [|s ss IH]; intros pps Hp; simpl in Hp; inv_ok; subst; [constructor|].
  constructor; [|auto]. split; [done|]. by eapply parse_port_proto_range.
Qed.

(** What a stanza file calls a source survives being written out and
    read again: [any], every network and every address. *)
Theorem source_spec_roundtrip `{!IpNetLaws N} spec :
  match spec with Any | Cidr _ => True | Single ip => ip_wf ip end →
  SourceSpec_from_str (SourceSpec_serialize spec) = Ok spec.
Proof.
  unfold SourceSpec_from_str. cbv zeta. destruct spec as [|n|ip]; intros Hip; [done| |].
  - cbn [SourceSpec_serialize]. rewrite net_show_trim, net_parse_show.
    destruct (eq_ignore_ascii_case _ _) eqn:Heq; [|done]. apply bool_decide_eq_true_1 in Heq.
    assert (47 ∈ to_ascii_lowercase (net_show n)) as Hin.
    { unfold to_ascii_lowercase. apply list_elem_of_fmap. exists 47. split; [done|].
      eapply net_parse_slash, net_parse_show. }
    rewrite Heq in Hin. by vm_compute in Hin; set_solver.
  - cbn [SourceSpec_serialize]. pose proof (show_ip_chars ip Hip) as Hch.
    rewrite trim_nonws.
    2: { eapply Forall_impl; [done|]. unfold is_ip_char, is_ascii_digit, is_whitespace. intros c Hc. lia. }
    pose proof (parse_show_ip ip Hip) as Hpar.
    destruct (eq_ignore_ascii_case _ _) eqn:Heq.
    { apply bool_decide_eq_true_1 in Heq. change (lit "any") with [97; 110; 121] in Heq.
      destruct (show_ip ip) as [|c [|c' s]]; [done|done|].
      inversion Hch as [|? ? _ Hch']; subst. inversion Hch' as [|? ? Hc _]; subst.
      unfold to_ascii_lowercase, is_ip_char, is_ascii_digit in *.
      cbn in Heq. injection Heq as _ Heq _. unfold to_ascii_lowercase_char in Heq.
      case_match; lia. }
    destruct (net_parse (show_ip ip)) as [n|] eqn:Hn; [|by rewrite Hpar].
    apply net_parse_slash in Hn. rewrite Forall_forall in Hch. by apply Hch in Hn.
Qed.

Lemma parse_port_proto_typed s pp : parse_port_proto s = Ok pp → 1 ≤ port pp ≤ u16_max.
Proof.
  unfold parse_port_proto. destruct (split_once 47 s) as [[p n]|]; [|done]. cbn [ok_or mbind result_bind].
  cbv zeta. intros Hp. inv_ok. subst. bool_prop. cbn [port PortProto_new].
  match goal with H : parse_uint _ _ = Ok _ |- _ => apply parse_uint_bound in H; [|done] end. lia.
Qed.

Definition server_valid (s : ServerEntry) : Prop :=
  server_access s ≠ [] ∧ trim (destination s) ≠ [] ∧ server_port s ≠ 0.

Lemma validate_server_ok seen s seen' :
  validate_server seen s = Ok seen' ↔
  (server_name s ∉ seen) ∧ server_valid s ∧ seen' = {[ server_name s ]} ∪ seen.
Proof.
  unfold validate_server, server_valid. cbv zeta. rewrite !bind_unit_ok, !guard_err_ok.
  rewrite !bool_decide_eq_false, Z.eqb_neq. naive_solver.
Qed.

Lemma validate_servers_ok seen ss u :
  validate_servers seen ss = Ok u ↔
  NoDup (server_name <$> ss) ∧ Forall (λ s, server_name s ∉ seen) ss ∧ Forall server_valid ss.
Proof. by apply (unique_loop_ok _ _ validate_server), validate_server_ok. Qed.

Lemma find_unique {A} (f : A → str) (l : list A) x :
  NoDup (f <$> l) → x ∈ l → List.find (λ y, bool_decide (f y = f x)) l = Some x.
Proof.
  induction l as [|y l IH]; intros Hn Hin; [set_solver|]. cbn [List.find].
  apply NoDup_cons in Hn as [Hy Hn]. destruct (decide (f y = f x)) as [E|E].
  - rewrite bool_decide_eq_true_2 by done. f_equal. apply elem_of_cons in Hin as [->|Hin]; [done|].
    destruct Hy. rewrite E. by apply list_elem_of_fmap_2.
  - rewrite bool_decide_eq_false_2 by done. apply IH; [done|]. set_solver.
Qed.

(** A client file that loads was read and parsed, has a non-empty access
    list, a destination and a port in every server entry, and looking up an
    entry's name gives that entry. *)
Theorem load_client_config_sound read from_str path cfg :
  load_client_config read from_str path = Ok cfg →
  (∃ text, read path = Ok text ∧ from_str text = Ok cfg) ∧
  Forall server_valid (servers cfg) ∧
  ∀ s, s ∈ servers cfg → find_server cfg (server_name s) = Some s.
Proof.
  unfold load_client_config, ClientConfig_validate. intros Hl. inv_ok. subst.
  match goal with Hv : validate_servers _ _ = Ok _ |- _ =>
    apply validate_servers_ok in Hv as (Hn & _ & Hv) end.
  split_and!; [eauto|done|]. intros s Hs. by apply find_unique.
Qed.

(** The daemon only ever starts from a validated configuration: loading
    fails with the error of the first step that fails, and otherwise gives
    the parsed file, which is valid. *)
Theorem load_daemon_config_spec read from_str path :
  match load_daemon_config read from_str path with
  | Ok cfg => (∃ text, read path = Ok text ∧ from_str text = Ok cfg) ∧ config_valid cfg
  | Err e =>
      (∃ io, read path = Err io ∧ e = ConfigIo path io) ∨
      (∃ text toml, read path = Ok text ∧ from_str text = Err toml ∧ e = ConfigToml path toml) ∨
      (∃ text cfg, read path = Ok text ∧ from_str text = Ok cfg ∧ ¬ config_valid cfg ∧
                   DaemonConfig_validate cfg = Err e)
  end.
Proof.
  pose proof validate_iff as Hiff. unfold load_daemon_config.
  destruct (read path) as [text|io] eqn:Hr; cbn [map_err mbind result_bind]; [|eauto].
  destruct (from_str text) as [cfg|toml] eqn:Hf; cbn [map_err mbind result_bind]; [|right; left; eauto 6].
  destruct (DaemonConfig_validate cfg) as [[]|e] eqn:Hv; cbn [mbind result_bind].
  - split; [eauto|]. by apply Hiff.
  - right; right. exists text, cfg. split_and!; [done|done| |done].
    intros Hc%Hiff. congruence.
Qed.
End properties.

(** ** Witnesses *)

(** One network, written ["0.0.0.0/0"], that holds every IPv4 address; and a
    table without any extra printable characters. *)
#[global] Instance all_v4_net : IpNetOps := {
  IpNet := unit;
  net_contains _ ip := match ip with V4 _ => true | V6 _ => false end;
  net_parse s := if bool_decide (s = lit "0.0.0.0/0") then Some tt else None;
  net_show _ := lit "0.0.0.0/0";
}.
#[global] Instance all_v4_net_laws : IpNetLaws all_v4_net.
Proof.
  split.
  - by intros [].
  - intros s n. cbn. case_bool_decide as E; [subst|done]. intros _.
    apply (bool_decide_unpack _). vm_compute. exact I.
  - intros n. reflexivity.
Qed.
#[global] Instance ascii_tables : UnicodeTables := { debug_plain _ := false }.

Definition sample_stanza : AccessStanza := {|
  stanza_name := lit "ssh";
  source := [Cidr (tt : @IpNet all_v4_net)];
  open_ports := [PortProto_new Tcp 22];
  master_key_base64 := replicate 32 7;
  fw_timeout := None;
  stanza_max_fw_timeout := None;
  require_source_match := true;
  require_username := None;
  enable_nat := false;
  nat_destination := None;
  enable_cmd_exec := false;
  cmd_exec_user := None;
  expiration_date := None;
|}.

Definition sample_config : DaemonConfig := {|
  daemon := DaemonSection_default;
  replay := ReplaySection_default;
  rate_limit := RateLimitSection_default;
  access := [sample_stanza];
|}.

(** The defaults with one stanza are a valid configuration. *)
Example sample_config_valid : DaemonConfig_validate sample_config = Ok ().
Proof. vm_compute. reflexivity. Qed.

Lemma port_proto_roundtrip_witness :
  parse_port_proto (show_PortProto (PortProto_new Udp 53)) = Ok (PortProto_new Udp 53).
Proof. apply (port_proto_roundtrip (PortProto_new Udp 53)). vm_compute. split; discriminate. Defined.

Lemma port_list_sound_witness :
  len [lit "tcp/22"; lit " UDP / 53 "] ≤ MAX_PORTS_PER_STANZA ∧
  Forall2 (λ s pp, parse_port_proto s = Ok pp ∧ 1 ≤ port pp ≤ u16_max)
    [lit "tcp/22"; lit " UDP / 53 "] [PortProto_new Tcp 22; PortProto_new Udp 53].
Proof. apply (port_list_sound [lit "tcp/22"; lit " UDP / 53 "]). vm_compute. reflexivity. Defined.

Lemma source_spec_roundtrip_witness :
  SourceSpec_from_str (SourceSpec_serialize (Single (V6 (32 :: 1 :: replicate 14 0)))) =
  Ok (Single (V6 (32 :: 1 :: replicate 14 0))).
Proof.
  apply (source_spec_roundtrip (Single (V6 (32 :: 1 :: replicate 14 0)))).
  split; [reflexivity|]. apply (bool_decide_unpack _). vm_compute. exact I.
Defined.

Definition sample_server : ServerEntry := {|
  server_name := lit "home";
  destination := lit "example.org";
  server_port := default_port;
  server_access := [PortProto_new Tcp 22];
  server_master_key := replicate 32 7;
  server_fw_timeout := None;
  server_source_ip := default_source_ip;
|}.
Definition sample_client : ClientConfig :=
  {| defaults := DefaultsSection_default; servers := [sample_server] |}.

Lemma load_client_config_sound_witness :
  Forall server_valid [sample_server] ∧ find_server sample_client (lit "home") = Some sample_server.
Proof.
  pose proof (load_client_config_sound (λ _, Ok []) (λ _, Ok sample_client) (lit "f") sample_client)
    as Hw.
  destruct Hw as (_ & Hv & Hf); [vm_compute; reflexivity|].
  split; [exact Hv|]. apply (Hf sample_server). apply list_elem_of_here.
Defined.
