(* ===== verification/ConfigFile.v ===== *)
(** * fwknox-config: from the TOML document to the configuration

    Models what the [serde] attributes of crates/fwknox-config/src/{daemon,
    client,shared}.rs make of a parsed document: which keys a section knows,
    which are refused, which default when they are missing, and how each value
    is read. The TOML grammar and the duration syntax of [humantime] are
    parameters; a table is its entries in document order, without repeated
    keys. A structure is read from a table; the positional form that derived
    impls take from an array is not modelled, and such a document is an error
    here. *)

From S2P Require Import Prelude RustStd Net Proto NetText Config.

(** A TOML value; floats and dates, which no field takes, are [VOther]. *)
Inductive Value :=
  | VStr (s : str)
  | VInt (n : Z)
  | VBool (b : bool)
  | VArr (vs : list Value)
  | VTable (entries : list (str * Value))
  | VOther.

(** The errors [serde] raises, and the ones the hand-written impls raise
    with [custom]. *)
Inductive DeError :=
  | InvalidType
  | InvalidValue
  | UnknownField (name : str)
  | MissingField (name : str)
  | UnknownVariant (name : str)
  | Custom (msg : str).

#[global] Instance DeError_eq_dec : EqDecision DeError.
Proof. solve_decision. Defined.

Class Humantime := { humantime_parse : str → result str Duration }.
(** A [Duration] has 64 bits of seconds. *)
Definition is_duration (d : Duration) : Prop := 0 ≤ d < 2 ^ 64 * NANOS.
Class HumantimeLaws (H : Humantime) : Prop := {
  humantime_range s d : humantime_parse s = Ok d → is_duration d;
}.

(** [toml]: the parse of a text, and the text of an error. *)
Class Toml := {
  toml_parse : str → result str Value;
  toml_error : DeError → str;
}.

Abbreviation decoder A := (Value → result DeError A) (only parsing).

(** ** Values *)

Definition de_string : decoder str := λ v, match v with VStr s => Ok s | _ => Err InvalidType end.
Definition de_bool : decoder bool := λ v, match v with VBool b => Ok b | _ => Err InvalidType end.
(** An integer of the document into an unsigned type. *)
Definition de_uint (max : Z) : decoder Z := λ v,
  match v with
  | VInt n => if (0 <=? n) && (n <=? max) then Ok n else Err InvalidValue
  | _ => Err InvalidType
  end.
Definition de_option {A} (de : decoder A) : decoder (option A) := λ v, Some <$> de v.
Definition de_ip : decoder IpAddr := λ v,
  s ← de_string v; ok_or (Custom (lit "invalid IP address syntax")) (parse_ip s).

Fixpoint de_list {A} (de : decoder A) (vs : list Value) : result DeError (list A) :=
  match vs with
  | [] => Ok []
  | v :: vs => a ← de v; rest ← de_list de vs; Ok (a :: rest)
  end.
Definition de_vec {A} (de : decoder A) : decoder (list A) := λ v,
  match v with VArr vs => de_list de vs | _ => Err InvalidType end.

(** ** Structures with [deny_unknown_fields]

    The entries are read in document order; the first unknown key or bad
    value is the error. Missing fields come after, in the order of the
    declaration. *)

Definition table := list (str * Value).

Definition de_table : decoder table := λ v,
  match v with VTable t => Ok t | _ => Err InvalidType end.

Definition lookup_field {A} (k : str) (t : list (str * A)) : option A :=
  snd <$> List.find (λ e, bool_decide (e.1 = k)) t.

(** A field a structure knows, with the test its value has to pass. *)
Definition known {A} (k : str) (de : decoder A) : str * (decoder unit) :=
  (k, λ v, (λ _, ()) <$> de v).

Fixpoint visit_entries (fields : list (str * decoder unit)) (t : table) : result DeError unit :=
  match t with
  | [] => Ok ()
  | (k, v) :: t =>
      match lookup_field k fields with
      | None => Err (UnknownField k)
      | Some de => _ ← de v; visit_entries fields t
      end
  end.

(** The value of a field that may be missing, and of one that must not. *)
Definition field_or {A} (k : str) (de : decoder A) (d : A) (t : table) : result DeError A :=
  match lookup_field k t with Some v => de v | None => Ok d end.
Definition field {A} (k : str) (de : decoder A) (t : table) : result DeError A :=
  match lookup_field k t with Some v => de v | None => Err (MissingField k) end.

Section files.
Context `{N : IpNetOps} `{B : Base64} `{U : UnicodeTables} `{H : Humantime}.

(** [humantime_serde] and [humantime_serde::option]. *)
Definition de_duration : decoder Duration := λ v, s ← de_string v; map_err Custom (humantime_parse s).

(** ** shared.rs *)

Definition de_source : decoder SourceSpec := λ v,
  s ← de_string v; map_err Custom (SourceSpec_deserialize s).
Definition de_ports : decoder (list PortProto) := λ v,
  ss ← de_vec de_string v; map_err Custom (PortProtoList_deserialize ss).
Definition de_key : decoder bytes := λ v, s ← de_string v; map_err Custom (Base64Key_deserialize s).

(** [PortProtoList] derives [Serialize]: a list of [PortProto], each a
    structure of its own. *)
Definition ser_port (pp : PortProto) : Value :=
  VTable [(lit "proto", VStr (show_Protocol (proto pp))); (lit "port", VInt (port pp))].
Definition PortProtoList_serialize (pps : list PortProto) : Value := VArr (ser_port <$> pps).

(** ** daemon.rs *)

Definition de_backend : decoder FirewallBackendKind := λ v,
  s ← de_string v;
  if bool_decide (s = lit "nftables") then Ok Nftables
  else if bool_decide (s = lit "iptables") then Ok Iptables
  else Err (UnknownVariant s).

Definition daemon_fields : list (str * decoder unit) :=
  [known (lit "listen_addr") de_ip; known (lit "listen_port") (de_uint u16_max);
   known (lit "firewall_backend") de_backend;
   known (lit "run_user") de_string; known (lit "run_group") de_string;
   known (lit "max_spa_packet_age") de_duration;
   known (lit "flush_rules_at_init") de_bool; known (lit "flush_rules_at_exit") de_bool;
   known (lit "default_fw_timeout") de_duration; known (lit "max_fw_timeout") de_duration;
   known (lit "enable_systemd") de_bool; known (lit "enable_sandbox") de_bool;
   known (lit "enable_privsep") de_bool; known (lit "landlock_enabled") de_bool].

Definition de_daemon_section : decoder DaemonSection := λ v,
  t ← de_table v;
  _ ← visit_entries daemon_fields t;
  listen_addr ← field_or (lit "listen_addr") de_ip default_listen_addr t;
  listen_port ← field_or (lit "listen_port") (de_uint u16_max) default_listen_port t;
  firewall_backend ← field_or (lit "firewall_backend") de_backend default_firewall_backend t;
  run_user ← field_or (lit "run_user") de_string default_run_user t;
  run_group ← field_or (lit "run_group") de_string default_run_group t;
  max_spa_packet_age ← field_or (lit "max_spa_packet_age") de_duration default_max_age t;
  flush_rules_at_init ← field_or (lit "flush_rules_at_init") de_bool yes t;
  flush_rules_at_exit ← field_or (lit "flush_rules_at_exit") de_bool yes t;
  default_fw_timeout ← field_or (lit "default_fw_timeout") de_duration default_fw_timeout_value t;
  max_fw_timeout ← field_or (lit "max_fw_timeout") de_duration default_max_fw_timeout t;
  enable_systemd ← field_or (lit "enable_systemd") de_bool yes t;
  enable_sandbox ← field_or (lit "enable_sandbox") de_bool yes t;
  enable_privsep ← field_or (lit "enable_privsep") de_bool yes t;
  landlock_enabled ← field_or (lit "landlock_enabled") de_bool false t;
  Ok {| listen_addr := listen_addr; listen_port := listen_port; firewall_backend := firewall_backend;
        run_user := run_user; run_group := run_group; max_spa_packet_age := max_spa_packet_age;
        flush_rules_at_init := flush_rules_at_init; flush_rules_at_exit := flush_rules_at_exit;
        default_fw_timeout := default_fw_timeout; max_fw_timeout := max_fw_timeout;
        enable_systemd := enable_systemd; enable_sandbox := enable_sandbox;
        enable_privsep := enable_privsep; landlock_enabled := landlock_enabled |}.

Definition replay_fields : list (str * decoder unit) :=
  [known (lit "cache_path") de_string; known (lit "max_age") de_duration;
   known (lit "max_entries") (de_uint u64_max)].

Definition de_replay_section : decoder ReplaySection := λ v,
  t ← de_table v;
  _ ← visit_entries replay_fields t;
  cache_path ← field_or (lit "cache_path") de_string default_replay_path t;
  max_age ← field_or (lit "max_age") de_duration default_replay_max_age t;
  max_entries ← field_or (lit "max_entries") (de_uint u64_max) default_replay_max_entries t;
  Ok {| cache_path := cache_path; max_age := max_age; max_entries := max_entries |}.

Definition rate_limit_fields : list (str * decoder unit) :=
  [known (lit "enabled") de_bool; known (lit "per_source_rate_per_sec") (de_uint u64_max);
   known (lit "per_source_burst") (de_uint u64_max);
   known (lit "tracked_sources_capacity") (de_uint u64_max);
   known (lit "global_rate_per_sec") (de_uint u64_max); known (lit "global_burst") (de_uint u64_max);
   known (lit "promotion_threshold") (de_uint u32_max); known (lit "ipv6_prefix_len") (de_uint u8_max)].

Definition de_rate_limit_section : decoder RateLimitSection := λ v,
  t ← de_table v;
  _ ← visit_entries rate_limit_fields t;
  enabled ← field_or (lit "enabled") de_bool yes t;
  per_source_rate_per_sec ←
    field_or (lit "per_source_rate_per_sec") (de_uint u64_max) default_per_source_rate_per_sec t;
  per_source_burst ← field_or (lit "per_source_burst") (de_uint u64_max) default_per_source_burst t;
  tracked_sources_capacity ←
    field_or (lit "tracked_sources_capacity") (de_uint u64_max) default_tracked_sources_capacity t;
  global_rate_per_sec ←
    field_or (lit "global_rate_per_sec") (de_uint u64_max) default_global_rate_per_sec t;
  global_burst ← field_or (lit "global_burst") (de_uint u64_max) default_global_burst t;
  promotion_threshold ←
    field_or (lit "promotion_threshold") (de_uint u32_max) default_promotion_threshold t;
  ipv6_prefix_len ← field_or (lit "ipv6_prefix_len") (de_uint u8_max) default_ipv6_prefix_len t;
  Ok {| enabled := enabled; per_source_rate_per_sec := per_source_rate_per_sec;
        per_source_burst := per_source_burst; tracked_sources_capacity := tracked_sources_capacity;
        global_rate_per_sec := global_rate_per_sec; global_burst := global_burst;
        promotion_threshold := promotion_threshold; ipv6_prefix_len := ipv6_prefix_len |}.

Definition de_sources : decoder (list SourceSpec) := λ v,
  l ← de_vec de_source v; map_err Custom (BoundedSources_deserialize l).

Definition stanza_fields : list (str * decoder unit) :=
  [known (lit "name") de_string; known (lit "source") de_sources; known (lit "open_ports") de_ports;
   known (lit "master_key_base64") de_key; known (lit "fw_timeout") (de_option de_duration);
   known (lit "max_fw_timeout") (de_option de_duration); known (lit "require_source_match") de_bool;
   known (lit "require_username") (de_option de_string); known (lit "enable_nat") de_bool;
   known (lit "nat_destination") (de_option de_string); known (lit "enable_cmd_exec") de_bool;
   known (lit "cmd_exec_user") (de_option de_string);
   known (lit "expiration_date") (de_option de_string)].

Definition de_stanza : decoder AccessStanza := λ v,
  t ← de_table v;
  _ ← visit_entries stanza_fields t;
  name ← field (lit "name") de_string t;
  source ← field (lit "source") de_sources t;
  open_ports ← field (lit "open_ports") de_ports t;
  key ← field (lit "master_key_base64") de_key t;
  fw_timeout ← field_or (lit "fw_timeout") (de_option de_duration) None t;
  max_fw_timeout ← field_or (lit "max_fw_timeout") (de_option de_duration) None t;
  require_source_match ← field_or (lit "require_source_match") de_bool yes t;
  require_username ← field_or (lit "require_username") (de_option de_string) None t;
  enable_nat ← field_or (lit "enable_nat") de_bool false t;
  nat_destination ← field_or (lit "nat_destination") (de_option de_string) None t;
  enable_cmd_exec ← field_or (lit "enable_cmd_exec") de_bool false t;
  cmd_exec_user ← field_or (lit "cmd_exec_user") (de_option de_string) None t;
  expiration_date ← field_or (lit "expiration_date") (de_option de_string) None t;
  Ok {| stanza_name := name; source := source; open_ports := open_ports; master_key_base64 := key;
        fw_timeout := fw_timeout; stanza_max_fw_timeout := max_fw_timeout;
        require_source_match := require_source_match; require_username := require_username;
        enable_nat := enable_nat; nat_destination := nat_destination;
        enable_cmd_exec := enable_cmd_exec; cmd_exec_user := cmd_exec_user;
        expiration_date := expiration_date |}.

Definition de_access : decoder (list AccessStanza) := λ v,
  l ← de_vec de_stanza v; map_err Custom (BoundedAccess_deserialize l).

Definition config_fields : list (str * decoder unit) :=
  [known (lit "daemon") de_daemon_section; known (lit "replay") de_replay_section;
   known (lit "rate_limit") de_rate_limit_section; known (lit "access") de_access].

Definition de_daemon_config : decoder DaemonConfig := λ v,
  t ← de_table v;
  _ ← visit_entries config_fields t;
  daemon ← field_or (lit "daemon") de_daemon_section DaemonSection_default t;
  replay ← field_or (lit "replay") de_replay_section ReplaySection_default t;
  rate_limit ← field_or (lit "rate_limit") de_rate_limit_section RateLimitSection_default t;
  access ← field_or (lit "access") de_access [] t;
  Ok {| daemon := daemon; replay := replay; rate_limit := rate_limit; access := access |}.

(** ** client.rs *)

Definition de_transport : decoder ClientTransport := λ v,
  s ← de_string v;
  if bool_decide (s = lit "udp") then Ok TransportUdp
  else if bool_decide (s = lit "tcp") then Ok TransportTcp
  else if bool_decide (s = lit "http") then Ok TransportHttp
  else Err (UnknownVariant s).

Definition defaults_fields : list (str * decoder unit) :=
  [known (lit "transport") de_transport; known (lit "resolve_ip") de_bool; known (lit "verbose") de_bool].

Definition de_defaults_section : decoder DefaultsSection := λ v,
  t ← de_table v;
  _ ← visit_entries defaults_fields t;
  transport ← field_or (lit "transport") de_transport TransportUdp t;
  resolve_ip ← field_or (lit "resolve_ip") de_bool false t;
  verbose ← field_or (lit "verbose") de_bool false t;
  Ok {| transport := transport; resolve_ip := resolve_ip; verbose := verbose |}.

Definition server_fields : list (str * decoder unit) :=
  [known (lit "name") de_string; known (lit "destination") de_string;
   known (lit "port") (de_uint u16_max); known (lit "access") de_ports;
   known (lit "master_key_base64") de_key; known (lit "fw_timeout") (de_option de_duration);
   known (lit "source_ip") de_string].

Definition de_server : decoder ServerEntry := λ v,
  t ← de_table v;
  _ ← visit_entries server_fields t;
  name ← field (lit "name") de_string t;
  destination ← field (lit "destination") de_string t;
  port ← field_or (lit "port") (de_uint u16_max) default_port t;
  access ← field (lit "access") de_ports t;
  key ← field (lit "master_key_base64") de_key t;
  fw_timeout ← field_or (lit "fw_timeout") (de_option de_duration) None t;
  source_ip ← field_or (lit "source_ip") de_string default_source_ip t;
  Ok {| server_name := name; destination := destination; server_port := port; server_access := access;
        server_master_key := key; server_fw_timeout := fw_timeout; server_source_ip := source_ip |}.

Definition client_fields : list (str * decoder unit) :=
  [known (lit "defaults") de_defaults_section; known (lit "server") (de_vec de_server)].

Definition de_client_config : decoder ClientConfig := λ v,
  t ← de_table v;
  _ ← visit_entries client_fields t;
  defaults ← field_or (lit "defaults") de_defaults_section DefaultsSection_default t;
  servers ← field_or (lit "server") (de_vec de_server) [] t;
  Ok {| defaults := defaults; servers := servers |}.

(** ** load.rs: [toml::from_str] at both types *)

Definition daemon_from_str `{T : Toml} (text : str) : result str DaemonConfig :=
  v ← toml_parse text; map_err toml_error (de_daemon_config v).
Definition client_from_str `{T : Toml} (text : str) : result str ClientConfig :=
  v ← toml_parse text; map_err toml_error (de_client_config v).
End files.

(** ** Properties *)

Section typing.
Context `{N : IpNetOps} `{B : Base64} `{U : UnicodeTables} `{H : Humantime} `{HL : !HumantimeLaws H}
  `{T : Toml}.

(** What the Rust types and the bounded lists promise. *)
Definition source_typed (s : SourceSpec) : Prop := match s with Single ip => ip_wf ip | _ => True end.
Definition opt_duration (o : option Duration) : Prop := match o with Some d => is_duration d | None => True end.
Record stanza_typed (s : AccessStanza) : Prop := {
  st_sources : len (source s) ≤ MAX_SOURCES_PER_STANZA ∧ Forall source_typed (source s);
  st_ports : len (open_ports s) ≤ MAX_PORTS_PER_STANZA ∧
             Forall (λ pp, 1 ≤ port pp ≤ u16_max) (open_ports s);
  st_key : len (master_key_base64 s) = 32;
  st_timeout : opt_duration (fw_timeout s);
  st_max_timeout : opt_duration (stanza_max_fw_timeout s);
}.
Record config_typed (c : DaemonConfig) : Prop := {
  ct_addr : ip_wf (listen_addr (daemon c));
  ct_port : is_u16 (listen_port (daemon c));
  ct_durations : Forall is_duration
    [max_spa_packet_age (daemon c); default_fw_timeout (daemon c); max_fw_timeout (daemon c);
     max_age (replay c)];
  ct_entries : is_u64 (max_entries (replay c));
  ct_rates : Forall is_u64
    [per_source_rate_per_sec (rate_limit c); per_source_burst (rate_limit c);
     tracked_sources_capacity (rate_limit c); global_rate_per_sec (rate_limit c);
     global_burst (rate_limit c)];
  ct_threshold : 0 ≤ promotion_threshold (rate_limit c) ≤ u32_max;
  ct_prefix : is_u8 (ipv6_prefix_len (rate_limit c));
  ct_stanzas : len (access c) ≤ MAX_ACCESS_STANZAS;
  ct_access : Forall stanza_typed (access c);
}.

(** A decoder all of whose values have a property. *)
Definition yields {A} (de : decoder A) (P : A → Prop) : Prop := ∀ v a, de v = Ok a → P a.

Lemma field_or_yields {A} (P : A → Prop) k (de : decoder A) d t a :
  yields de P → P d → field_or k de d t = Ok a → P a.
Proof. intros Hy Hd. unfold field_or. destruct (lookup_field k t); [apply Hy|]. by intros [= <-]. Qed.
Lemma field_yields {A} (P : A → Prop) k (de : decoder A) t a :
  yields de P → field k de t = Ok a → P a.
Proof. intros Hy. unfold field. destruct (lookup_field k t); [apply Hy|done]. Qed.

Lemma de_uint_yields max : yields (de_uint max) (λ n, 0 ≤ n ≤ max).
Proof.
  intros [] a; cbn; try done. case_match eqn:E; [|done]. intros [= <-].
  apply andb_true_iff in E as [?%Z.leb_le ?%Z.leb_le]. done.
Qed.
Lemma de_duration_yields : yields de_duration is_duration.
Proof. intros v a. unfold de_duration. intros Hd. inv_ok. by eapply humantime_range. Qed.
Lemma de_option_yields {A} (de : decoder A) (P : A → Prop) :
  yields de P → yields (de_option de) (λ o, match o with Some a => P a | None => True end).
Proof. intros Hy v o. unfold de_option. destruct (de v) eqn:E; [|done]. intros [= <-]. by eapply Hy. Qed.
Lemma de_ip_yields : yields de_ip ip_wf.
Proof.
  intros v a. unfold de_ip. intros Hd. inv_ok. by eapply parse_ip_wf.
Qed.
Lemma de_vec_yields {A} (de : decoder A) (P : A → Prop) : yields de P → yields (de_vec de) (Forall P).
Proof.
  intros Hy [| | |vs| |] a; try done. cbn [de_vec]. revert a.
  induction vs as [|v vs IH]; intros a; cbn [de_list]; intros Hd; inv_ok; subst; [constructor|].
  constructor; [by eapply Hy|auto].
Qed.

Lemma de_source_yields : yields de_source source_typed.
Proof.
  intros v a. unfold de_source, SourceSpec_deserialize, SourceSpec_from_str. intros Hd. inv_ok.
  destruct (eq_ignore_ascii_case _ _); [by injection Hd as <-|].
  destruct (net_parse _); [by injection Hd as <-|].
  destruct (parse_ip _) eqn:E; [|done]. injection Hd as <-. by eapply parse_ip_wf.
Qed.
Lemma de_sources_yields :
  yields de_sources (λ l, len l ≤ MAX_SOURCES_PER_STANZA ∧ Forall source_typed l).
Proof.
  intros v a. unfold de_sources, BoundedSources_deserialize. intros Hd. inv_ok. subst. bool_prop.
  split; [lia|]. by eapply (de_vec_yields _ _ de_source_yields).
Qed.
Lemma de_ports_yields :
  yields de_ports (λ l, len l ≤ MAX_PORTS_PER_STANZA ∧ Forall (λ pp, 1 ≤ port pp ≤ u16_max) l).
Proof.
  intros v a. unfold de_ports. intros Hd. inv_ok. apply port_list_sound in Hd as [Hl Hf].
  pose proof (Forall2_length _ _ _ Hf) as E. unfold len in *. split; [lia|].
  apply Forall_forall. intros pp [i Hi]%list_elem_of_lookup.
  by destruct (Forall2_lookup_r _ _ _ _ _ Hf Hi) as (? & _ & _ & ?).
Qed.
Lemma de_key_yields : yields de_key (λ k, len k = 32).
Proof.
  intros v a. unfold de_key, Base64Key_deserialize. intros Hd. inv_ok. subst. bool_prop. done.
Qed.

Lemma opt_duration_field k t o : field_or k (de_option de_duration) None t = Ok o → opt_duration o.
Proof. apply field_or_yields; [apply (de_option_yields _ _ de_duration_yields)|exact I]. Qed.

Lemma de_stanza_yields : yields de_stanza stanza_typed.
Proof.
  intros v a. unfold de_stanza. intros Hd. inv_ok. subst a.
  split; cbn [source open_ports master_key_base64 fw_timeout stanza_max_fw_timeout].
  - by eapply (field_yields _ _ _ _ _ de_sources_yields).
  - by eapply (field_yields _ _ _ _ _ de_ports_yields).
  - by eapply (field_yields _ _ _ _ _ de_key_yields).
  - by eapply opt_duration_field.
  - by eapply opt_duration_field.
Qed.

Lemma duration_field k d t a : is_duration d → field_or k de_duration d t = Ok a → is_duration a.
Proof. apply field_or_yields, de_duration_yields. Qed.
Lemma uint_field max k d t a : 0 ≤ d ≤ max → field_or k (de_uint max) d t = Ok a → 0 ≤ a ≤ max.
Proof. apply (field_or_yields (λ n, 0 ≤ n ≤ max)), de_uint_yields. Qed.

(** The fields of a section, each with its default in range. *)
Ltac typed_field :=
  first [eapply duration_field; [|eassumption]; by split | eapply uint_field; [|eassumption]; done].

Lemma de_daemon_section_typed v s :
  de_daemon_section v = Ok s →
  ip_wf (listen_addr s) ∧ is_u16 (listen_port s) ∧ is_duration (max_spa_packet_age s) ∧
  is_duration (default_fw_timeout s) ∧ is_duration (max_fw_timeout s).
Proof.
  unfold de_daemon_section. intros Hd. inv_ok. subst s.
  cbn [listen_addr listen_port max_spa_packet_age default_fw_timeout max_fw_timeout]. split_and!.
  - eapply field_or_yields; [apply de_ip_yields| |eassumption].
    apply (parse_ip_wf (lit "0.0.0.0")). reflexivity.
  - typed_field.
  - typed_field.
  - typed_field.
  - typed_field.
Qed.

Lemma de_replay_section_typed v s :
  de_replay_section v = Ok s → is_duration (max_age s) ∧ is_u64 (max_entries s).
Proof.
  unfold de_replay_section. intros Hd. inv_ok. subst s. cbn [max_age max_entries].
  split; typed_field.
Qed.

Lemma de_rate_limit_section_typed v r :
  de_rate_limit_section v = Ok r →
  Forall is_u64 [per_source_rate_per_sec r; per_source_burst r; tracked_sources_capacity r;
                 global_rate_per_sec r; global_burst r] ∧
  0 ≤ promotion_threshold r ≤ u32_max ∧ is_u8 (ipv6_prefix_len r).
Proof.
  unfold de_rate_limit_section. intros Hd. inv_ok. subst r.
  cbn [per_source_rate_per_sec per_source_burst tracked_sources_capacity global_rate_per_sec
       global_burst promotion_threshold ipv6_prefix_len].
  split; [|split; typed_field]. repeat (apply Forall_cons; split; [typed_field|]). constructor.
Qed.

Lemma field_or_cases {A} k (de : decoder A) d t a :
  field_or k de d t = Ok a → a = d ∨ ∃ v, de v = Ok a.
Proof. unfold field_or. destruct (lookup_field k t); [right; eauto|left; congruence]. Qed.

Lemma de_access_yields :
  yields de_access (λ l, len l ≤ MAX_ACCESS_STANZAS ∧ Forall stanza_typed l).
Proof.
  intros v a. unfold de_access, BoundedAccess_deserialize. intros Hd. inv_ok. subst. bool_prop.
  split; [lia|]. by eapply (de_vec_yields _ _ de_stanza_yields).
Qed.

(** The defaults of a section are what an empty table gives. *)
Lemma empty_sections :
  de_daemon_section (VTable []) = Ok DaemonSection_default ∧
  de_replay_section (VTable []) = Ok ReplaySection_default ∧
  de_rate_limit_section (VTable []) = Ok RateLimitSection_default.
Proof. done. Qed.

Lemma section_cases {A} k (de : decoder A) d t a :
  de (VTable []) = Ok d → field_or k de d t = Ok a → ∃ v, de v = Ok a.
Proof. intros He [->|?]%field_or_cases; eauto. Qed.

Lemma de_daemon_config_typed v c : de_daemon_config v = Ok c → config_typed c.
Proof.
  unfold de_daemon_config. intros Hd. inv_ok. subst c. destruct empty_sections as (E1 & E2 & E3).
  repeat match goal with
  | H2 : field_or _ de_daemon_section _ _ = Ok _ |- _ =>
      apply (section_cases _ _ _ _ _ E1) in H2 as [? (?&?&?&?&?)%de_daemon_section_typed]
  | H2 : field_or _ de_replay_section _ _ = Ok _ |- _ =>
      apply (section_cases _ _ _ _ _ E2) in H2 as [? (?&?)%de_replay_section_typed]
  | H2 : field_or _ de_rate_limit_section _ _ = Ok _ |- _ =>
      apply (section_cases _ _ _ _ _ E3) in H2 as [? (?&?&?)%de_rate_limit_section_typed]
  | H2 : field_or _ de_access _ _ = Ok _ |- _ =>
      apply (field_or_yields _ _ _ _ _ _ de_access_yields) in H2 as [? ?]; [|by split]
  end.
  split; cbn [daemon replay rate_limit access]; try done.
  repeat (apply Forall_cons; split; [done|]). constructor.
Qed.

(** C28: what the daemon runs on. A configuration that loads is within the
    types and limits the code relies on: the address and port are real, every
    duration and rate fits its integer, no more than 256 stanzas, each with at
    most 1024 sources and 1024 ports, no port zero, and a key of exactly 32
    bytes; and it satisfies everything validation promises. *)
Theorem loaded_file_typed read path c :
  load_daemon_config read daemon_from_str path = Ok c → config_typed c ∧ config_valid c.
Proof.
  unfold load_daemon_config, daemon_from_str. intros Hl. inv_ok. subst. split.
  - by eapply de_daemon_config_typed.
  - apply validate_iff. by match goal with u : () |- _ => destruct u end.
Qed.

(** The keys a table may have. *)
Definition only_keys (ks : list str) (t : table) : Prop := Forall (λ e, e.1 ∈ ks) t.

Lemma lookup_field_elem {A} k (t : list (str * A)) a : lookup_field k t = Some a → (k, a) ∈ t.
Proof.
  unfold lookup_field. destruct (List.find _ t) as [[k' a']|] eqn:E; [|done]. intros [= ->].
  apply List.find_some in E as [Hin Hk]. apply bool_decide_eq_true_1 in Hk. cbn in Hk. subst k'.
  by apply list_elem_of_In.
Qed.

Lemma visit_entries_keys fields t :
  visit_entries fields t = Ok () →
  only_keys (fst <$> fields) t ∧
  Forall (λ e, ∃ de, (e.1, de) ∈ fields ∧ de e.2 = Ok ()) t.
Proof.
  induction t as [|[k v] t IH]; cbn [visit_entries]; [intros _; split; constructor|].
  destruct (lookup_field k fields) as [de|] eqn:E; [|done]. intros Hd. inv_ok.
  apply lookup_field_elem in E. destruct (IH Hd) as [? ?]. destruct x. split; constructor; eauto.
  exact (list_elem_of_fmap_2 fst _ _ E).
Qed.

Definition SECTION_KEYS : list (str * list str) :=
  [(lit "daemon", fst <$> daemon_fields); (lit "replay", fst <$> replay_fields);
   (lit "rate_limit", fst <$> rate_limit_fields)].

Lemma known_ok {A} (de : decoder A) v : (known [] de).2 v = Ok () → ∃ a, de v = Ok a.
Proof. unfold known. cbn. destruct (de v); [eauto|done]. Qed.

Lemma de_list_elem {A} (de : decoder A) vs l v : de_list de vs = Ok l → v ∈ vs → ∃ a, de v = Ok a.
Proof.
  revert l. induction vs as [|v' vs IH]; intros l; cbn [de_list]; [by intros _ ?%elem_of_nil|].
  intros Hd [->|Hin]%elem_of_cons; inv_ok; eauto.
Qed.

Lemma de_daemon_section_keys t s :
  de_daemon_section (VTable t) = Ok s → only_keys (fst <$> daemon_fields) t.
Proof. unfold de_daemon_section. cbn [de_table]. intros Hd. inv_ok. subst. destruct x0. by eapply visit_entries_keys. Qed.
Lemma de_replay_section_keys t s :
  de_replay_section (VTable t) = Ok s → only_keys (fst <$> replay_fields) t.
Proof. unfold de_replay_section. cbn [de_table]. intros Hd. inv_ok. subst. destruct x0. by eapply visit_entries_keys. Qed.
Lemma de_rate_limit_section_keys t s :
  de_rate_limit_section (VTable t) = Ok s → only_keys (fst <$> rate_limit_fields) t.
Proof. unfold de_rate_limit_section. cbn [de_table]. intros Hd. inv_ok. subst. destruct x0. by eapply visit_entries_keys. Qed.
Lemma de_stanza_keys t s : de_stanza (VTable t) = Ok s → only_keys (fst <$> stanza_fields) t.
Proof. unfold de_stanza. cbn [de_table]. intros Hd. inv_ok. subst. destruct x0. by eapply visit_entries_keys. Qed.

(** C29: a misspelt setting is never silently ignored. A text that is accepted
    as a daemon configuration is one table whose keys are the four sections,
    every key of a section is a setting of that section, and every key of an
    access stanza is one of a stanza's fields; so no policy is dropped because
    its name was mistyped. *)
Theorem no_unknown_settings text c :
  daemon_from_str text = Ok c →
  ∃ t, toml_parse text = Ok (VTable t) ∧ only_keys (fst <$> config_fields) t ∧
    (∀ k ks t', (k, ks) ∈ SECTION_KEYS → (k, VTable t') ∈ t → only_keys ks t') ∧
    (∀ vs t', (lit "access", VArr vs) ∈ t → VTable t' ∈ vs → only_keys (fst <$> stanza_fields) t').
Proof.
  unfold daemon_from_str, de_daemon_config. intros Hd.
  apply result_bind_ok in Hd as (v & Hp & Hd). apply map_err_ok in Hd.
  apply result_bind_ok in Hd as (t & Ht & Hd). apply result_bind_ok in Hd as ([] & Hv & _).
  destruct v as [| | | |t0|]; try done. injection Ht as ->. exists t. split; [done|].
  apply visit_entries_keys in Hv as [Hk Hall]. split; [done|]. rewrite Forall_forall in Hall.
  split.
  - intros k ks t' Hks Hin. destruct (Hall _ Hin) as (de & Hde & Hok). cbn [fst snd] in *.
    unfold SECTION_KEYS in Hks. rewrite !elem_of_cons, elem_of_nil in Hks.
    unfold config_fields in Hde. rewrite !elem_of_cons, elem_of_nil in Hde.
    destruct Hks as [[= -> ->]|[[= -> ->]|[[= -> ->]|[]]]];
      destruct Hde as [[= He]|[[= He]|[[= He]|[[= He]|[]]]]]; subst de;
      apply (known_ok _ (VTable t')) in Hok as [s Hs].
    + by eapply de_daemon_section_keys.
    + by eapply de_replay_section_keys.
    + by eapply de_rate_limit_section_keys.
  - intros vs t' Hin Hvs. destruct (Hall _ Hin) as (de & Hde & Hok). cbn [fst snd] in *.
    unfold config_fields in Hde. rewrite !elem_of_cons, elem_of_nil in Hde.
    destruct Hde as [[= He]|[[= He]|[[= He]|[[= He]|[]]]]]; subst de.
    apply (known_ok _ (VArr vs)) in Hok as [s Hs]. unfold de_access in Hs. cbn [de_vec] in Hs. inv_ok.
    destruct (de_list_elem _ _ _ _ H0 Hvs) as [st Hst]. by eapply de_stanza_keys.
Qed.

(** A list of ports is not read back from what [Serialize] writes for it. *)
Lemma ports_not_read_back pps : pps ≠ [] → de_ports (PortProtoList_serialize pps) = Err InvalidType.
Proof. by destruct pps. Qed.
End typing.

(** ** Witnesses *)

(** Concrete stand-ins: keys written as themselves, durations as whole
    seconds, and a text that is the document whatever it says. *)
Definition verbatim_base64 : Base64 := {| b64_encode bs := bs; b64_decode s := Ok s |}.
Definition whole_seconds : Humantime := {|
  humantime_parse s :=
    match reverse s with
    | 115 :: ds => from_secs <$> map_err show_ParseIntError (parse_uint u64_max (reverse ds))
    | _ => Err (lit "time unit needed")
    end |}.
Definition constant_toml (doc : Value) : Toml := {| toml_parse _ := Ok doc; toml_error _ := [] |}.

Lemma whole_seconds_laws : HumantimeLaws whole_seconds.
Proof.
  split. intros s d. cbn. destruct (reverse s) as [|c ds]; [done|].
  destruct (decide (c = 115)) as [->|Hc]; [|by repeat case_match].
  destruct (parse_uint u64_max (reverse ds)) as [n|] eqn:E; [|done]. intros [= <-].
  apply parse_uint_bound in E; [|done]. unfold is_duration, from_secs, NANOS, u64_max in *. lia.
Qed.

Definition sample_key_text : str := replicate 32 17.
Definition stanza_doc (name : String.string) : Value :=
  VTable [(lit "name", VStr (lit name)); (lit "source", VArr [VStr (lit "any")]);
          (lit "open_ports", VArr [VStr (lit "tcp/22")]);
          (lit "master_key_base64", VStr sample_key_text)].
Arguments stanza_doc name%_string_scope.
Definition sample_doc : Value :=
  VTable [(lit "daemon", VTable [(lit "max_fw_timeout", VStr (lit "90s"))]);
          (lit "access", VArr [stanza_doc "test"])].

#[local] Existing Instance verbatim_base64.
#[local] Existing Instance whole_seconds.
#[local] Existing Instance whole_seconds_laws.

Definition sample_file_config : DaemonConfig :=
  match de_daemon_config sample_doc with
  | Ok c => c
  | Err _ => {| daemon := DaemonSection_default; replay := ReplaySection_default;
                rate_limit := RateLimitSection_default; access := [] |}
  end.

Lemma loaded_file_typed_witness :
  max_fw_timeout (daemon sample_file_config) = from_secs 90 ∧ config_typed sample_file_config.
Proof.
  split; [vm_compute; reflexivity|].
  apply (@loaded_file_typed _ _ _ _ _ (constant_toml sample_doc) (λ _, Ok []) (lit "f") sample_file_config).
  vm_compute. reflexivity.
Defined.

Lemma no_unknown_settings_witness :
  ∃ t, sample_doc = VTable t ∧ only_keys (fst <$> config_fields) t.
Proof.
  destruct (@no_unknown_settings _ _ _ _ (constant_toml sample_doc) (lit "text") sample_file_config)
    as (t & Ht & Hk & _).
  - vm_compute. reflexivity.
  - exists t. split; [|exact Hk].
    exact (f_equal (λ r, match r with Ok v => v | Err _ => VTable t end) Ht).
Defined.
