(* ===== verification/RateLimit.v ===== *)
(** * fwknox-ratelimit: the per-source rate limiter

    Models crates/fwknox-ratelimit/src/{key,bucket,stats,clock,limiter}.rs.
    The limiter's state is explicit, the mutex is its data with a poison flag,
    and [check] takes the readings of the clock it makes: one for a reset
    after poisoning and one for the packet. *)

From S2P Require Import Prelude RustStd Net Lru F64 Proto Config.

(** ** key.rs *)

Inductive Discriminator := KeyV4 | KeyV6.
Record SourceKey := { discriminator : Discriminator; key_bytes : bytes }.

#[global] Instance Discriminator_eq_dec : EqDecision Discriminator.
Proof. solve_decision. Defined.
#[global] Instance SourceKey_eq_dec : EqDecision SourceKey.
Proof. solve_decision. Defined.
#[global] Instance SourceKey_countable : Countable SourceKey.
Proof.
  apply (inj_countable'
    (λ k, (match discriminator k with KeyV4 => true | KeyV6 => false end, key_bytes k))
    (λ p, {| discriminator := if p.1 : bool then KeyV4 else KeyV6; key_bytes := p.2 |})).
  by intros [[] bs].
Defined.

Definition from_ipv4 (octets : bytes) : SourceKey :=
  {| discriminator := KeyV4; key_bytes := octets ++ replicate 12 0 |}.

(** [for b in bytes.iter_mut().skip(n) { *b = 0 }]. *)
Definition zero_from (n : nat) (bs : bytes) : bytes := take n bs ++ ((λ _, 0) <$> drop n bs).

Definition from_ipv6_masked (octets : bytes) (prefix_len : Z) : SourceKey :=
  let prefix_len := Z.min (Z.max prefix_len 1) 128 in
  let full_bytes := prefix_len / 8 in
  let remaining_bits := prefix_len mod 8 in
  let i := Z.to_nat full_bytes in
  let bs :=
    if full_bytes <? 16 then
      if remaining_bits >? 0 then
        let mask := Z.land (Z.shiftl 0xFF (8 - remaining_bits)) 0xFF in
        zero_from (S i) (alter (λ b, Z.land b mask) i octets)
      else zero_from i octets
    else octets in
  {| discriminator := KeyV6; key_bytes := bs |}.

Definition from_ip (ip : IpAddr) (ipv6_prefix_len : Z) : SourceKey :=
  match ip with
  | V4 o => from_ipv4 o
  | V6 o => from_ipv6_masked o ipv6_prefix_len
  end.

(** ** bucket.rs *)

Inductive BucketDecision := BucketPass | BucketDrop.

Record TokenBucket := {
  capacity : f64;
  rate_per_sec : f64;
  tokens : f64;
  last_refill : Instant;
  last_warn_log : option Instant;
}.

Definition TokenBucket_new (rate cap : Z) (now : Instant) : TokenBucket := {|
  capacity := f64_of_u64 cap;
  rate_per_sec := f64_of_u64 rate;
  tokens := f64_of_u64 cap;
  last_refill := now;
  last_warn_log := None;
|}.

Definition refill (b : TokenBucket) (now : Instant) : TokenBucket :=
  match checked_duration_since now (last_refill b) with
  | Some elapsed =>
      let added := f64_mul (as_secs_f64 elapsed) (rate_per_sec b) in
      {| capacity := capacity b; rate_per_sec := rate_per_sec b;
         tokens := f64_min (f64_add (tokens b) added) (capacity b);
         last_refill := now; last_warn_log := last_warn_log b |}
  | None => b
  end.

Definition consume (b : TokenBucket) (now : Instant) : TokenBucket * BucketDecision :=
  let b := refill b now in
  if f64_ge (tokens b) (f64_of_u64 1) then
    ({| capacity := capacity b; rate_per_sec := rate_per_sec b;
        tokens := f64_sub (tokens b) (f64_of_u64 1);
        last_refill := last_refill b; last_warn_log := last_warn_log b |}, BucketPass)
  else (b, BucketDrop).

(** ** stats.rs *)

Record Stats := {
  allowed : Z;
  dropped_per_source : Z;
  dropped_global : Z;
  promotions : Z;
  evictions : Z;
}.
Definition Stats_default : Stats :=
  {| allowed := 0; dropped_per_source := 0; dropped_global := 0; promotions := 0; evictions := 0 |}.

(** [fetch_add(1)] wraps. *)
Definition incr_allowed (s : Stats) : Stats :=
  {| allowed := wrap_u64 (allowed s + 1); dropped_per_source := dropped_per_source s;
     dropped_global := dropped_global s; promotions := promotions s; evictions := evictions s |}.
Definition incr_dropped_per_source (s : Stats) : Stats :=
  {| allowed := allowed s; dropped_per_source := wrap_u64 (dropped_per_source s + 1);
     dropped_global := dropped_global s; promotions := promotions s; evictions := evictions s |}.
Definition incr_dropped_global (s : Stats) : Stats :=
  {| allowed := allowed s; dropped_per_source := dropped_per_source s;
     dropped_global := wrap_u64 (dropped_global s + 1); promotions := promotions s;
     evictions := evictions s |}.
Definition incr_promotions (s : Stats) : Stats :=
  {| allowed := allowed s; dropped_per_source := dropped_per_source s;
     dropped_global := dropped_global s; promotions := wrap_u64 (promotions s + 1);
     evictions := evictions s |}.
Definition incr_evictions (s : Stats) : Stats :=
  {| allowed := allowed s; dropped_per_source := dropped_per_source s;
     dropped_global := dropped_global s; promotions := promotions s;
     evictions := wrap_u64 (evictions s + 1) |}.

(** Each counter is loaded on its own; between calls of one thread nothing
    changes them. *)
Record StatsSnapshot := {
  snap_allowed : Z;
  snap_dropped_per_source : Z;
  snap_dropped_global : Z;
  snap_promotions : Z;
  snap_evictions : Z;
}.
Definition snapshot (s : Stats) : StatsSnapshot :=
  {| snap_allowed := allowed s; snap_dropped_per_source := dropped_per_source s;
     snap_dropped_global := dropped_global s; snap_promotions := promotions s;
     snap_evictions := evictions s |}.

(** ** clock.rs *)

(** [None] is the panic of a poisoned lock. *)
Class Clock (C : Type) := { clock_now : C → option Instant }.

(** [SystemClock] has no state; the record is what the operating system
    answers when it is asked. *)
Record SystemClock := { os_now : Instant }.
#[global] Instance SystemClock_clock : Clock SystemClock := {| clock_now c := Some (os_now c) |}.

Record MockClock := { clock_poisoned : bool; current : Instant }.
Definition MockClock_new (anchor : Instant) : MockClock :=
  {| clock_poisoned := false; current := anchor |}.
(** The last instant the platform represents, in nanoseconds from its origin. *)
Definition INSTANT_MAX : Instant := from_secs (2 ^ 63) - 1.
(** [+=] panics on overflow, with the lock held; [false] is a panic. *)
Definition advance (c : MockClock) (delta : Duration) : MockClock * bool :=
  if clock_poisoned c then (c, false)
  else if current c + delta >? INSTANT_MAX then ({| clock_poisoned := true; current := current c |}, false)
  else ({| clock_poisoned := false; current := current c + delta |}, true).
#[global] Instance MockClock_clock : Clock MockClock :=
  {| clock_now c := if clock_poisoned c then None else Some (current c) |}.

(** A mock clock never goes back, and shows the sum of its advances until
    one of them overflows; from then on every use of it panics. *)
Lemma advance_now c delta c' :
  0 ≤ delta → advance c delta = (c', true) → clock_now c' = (λ t, t + delta) <$> clock_now c.
Proof.
  intros Hd. unfold advance. cbn [clock_now MockClock_clock].
  destruct (clock_poisoned c); [done|]. case_match; [done|]. by intros [= <-].
Qed.
Lemma advance_panics c delta c' : advance c delta = (c', false) → clock_now c' = None.
Proof.
  unfold advance. cbn [clock_now MockClock_clock]. destruct (clock_poisoned c) eqn:E.
  - intros [= <-]. by rewrite E.
  - case_match; [|done]. by intros [= <-].
Qed.

(** ** limiter.rs *)

Definition CANDIDATE_TTL : Duration := from_secs 60.
Definition WARN_WINDOW : Duration := from_secs 1.

Inductive DropReason := PerSourceExhausted | GlobalExhausted.
Inductive Decision := Pass | Drop (reason : DropReason).

(** The level of a log record. *)
Inductive Level := LError | LWarn | LInfo | LDebug.

Definition should_warn_log (last : option Instant) (now : Instant) : option Instant * bool :=
  match last with
  | Some prev =>
      if duration_since now prev <? WARN_WINDOW then (last, false) else (Some now, true)
  | None => (Some now, true)
  end.

Section limiter.
Context `{L : LruCache SourceKey TokenBucket}.

Record Inner := {
  tracked : lru SourceKey TokenBucket;
  candidates : gmap SourceKey (Z * Instant);
  max_candidates : Z;
  global : TokenBucket;
  last_global_drop_warn : option Instant;
}.

Record Mutex := { poisoned : bool; guarded : Inner }.

Record RateLimiter := {
  rl_config : RateLimitSection;
  rl_inner : option Mutex;
  rl_stats : Stats;
}.

Definition set_tracked (i : Inner) (t : lru SourceKey TokenBucket) : Inner :=
  {| tracked := t; candidates := candidates i; max_candidates := max_candidates i;
     global := global i; last_global_drop_warn := last_global_drop_warn i |}.
Definition set_candidates (i : Inner) (c : gmap SourceKey (Z * Instant)) : Inner :=
  {| tracked := tracked i; candidates := c; max_candidates := max_candidates i;
     global := global i; last_global_drop_warn := last_global_drop_warn i |}.
Definition set_global (i : Inner) (b : TokenBucket) (warn : option Instant) : Inner :=
  {| tracked := tracked i; candidates := candidates i; max_candidates := max_candidates i;
     global := b; last_global_drop_warn := warn |}.

Definition candidates_len (i : Inner) : Z := Z.of_nat (size (candidates i)).

Definition sweep_expired_candidates (i : Inner) (now : Instant) : Inner :=
  set_candidates i (filter (λ e, duration_since now e.2.2 < CANDIDATE_TTL) (candidates i)).

Definition reset (i : Inner) (config : RateLimitSection) (now : Instant) : Inner :=
  {| tracked := lru_clear (tracked i); candidates := ∅; max_candidates := max_candidates i;
     global := TokenBucket_new (global_rate_per_sec config) (global_burst config) now;
     last_global_drop_warn := None |}.

(** [None] is the panic of [expect] on a zero capacity, or that of the
    allocation of a table that does not fit. *)
Definition with_clock `{HA : HashAlloc} (config : RateLimitSection) (now : Instant) : option RateLimiter :=
  if negb (enabled config) then
    Some {| rl_config := config; rl_inner := None; rl_stats := Stats_default |}
  else if tracked_sources_capacity config =? 0 then None
  else if negb (table_fits TrackedTable (tracked_sources_capacity config)) then None
  else if negb (table_fits CandidateTable (tracked_sources_capacity config)) then None
  else
    Some {| rl_config := config;
            rl_inner := Some {| poisoned := false; guarded := {|
              tracked := lru_new (tracked_sources_capacity config);
              candidates := ∅;
              max_candidates := tracked_sources_capacity config;
              global := TokenBucket_new (global_rate_per_sec config) (global_burst config) now;
              last_global_drop_warn := None |} |};
            rl_stats := Stats_default |}.

(** The production limiter is anchored at the system clock. *)
Definition from_config `{HA : HashAlloc} (config : RateLimitSection) (clock : SystemClock) : option RateLimiter :=
  now ← clock_now clock; with_clock config now.

Definition stats (rl : RateLimiter) : StatsSnapshot := snapshot (rl_stats rl).

(** The state the guard gives access to, and the records logged. *)
Definition lock_recovering (config : RateLimitSection) (m : Mutex) (reset_now : Instant)
  : Inner * list Level :=
  if poisoned m then (reset (guarded m) config reset_now, [LError]) else (guarded m, []).

(** Bumping the candidate counter: [None] is the early return for a new
    source while the map is full of live candidates. *)
Definition bump_candidate (i : Inner) (key : SourceKey) (now : Instant) : Inner * option Z :=
  match candidates i !! key with
  | Some (count, _) =>
      let count := sat_add_u32 count 1 in
      (set_candidates i (<[key := (count, now)]> (candidates i)), Some count)
  | None =>
      let i := if candidates_len i >=? max_candidates i then sweep_expired_candidates i now
               else i in
      if candidates_len i >=? max_candidates i then (i, None)
      else (set_candidates i (<[key := (1, now)]> (candidates i)), Some 1)
  end.

(** Promotion of a source into the tracked map. *)
Definition promote (config : RateLimitSection) (i : Inner) (stats : Stats) (key : SourceKey)
    (now : Instant) : Inner * Stats :=
  let bucket :=
    TokenBucket_new (per_source_rate_per_sec config) (per_source_burst config) now in
  let i := set_candidates i (delete key (candidates i)) in
  let '(out, t) := lru_push (tracked i) key bucket in
  let stats := match out with
               | Some (evicted_key, _) =>
                   if negb (bool_decide (evicted_key = key)) then incr_evictions stats else stats
               | None => stats
               end in
  (set_tracked i t, incr_promotions stats).

(** The body of [check] once the lock is held. *)
Definition check_inner (config : RateLimitSection) (i : Inner) (stats : Stats)
    (key : SourceKey) (now : Instant) : Inner * Stats * Decision * list Level :=
  match lru_get_mut (tracked i) key with
  | Some (bucket, write_back) =>
      let '(bucket, decision) := consume bucket now in
      match decision with
      | BucketPass => (set_tracked i (write_back bucket), incr_allowed stats, Pass, [])
      | BucketDrop =>
          let '(last, warn) := should_warn_log (last_warn_log bucket) now in
          let bucket := {| capacity := capacity bucket; rate_per_sec := rate_per_sec bucket;
                           tokens := tokens bucket; last_refill := last_refill bucket;
                           last_warn_log := last |} in
          (set_tracked i (write_back bucket), incr_dropped_per_source stats,
           Drop PerSourceExhausted, [if warn then LWarn else LDebug])
      end
  | None =>
      let '(g, decision) := consume (global i) now in
      match decision with
      | BucketDrop =>
          let '(last, warn) := should_warn_log (last_global_drop_warn i) now in
          (set_global i g last, incr_dropped_global stats,
           Drop GlobalExhausted, [if warn then LWarn else LDebug])
      | BucketPass =>
          let i := set_global i g (last_global_drop_warn i) in
          match bump_candidate i key now with
          | (i, None) => (i, incr_allowed stats, Pass, [])
          | (i, Some new_count) =>
              let '(i, stats) :=
                if new_count >=? promotion_threshold config then promote config i stats key now
                else (i, stats) in
              (i, incr_allowed stats, Pass, [])
          end
      end
  end.

Definition check (rl : RateLimiter) (src_ip : IpAddr) (reset_now now : Instant)
  : RateLimiter * Decision * list Level :=
  match rl_inner rl with
  | None =>
      ({| rl_config := rl_config rl; rl_inner := None; rl_stats := incr_allowed (rl_stats rl) |},
       Pass, [])
  | Some mutex =>
      let key := from_ip src_ip (ipv6_prefix_len (rl_config rl)) in
      let '(inner, log) := lock_recovering (rl_config rl) mutex reset_now in
      let '(inner, stats, decision, log') :=
        check_inner (rl_config rl) inner (rl_stats rl) key now in
      ({| rl_config := rl_config rl;
          rl_inner := Some {| poisoned := false; guarded := inner |};
          rl_stats := stats |}, decision, log ++ log')
  end.

(** A thread that panics while it holds the lock leaves any contents behind
    and the mutex poisoned. *)
Definition panic_holding (rl : RateLimiter) (torn : Inner) : RateLimiter :=
  {| rl_config := rl_config rl;
     rl_inner := (λ _, {| poisoned := true; guarded := torn |}) <$> rl_inner rl;
     rl_stats := rl_stats rl |}.

(** A sequence of packets, each with its source and the clock readings. *)
Definition packet_arrival : Type := IpAddr * Instant * Instant.
Definition check_all (rl : RateLimiter) (ps : list packet_arrival) : RateLimiter :=
  foldl (λ rl p, (check rl p.1.1 p.1.2 p.2).1.1) rl ps.
End limiter.
Arguments Inner {_}.
Arguments Mutex {_}.
Arguments RateLimiter {_}.

(** ** Source keys *)

Section keys.
Implicit Types (o : bytes) (p i : Z).

Definition octet o (j : nat) : Z := default 0 (o !! j).

(** Bit [i] of an address, counted from the most significant one. *)
Definition addr_bit o i : bool := Z.testbit (octet o (Z.to_nat (i / 8))) (7 - i mod 8).

Lemma octet_zero_from n o j : octet (zero_from n o) j = if decide (j < n)%nat then octet o j else 0.
Proof.
  unfold octet, zero_from. case_decide as Hj.
  - destruct (decide (j < length o)%nat) as [Hl|Hl].
    + rewrite lookup_app_l by (rewrite length_take; lia). by rewrite lookup_take_lt by lia.
    + rewrite !lookup_ge_None_2; [done|lia|].
      rewrite length_app, length_fmap, length_take, length_drop. lia.
  - destruct (decide (n ≤ length o)%nat) as [Hl|Hl].
    + rewrite lookup_app_r by (rewrite length_take; lia). rewrite list_lookup_fmap.
      by destruct (drop n o !! _).
    + rewrite lookup_ge_None_2; [done|].
      rewrite length_app, length_fmap, length_take, length_drop. lia.
Qed.

Lemma octet_alter f n o j :
  f 0 = 0 → octet (alter f n o) j = if decide (j = n) then f (octet o j) else octet o j.
Proof.
  intros Hf. unfold octet. case_decide as Hj.
  - subst. rewrite list_lookup_alter_eq. by destruct (o !! n).
  - by rewrite list_lookup_alter_ne by done.
Qed.

(** The mask keeps the [r] high bits of a byte. *)
Lemma mask_bit b r k :
  0 < r < 8 → 0 ≤ k < 8 →
  Z.testbit (Z.land b (Z.land (Z.shiftl 0xFF (8 - r)) 0xFF)) k = (8 - r <=? k) && Z.testbit b k.
Proof.
  intros Hr Hk. rewrite !Z.land_spec, Z.shiftl_spec by lia. change 0xFF with (Z.ones 8).
  rewrite (Z.ones_spec_low 8 k) by lia. rewrite andb_true_r, andb_comm. f_equal.
  destruct (Z.leb_spec (8 - r) k).
  - by rewrite Z.ones_spec_low by lia.
  - by rewrite Z.testbit_neg_r by lia.
Qed.

Lemma masked_bit o p i :
  1 ≤ p ≤ 128 → 0 ≤ i < 128 →
  addr_bit (key_bytes (from_ipv6_masked o p)) i = (i <? p) && addr_bit o i.
Proof.
  intros Hp Hi. unfold addr_bit, from_ipv6_masked; cbn [key_bytes].
  replace (Z.min (Z.max p 1) 128) with p by lia.
  pose proof (Z.mod_pos_bound p 8 ltac:(lia)). pose proof (Z.mod_pos_bound i 8 ltac:(lia)).
  pose proof (Z.div_mod p 8 ltac:(lia)). pose proof (Z.div_mod i 8 ltac:(lia)).
  assert (0 ≤ i / 8 ∧ 0 ≤ p / 8) as [? ?] by (split; apply Z.div_pos; lia).
  destruct (Z.ltb_spec (p / 8) 16).
  - destruct (Z.gtb_spec (p mod 8) 0).
    + rewrite octet_zero_from, octet_alter by apply Z.land_0_l.
      repeat case_decide; [rewrite mask_bit by lia; f_equal| |].
      * destruct (Z.leb_spec (8 - p mod 8) (7 - i mod 8)), (Z.ltb_spec i p); lia || done.
      * by rewrite (proj2 (Z.ltb_lt i p)) by lia.
      * rewrite Z.bits_0. by rewrite (proj2 (Z.ltb_ge i p)) by lia.
    + rewrite octet_zero_from. case_decide.
      * by rewrite (proj2 (Z.ltb_lt i p)) by lia.
      * rewrite Z.bits_0. by rewrite (proj2 (Z.ltb_ge i p)) by lia.
  - by rewrite (proj2 (Z.ltb_lt i p)) by lia.
Qed.

Lemma byte_ext a b :
  is_u8 a → is_u8 b → (∀ k, 0 ≤ k < 8 → Z.testbit a k = Z.testbit b k) → a = b.
Proof.
  intros Ha Hb Hk. apply Z.bits_inj'. intros k Hk0. destruct (decide (k < 8)) as [|Hge]; [auto|].
  unfold is_u8, u8_max in *.
  assert (∀ x, 0 ≤ x ≤ 255 → Z.testbit x k = false) as Hhi; [|by rewrite !Hhi].
  intros x Hx. destruct (decide (x = 0)) as [->|]; [apply Z.bits_0|].
  apply Z.bits_above_log2; [lia|]. apply Z.log2_lt_pow2; [lia|].
  pose proof (Z.pow_le_mono_r 2 8 k ltac:(lia) ltac:(lia)). lia.
Qed.

Lemma bits_ext a b :
  length a = 16%nat → length b = 16%nat → is_bytes a → is_bytes b →
  (∀ i, 0 ≤ i < 128 → addr_bit a i = addr_bit b i) → a = b.
Proof.
  intros La Lb Ha Hb Hbits. apply (list_eq_same_length _ _ 16); [done|done|].
  intros j x y Hj Hx Hy.
  apply byte_ext; [by eapply Forall_lookup_1 in Hx|by eapply Forall_lookup_1 in Hy|].
  intros k Hk. specialize (Hbits (Z.of_nat j * 8 + (7 - k)) ltac:(lia)).
  unfold addr_bit, octet in Hbits.
  replace ((Z.of_nat j * 8 + (7 - k)) / 8) with (Z.of_nat j) in Hbits
    by (apply (Z.div_unique _ _ _ (7 - k)); lia).
  replace ((Z.of_nat j * 8 + (7 - k)) mod 8) with (7 - k) in Hbits
    by (apply (Z.mod_unique _ _ (Z.of_nat j)); lia).
  rewrite Nat2Z.id, Hx, Hy in Hbits. simpl in Hbits. by replace (7 - (7 - k)) with k in Hbits by lia.
Qed.

Lemma zero_from_bytes n o : is_bytes o → is_bytes (zero_from n o) ∧ length (zero_from n o) = length o.
Proof.
  intros Ho. split.
  - apply Forall_app; split; [by apply Forall_take|]. apply Forall_fmap, Forall_true.
    intros; vm_compute; split; discriminate.
  - unfold zero_from. rewrite length_app, length_fmap, length_take, length_drop. lia.
Qed.

Lemma masked_bytes o p :
  is_bytes o → is_bytes (key_bytes (from_ipv6_masked o p)) ∧
  length (key_bytes (from_ipv6_masked o p)) = length o.
Proof.
  intros Ho. unfold from_ipv6_masked; cbn [key_bytes].
  set (y := Z.shiftl _ _). set (i := Z.to_nat _).
  assert (is_bytes (alter (λ b, Z.land b (Z.land y 0xFF)) i o)) as Ha.
  { apply Forall_alter; [done|]. intros x Hx Hu. rewrite Z.land_assoc.
    change 0xFF with (Z.ones 8). rewrite Z.land_ones by lia.
    pose proof (Z.mod_pos_bound (Z.land x y) (2 ^ 8) ltac:(lia)). unfold is_u8, u8_max. lia. }
  repeat case_match; [|by apply zero_from_bytes|done].
  destruct (zero_from_bytes (S i) _ Ha) as [? ->]. by rewrite length_alter.
Qed.

(** Two sources share a rate-limit key exactly when they are the same
    IPv4 address, or IPv6 addresses that agree on the first [prefix_len]
    bits. *)
Theorem source_key_eq_iff ip1 ip2 p :
  ip_wf ip1 → ip_wf ip2 → 1 ≤ p ≤ 128 →
  from_ip ip1 p = from_ip ip2 p ↔
  match ip1, ip2 with
  | V4 a, V4 b => a = b
  | V6 a, V6 b => ∀ i, 0 ≤ i < p → addr_bit a i = addr_bit b i
  | _, _ => False
  end.
Proof.
  intros H1 H2 Hp. destruct ip1 as [a|a], ip2 as [b|b]; cbn [from_ip].
  - unfold from_ipv4. split; [|by intros ->]. intros [= E]. by apply app_inj_2 in E as [? _].
  - done.
  - done.
  - destruct H1 as [La Ha], H2 as [Lb Hb]. split.
    + intros E i Hi. pose proof (masked_bit a p i Hp ltac:(lia)) as Ea.
      pose proof (masked_bit b p i Hp ltac:(lia)) as Eb. rewrite E in Ea.
      rewrite (proj2 (Z.ltb_lt i p)) in Ea, Eb by lia. simpl in *. congruence.
    + intros Hbits. destruct (masked_bytes a p Ha) as [? ?], (masked_bytes b p Hb) as [? ?].
      assert (key_bytes (from_ipv6_masked a p) = key_bytes (from_ipv6_masked b p)) as E.
      { apply bits_ext; [congruence|congruence|done|done|]. intros i Hi.
        rewrite !masked_bit by done. destruct (Z.ltb_spec i p); [|done]. simpl. apply Hbits. lia. }
      unfold from_ipv6_masked in *; cbn [key_bytes] in E. by rewrite E.
Qed.
End keys.

(** ** Buckets *)

Section buckets.
Implicit Types (b : TokenBucket) (now : Instant).

(** A bucket whose numbers are integers below 2^53. *)
Definition int_bucket (rate cap z : Z) (t : Instant) b : Prop :=
  capacity b = f64_of_u64 cap ∧ rate_per_sec b = f64_of_u64 rate ∧
  tokens b = f64_of_u64 z ∧ last_refill b = t.

Lemma refill_same_instant rate cap z now b :
  0 ≤ rate < 2 ^ 53 → 0 ≤ z ≤ cap → cap < 2 ^ 53 → int_bucket rate cap z now b →
  int_bucket rate cap z now (refill b now).
Proof.
  intros Hr Hz Hc (Hcap & Hrate & Htok & Hlast). unfold refill.
  rewrite Hlast. unfold checked_duration_since. rewrite Z.ltb_irrefl, Z.sub_diag.
  split_and!; cbn [capacity rate_per_sec tokens last_refill]; try done. rewrite Hcap, Hrate, Htok.
  change (as_secs_f64 0) with (S754_zero false).
  assert (f64_mul (S754_zero false) (f64_of_u64 rate) = S754_zero false) as ->.
  { destruct rate as [|r|]; [done| |lia]. by rewrite f64_of_pos by (apply digits_small; lia). }
  assert (f64_add (f64_of_u64 z) (S754_zero false) = f64_of_u64 z) as ->.
  { destruct z as [|r|]; [done| |lia]. by rewrite f64_of_pos by (apply digits_small; lia). }
  by apply f64_min_int.
Qed.

Lemma consume_same_instant rate cap z now b :
  0 ≤ rate < 2 ^ 53 → 0 ≤ z ≤ cap → cap < 2 ^ 53 → int_bucket rate cap z now b →
  if z =? 0 then (consume b now).2 = BucketDrop ∧ int_bucket rate cap z now (consume b now).1
  else (consume b now).2 = BucketPass ∧ int_bucket rate cap (z - 1) now (consume b now).1.
Proof.
  intros Hr Hz Hc Hb. pose proof (refill_same_instant _ _ _ _ _ Hr Hz Hc Hb) as (Hcap & Hrate & Htok & Hl).
  unfold consume. cbv zeta. rewrite Htok, f64_ge_int by lia.
  destruct (Z.eqb_spec z 0).
  - rewrite (proj2 (Z.leb_gt _ _)) by lia. done.
  - rewrite (proj2 (Z.leb_le _ _)) by lia. rewrite f64_pred by lia. done.
Qed.

(** The decisions on [n] packets at one instant. *)
Fixpoint burst (n : nat) b now : list BucketDecision :=
  match n with
  | O => []
  | S n => (consume b now).2 :: burst n (consume b now).1 now
  end.

Lemma burst_int rate cap z now b n :
  0 ≤ rate < 2 ^ 53 → 0 ≤ z ≤ cap → cap < 2 ^ 53 → int_bucket rate cap z now b →
  burst n b now =
    replicate (n `min` Z.to_nat z) BucketPass ++ replicate (n - Z.to_nat z) BucketDrop.
Proof.
  intros Hr. revert z b. induction n as [|n IH]; intros z b Hz Hc Hb; [done|].
  cbn [burst]. pose proof (consume_same_instant rate cap z now b Hr Hz Hc Hb) as Hs.
  destruct (Z.eqb_spec z 0) as [->|Hne].
  - destruct Hs as [-> Hb']. rewrite (IH 0 _ Hz Hc Hb'). change (Z.to_nat 0) with 0%nat.
    rewrite !Nat.min_0_r, !Nat.sub_0_r. done.
  - destruct Hs as [-> Hb']. rewrite (IH (z - 1) _ ltac:(lia) Hc Hb').
    replace (Z.to_nat z) with (S (Z.to_nat (z - 1))) by lia. done.
Qed.

(** In binary64 arithmetic, a new bucket of capacity [cap] below 2^53
    passes exactly the first [cap] packets of a burst at one instant and
    drops the others. *)
Theorem bucket_burst rate cap now n :
  0 ≤ rate < 2 ^ 53 → 0 ≤ cap < 2 ^ 53 →
  burst n (TokenBucket_new rate cap now) now =
    replicate (n `min` Z.to_nat cap) BucketPass ++ replicate (n - Z.to_nat cap) BucketDrop.
Proof. intros Hr Hc. apply (burst_int rate cap); [done|lia|lia|done]. Qed.

(** Whatever the elapsed time and the rate, a refill leaves at most the
    capacity in the bucket, and a clock that went backwards changes
    nothing. *)
Theorem refill_capped b now :
  capacity b ≠ S754_nan →
  (now < last_refill b → refill b now = b) ∧
  (last_refill b ≤ now → f64_ge (capacity b) (tokens (refill b now)) = true ∧
     last_refill (refill b now) = now).
Proof.
  intros Hn. unfold refill, checked_duration_since. split.
  - intros Hlt. by rewrite (proj2 (Z.ltb_lt _ _)).
  - intros Hle. rewrite (proj2 (Z.ltb_ge _ _)) by done. split; [|done]. cbn [tokens].
    apply f64_min_le. done.
Qed.
End buckets.

(** ** The limiter *)

Section limiter_lemmas.
Context `{L : LruCache SourceKey TokenBucket} `{LL : !LruLaws SourceKey TokenBucket L}.
Implicit Types (i : Inner) (st : Stats) (key : SourceKey) (now : Instant) (rl : RateLimiter).

Abbreviation tracked_list i := (lru_iter (tracked i)) (only parsing).

(** What [check_inner] does for a tracked source, for a source the global
    bucket drops, and for one it passes. *)
Lemma check_inner_tracked cfg i st key now b :
  assoc_get key (tracked_list i) = Some b →
  ∃ t b' d st' log, check_inner cfg i st key now = (set_tracked i t, st', d, log) ∧
    lru_iter t = (key, b') :: assoc_remove key (tracked_list i) ∧
    lru_cap t = lru_cap (tracked i) ∧
    ((d = Pass ∧ (consume b now).2 = BucketPass ∧ st' = incr_allowed st) ∨
     (d = Drop PerSourceExhausted ∧ (consume b now).2 = BucketDrop ∧
      st' = incr_dropped_per_source st)).
Proof.
  intros Hb. unfold check_inner. pose proof (lru_get_mut_spec (tracked i) key) as Hg.
  destruct (lru_get_mut (tracked i) key) as [[b0 wb]|].
  - destruct Hg as [Hb0 Hwb]. rewrite Hb in Hb0. injection Hb0 as <-.
    destruct (consume b now) as [b1 [|]]; [|destruct (should_warn_log _ _) as [last warn]];
      do 5 eexists; (split; [reflexivity|]); split_and!; try apply Hwb; naive_solver.
  - apply assoc_get_None in Hg. congruence.
Qed.

Lemma check_inner_untracked cfg i st key now :
  key ∉ (tracked_list i).*1 →
  check_inner cfg i st key now =
    let '(g, decision) := consume (global i) now in
    match decision with
    | BucketDrop =>
        let '(last, warn) := should_warn_log (last_global_drop_warn i) now in
        (set_global i g last, incr_dropped_global st,
         Drop GlobalExhausted, [if warn then LWarn else LDebug])
    | BucketPass =>
        let i := set_global i g (last_global_drop_warn i) in
        match bump_candidate i key now with
        | (i, None) => (i, incr_allowed st, Pass, [])
        | (i, Some new_count) =>
            let '(i, st) :=
              if new_count >=? promotion_threshold cfg then promote cfg i st key now
              else (i, st) in
            (i, incr_allowed st, Pass, [])
        end
    end.
Proof.
  intros Hk. unfold check_inner. pose proof (lru_get_mut_spec (tracked i) key) as Hg.
  destruct (lru_get_mut (tracked i) key) as [[b0 wb]|]; [|done].
  destruct Hg as [Hg _]. apply assoc_get_None in Hk. congruence.
Qed.

(** What stays and what changes in the candidate map. *)
Lemma bump_candidate_cases i key now :
  match bump_candidate i key now with
  | (i', r) =>
      tracked i' = tracked i ∧ max_candidates i' = max_candidates i ∧ global i' = global i ∧
      match r with
      | None => candidates i !! key = None ∧ max_candidates i ≤ candidates_len i' ∧
                candidates i' = candidates (sweep_expired_candidates i now) ∧
                max_candidates i ≤ candidates_len i
      | Some n =>
          candidates i' !! key = Some (n, now) ∧
          ((∃ c t, candidates i !! key = Some (c, t) ∧ n = sat_add_u32 c 1 ∧
                   candidates i' = <[key := (n, now)]> (candidates i)) ∨
           (candidates i !! key = None ∧ n = 1 ∧ ∃ m, candidates i' = <[key := (1, now)]> m ∧
             Z.of_nat (size m) < max_candidates i ∧
             ((m = candidates i) ∨
              (m = candidates (sweep_expired_candidates i now) ∧
               max_candidates i ≤ candidates_len i))))
      end
  end.
Proof.
  unfold bump_candidate. destruct (candidates i !! key) as [[c t]|] eqn:Hk.
  - cbn. rewrite lookup_insert_eq. split_and!; try done. left. eauto 6.
  - cbv zeta. destruct (Z.geb_spec (candidates_len i) (max_candidates i)) as [Hfull|Hroom].
    + destruct (Z.geb_spec (candidates_len (sweep_expired_candidates i now))
                  (max_candidates (sweep_expired_candidates i now))) as [Hf2|Hr2]; cbn in *.
      * split_and!; done.
      * rewrite lookup_insert_eq. split_and!; try done. right. split_and!; try done.
        eexists. split; [done|]. unfold candidates_len in Hr2; cbn in Hr2. eauto.
    + destruct (Z.geb_spec (candidates_len i) (max_candidates i)); [lia|]. cbn.
      rewrite lookup_insert_eq. split_and!; try done. right. split_and!; try done.
      eexists. split; [done|]. unfold candidates_len in Hroom. eauto.
Qed.

Lemma promote_cases cfg i st key now :
  key ∉ (tracked_list i).*1 →
  ∃ t, (promote cfg i st key now).1 =
         set_tracked (set_candidates i (delete key (candidates i))) t ∧
    lru_iter t =
      lru_insert (lru_cap (tracked i)) key
        (TokenBucket_new (per_source_rate_per_sec cfg) (per_source_burst cfg) now)
        (tracked_list i) ∧
    lru_cap t = lru_cap (tracked i) ∧
    (promote cfg i st key now).2 =
      incr_promotions (if len (tracked_list i) <? lru_cap (tracked i) then st
                       else incr_evictions st).
Proof.
  intros Hk. unfold promote. cbn [set_candidates tracked].
  match goal with |- context [lru_push ?a ?b ?c] =>
    destruct (lru_push_spec a b c) as (Hi & Hc & Ho); destruct (lru_push a b c) as [out t] eqn:E end.
  cbn [fst snd] in *. exists t. split_and!; [done|done|done|]. subst out.
  unfold lru_pushed_out. rewrite (proj2 (assoc_get_None _ _) Hk).
  destruct (Z.ltb_spec (len (tracked_list i)) (lru_cap (tracked i))) as [|Hfull]; [done|].
  destruct (last (tracked_list i)) as [[k b]|] eqn:El.
  - rewrite bool_decide_eq_false_2; [done|]. intros ->. apply Hk, elem_of_keys. exists b.
    apply last_Some in El as [l ->]. set_solver.
  - apply last_None in El. rewrite El, len_nil in Hfull. pose proof (lru_cap_pos (tracked i)). lia.
Qed.

(** *** The invariant *)

Definition inner_inv (cfg : RateLimitSection) i : Prop :=
  candidates_len i ≤ max_candidates i ∧
  max_candidates i = tracked_sources_capacity cfg ∧
  lru_cap (tracked i) = tracked_sources_capacity cfg ∧
  (∀ k c t, candidates i !! k = Some (c, t) → 1 ≤ c < promotion_threshold cfg) ∧
  (∀ k, k ∈ (tracked_list i).*1 → candidates i !! k = None).

Definition limiter_inv rl : Prop :=
  match rl_inner rl with
  | None => enabled (rl_config rl) = false
  | Some m =>
      enabled (rl_config rl) = true ∧ poisoned m = false ∧ inner_inv (rl_config rl) (guarded m)
  end.

Lemma size_sweep i now : candidates_len (sweep_expired_candidates i now) ≤ candidates_len i.
Proof.
  unfold candidates_len, sweep_expired_candidates; cbn [candidates set_candidates].
  apply Nat2Z.inj_le, map_subseteq_size, map_filter_subseteq.
Qed.

Lemma size_insert_le (m : gmap SourceKey (Z * Instant)) k e :
  Z.of_nat (size (<[k := e]> m)) ≤ Z.of_nat (size m) + 1.
Proof.
  destruct (m !! k) eqn:E.
  - rewrite map_size_insert_Some by eauto. lia.
  - rewrite map_size_insert_None by done. lia.
Qed.

Lemma sweep_lookup i now k e :
  candidates (sweep_expired_candidates i now) !! k = Some e ↔
  candidates i !! k = Some e ∧ duration_since now e.2 < CANDIDATE_TTL.
Proof. cbn. by rewrite map_lookup_filter_Some. Qed.

Lemma bump_candidate_inv i key now i' r :
  bump_candidate i key now = (i', r) → candidates_len i ≤ max_candidates i →
  (∀ c t, candidates i !! key = Some (c, t) → 1 ≤ c) →
  candidates_len i' ≤ max_candidates i ∧
  (∀ k e, k ≠ key → candidates i' !! k = Some e → candidates i !! k = Some e) ∧
  match r with
  | Some n => 1 ≤ n ∧ candidates i' !! key = Some (n, now)
  | None => candidates i' !! key = None
  end.
Proof.
  intros Hb Hlen Hpos. pose proof (bump_candidate_cases i key now) as Hc. rewrite Hb in Hc.
  destruct Hc as (_ & _ & _ & Hc). unfold candidates_len in *. destruct r as [n|].
  - destruct Hc as [Hk [(c & t & Hkey & -> & Hi')|(Hkey & -> & m & Hi' & Hm & Hm')]].
    + split_and!; [|intros k e Hne; by rewrite Hi', lookup_insert_ne by done| |done].
      * rewrite Hi', map_size_insert_Some by eauto. done.
      * specialize (Hpos _ _ Hkey). unfold sat_add_u32, u32_max. lia.
    + split_and!; [| |lia|done].
      * rewrite Hi'. pose proof (size_insert_le m key (1, now)). lia.
      * intros k e Hne. rewrite Hi', lookup_insert_ne by done.
        destruct Hm' as [->|[-> _]]; [done|]. rewrite sweep_lookup. naive_solver.
  - destruct Hc as (Hkey & _ & Hi' & _). rewrite !Hi'. split_and!.
    + pose proof (size_sweep i now). unfold candidates_len in *. lia.
    + intros k e Hne. rewrite sweep_lookup. naive_solver.
    + destruct (candidates (sweep_expired_candidates i now) !! key) as [e|] eqn:E; [|done].
      apply sweep_lookup in E as [E _]. congruence.
Qed.

Lemma keys_lru_insert cap key (b : TokenBucket) es k :
  k ∈ (lru_insert cap key b es).*1 → k = key ∨ k ∈ es.*1.
Proof.
  rewrite !elem_of_keys. intros [v Hv]. apply lru_insert_elem in Hv as [?|?]; naive_solver.
Qed.

(** Promotion restores the invariant of a state in which only the promoted
    source's count is out of bounds. *)
Lemma promote_inv cfg i st key now :
  candidates_len i ≤ max_candidates i → max_candidates i = tracked_sources_capacity cfg →
  lru_cap (tracked i) = tracked_sources_capacity cfg → key ∉ (tracked_list i).*1 →
  (∀ k c t, k ≠ key → candidates i !! k = Some (c, t) → 1 ≤ c < promotion_threshold cfg) →
  (∀ k, k ≠ key → k ∈ (tracked_list i).*1 → candidates i !! k = None) →
  inner_inv cfg (promote cfg i st key now).1.
Proof.
  intros Hlen Hmax Hcap Hkey Hcount Hdis.
  destruct (promote_cases cfg i st key now Hkey) as (t & Hp & Hit & Hct & _).
  destruct (promote cfg i st key now) as [i' st']. cbn in Hp |- *. subst i'.
  split_and!; cbn; [| |rewrite Hct; done| |].
  - pose proof (map_subseteq_size _ _ (delete_subseteq (candidates i) key)).
    unfold candidates_len in *; cbn in *. lia.
  - done.
  - intros k c' t'. rewrite lookup_delete_Some. intros [? ?]. eauto.
  - intros k. rewrite Hit. intros [->|Hin]%keys_lru_insert; [apply lookup_delete_eq|].
    apply lookup_delete_None. destruct (decide (k = key)); [by left|right; auto].
Qed.

Lemma check_inner_inv cfg i st key now :
  1 ≤ promotion_threshold cfg → inner_inv cfg i →
  inner_inv cfg (check_inner cfg i st key now).1.1.1.
Proof.
  intros Hthr (Hlen & Hmax & Hcap & Hcount & Hdis).
  destruct (assoc_get key (tracked_list i)) as [b|] eqn:Hkey.
  { destruct (check_inner_tracked cfg i st key now b Hkey)
      as (t & b' & d & st' & log & -> & Hit & Hc & _).
    cbn. split_and!; cbn; [done|done|congruence|done|].
    intros k. rewrite Hit. cbn. rewrite elem_of_cons, keys_assoc_remove. intros [->|[_ ?]]; [|auto].
    apply Hdis, elem_of_keys. exists b. by apply assoc_get_elem_of. }
  apply assoc_get_None in Hkey. rewrite check_inner_untracked by done.
  destruct (consume (global i) now) as [g [|]]; cbn iota beta.
  2: { by destruct (should_warn_log _ _). }
  cbv zeta. set (i1 := set_global i g (last_global_drop_warn i)).
  pose proof (bump_candidate_cases i1 key now) as Hc.
  destruct (bump_candidate i1 key now) as [i2 r] eqn:Hb.
  destruct Hc as (Ht & Hm & _ & _).
  destruct (bump_candidate_inv i1 key now i2 r Hb) as (Hl2 & Ho2 & Hr2); [done|naive_solver|].
  assert (∀ k c t, k ≠ key → candidates i2 !! k = Some (c, t) → 1 ≤ c < promotion_threshold cfg)
    as Hcount2 by eauto.
  assert (∀ k, k ≠ key → k ∈ (tracked_list i).*1 → candidates i2 !! k = None) as Hdis2.
  { intros k Hne Hin. destruct (candidates i2 !! k) eqn:E; [|done].
    apply Ho2 in E; [|done]. apply Hdis in Hin. cbn in E. congruence. }
  assert (∀ k, k ∈ (tracked_list i).*1 → k ≠ key) as Hnk by (intros ? ? ->; done).
  destruct r as [n|]; cbn iota beta.
  - destruct Hr2 as [Hn Hk2]. destruct (Z.geb_spec n (promotion_threshold cfg)).
    + pose proof (promote_inv cfg i2 st key now) as Hp. unfold tracked_list in *. rewrite Hm, Ht in Hp.
      destruct (promote cfg i2 st key now) as [i3 st3]. by apply Hp.
    + cbn. split_and!; [by rewrite Hm|by rewrite Hm|by rewrite Ht| |].
      * intros k c' t' Hk. destruct (decide (k = key)) as [->|]; [|eauto].
        rewrite Hk2 in Hk. simplify_eq. done.
      * intros k. rewrite Ht. cbn. intros Hin. auto.
  - cbn. split_and!; [by rewrite Hm|by rewrite Hm|by rewrite Ht| |].
    + intros k c' t' Hk. destruct (decide (k = key)) as [->|]; [congruence|eauto].
    + intros k. rewrite Ht. cbn. intros Hin. auto.
Qed.
End limiter_lemmas.

Section limiter_properties.
Context `{L : LruCache SourceKey TokenBucket} `{LL : !LruLaws SourceKey TokenBucket L}.
Implicit Types (i : Inner) (st : Stats) (key : SourceKey) (now : Instant) (rl : RateLimiter)
  (cfg : RateLimitSection).

Definition key_of rl (ip : IpAddr) : SourceKey := from_ip ip (ipv6_prefix_len (rl_config rl)).

Lemma check_config rl ip rn now : rl_config (check rl ip rn now).1.1 = rl_config rl.
Proof. unfold check. by repeat case_match. Qed.

Lemma check_unpoisoned rl m ip rn now :
  rl_inner rl = Some m → poisoned m = false →
  check rl ip rn now =
    let '(inner, stats, decision, log) :=
      check_inner (rl_config rl) (guarded m) (rl_stats rl) (key_of rl ip) now in
    ({| rl_config := rl_config rl;
        rl_inner := Some {| poisoned := false; guarded := inner |};
        rl_stats := stats |}, decision, log).
Proof.
  intros Hm Hp. unfold check, lock_recovering, key_of. rewrite Hm, Hp.
  by destruct (check_inner _ _ _ _ _) as [[[? ?] ?] ?].
Qed.

Lemma check_inv rl ip rn now :
  (enabled (rl_config rl) = true → 1 ≤ promotion_threshold (rl_config rl)) → limiter_inv rl →
  limiter_inv (check rl ip rn now).1.1.
Proof.
  intros Hthr Hinv. unfold limiter_inv in Hinv. destruct (rl_inner rl) as [m|] eqn:Hm.
  - destruct Hinv as (He & Hp & Hi). rewrite (check_unpoisoned rl m) by done.
    pose proof (check_inner_inv (rl_config rl) (guarded m) (rl_stats rl) (key_of rl ip) now (Hthr He) Hi).
    by destruct (check_inner _ _ _ _ _) as [[[? ?] ?] ?].
  - unfold check, limiter_inv. by rewrite Hm.
Qed.

Lemma reset_inv cfg i now :
  0 < tracked_sources_capacity cfg → max_candidates i = tracked_sources_capacity cfg →
  lru_cap (tracked i) = tracked_sources_capacity cfg → inner_inv cfg (reset i cfg now).
Proof.
  intros Hpos Hm Hc. destruct (lru_clear_spec (tracked i)) as [Hi Hc'].
  unfold inner_inv, candidates_len; cbn. rewrite map_size_empty, Hi, Hc'.
  split_and!; [lia|done|done|set_solver|set_solver].
Qed.

(** The tables of the limiter can be had. *)
Definition tables_fit `{HA : HashAlloc} cfg : bool :=
  negb (enabled cfg) || table_fits TrackedTable (tracked_sources_capacity cfg) &&
                        table_fits CandidateTable (tracked_sources_capacity cfg).

Lemma with_clock_panics `{HA : HashAlloc} cfg now :
  rate_limit_valid cfg → with_clock cfg now = None ↔ tables_fit cfg = false.
Proof.
  unfold with_clock, rate_limit_valid, tables_fit. intros Hv. destruct (enabled cfg); cbn; [|done].
  destruct (Z.eqb_spec (tracked_sources_capacity cfg) 0) as [E|]; [destruct (Hv eq_refl); lia|].
  by destruct (table_fits TrackedTable _), (table_fits CandidateTable _).
Qed.

Lemma with_clock_inv `{HA : HashAlloc} cfg now rl :
  rate_limit_valid cfg → 0 ≤ tracked_sources_capacity cfg → with_clock cfg now = Some rl →
  rl_config rl = cfg ∧ limiter_inv rl.
Proof.
  unfold with_clock, limiter_inv, rate_limit_valid. intros Hv Hcap.
  destruct (enabled cfg) eqn:He; cbn [negb]; [|by intros [= <-]].
  destruct Hv as (_ & _ & Hc0 & _); [done|].
  rewrite (proj2 (Z.eqb_neq _ _)) by done. destruct (table_fits TrackedTable _); [|done]. cbn [negb].
  destruct (table_fits CandidateTable _); [|done]. intros [= <-]. cbn. split_and!; try done.
  destruct (lru_new_spec (tracked_sources_capacity cfg)) as [Hi Hc]; [lia|].
  unfold inner_inv, candidates_len; cbn. rewrite map_size_empty, Hi, Hc.
  split_and!; [lia|done|done|set_solver|set_solver].
Qed.

(** C26: the limiter on a validated configuration. Its construction panics
    exactly when it is enabled and the tables for [tracked_sources_capacity]
    entries, which validation does not bound from above, cannot be allocated.
    Otherwise, after any sequence of packets its maps are within the
    configured capacity, no source is both tracked and a candidate, and
    every candidate's count is below the promotion threshold. *)
Theorem limiter_invariant `{HA : HashAlloc} cfg now0 ps :
  rate_limit_valid cfg → 0 ≤ tracked_sources_capacity cfg → 0 ≤ promotion_threshold cfg →
  (with_clock cfg now0 = None ↔ tables_fit cfg = false) ∧
  ∀ rl, with_clock cfg now0 = Some rl → rl_config (check_all rl ps) = cfg ∧ limiter_inv (check_all rl ps).
Proof.
  intros Hv Hcap Hthr. split; [by apply with_clock_panics|]. intros rl Hw.
  destruct (with_clock_inv cfg now0 rl Hv Hcap Hw) as [Hc Hi].
  assert (enabled cfg = true → 1 ≤ promotion_threshold cfg) as Ht
    by (intros He; destruct (Hv He) as (_ & _ & _ & Ht0 & _); lia).
  clear Hw Hv. revert rl Hc Hi.
  induction ps as [|[[ip rn] now] ps IH]; intros rl Hc Hi; [done|].
  cbn [check_all foldl]. apply IH; [by rewrite check_config|].
  apply check_inv; [by rewrite Hc|done].
Qed.

(** So a configuration that validates can make the daemon panic when it
    starts: nothing keeps the capacity below what a table can hold, and a
    number as large as [2^62] can be written in the file. *)
Lemma huge_capacity_panics `{HAL : HashAllocLaws} cfg now :
  enabled cfg = true → ISIZE_MAX < 2 * tracked_sources_capacity cfg → with_clock cfg now = None.
Proof.
  intros He Hc. unfold with_clock. rewrite He. cbn [negb]. destruct (_ =? 0); [done|].
  destruct (table_fits TrackedTable _) eqn:E; [|done]. apply fits_isize in E. lia.
Qed.

(** Isolation of the two tiers. A tracked source is decided by its own
    bucket alone and touches neither the global bucket, nor the candidates,
    nor any other source's bucket. Any other source is decided by the global
    bucket, and a packet it drops leaves tracked sources and candidates as
    they were, so rejected traffic never counts towards promotion. *)
Theorem check_isolation rl m ip rn now :
  rl_inner rl = Some m → poisoned m = false →
  let i := guarded m in
  let '(rl', d, _) := check rl ip rn now in
  ∃ i', rl_inner rl' = Some {| poisoned := false; guarded := i' |} ∧
    match assoc_get (key_of rl ip) (lru_iter (tracked i)) with
    | Some b =>
        d = match (consume b now).2 with
            | BucketPass => Pass | BucketDrop => Drop PerSourceExhausted end ∧
        global i' = global i ∧ candidates i' = candidates i ∧
        ∀ k, k ≠ key_of rl ip →
             assoc_get k (lru_iter (tracked i')) = assoc_get k (lru_iter (tracked i))
    | None =>
        d = match (consume (global i) now).2 with
            | BucketPass => Pass | BucketDrop => Drop GlobalExhausted end ∧
        global i' = (consume (global i) now).1 ∧
        (d ≠ Pass → tracked i' = tracked i ∧ candidates i' = candidates i)
    end.
Proof.
  intros Hm Hp. cbv zeta. rewrite (check_unpoisoned rl m) by done. set (key := key_of rl ip).
  destruct (assoc_get key (lru_iter (tracked (guarded m)))) as [b|] eqn:Hkey.
  - destruct (check_inner_tracked (rl_config rl) (guarded m) (rl_stats rl) key now b Hkey)
      as (t & b' & d & st' & log & -> & Hit & _ & Hd). cbn. eexists. split; [done|]. cbn.
    split_and!; [destruct Hd as [(-> & -> & _)|(-> & -> & _)]; done|done|done|].
    intros k Hk. rewrite Hit. by apply assoc_get_other.
  - apply assoc_get_None in Hkey. rewrite check_inner_untracked by done.
    destruct (consume (global (guarded m)) now) as [g [|]]; cbn.
    + set (i1 := set_global (guarded m) g _). pose proof (bump_candidate_cases i1 key now) as Hc.
      destruct (bump_candidate i1 key now) as [i2 [n|]]; destruct Hc as (Ht & _ & Hg & _);
        [destruct (n >=? promotion_threshold (rl_config rl))|]; cbn;
        try (eexists; split; [done|]; split_and!; done).
      destruct (promote_cases (rl_config rl) i2 (rl_stats rl) key now ltac:(by rewrite Ht))
        as (t & Hpr & _). destruct (promote _ _ _ _ _) as [i3 st3]. cbn in *. subst i3.
      eexists. split; [done|]. split_and!; done.
    + destruct (should_warn_log _ _). cbn. eexists. split; [done|]. split_and!; done.
Qed.

(** Another source's packet within the time to live leaves a candidate's
    entry alone. *)
Lemma check_inner_keeps cfg i st key now k c t :
  k ≠ key → candidates i !! k = Some (c, t) → duration_since now t < CANDIDATE_TTL →
  candidates (check_inner cfg i st key now).1.1.1 !! k = Some (c, t).
Proof.
  intros Hne Hk Httl. destruct (assoc_get key (lru_iter (tracked i))) as [b|] eqn:Hkey.
  { by destruct (check_inner_tracked cfg i st key now b Hkey) as (? & ? & ? & ? & ? & -> & _). }
  apply assoc_get_None in Hkey. rewrite check_inner_untracked by done.
  destruct (consume (global i) now) as [g [|]]; cbn iota beta; [cbv zeta|by destruct (should_warn_log _ _)].
  set (i1 := set_global i g _). pose proof (bump_candidate_cases i1 key now) as Hc.
  destruct (bump_candidate i1 key now) as [i2 r]. destruct Hc as (Ht & _ & _ & Hc).
  assert (candidates (sweep_expired_candidates i1 now) !! k = Some (c, t)) as Hs
    by by apply sweep_lookup.
  assert (candidates i2 !! k = Some (c, t)) as Hk2.
  { destruct r as [n|]; [|by destruct Hc as (_ & _ & -> & _)].
    destruct Hc as [_ [(c' & t' & _ & _ & ->)|(_ & _ & m & -> & _ & [->|[-> _]])]];
      by rewrite lookup_insert_ne. }
  destruct r as [n|]; [|done]. destruct (n >=? promotion_threshold cfg); [|done].
  destruct (promote_cases cfg i2 st key now ltac:(by rewrite Ht)) as (t' & Hpr & _).
  destruct (promote _ _ _ _ _) as [i3 st3]. cbn in *. subst i3. cbn. by rewrite lookup_delete_ne.
Qed.

(** C27: a flood cannot starve an honest source. While a candidate is within
    its time to live, any number of packets from any other sources, however
    they are decided and however full the map is, leave its partial count
    as it was. *)
Theorem candidate_survives_flood rl m k c t ps :
  rl_inner rl = Some m → poisoned m = false → candidates (guarded m) !! k = Some (c, t) →
  Forall (λ p, key_of rl p.1.1 ≠ k ∧ duration_since p.2 t < CANDIDATE_TTL) ps →
  ∃ m', rl_inner (check_all rl ps) = Some m' ∧ poisoned m' = false ∧
        candidates (guarded m') !! k = Some (c, t).
Proof.
  intros Hm Hp Hk Hps. revert rl m Hm Hp Hk Hps.
  induction ps as [|[[ip rn] now] ps IH]; intros rl m Hm Hp Hk Hps; [by eauto|].
  apply Forall_cons in Hps as [[Hne Httl] Hps]. cbn [check_all foldl fst snd] in *.
  pose proof (check_config rl ip rn now) as Hcfg.
  pose proof (check_inner_keeps (rl_config rl) (guarded m) (rl_stats rl) (key_of rl ip) now k c t
    ltac:(done) Hk Httl) as Hkeep.
  rewrite (check_unpoisoned rl m) in * by done.
  destruct (check_inner _ _ _ _ _) as [[[i' st'] d] log]. cbn in Hcfg, Hkeep |- *.
  by apply (IH _ {| poisoned := false; guarded := i' |}).
Qed.

(** Progress towards promotion. When a candidate's packet passes the
    global bucket its count goes up by one, and when that reaches the
    threshold the source gets a full bucket of its own as the most recent
    tracked entry and leaves the candidates. *)
Theorem candidate_progress rl m ip rn now c t :
  rl_inner rl = Some m → poisoned m = false → limiter_inv rl →
  candidates (guarded m) !! key_of rl ip = Some (c, t) →
  (consume (global (guarded m)) now).2 = BucketPass → c < u32_max →
  ∃ m', rl_inner (check rl ip rn now).1.1 = Some m' ∧
    if c + 1 >=? promotion_threshold (rl_config rl) then
      head (lru_iter (tracked (guarded m'))) =
        Some (key_of rl ip, TokenBucket_new (per_source_rate_per_sec (rl_config rl))
                              (per_source_burst (rl_config rl)) now) ∧
      candidates (guarded m') !! key_of rl ip = None
    else candidates (guarded m') !! key_of rl ip = Some (c + 1, now).
Proof.
  intros Hm Hp Hinv Hk Hg Hc. unfold limiter_inv in Hinv. rewrite Hm in Hinv.
  destruct Hinv as (_ & _ & _ & _ & _ & _ & Hdis). rewrite (check_unpoisoned rl m) by done.
  set (key := key_of rl ip) in *.
  assert (key ∉ (lru_iter (tracked (guarded m))).*1) as Hkey by (intros ?%Hdis; congruence).
  rewrite check_inner_untracked by done.
  destruct (consume (global (guarded m)) now) as [g [|]]; [|done]. cbn iota beta zeta.
  set (i1 := set_global (guarded m) g _). pose proof (bump_candidate_cases i1 key now) as Hb.
  destruct (bump_candidate i1 key now) as [i2 [n|]]; destruct Hb as (Ht & _ & _ & Hb).
  2: { destruct Hb as [Hb _]. cbn in Hb. congruence. }
  destruct Hb as [Hk2 [(c' & t' & Hk' & -> & _)|(Hk' & _)]]; cbn in Hk'; [|congruence].
  rewrite Hk in Hk'. injection Hk' as <- <-.
  assert (sat_add_u32 c 1 = c + 1) as E by (unfold sat_add_u32; lia). rewrite E in *.
  destruct (c + 1 >=? promotion_threshold (rl_config rl)); [|eexists; by split].
  destruct (promote_cases (rl_config rl) i2 (rl_stats rl) key now ltac:(by rewrite Ht))
    as (t0 & Hpr & Hit & _). destruct (promote _ _ _ _ _) as [i3 st3]. cbn in *. subst i3.
  eexists. split; [done|]. cbn. rewrite Hit. split; [done|]. apply lookup_delete_eq.
Qed.

Lemma check_counts rl ip rn now :
  let '(rl', d, _) := check rl ip rn now in
  let s := rl_stats rl in
  let s' := rl_stats rl' in
  allowed s' = (match d with Pass => wrap_u64 (allowed s + 1) | _ => allowed s end) ∧
  dropped_per_source s' =
    (match d with Drop PerSourceExhausted => wrap_u64 (dropped_per_source s + 1)
     | _ => dropped_per_source s end) ∧
  dropped_global s' =
    (match d with Drop GlobalExhausted => wrap_u64 (dropped_global s + 1)
     | _ => dropped_global s end).
Proof.
  unfold check. destruct (rl_inner rl) as [m|]; [|done].
  destruct (lock_recovering (rl_config rl) m rn) as [i log]. set (key := from_ip _ _).
  generalize (rl_stats rl) as st. intros st.
  destruct (assoc_get key (lru_iter (tracked i))) as [b|] eqn:Hkey.
  { destruct (check_inner_tracked (rl_config rl) i st key now b Hkey)
      as (? & ? & ? & ? & ? & -> & _ & _ & [(-> & _ & ->)|(-> & _ & ->)]); done. }
  apply assoc_get_None in Hkey. rewrite check_inner_untracked by done.
  destruct (consume (global i) now) as [g [|]]; cbn iota beta zeta; [|by destruct (should_warn_log _ _)].
  set (i1 := set_global i g _). pose proof (bump_candidate_cases i1 key now) as Hc.
  destruct (bump_candidate i1 key now) as [i2 [n|]]; [|done]. destruct Hc as (Ht & _).
  destruct (n >=? promotion_threshold (rl_config rl)); [|done].
  destruct (promote_cases (rl_config rl) i2 st key now ltac:(by rewrite Ht)) as (? & _ & _ & _ & Hst).
  destruct (promote _ _ _ _ _) as [i3 st3]. cbn in Hst |- *. subst st3. by destruct (_ <? _).
Qed.

(** Accounting. Every check counts exactly once, as allowed, dropped by
    the source's bucket or dropped by the global bucket, in agreement with
    the decision it returns. *)
Theorem check_accounting rl ip rn now :
  let '(rl', d, _) := check rl ip rn now in
  let s := rl_stats rl in
  let s' := rl_stats rl' in
  allowed s' = (match d with Pass => wrap_u64 (allowed s + 1) | _ => allowed s end) ∧
  dropped_per_source s' =
    (match d with Drop PerSourceExhausted => wrap_u64 (dropped_per_source s + 1)
     | _ => dropped_per_source s end) ∧
  dropped_global s' =
    (match d with Drop GlobalExhausted => wrap_u64 (dropped_global s + 1)
     | _ => dropped_global s end).
Proof. apply check_counts. Qed.

(** Recovery from a poisoned lock. Whatever half-updated contents a
    panicking thread left, of the configured sizes, the next check decides
    from empty maps and a fresh global bucket and leaves a healthy limiter
    that satisfies the invariant, and says so in the log. *)
Theorem poison_recovery rl torn ip rn now :
  limiter_inv rl → enabled (rl_config rl) = true →
  rate_limit_valid (rl_config rl) → 0 ≤ tracked_sources_capacity (rl_config rl) →
  0 ≤ promotion_threshold (rl_config rl) →
  max_candidates torn = tracked_sources_capacity (rl_config rl) →
  lru_cap (tracked torn) = tracked_sources_capacity (rl_config rl) →
  let '(rl', d, log) := check (panic_holding rl torn) ip rn now in
  limiter_inv rl' ∧ head log = Some LError ∧
  (d = Pass ↔ (consume (TokenBucket_new (global_rate_per_sec (rl_config rl))
                          (global_burst (rl_config rl)) rn) now).2 = BucketPass).
Proof.
  intros Hinv He Hv Hcap Hthr Hmax Hlru. unfold limiter_inv in Hinv.
  destruct (rl_inner rl) as [m|] eqn:Hm; [|congruence].
  destruct (Hv He) as (_ & _ & Hc0 & Ht0 & _).
  pose proof (reset_inv (rl_config rl) torn rn ltac:(lia) Hmax Hlru) as Hr.
  set (key := from_ip ip (ipv6_prefix_len (rl_config rl))).
  pose proof (check_inner_inv (rl_config rl) (reset torn (rl_config rl) rn) (rl_stats rl) key now
    ltac:(lia) Hr) as Hi.
  unfold check, panic_holding, lock_recovering. rewrite Hm. cbn [fmap option_fmap option_map rl_inner rl_config
    rl_stats poisoned guarded]. fold key.
  assert (key ∉ (lru_iter (tracked (reset torn (rl_config rl) rn))).*1) as Hkey.
  { cbn. rewrite (proj1 (lru_clear_spec _)). set_solver. }
  rewrite check_inner_untracked in * by done. cbn [reset global] in *.
  destruct (consume _ now) as [g [|]]; cbn iota beta zeta in *; cbn [snd].
  - destruct (bump_candidate _ key now) as [i2 [n|]]; [|done].
    by destruct (if n >=? promotion_threshold (rl_config rl) then _ else _).
  - by destruct (should_warn_log _ _).
Qed.
End limiter_properties.

(** ** Witnesses *)

Definition v4 (a b c d : Z) : IpAddr := V4 [a; b; c; d].

Lemma source_key_eq_iff_witness :
  let a := 32 :: 1 :: 13 :: 184 :: replicate 12 0 in
  let b := 32 :: 1 :: 13 :: 184 :: replicate 12 255 in
  from_ip (V6 a) 32 = from_ip (V6 b) 32 ↔ ∀ i, 0 ≤ i < 32 → addr_bit a i = addr_bit b i.
Proof.
  intros a b. apply (source_key_eq_iff (V6 a) (V6 b) 32); [| |lia];
    (split; [reflexivity|apply (bool_decide_unpack _); vm_compute; exact I]).
Defined.

Lemma bucket_burst_witness :
  burst 4 (TokenBucket_new 10 3 0) 0 = [BucketPass; BucketPass; BucketPass; BucketDrop].
Proof. apply (bucket_burst 10 3 0 4); lia. Defined.

Lemma refill_capped_witness :
  f64_ge (f64_of_u64 20) (tokens (refill (TokenBucket_new 10 20 0) (from_secs 3600))) = true.
Proof.
  apply (refill_capped (TokenBucket_new 10 20 0) (from_secs 3600)); vm_compute; discriminate.
Defined.

(** Room for one source, promoted at its second packet. *)
Definition small_limit : RateLimitSection := {|
  enabled := true; per_source_rate_per_sec := 1; per_source_burst := 2;
  tracked_sources_capacity := 1; global_rate_per_sec := 1; global_burst := 5;
  promotion_threshold := 2; ipv6_prefix_len := 64 |}.

#[local] Existing Instance million_entries.

Lemma limiter_invariant_witness :
  tables_fit small_limit = true ∧
  ∃ rl, with_clock small_limit 0 = Some rl ∧
        rl_config (check_all rl [(v4 10 0 0 1, 0, 0); (v4 10 0 0 2, 0, 5)]) = small_limit ∧
        limiter_inv (check_all rl [(v4 10 0 0 1, 0, 0); (v4 10 0 0 2, 0, 5)]).
Proof.
  split; [reflexivity|]. eexists. split; [reflexivity|].
  apply (limiter_invariant small_limit 0).
  - intros _. vm_compute. repeat split; discriminate.
  - vm_compute. discriminate.
  - vm_compute. discriminate.
  - reflexivity.
Defined.

Definition small_limiter : RateLimiter := {|
  rl_config := small_limit;
  rl_inner := Some {| poisoned := false; guarded := {|
    tracked := lru_new 1;
    candidates := {[ from_ip (v4 10 0 0 1) 64 := (1, 0) ]};
    max_candidates := 1;
    global := TokenBucket_new 1 5 0;
    last_global_drop_warn := None |} |};
  rl_stats := Stats_default |}.
Definition small_inner : Inner :=
  match rl_inner small_limiter with Some m => guarded m | None =>
    {| tracked := lru_new 1; candidates := ∅; max_candidates := 1;
       global := TokenBucket_new 1 5 0; last_global_drop_warn := None |} end.

Lemma small_limiter_inv : limiter_inv small_limiter.
Proof.
  unfold limiter_inv; cbn [rl_inner small_limiter]. split; [done|]. split; [done|].
  split_and!; [vm_compute; discriminate|done|done| |intros k Hk; vm_compute in Hk; set_solver].
  intros k c t. cbn [candidates guarded]. rewrite lookup_singleton_Some. intros [_ [= <- <-]].
  vm_compute. split; [discriminate|reflexivity].
Qed.

Lemma check_accounting_witness :
  let '(rl, d, _) := check small_limiter (v4 10 0 0 2) 0 1 in
  d = Pass ∧ allowed (rl_stats rl) = 1 ∧ dropped_global (rl_stats rl) = 0.
Proof.
  pose proof (check_accounting small_limiter (v4 10 0 0 2) 0 1) as H.
  assert ((check small_limiter (v4 10 0 0 2) 0 1).1.2 = Pass) as E by (vm_compute; reflexivity).
  destruct (check small_limiter (v4 10 0 0 2) 0 1) as [[rl d] log]. cbn [fst snd] in E. subst d.
  destruct H as (Ha & _ & Hg). split; [reflexivity|]. split; [exact Ha|exact Hg].
Defined.

Lemma check_isolation_witness :
  ∃ i', rl_inner (check small_limiter (v4 10 0 0 2) 0 1).1.1 =
          Some {| poisoned := false; guarded := i' |} ∧
        global i' = (consume (TokenBucket_new 1 5 0) 1).1.
Proof.
  pose proof (check_isolation small_limiter
    {| poisoned := false; guarded := small_inner |} (v4 10 0 0 2) 0 1 eq_refl eq_refl) as Hw.
  cbv zeta in Hw. destruct (check small_limiter (v4 10 0 0 2) 0 1) as [[rl' d] log].
  destruct Hw as (i' & Hi & _ & Hg & _). exists i'. split; [exact Hi|exact Hg].
Defined.

Lemma candidate_survives_flood_witness :
  ∃ m', rl_inner (check_all small_limiter
          [(v4 10 0 0 2, 0, 1); (v4 10 0 0 3, 0, from_secs 59)]) = Some m' ∧ poisoned m' = false ∧
        candidates (guarded m') !! from_ip (v4 10 0 0 1) 64 = Some (1, 0).
Proof.
  apply (candidate_survives_flood small_limiter
    {| poisoned := false; guarded := small_inner |}); [reflexivity|reflexivity|vm_compute; reflexivity|].
  repeat constructor; vm_compute; done.
Defined.

Lemma candidate_progress_witness :
  ∃ m', rl_inner (check small_limiter (v4 10 0 0 1) 0 7).1.1 = Some m' ∧
        head (lru_iter (tracked (guarded m'))) =
          Some (from_ip (v4 10 0 0 1) 64, TokenBucket_new 1 2 7).
Proof.
  destruct (candidate_progress small_limiter {| poisoned := false; guarded := small_inner |}
    (v4 10 0 0 1) 0 7 1 0) as (m' & Hm & Hh & _);
    [reflexivity|reflexivity|apply small_limiter_inv|vm_compute; reflexivity|vm_compute; reflexivity
    |vm_compute; reflexivity|].
  exists m'. split; [exact Hm|exact Hh].
Defined.

Lemma poison_recovery_witness :
  limiter_inv (check (panic_holding small_limiter small_inner) (v4 10 0 0 9) 3 3).1.1 ∧
  head (check (panic_holding small_limiter small_inner) (v4 10 0 0 9) 3 3).2 = Some LError.
Proof.
  pose proof (poison_recovery small_limiter small_inner (v4 10 0 0 9) 3 3 small_limiter_inv) as Hw.
  destruct (check (panic_holding small_limiter small_inner) (v4 10 0 0 9) 3 3) as [[rl' d] log].
  destruct Hw as (Hi & Hl & _); [reflexivity| |vm_compute; discriminate|vm_compute; discriminate
    |reflexivity|reflexivity|split; [exact Hi|exact Hl]].
  intros _. vm_compute. repeat split; discriminate.
Defined.
