(* ===== verification/RateBound.v ===== *)
(** * How many packets the token buckets let through

    The buckets of crates/fwknox-ratelimit/src/bucket.rs keep their tokens in
    binary64 and round at every refill.  With the rounding bounds of F64Round.v
    this file shows that the tokens stay a finite number between zero and the
    capacity, that over any sequence of packets a bucket lets through at most
    its capacity, what the rate yields over the elapsed time, and one packet
    for all rounding errors together, and that a bucket that rested for a
    second lets the next packet through.  The bound is then lifted to the
    limiter of limiter.rs: it holds for all sources without a bucket of their
    own taken together. *)

From S2P Require Import Prelude RustStd Net Lru F64 F64Round Proto Config RateLimit.

(** ** Upper bounds of the rounded operations *)

Lemma rounded_upper v N S :
  rounded v N S → 0 ≤ N → 0 < S → 2 ^ 53 * (v * S) ≤ (2 ^ 53 + 1) * N + 2 ^ 53 * S.
Proof. intros [Hn _] HN HS. lia. Qed.

Lemma f64_of_int_num z : 0 ≤ z < 2 ^ 53 → finite_nonneg (f64_of_u64 z) ∧ num (f64_of_u64 z) = z * ONE.
Proof.
  intros Hz. destruct z as [|q|]; [done| |lia].
  pose proof (digits_small q ltac:(lia)). pose proof (digits_pos q). split.
  - apply f64_of_u64_rounded. split; [lia|]. eapply Z.lt_le_trans; [apply Hz|]. apply Z.pow_le_mono_r; lia.
  - rewrite f64_of_pos by done. unfold canon, num. rewrite shift_value, <- Z.mul_assoc, <- Z.pow_add_r by lia.
    unfold ONE. do 2 f_equal. lia.
Qed.

Lemma ONE_pos : 2 ^ 200 ≤ ONE.
Proof. apply Z.pow_le_mono_r; lia. Qed.

Lemma one_num : finite_nonneg (f64_of_u64 1) ∧ num (f64_of_u64 1) = ONE.
Proof. destruct (f64_of_int_num 1) as [? H]; [lia|]. by rewrite H, Z.mul_1_l. Qed.

(** The longest [Duration], in nanoseconds, is below this. *)
Definition DURATION_END : Z := 2 ^ 64 * NANOS.

Lemma as_secs_f64_bound d :
  0 ≤ d < DURATION_END →
  let a := as_secs_f64 d in
  finite_nonneg a ∧ 2 ^ 51 * (num a * NANOS) ≤ (2 ^ 51 + 1) * (d * ONE) + 2 ^ 54 * NANOS ∧
  (NANOS ≤ d → ONE ≤ num a).
Proof.
  intros [Hd0 Hd]. unfold DURATION_END in Hd. unfold as_secs_f64, as_secs, subsec_nanos.
  set (s := d / NANOS). set (n := d mod NANOS).
  pose proof (Z.div_mod d NANOS ltac:(done)) as Hdm. fold s n in Hdm.
  assert (0 ≤ n < NANOS) by (apply Z.mod_pos_bound; done).
  assert (0 ≤ s < 2 ^ 64) by (split; [apply Z.div_pos; [lia|done]|apply Z.div_lt_upper_bound; [done|lia]]).
  pose proof ONE_pos as HO. change NANOS with 1000000000 in *.
  destruct (f64_of_u64_rounded s) as [Fs Rs].
  { split; [lia|]. eapply Z.lt_le_trans; [|by apply (Z.pow_le_mono_r 2 64)]. lia. }
  destruct (f64_of_int_num n) as [Fn En]; [lia|].
  destruct (f64_of_int_num 1000000000) as [Fg Eg]; [lia|].
  assert (0 ≤ s * ONE ∧ 0 ≤ n * ONE) as [Hs0 Hn0] by (split; apply Z.mul_nonneg_nonneg; lia).
  pose proof (rounded_upper _ _ _ Rs Hs0 ltac:(lia)) as Us.
  destruct (f64_div_rounded (f64_of_u64 n) (f64_of_u64 1000000000)) as [Fq Rq]; [done|done|lia| |].
  { rewrite En, Eg. assert (ONE * 2 ^ 2 ≤ 2 ^ 2000) as Hb.
    { unfold ONE. rewrite <- Z.pow_add_r by lia. apply Z.pow_le_mono_r; lia. }
    assert (0 < ONE) as HO' by lia. clear -Hb HO' H. revert HO' Hb. generalize ONE as O. generalize (2 ^ 2000) as X.
    intros X O HO Hb. apply Z.le_lt_trans with (1000000000 * (O * O)); [nia|].
    assert (O * O < O * X) by (apply Z.mul_lt_mono_pos_l; lia). lia. }
  rewrite En, Eg in Rq. pose proof (rounded_upper _ _ _ Rq ltac:(nia) ltac:(lia)) as Uq.
  set (vs := num (f64_of_u64 s)) in *. set (vq := num (f64_div _ _)) in *.
  assert (2 ^ 53 * (vq * 1000000000) ≤ (2 ^ 53 + 1) * (n * ONE) + 2 ^ 53 * 1000000000) as Uq'.
  { apply (Z.mul_le_mono_pos_r _ _ ONE); [lia|]. nia. }
  pose proof (num_nonneg _ Fs) as Ps. pose proof (num_nonneg _ Fq) as Pq. fold vs in Ps. fold vq in Pq.
  destruct (f64_add_rounded (f64_of_u64 s) (f64_div (f64_of_u64 n) (f64_of_u64 1000000000))) as [Fa Ra]; [done|done| |].
  { fold vs vq. assert (vs + vq ≤ 2 ^ 100 * ONE) as Hv by nia. by eapply Z.le_lt_trans; [exact Hv|]. }
  fold vs vq in Ra. pose proof (rounded_upper _ _ _ Ra ltac:(lia) ltac:(lia)) as Ua.
  split; [exact Fa|]. split.
  - set (va := num (f64_add _ _)) in *. nia.
  - intros Hge. destruct one_num as [F1 E1]. rewrite <- E1. apply Ra; [done|]. rewrite Z.mul_1_r.
    assert (num (f64_of_u64 1) ≤ vs); [|lia].
    apply Rs; [done|]. rewrite E1, Z.mul_1_r. assert (1 ≤ s) by lia.
    rewrite <- (Z.mul_1_l ONE) at 1. apply Z.mul_le_mono_nonneg_r; lia.
Qed.

(** ** One bucket *)

Section bucket.
Context (rate cap : Z) (Hrate : 0 ≤ rate < 2 ^ 53) (Hcap : 0 ≤ cap < 2 ^ 53).

(** The type of a bucket's contents: the constants it was built with and a
    finite number of tokens between zero and the capacity. *)
Definition bucket_wf (b : TokenBucket) : Prop :=
  capacity b = f64_of_u64 cap ∧ rate_per_sec b = f64_of_u64 rate ∧
  finite_nonneg (tokens b) ∧ num (tokens b) ≤ cap * ONE.

Lemma new_wf now : bucket_wf (TokenBucket_new rate cap now).
Proof using Hcap.
  clear Hrate. destruct (f64_of_int_num cap Hcap) as [? E]. split_and!; [done..|]. cbn [tokens TokenBucket_new]. lia.
Qed.

(** The tokens an elapsed time adds, before and after rounding. *)
Lemma added_bound d :
  0 ≤ d < DURATION_END →
  let m := f64_mul (as_secs_f64 d) (f64_of_u64 rate) in
  finite_nonneg m ∧ num m ≤ 2 ^ 200 * ONE ∧
  2 ^ 50 * (num m * NANOS) ≤ (2 ^ 50 + 1) * (rate * d * ONE) + 2 ^ 55 * NANOS * (rate + 1) ∧
  (NANOS ≤ d → 1 ≤ rate → ONE ≤ num m).
Proof using Hrate.
  clear Hcap. intros Hd. destruct (as_secs_f64_bound d Hd) as (Fa&Ua&La).
  destruct (f64_of_int_num rate Hrate) as [Fr Er]. pose proof (num_nonneg _ Fa) as Pa. pose proof ONE_pos as HO.
  set (a := as_secs_f64 d) in *. change NANOS with 1000000000 in *. unfold DURATION_END in Hd.
  change NANOS with 1000000000 in Hd.
  assert (num a ≤ 2 ^ 70 * ONE) as Ha by nia.
  destruct (f64_mul_rounded a (f64_of_u64 rate)) as [Fm Rm]; [done|done| |].
  { rewrite Er. eapply Z.le_lt_trans; [apply (Z.mul_le_mono_nonneg _ (2 ^ 70 * ONE) _ (2 ^ 53 * ONE)); nia|done]. }
  rewrite Er in Rm. pose proof (num_nonneg _ Fm) as Pm.
  assert (0 ≤ num a * (rate * ONE)) as Har by (apply Z.mul_nonneg_nonneg; nia).
  pose proof (rounded_upper _ _ _ Rm Har ltac:(lia)) as Um.
  cbv zeta. set (m := num (f64_mul _ _)) in *.
  assert (2 ^ 53 * m ≤ (2 ^ 53 + 1) * (num a * rate) + 2 ^ 53) as Um'.
  { apply (Z.mul_le_mono_pos_r _ _ ONE); [lia|]. lia. }
  assert (num a * rate ≤ 2 ^ 123 * ONE).
  { replace (2 ^ 123 * ONE) with (2 ^ 70 * ONE * 2 ^ 53) by lia. apply Z.mul_le_mono_nonneg; lia. }
  split_and!; [done|lia| |].
  - assert (2 ^ 51 * (num a * rate * 1000000000) ≤ (2 ^ 51 + 1) * (rate * d * ONE) + 2 ^ 54 * 1000000000 * rate) by nia.
    nia.
  - intros Hsec Hr1. destruct one_num as [F1 E1]. rewrite <- E1. apply Rm; [done|]. rewrite E1.
    rewrite Z.mul_assoc. apply Z.mul_le_mono_nonneg_r; [lia|].
    specialize (La Hsec). nia.
Qed.

(** Rounding errors of one packet, scaled by [2^53 * NANOS]. *)
Definition slack : Z := 2 ^ 58 * NANOS * (rate + 1) + 2 * NANOS * (cap * ONE + 2 ^ 53).

Lemma refill_spec b now :
  bucket_wf b → now - last_refill b < DURATION_END →
  let b' := refill b now in
  bucket_wf b' ∧ last_refill b' = Z.max (last_refill b) now ∧
  2 ^ 53 * NANOS * num (tokens b') ≤
    2 ^ 53 * NANOS * num (tokens b) + 8 * (2 ^ 50 + 1) * (rate * (last_refill b' - last_refill b) * ONE) +
    2 ^ 58 * NANOS * (rate + 1) + NANOS * (cap * ONE + 2 ^ 53) ∧
  (NANOS ≤ now - last_refill b → 1 ≤ rate → 1 ≤ cap → ONE ≤ num (tokens b')).
Proof using Hrate Hcap.
  intros (Hc&Hr&Ft&Ht) Hd. unfold refill, checked_duration_since.
  pose proof ONE_pos as HO. change NANOS with 1000000000 in *.
  assert (0 ≤ cap * ONE) as HC by (apply Z.mul_nonneg_nonneg; lia).
  destruct (Z.ltb_spec now (last_refill b)) as [Hgt|Hle]; cbv zeta; swap 1 2.
  - destruct (added_bound (now - last_refill b)) as (Fm&Bm&Um&Lm); [lia|].
    rewrite Hr. set (m := f64_mul _ _) in *. change NANOS with 1000000000 in *.
    pose proof (num_nonneg _ Ft) as Pt. pose proof (num_nonneg _ Fm) as Pm.
    destruct (f64_add_rounded (tokens b) m) as [Fv Rv]; [done|done| |].
    { assert (num (tokens b) + num m ≤ 2 ^ 53 * ONE + 2 ^ 200 * ONE) as Hv by nia.
      by eapply Z.le_lt_trans; [exact Hv|]. }
    destruct (f64_of_int_num cap Hcap) as [Fc Ec].
    destruct (f64_min_num (f64_add (tokens b) m) (f64_of_u64 cap) Fv Fc) as [Fmin Emin].
    pose proof (rounded_upper _ _ _ Rv ltac:(lia) ltac:(lia)) as Uv.
    cbn [tokens last_refill]. rewrite Hc, Emin, Ec, Z.max_r by lia.
    set (v := num (f64_add _ _)) in *. split; [|split; [lia|split]].
    + unfold bucket_wf. cbn [tokens capacity rate_per_sec]. rewrite Emin, Ec. split_and!; [done..|lia].
    + assert (2 ^ 53 * Z.min v (cap * ONE) ≤ 2 ^ 53 * (num (tokens b) + num m) + cap * ONE + 2 ^ 53); [|lia].
      destruct (decide (num (tokens b) + num m ≤ cap * ONE)); lia.
    + intros Hsec Hr1 Hc1. apply Z.min_glb; [|nia]. destruct one_num as [F1 E1]. rewrite <- E1.
      apply Rv; [done|]. rewrite E1. specialize (Lm Hsec Hr1). lia.
  - rewrite Z.max_l by lia. split_and!; [done|done| |lia].
    rewrite Z.sub_diag, Z.mul_0_r, Z.mul_0_l. lia.
Qed.

Definition passed (d : BucketDecision) : Z := match d with BucketPass => 1 | BucketDrop => 0 end.

Lemma consume_spec b now :
  bucket_wf b → now - last_refill b < DURATION_END →
  let '(b', d) := consume b now in
  bucket_wf b' ∧ last_refill b' = Z.max (last_refill b) now ∧
  2 ^ 53 * NANOS * (num (tokens b') + passed d * ONE) ≤
    2 ^ 53 * NANOS * num (tokens b) +
    8 * (2 ^ 50 + 1) * (rate * (last_refill b' - last_refill b) * ONE) + slack ∧
  (NANOS ≤ now - last_refill b → 1 ≤ rate → 1 ≤ cap → d = BucketPass).
Proof using Hrate Hcap.
  intros Hwf Hd. unfold consume, slack. destruct (refill_spec b now Hwf Hd) as (Hwf'&Hl&Hb&Hone).
  set (r := refill b now) in *. destruct Hwf' as (Hc&Hr&Ft&Ht).
  destruct one_num as [F1 E1]. pose proof ONE_pos as HO. change NANOS with 1000000000 in *.
  assert (0 ≤ cap * ONE) as HC by (apply Z.mul_nonneg_nonneg; lia).
  rewrite f64_ge_num, E1 by done. destruct (Z.leb_spec ONE (num (tokens r))) as [Hge|Hlt].
  - destruct (f64_sub_rounded (tokens r) (f64_of_u64 1)) as [Fs Rs]; [done|done|lia| |].
    { assert (num (tokens r) ≤ 2 ^ 53 * ONE) as Hv by nia. by eapply Z.le_lt_trans; [exact Hv|]. }
    rewrite E1 in Rs. pose proof (rounded_upper _ _ _ Rs ltac:(lia) ltac:(lia)) as Us.
    assert (num (f64_sub (tokens r) (f64_of_u64 1)) ≤ num (tokens r)) as Hmono.
    { apply Rs; [done|]. lia. }
    split; [|split; [done|split; [|done]]].
    + split_and!; [done..|]. cbn [tokens]. lia.
    + cbn [tokens last_refill passed]. set (v := num (f64_sub _ _)) in *. lia.
  - split; [done|split; [done|split]].
    + cbn [passed]. lia.
    + intros Hs Hr1 Hc1. specialize (Hone Hs Hr1 Hc1). lia.
Qed.

(** Packets one after the other, with the decisions in order. *)
Fixpoint consume_all (b : TokenBucket) (nows : list Instant) : TokenBucket * list BucketDecision :=
  match nows with
  | [] => (b, [])
  | now :: nows =>
      let '(b, d) := consume b now in
      let '(b, ds) := consume_all b nows in (b, d :: ds)
  end.

Fixpoint passes (ds : list BucketDecision) : Z :=
  match ds with [] => 0 | d :: ds => passed d + passes ds end.

Lemma consume_all_spec nows b until :
  bucket_wf b → Forall (λ now, now ≤ until) nows → until - last_refill b < DURATION_END →
  let '(b', ds) := consume_all b nows in
  bucket_wf b' ∧ (last_refill b' ≤ until ∨ last_refill b' = last_refill b) ∧ last_refill b ≤ last_refill b' ∧
  2 ^ 53 * NANOS * (num (tokens b') + passes ds * ONE) ≤
    2 ^ 53 * NANOS * num (tokens b) +
    8 * (2 ^ 50 + 1) * (rate * (last_refill b' - last_refill b) * ONE) + Z.of_nat (length nows) * slack.
Proof using Hrate Hcap.
  revert b. induction nows as [|now nows IH]; intros b Hwf Hu Hd; cbn [consume_all].
  - rewrite Z.sub_diag, Z.mul_0_r. cbn [passes length]. change NANOS with 1000000000. split; [done|]. lia.
  - apply Forall_cons in Hu as [Hn Hu].
    pose proof (consume_spec b now Hwf ltac:(lia)) as Hc. destruct (consume b now) as [b1 d].
    destruct Hc as (Hwf1&Hl1&Hb1&_). specialize (IH b1 Hwf1 Hu ltac:(lia)).
    destruct (consume_all b1 nows) as [b2 ds]. destruct IH as (Hwf2&Hl2&Hle&Hb2).
    split; [done|]. split; [lia|split; [lia|]]. cbn [passes length]. rewrite Nat2Z.inj_succ.
    change NANOS with 1000000000 in *.
    set (S := slack) in *. set (n := Z.of_nat _) in *. lia.
Qed.

(** The bound, from any state of the bucket. *)
Lemma passes_bound nows b until :
  bucket_wf b → Forall (λ now, now ≤ until) nows →
  0 ≤ until - last_refill b < DURATION_END →
  Z.of_nat (length nows) * (cap + 1) ≤ 2 ^ 50 → rate * (until - last_refill b) ≤ 2 ^ 49 * NANOS →
  (passes (consume_all b nows).2 - cap - 1) * NANOS ≤ rate * (until - last_refill b).
Proof using Hrate Hcap.
  intros Hwf Hu Hd Hn HT. pose proof (consume_all_spec nows b until Hwf Hu ltac:(lia)) as H.
  destruct (consume_all b nows) as [b' ds]. destruct H as (Hwf'&Hl&Hle&Hb). cbn [snd].
  destruct Hwf' as (_&_&Ft'&_), Hwf as (_&_&_&Ht).
  pose proof (num_nonneg _ Ft') as Pt'. pose proof ONE_pos as HO. unfold slack in Hb.
  assert (rate * (last_refill b' - last_refill b) ≤ rate * (until - last_refill b)) as HT'
    by (apply Z.mul_le_mono_nonneg_l; lia).
  set (x := rate * (last_refill b' - last_refill b)) in *. set (y := rate * (until - last_refill b)) in *.
  set (n := Z.of_nat (length nows)) in *. set (P := passes ds) in *.
  change NANOS with 1000000000 in *. assert (0 ≤ n) by (unfold n; lia).
  assert (n * (2 ^ 58 * 1000000000 * (rate + 1) + 2 * 1000000000 * (cap * ONE + 2 ^ 53)) ≤
    1000000000 * (2 ^ 50 * 2 ^ 115 + 2 * (n * cap * ONE))) as Hs.
  { assert (n * (rate + 1) ≤ 2 ^ 50 * 2 ^ 53) by nia. nia. }
  assert (n * cap * ONE ≤ 2 ^ 50 * ONE) by (apply Z.mul_le_mono_nonneg_r; nia).
  assert (0 ≤ x) by (unfold x; apply Z.mul_nonneg_nonneg; lia).
  apply (Z.mul_le_mono_pos_r _ _ (2 ^ 53 * ONE)); [lia|].
  assert (x * ONE ≤ y * ONE ∧ y * ONE ≤ 2 ^ 49 * 1000000000 * ONE) as [? ?]
    by (split; apply Z.mul_le_mono_nonneg_r; lia).
  lia.
Qed.
End bucket.

(** Over any sequence of packets a bucket's tokens remain a finite binary64
    number (never NaN, infinite or negative) that does not exceed the
    capacity, whatever the rounding of the refills and whatever the clock does
    within the range of a [Duration]. *)
Theorem bucket_tokens_typed rate cap start nows until :
  0 ≤ rate < 2 ^ 53 → 0 ≤ cap < 2 ^ 53 →
  Forall (λ now, now ≤ until) nows → until - start < DURATION_END →
  let b := (consume_all (TokenBucket_new rate cap start) nows).1 in
  bucket_wf rate cap b ∧ valid_binary f64_prec f64_emax (tokens b) = true ∧
  f64_ge (tokens b) (f64_of_u64 0) = true ∧ f64_ge (f64_of_u64 cap) (tokens b) = true.
Proof.
  intros Hr Hc Hu Hd.
  pose proof (consume_all_spec rate cap Hr Hc nows _ until (new_wf rate cap Hc start) Hu Hd) as H.
  destruct (consume_all _ nows) as [b ds]. destruct H as [Hwf _]. cbn [fst]. split; [done|].
  destruct Hwf as (_&_&Ft&Ht). destruct (f64_of_int_num cap Hc) as [Fc Ec].
  pose proof (num_nonneg _ Ft). split_and!.
  - destruct (tokens b) as [| | |[] m e]; try done. by apply finite_nonneg_valid.
  - rewrite f64_ge_num by done. by apply Z.leb_le.
  - rewrite f64_ge_num, Ec by done. by apply Z.leb_le.
Qed.

(** C19: over any sequence of packets from [start] until [until], in any order of
    the clock readings, a bucket lets through at most its capacity, what the
    rate yields in that time, and one packet for all rounding errors. The
    bounds of the rounding argument: rate and capacity are below [2^53], the
    [n] packets satisfy [n * (cap + 1) ≤ 2^50], and [rate * seconds ≤ 2^49]; for
    the default global limits that is a flood of a trillion packets. *)
Theorem bucket_rate_bound rate cap start nows until :
  0 ≤ rate < 2 ^ 53 → 0 ≤ cap < 2 ^ 53 →
  Forall (λ now, now ≤ until) nows → 0 ≤ until - start < DURATION_END →
  Z.of_nat (length nows) * (cap + 1) ≤ 2 ^ 50 → rate * (until - start) ≤ 2 ^ 49 * NANOS →
  (passes (consume_all (TokenBucket_new rate cap start) nows).2 - cap - 1) * NANOS
    ≤ rate * (until - start).
Proof.
  intros Hr Hc Hu Hd Hn HT.
  exact (passes_bound rate cap Hr Hc nows (TokenBucket_new rate cap start) until (new_wf rate cap Hc start) Hu Hd Hn HT).
Qed.

(** Whatever happened before, a bucket with a rate and a capacity of at
    least one that was left alone for a second lets the next packet through. *)
Theorem bucket_idle_second rate cap start nows until now :
  1 ≤ rate < 2 ^ 53 → 1 ≤ cap < 2 ^ 53 →
  Forall (λ now, now ≤ until) nows → 0 ≤ until - start →
  until + NANOS ≤ now → now - start < DURATION_END →
  (consume (consume_all (TokenBucket_new rate cap start) nows).1 now).2 = BucketPass.
Proof.
  intros Hr Hc Hu Hd Hn HT. assert (0 ≤ rate < 2 ^ 53) as Hr' by lia. assert (0 ≤ cap < 2 ^ 53) as Hc' by lia.
  change NANOS with 1000000000 in Hn.
  pose proof (consume_all_spec rate cap Hr' Hc' nows _ until (new_wf rate cap Hc' start) Hu) as H.
  cbn [last_refill TokenBucket_new] in H. specialize (H ltac:(lia)).
  destruct (consume_all _ nows) as [b ds]. destruct H as (Hwf&Hl&Hle&_). cbn [fst].
  pose proof (consume_spec rate cap Hr' Hc' b now Hwf ltac:(lia)) as H.
  destruct (consume b now) as [b' d]. destruct H as (_&_&_&Hpass).
  apply Hpass; [change NANOS with 1000000000; lia|lia|lia].
Qed.

(** ** The limiter *)

Section limiter.
Context `{L : LruCache SourceKey TokenBucket}.
Implicit Types (rl : RateLimiter) (ps : list packet_arrival).

Definition tracked_source rl (ip : IpAddr) : bool :=
  match rl_inner rl with
  | Some m => match lru_get_mut (tracked (guarded m)) (key_of rl ip) with Some _ => true | None => false end
  | None => false
  end.

(** The packets let through on behalf of sources that have no bucket of their
    own at the time. *)
Fixpoint untracked_passes rl ps : Z :=
  match ps with
  | [] => 0
  | (ip, reset_now, now) :: ps =>
      let '(rl', d, _) := check rl ip reset_now now in
      (match d with Pass => if tracked_source rl ip then 0 else 1 | Drop _ => 0 end) +
      untracked_passes rl' ps
  end.

(** They are the passes of the global bucket at some of the packets. *)
Lemma untracked_global rl m ps :
  rl_inner rl = Some m → poisoned m = false →
  ∃ nows, nows `sublist_of` (snd <$> ps) ∧
    untracked_passes rl ps = passes (consume_all (global (guarded m)) nows).2.
Proof.
  revert rl m. induction ps as [|[[ip rn] now] ps IH]; intros rl m Hm Hp; [by exists []|].
  cbn [untracked_passes fmap list_fmap]. rewrite (check_unpoisoned rl m) by done.
  assert (∀ rl' i n, rl_inner rl' = Some {| poisoned := false; guarded := i |} →
    (global i = global (guarded m) ∧ n = 0) ∨
    (global i = (consume (global (guarded m)) now).1 ∧ n = passed (consume (global (guarded m)) now).2) →
    ∃ nows, nows `sublist_of` (now :: (snd <$> ps)) ∧
      n + untracked_passes rl' ps = passes (consume_all (global (guarded m)) nows).2) as Hk.
  { intros rl' i n Hi Hn. destruct (IH rl' _ Hi eq_refl) as (nows&Hs&->). cbn [guarded].
    destruct Hn as [[-> ->]|[-> ->]]; [exists nows; split; [by constructor|lia]|].
    exists (now :: nows). split; [by constructor|]. cbn [consume_all].
    destruct (consume _ now) as [g d]. cbn [fst snd]. by destruct (consume_all g nows). }
  unfold tracked_source, check_inner. rewrite Hm.
  destruct (lru_get_mut _ _) as [[b wb]|].
  - destruct (consume b now) as [b' []]; [|destruct (should_warn_log _ _) as [last warn]];
      (eapply Hk; [reflexivity|by left]).
  - destruct (consume (global (guarded m)) now) as [g []] eqn:Eg.
    + pose proof (bump_candidate_cases (set_global (guarded m) g (last_global_drop_warn (guarded m)))
        (key_of rl ip) now) as Hb.
      destruct (bump_candidate _ _ _) as [i' r]. destruct Hb as (_&_&Hg&_).
      destruct r as [n|]; [destruct (n >=? _)|];
        [|eapply Hk; [reflexivity|right; by split]..].
      unfold promote. cbv zeta. destruct (lru_push _ _ _) as [out t].
      eapply Hk; [reflexivity|right; by split].
    + destruct (should_warn_log _ _) as [last warn]. eapply Hk; [reflexivity|right; by split].
Qed.

(** C25: all sources without a bucket of their own together get through an
    enabled limiter at most the global burst, what the global rate yields over
    the time, and one packet, whatever the sources and the order of the packets.
    The bounds are those of the bucket: global rate and burst below [2^53],
    [n * (burst + 1) ≤ 2^50] for the [n] packets, and [rate * seconds ≤ 2^49]. *)
Theorem limiter_global_bound `{HA : HashAlloc} cfg start rl ps until :
  with_clock cfg start = Some rl → enabled cfg = true →
  0 ≤ global_rate_per_sec cfg < 2 ^ 53 → 0 ≤ global_burst cfg < 2 ^ 53 →
  Forall (λ p, p.2 ≤ until) ps → 0 ≤ until - start < DURATION_END →
  Z.of_nat (length ps) * (global_burst cfg + 1) ≤ 2 ^ 50 →
  global_rate_per_sec cfg * (until - start) ≤ 2 ^ 49 * NANOS →
  (untracked_passes rl ps - global_burst cfg - 1) * NANOS ≤ global_rate_per_sec cfg * (until - start).
Proof.
  intros Hrl Hen Hr Hc Hu Hd Hn HT. unfold with_clock in Hrl. rewrite Hen in Hrl. cbn [negb] in Hrl.
  destruct (_ =? 0); [done|]. destruct (negb _); [done|]. destruct (negb _); [done|]. apply (inj Some) in Hrl.
  pose proof (f_equal rl_inner Hrl) as Hi. symmetry in Hi.
  destruct (untracked_global rl _ ps Hi eq_refl) as (nows&Hs&->). cbn [guarded global].
  apply (passes_bound _ _ Hr Hc nows (TokenBucket_new _ _ start)); [by apply new_wf| |done| |done].
  - apply Forall_forall. rewrite Forall_forall in Hu. intros x Hx.
    assert (x ∈ ps.*2) as (p&->&Hp)%list_elem_of_fmap; [|by apply Hu].
    by eapply elem_of_submseteq, sublist_submseteq.
  - apply sublist_length in Hs. rewrite length_fmap in Hs. etransitivity; [|exact Hn].
    apply Z.mul_le_mono_nonneg_r; [lia|]. by apply Nat2Z.inj_le.
Qed.
End limiter.

(** ** Witnesses *)

Lemma bucket_tokens_typed_witness :
  f64_ge (tokens (consume_all (TokenBucket_new 3 7 0) [1; 333333333; 333333334]).1) (f64_of_u64 0) = true.
Proof.
  apply (bucket_tokens_typed 3 7 0 [1; 333333333; 333333334] NANOS); [lia|lia| |vm_compute; reflexivity].
  repeat constructor; vm_compute; discriminate.
Defined.

(** Eleven packets within a second at ten per second, from a burst of three. *)
Definition packet_times : list Instant := (λ i, Z.of_nat i * 90000000) <$> seq 0 11.

Lemma bucket_rate_bound_witness :
  (passes (consume_all (TokenBucket_new 10 3 0) packet_times).2 - 3 - 1) * NANOS ≤ 10 * NANOS.
Proof.
  apply (bucket_rate_bound 10 3 0 packet_times NANOS); [lia|lia| |vm_compute; split; done || discriminate
    |vm_compute; discriminate|vm_compute; discriminate].
  apply (bool_decide_unpack _). vm_compute. exact I.
Defined.

Lemma bucket_idle_second_witness :
  (consume (consume_all (TokenBucket_new 1 1 0) [5; 6; 7]).1 (from_secs 2)).2 = BucketPass.
Proof.
  apply (bucket_idle_second 1 1 0 [5; 6; 7] 7); [lia|lia| |lia|vm_compute; discriminate|vm_compute; reflexivity].
  repeat constructor; lia.
Defined.

#[local] Existing Instance million_entries.

Lemma limiter_global_bound_witness :
  ∃ rl, with_clock small_limit 0 = Some rl ∧
    (untracked_passes rl [(v4 10 0 0 1, 0, 0); (v4 10 0 0 2, 0, 5)] - 5 - 1) * NANOS ≤ 1 * 5.
Proof.
  eexists. split; [reflexivity|].
  apply (limiter_global_bound small_limit 0 _ [(v4 10 0 0 1, 0, 0); (v4 10 0 0 2, 0, 5)] 5);
    [reflexivity|reflexivity|vm_compute; split; done || discriminate|vm_compute; split; done || discriminate
    | |vm_compute; split; done || discriminate|vm_compute; discriminate|vm_compute; discriminate].
  repeat constructor; vm_compute; discriminate.
Defined.
