(* ===== verification/Firewall.v ===== *)
(** * fwknox-firewall: rules and backends

    Models crates/fwknox-firewall/src/{error,rule,backend,mock,nftables}.rs.
    [FirewallBackend] is the trait, with the in-memory mock and the nftables
    backend as instances; [FirewallLaws] is what the daemon relies on, and the
    nftables backend discharges it from what a kernel promises. The [nftables]
    crate and the kernel are parameters. *)

From S2P Require Import Prelude RustStd Net Proto Config.

(** ** error.rs *)

Inductive FirewallError :=
  | Backend (msg : str)
  | RuleNotFound (handle : str)
  | InconsistentState (msg : str)
  | Unsupported (what : str).

#[global] Instance FirewallError_eq_dec : EqDecision FirewallError.
Proof. solve_decision. Defined.

Definition show_FirewallError (e : FirewallError) : str :=
  match e with
  | Backend m => lit "nftables backend failure: " ++ m
  | RuleNotFound h => lit "rule not found: " ++ h
  | InconsistentState m => lit "backend in inconsistent state: " ++ m
  | Unsupported w => lit "operation not supported: " ++ w
  end.

(** ** rule.rs *)

Record AccessRule := {
  rule_source_ip : IpAddr;
  rule_ports : list PortProto;
  rule_timeout : Duration;
  rule_comment : str;
}.

#[global] Instance AccessRule_eq_dec : EqDecision AccessRule.
Proof. solve_decision. Defined.

(** [RuleHandle(String)]. *)
Abbreviation RuleHandle := str (only parsing).

Definition RuleHandle_new (s : str) : RuleHandle := s.
Definition as_str (h : RuleHandle) : str := h.

(** ** backend.rs *)

Class FirewallBackend (B : Type) := {
  fw_init : B → B * result FirewallError unit;
  fw_open_access : B → AccessRule → B * result FirewallError RuleHandle;
  fw_remove_rule : B → RuleHandle → B * result FirewallError unit;
  fw_flush : B → B * result FirewallError unit;
}.

(** One open door: source address, protocol and destination port, as the
    firewall writes them. *)
Definition grant : Type := str * str * Z.

(** The doors a source gets when it asks for some ports. *)
Definition doors_of (source_ip : IpAddr) (ports : list PortProto) : list grant :=
  (λ pp, (show_ip source_ip, show_Protocol (proto pp), port pp)) <$> ports.

Definition rule_grants (r : AccessRule) : list grant := doors_of (rule_source_ip r) (rule_ports r).

(** What the daemon relies on: opening adds exactly the doors of the rule or,
    on error, none; nothing else ever opens a door. *)
Class FirewallLaws (B : Type) `{F : !FirewallBackend B} := {
  fw_doors : B → gset grant;
  fw_init_doors b : fw_doors (fw_init b).1 ⊆ fw_doors b;
  fw_open_ok b r b' h :
    fw_open_access b r = (b', Ok h) → fw_doors b' = fw_doors b ∪ list_to_set (rule_grants r);
  fw_open_err b r b' e : fw_open_access b r = (b', Err e) → fw_doors b' = fw_doors b;
  fw_remove_doors b h : fw_doors (fw_remove_rule b h).1 ⊆ fw_doors b;
  fw_flush_doors b : fw_doors (fw_flush b).1 ⊆ fw_doors b;
}.

(** ** mock.rs *)

Module Mock.

Record MockState := {
  initialized : bool;
  next_id : Z;
  rules : gmap str AccessRule;
}.

Definition mock_new : MockState := {| initialized := false; next_id := 0; rules := ∅ |}.

Definition is_initialized (s : MockState) : bool := initialized s.
Definition installed_rules (s : MockState) : gmap str AccessRule := rules s.

Definition mock_init (s : MockState) : MockState * result FirewallError unit :=
  ({| initialized := true; next_id := next_id s; rules := rules s |}, Ok ()).

Definition mock_open_access (s : MockState) (rule : AccessRule)
  : MockState * result FirewallError RuleHandle :=
  if negb (initialized s) then
    (s, Err (InconsistentState (lit "open_access called before init")))
  else
    let id := lit "mock-" ++ dec (next_id s) in
    ({| initialized := initialized s; next_id := wrap_u64 (next_id s + 1);
        rules := <[id := rule]> (rules s) |}, Ok id).

Definition mock_remove_rule (s : MockState) (handle : RuleHandle)
  : MockState * result FirewallError unit :=
  match rules s !! handle with
  | None => (s, Err (RuleNotFound handle))
  | Some _ =>
      ({| initialized := initialized s; next_id := next_id s; rules := delete handle (rules s) |},
       Ok ())
  end.

Definition mock_flush (s : MockState) : MockState * result FirewallError unit :=
  ({| initialized := false; next_id := next_id s; rules := ∅ |}, Ok ()).

#[global] Instance MockBackend : FirewallBackend MockState := {
  fw_init := mock_init;
  fw_open_access := mock_open_access;
  fw_remove_rule := mock_remove_rule;
  fw_flush := mock_flush;
}.

End Mock.

(** ** nftables.rs *)

(** *** The parts of the [nftables] crate's schema the backend builds; fields
    the source leaves [None] are left out, and [ExprOther] and [ObjOther]
    stand for every shape it never builds. *)

Inductive Expression :=
  | ExprString (s : str)
  | ExprNumber (n : Z)
  | ExprConcat (parts : list Expression)
  | ExprElem (val : Expression) (timeout : option Z)
  | ExprPayloadField (protocol field : str)
  | ExprMetaL4proto
  | ExprOther.

Inductive Statement :=
  | StmtMatchIn (left right : Expression)
  | StmtAccept.

Inductive NfListObject :=
  | NfTable (family name : str)
  | NfSet (family table name : str) (set_type : list str) (flags : list str)
      (elem : option (list Expression))
  | NfChain (family table name chain_type hook : str) (prio : Z) (policy : str)
  | NfRule (family table chain : str) (expr : list Statement)
  | NfElement (family table name : str) (elem : list Expression)
  | NfOther.

(** A batch is a list of commands; a listing holds plain objects. *)
Inductive NfObject :=
  | CmdAdd (o : NfListObject)
  | CmdDelete (o : NfListObject)
  | ListObject (o : NfListObject)
  | ObjOther.

Abbreviation Nftables := (list NfObject) (only parsing).

Inductive NftablesError :=
  | NftFailed (program hint stdout stderr : str)
  | NftOther (display : str).

(** [nftables::helper] on a kernel of type [K]. *)
Class NftHelper (K : Type) := {
  helper_apply_ruleset : Nftables → K → K * result NftablesError unit;
  helper_get_current_ruleset : K → result NftablesError Nftables;
}.

(** The trait [RulesetApplier]; its default [get_current] is [Unsupported]. *)
Class RulesetApplier (K : Type) := {
  ra_apply : Nftables → K → K * result FirewallError unit;
  ra_get_current : K → result FirewallError Nftables;
}.

Definition TABLE_NAME : str := lit "fwknox".
Definition SET_NAME : str := lit "fwknox_allow_v4".
Definition CHAIN_NAME : str := lit "input".
Definition INET : str := lit "inet".

Definition nftables_error_to_firewall `{UnicodeTables} (err : NftablesError) : FirewallError :=
  match err with
  | NftFailed program hint stdout stderr =>
      Backend (program ++ lit " failed while " ++ hint ++ lit ": stdout=" ++ debug_str stdout ++
               lit " stderr=" ++ debug_str stderr)
  | NftOther display => Backend display
  end.

Definition system_apply `{UnicodeTables} {K} `{NftHelper K} (rs : Nftables) (k : K)
  : K * result FirewallError unit :=
  let '(k, r) := helper_apply_ruleset rs k in (k, map_err nftables_error_to_firewall r).

Definition SystemApplier `{UnicodeTables} {K} `{NftHelper K} : RulesetApplier K := {|
  ra_apply := system_apply;
  ra_get_current k := map_err nftables_error_to_firewall (helper_get_current_ruleset k);
|}.

Definition stderr_indicates_missing_element (stderr : str) : bool :=
  let lower := to_ascii_lowercase stderr in
  str_contains lower (lit "no such file or directory") ||
  str_contains lower (lit "could not process rule") ||
  str_contains lower (lit "set element does not exist").

(** The searched text ends in two double quotes. *)
Definition backend_has_empty_stderr (msg : str) : bool :=
  str_contains msg (lit "stderr=" ++ [34; 34]).

(** The target one entry of a handle names, if it is well formed. *)
Definition handle_target (entry : str) : option grant :=
  match split_char 47 entry with
  | [ip; pr; p] =>
      match parse_uint u32_max p with Ok n => Some (ip, pr, n) | Err _ => None end
  | _ => None
  end.

(** The grant a listed set element stands for. *)
Definition element_grant (e : Expression) : option grant :=
  match e with
  | ExprConcat [ExprString ip; ExprString pr; ExprNumber n] => Some (ip, pr, n)
  | _ => None
  end.

Definition handle_has_present_elements (handle : RuleHandle) (ruleset : Nftables) : bool :=
  let targets := omap handle_target (split_char 44 handle) in
  if bool_decide (targets = []) then true
  else existsb (λ obj,
    match obj with
    | ListObject (NfSet _ _ name _ _ (Some elems)) =>
        bool_decide (name = SET_NAME) &&
        existsb (λ e, match element_grant e with
                      | Some g => existsb (λ t, bool_decide (t = g)) targets
                      | None => false
                      end) elems
    | _ => false
    end) ruleset.

(** The four objects [init] creates. *)
Definition init_ruleset : Nftables := [
  CmdAdd (NfTable INET TABLE_NAME);
  CmdAdd (NfSet INET TABLE_NAME SET_NAME
            [lit "ipv4_addr"; lit "inet_proto"; lit "inet_service"] [lit "timeout"] None);
  CmdAdd (NfChain INET TABLE_NAME CHAIN_NAME (lit "filter") (lit "input") 0 (lit "accept"));
  CmdAdd (NfRule INET TABLE_NAME CHAIN_NAME [
    StmtMatchIn
      (ExprConcat [ExprPayloadField (lit "ip") (lit "saddr"); ExprMetaL4proto;
                   ExprPayloadField (lit "th") (lit "dport")])
      (ExprString (lit "@" ++ SET_NAME));
    StmtAccept])
].

(** [u32::try_from(secs).unwrap_or(u32::MAX)]. *)
Definition timeout_secs (d : Duration) : Z := Z.min (as_secs d) u32_max.

(** One pass of the loop in [open_access]: the command and the handle part. *)
Definition open_element (octets : bytes) (timeout : Z) (pp : PortProto) : NfObject :=
  CmdAdd (NfElement INET TABLE_NAME SET_NAME [
    ExprElem
      (ExprConcat [ExprString (show_ipv4 octets); ExprString (show_Protocol (proto pp));
                   ExprNumber (port pp)])
      (Some timeout)]).
Definition handle_part (octets : bytes) (pp : PortProto) : str :=
  show_ipv4 octets ++ lit "/" ++ show_Protocol (proto pp) ++ lit "/" ++ dec (port pp).

Definition open_batch (octets : bytes) (rule : AccessRule) : Nftables :=
  open_element octets (timeout_secs (rule_timeout rule)) <$> rule_ports rule.
Definition open_handle (octets : bytes) (rule : AccessRule) : RuleHandle :=
  str_join (lit ",") (handle_part octets <$> rule_ports rule).

(** One pass of the loop in [remove_rule]. *)
Definition delete_element (handle entry : str) : result FirewallError NfObject :=
  match split_char 47 entry with
  | [ip; pr; p] =>
      n ← map_err (λ _, RuleNotFound handle) (parse_uint u16_max p);
      Ok (CmdDelete (NfElement INET TABLE_NAME SET_NAME
            [ExprConcat [ExprString ip; ExprString pr; ExprNumber n]]))
  | _ => Err (RuleNotFound handle)
  end.
Fixpoint delete_elements (handle : str) (entries : list str) : result FirewallError Nftables :=
  match entries with
  | [] => Ok []
  | e :: es => o ← delete_element handle e; os ← delete_elements handle es; Ok (o :: os)
  end.
Definition delete_batch (handle : RuleHandle) : result FirewallError Nftables :=
  delete_elements handle (split_char 44 handle).

Definition flush_ruleset : Nftables := [CmdDelete (NfTable INET TABLE_NAME)].

Module Nft.
Section backend.
Context {K : Type} `{A : !RulesetApplier K}.

(** The backend's own state and the kernel its applier talks to. *)
Record NftablesBackend := { initialized : bool; kernel : K }.

Definition with_applier (k : K) : NftablesBackend := {| initialized := false; kernel := k |}.

(** [new] takes the applier of the running system, [default] is [new]. *)
Definition nft_new (system : K) : NftablesBackend := with_applier system.
Definition nft_default (system : K) : NftablesBackend := nft_new system.

Definition assert_initialized (b : NftablesBackend) (op : str) : result FirewallError unit :=
  guard_err (negb (initialized b)) (InconsistentState (op ++ lit " called before init")).

Definition nft_init (b : NftablesBackend) : NftablesBackend * result FirewallError unit :=
  match ra_apply init_ruleset (kernel b) with
  | (k, Err e) => ({| initialized := initialized b; kernel := k |}, Err e)
  | (k, Ok _) => ({| initialized := true; kernel := k |}, Ok ())
  end.

Definition nft_open_access (b : NftablesBackend) (rule : AccessRule)
  : NftablesBackend * result FirewallError RuleHandle :=
  match assert_initialized b (lit "open_access") with
  | Err e => (b, Err e)
  | Ok _ =>
      match rule_source_ip rule with
      | V6 _ =>
          (b, Err (Unsupported (lit
             "IPv6 source addresses (Phase 2 nftables backend is IPv4-only)")))
      | V4 octets =>
          match ra_apply (open_batch octets rule) (kernel b) with
          | (k, Err e) => ({| initialized := initialized b; kernel := k |}, Err e)
          | (k, Ok _) =>
              ({| initialized := initialized b; kernel := k |}, Ok (open_handle octets rule))
          end
      end
  end.

(** What [remove_rule] makes of a failed batch, on the kernel [k] it left. *)
Definition remove_error (handle : RuleHandle) (k : K) (e : FirewallError) : FirewallError :=
  match e with
  | Backend msg =>
      if stderr_indicates_missing_element msg then RuleNotFound handle
      else if backend_has_empty_stderr msg then
        match ra_get_current k with
        | Ok rs => if negb (handle_has_present_elements handle rs) then RuleNotFound handle
                   else Backend msg
        | Err _ => Backend msg
        end
      else Backend msg
  | e => e
  end.

Definition nft_remove_rule (b : NftablesBackend) (handle : RuleHandle)
  : NftablesBackend * result FirewallError unit :=
  match assert_initialized b (lit "remove_rule") with
  | Err e => (b, Err e)
  | Ok _ =>
      match delete_batch handle with
      | Err e => (b, Err e)
      | Ok batch =>
          match ra_apply batch (kernel b) with
          | (k, Ok _) => ({| initialized := initialized b; kernel := k |}, Ok ())
          | (k, Err e) =>
              ({| initialized := initialized b; kernel := k |}, Err (remove_error handle k e))
          end
      end
  end.

(** An error of the batch is logged and dropped. *)
Definition nft_flush (b : NftablesBackend) : NftablesBackend * result FirewallError unit :=
  let '(k, _) := ra_apply flush_ruleset (kernel b) in
  ({| initialized := false; kernel := k |}, Ok ()).

#[global] Instance nft_backend : FirewallBackend NftablesBackend := {
  fw_init := nft_init;
  fw_open_access := nft_open_access;
  fw_remove_rule := nft_remove_rule;
  fw_flush := nft_flush;
}.
End backend.
Arguments NftablesBackend : clear implicits.
End Nft.

(** ** What a kernel promises

    [allow_set] is the set the lookup rule consults. A batch is one
    transaction: it has the effect of its commands in order, or none. *)

Definition expr_grant (e : Expression) : option grant :=
  match e with ExprElem v _ => element_grant v | e => element_grant e end.

Definition cmd_effect (s : gset grant) (o : NfObject) : gset grant :=
  match o with
  | CmdAdd (NfElement _ t n es) =>
      if bool_decide (t = TABLE_NAME ∧ n = SET_NAME) then s ∪ list_to_set (omap expr_grant es) else s
  | CmdDelete (NfElement _ t n es) =>
      if bool_decide (t = TABLE_NAME ∧ n = SET_NAME) then s ∖ list_to_set (omap expr_grant es) else s
  | CmdDelete (NfTable _ n) => if bool_decide (n = TABLE_NAME) then ∅ else s
  | _ => s
  end.

Class ApplierLaws (K : Type) `{A : !RulesetApplier K} := {
  allow_set : K → gset grant;
  apply_ok rs k k' : ra_apply rs k = (k', Ok ()) → allow_set k' = foldl cmd_effect (allow_set k) rs;
  apply_err rs k k' e : ra_apply rs k = (k', Err e) → allow_set k' = allow_set k;
}.

Section nft_lemmas.
Context {K : Type} `{A : !RulesetApplier K} `{AL : !ApplierLaws K}.
Implicit Types (b : Nft.NftablesBackend K) (r : AccessRule) (o : bytes).

Lemma init_effect s : foldl cmd_effect s init_ruleset = s.
Proof. done. Qed.

Lemma open_effect s o t (pps : list PortProto) :
  foldl cmd_effect s (open_element o t <$> pps) =
  s ∪ list_to_set ((λ pp, (show_ipv4 o, show_Protocol (proto pp), port pp)) <$> pps).
Proof.
  revert s. induction pps as [|pp pps IH]; intros s; cbn [fmap list_fmap foldl list_to_set];
    [set_solver|]. rewrite IH. unfold open_element. cbn [cmd_effect].
  rewrite bool_decide_eq_true_2 by done. cbn. set_solver.
Qed.

Definition delete_cmd (g : grant) : NfObject :=
  CmdDelete (NfElement INET TABLE_NAME SET_NAME
    [ExprConcat [ExprString g.1.1; ExprString g.1.2; ExprNumber g.2]]).

Lemma delete_effect s (gs : list grant) :
  foldl cmd_effect s (delete_cmd <$> gs) = s ∖ list_to_set gs.
Proof.
  revert s. induction gs as [|[[ip pr] n] gs IH]; intros s;
    cbn [fmap list_fmap foldl list_to_set]; [set_solver|]. rewrite IH. cbn [delete_cmd cmd_effect].
  rewrite bool_decide_eq_true_2 by done. cbn. set_solver.
Qed.

Lemma delete_elements_shape handle es batch :
  delete_elements handle es = Ok batch → ∃ gs, batch = delete_cmd <$> gs.
Proof.
  revert batch. induction es as [|e es IH]; intros batch; simpl.
  { intros [= <-]. by exists []. }
  rewrite result_bind_ok. intros (o & Ho & Hes). rewrite result_bind_ok in Hes.
  destruct Hes as (os & Hos & [= <-]). destruct (IH os Hos) as [gs ->].
  unfold delete_element in Ho. destruct (split_char 47 e) as [|ip [|pr [|p [|]]]]; try done.
  inv_ok. subst. by exists ((ip, pr, x) :: gs).
Qed.

#[global] Program Instance nft_firewall_laws : FirewallLaws (Nft.NftablesBackend K) := {
  fw_doors b := allow_set (Nft.kernel b);
}.
Next Obligation.
  intros b. cbn. unfold Nft.nft_init. destruct (ra_apply init_ruleset _) as [k [[]|e]] eqn:E; cbn.
  - by rewrite (apply_ok _ _ _ E), init_effect.
  - by rewrite (apply_err _ _ _ _ E).
Qed.
Next Obligation.
  intros b r b' h. cbn. unfold Nft.nft_open_access.
  destruct (Nft.assert_initialized _ _); [|done].
  destruct (rule_source_ip r) as [o|o] eqn:Hip; [|done].
  destruct (ra_apply (open_batch o r) _) as [k [[]|e]] eqn:E; [|done].
  intros [= <- _]. cbn. rewrite (apply_ok _ _ _ E). unfold open_batch, rule_grants, doors_of.
  by rewrite open_effect, Hip.
Qed.
Next Obligation.
  intros b r b' e. cbn. unfold Nft.nft_open_access.
  destruct (Nft.assert_initialized _ _); [|naive_solver].
  destruct (rule_source_ip r) as [o|o]; [|naive_solver].
  destruct (ra_apply (open_batch o r) _) as [k [[]|e']] eqn:E; [done|].
  intros [= <- _]. cbn. by rewrite (apply_err _ _ _ _ E).
Qed.
Next Obligation.
  intros b h. cbn. unfold Nft.nft_remove_rule. destruct (Nft.assert_initialized _ _); [|done].
  destruct (delete_batch h) as [batch|] eqn:Hd; [|done].
  destruct (ra_apply batch _) as [k [[]|e]] eqn:E; cbn.
  - apply delete_elements_shape in Hd as [gs ->]. rewrite (apply_ok _ _ _ E), delete_effect.
    set_solver.
  - by rewrite (apply_err _ _ _ _ E).
Qed.
Next Obligation.
  intros b. cbn. unfold Nft.nft_flush. destruct (ra_apply flush_ruleset _) as [k [[]|e]] eqn:E; cbn.
  - rewrite (apply_ok _ _ _ E). cbn. set_solver.
  - by rewrite (apply_err _ _ _ _ E).
Qed.

(** A handle part splits into address, protocol and port again. *)
Lemma handle_part_split o pp :
  is_bytes o → 0 ≤ port pp →
  split_char 47 (handle_part o pp) = [show_ipv4 o; show_Protocol (proto pp); dec (port pp)].
Proof.
  intros Ho Hp. unfold handle_part. change (lit "/") with [47]. cbn [app].
  assert (47 ∉ show_ipv4 o) as Hip.
  { intros Hin. pose proof (show_ipv4_chars o Ho) as Hc. rewrite Forall_forall in Hc.
    by apply Hc in Hin. }
  rewrite split_char_sep by done.
  rewrite split_char_sep by (destruct (proto pp); apply (bool_decide_unpack _); vm_compute; exact I).
  rewrite split_char_none; [done|]. intros Hin. pose proof (dec_digits (port pp) Hp) as Hd.
  rewrite Forall_forall in Hd. by apply Hd in Hin.
Qed.

Lemma handle_part_no_comma o pp : is_bytes o → 0 ≤ port pp → 44 ∉ handle_part o pp.
Proof.
  intros Ho Hp. unfold handle_part. rewrite !not_elem_of_app. split_and!.
  - intros Hin. pose proof (show_ipv4_chars o Ho) as Hc. rewrite Forall_forall in Hc.
    by apply Hc in Hin.
  - apply (bool_decide_unpack _). vm_compute. exact I.
  - destruct (proto pp); apply (bool_decide_unpack _); vm_compute; exact I.
  - apply (bool_decide_unpack _). vm_compute. exact I.
  - intros Hin. pose proof (dec_digits (port pp) Hp) as Hd. rewrite Forall_forall in Hd.
    by apply Hd in Hin.
Qed.

Lemma delete_handle o pps handle :
  is_bytes o → Forall (λ pp, is_u16 (port pp)) pps →
  delete_elements handle (handle_part o <$> pps) =
  Ok (delete_cmd <$> ((λ pp, (show_ipv4 o, show_Protocol (proto pp), port pp)) <$> pps)).
Proof.
  intros Ho Hp. induction Hp as [|pp pps Hpp _ IH]; [done|].
  cbn [fmap list_fmap delete_elements]. unfold delete_element, is_u16 in *.
  rewrite handle_part_split by (done || lia). rewrite parse_uint_dec by done.
  cbn [map_err mbind result_bind]. rewrite IH. done.
Qed.

Lemma delete_batch_err h e : delete_batch h = Err e → e = RuleNotFound h.
Proof.
  unfold delete_batch. generalize (split_char 44 h) as es. induction es as [|x es IH]; [done|].
  cbn [delete_elements]. destruct (delete_element h x) as [o|e'] eqn:Ho; cbn [mbind result_bind].
  - destruct (delete_elements h es); [done|]. naive_solver.
  - intros [= <-]. unfold delete_element in Ho.
    destruct (split_char 47 x) as [|ip [|pr [|p [|]]]]; try naive_solver.
    destruct (parse_uint u16_max p); naive_solver.
Qed.

Lemma delete_open_handle o r :
  is_bytes o → rule_source_ip r = V4 o → rule_ports r ≠ [] →
  Forall (λ pp, is_u16 (port pp)) (rule_ports r) →
  delete_batch (open_handle o r) = Ok (delete_cmd <$> rule_grants r).
Proof.
  intros Ho Hip Hne Hp. unfold delete_batch, open_handle. change (lit ",") with [44].
  rewrite split_char_join.
  - rewrite delete_handle by done. unfold rule_grants, doors_of. by rewrite Hip.
  - destruct (rule_ports r); done.
  - apply Forall_fmap. eapply Forall_impl; [exact Hp|]. intros pp Hpp.
    apply handle_part_no_comma; [done|]. unfold is_u16 in Hpp. simpl. lia.
Qed.
End nft_lemmas.

(** ** Properties of the nftables backend *)

Section nft_properties.
Context {K : Type} `{A : !RulesetApplier K} `{AL : !ApplierLaws K}.
Implicit Types (b : Nft.NftablesBackend K) (r : AccessRule) (o : bytes).

(** [open_access] on every branch. Before [init] and for an IPv6 source
    it fails without touching the kernel. Otherwise it submits one
    transaction: a success opens exactly the rule's doors and hands out the
    handle that names them, a failure of the kernel is returned as it is and
    opens nothing. *)
Theorem nft_open_access_spec b r :
  let '(b', res) := Nft.nft_open_access b r in
  Nft.initialized b' = Nft.initialized b ∧
  match res with
  | Ok h =>
      Nft.initialized b = true ∧
      (∃ o, rule_source_ip r = V4 o ∧ h = open_handle o r) ∧
      fw_doors b' = fw_doors b ∪ list_to_set (rule_grants r)
  | Err e =>
      fw_doors b' = fw_doors b ∧
      ((Nft.initialized b = false ∧ b' = b ∧
        e = InconsistentState (lit "open_access called before init")) ∨
       (∃ o, rule_source_ip r = V6 o ∧ b' = b ∧ ∃ w, e = Unsupported w) ∨
       (∃ o k, rule_source_ip r = V4 o ∧ ra_apply (open_batch o r) (Nft.kernel b) = (k, Err e)))
  end.
Proof.
  pose proof (fw_open_ok b r) as Hok. pose proof (fw_open_err b r) as Herr.
  cbn [fw_open_access Nft.nft_backend] in Hok, Herr.
  destruct (Nft.nft_open_access b r) as [b' res] eqn:E. revert E.
  unfold Nft.nft_open_access, Nft.assert_initialized, guard_err.
  destruct (Nft.initialized b) eqn:Hi; cbn [negb].
  - destruct (rule_source_ip r) as [o|o] eqn:Hip.
    + destruct (ra_apply (open_batch o r) _) as [k [[]|e]] eqn:E; intros [= <- <-]; cbn [Nft.initialized].
      * split_and!; eauto.
      * split_and!; eauto. right; right. eauto.
    + intros [= <- <-]. split_and!; eauto. right; left. eauto 6.
  - intros [= <- <-]. split_and!; eauto.
Qed.

(** C37: removing what was opened. The handle of a successful [open_access]
    with at least one port is always understood by [remove_rule], whose
    batch deletes exactly the doors the rule opened, in order; when the
    kernel accepts it, those doors are closed and all others stay. *)
Theorem nft_open_remove b r b1 h :
  ip_wf (rule_source_ip r) → Forall (λ pp, is_u16 (port pp)) (rule_ports r) → rule_ports r ≠ [] →
  Nft.nft_open_access b r = (b1, Ok h) →
  delete_batch h = Ok (delete_cmd <$> rule_grants r) ∧
  match Nft.nft_remove_rule b1 h with
  | (b2, Ok _) => fw_doors b2 = fw_doors b ∖ list_to_set (rule_grants r)
  | (b2, Err _) => fw_doors b2 = fw_doors b1
  end.
Proof.
  intros Hwf Hp Hne Ho. pose proof (fw_open_ok b r b1 h Ho) as Hd.
  unfold Nft.nft_open_access, Nft.assert_initialized, guard_err in Ho.
  destruct (Nft.initialized b) eqn:Hi; [|done]. cbn [negb] in Ho.
  destruct (rule_source_ip r) as [o|o] eqn:Hip; [|done].
  destruct (ra_apply (open_batch o r) _) as [k [[]|e]] eqn:E; [|done].
  injection Ho as <- <-. destruct Hwf as [_ Hbytes].
  assert (delete_batch (open_handle o r) = Ok (delete_cmd <$> rule_grants r)) as Hb
    by by apply delete_open_handle.
  split; [done|]. unfold Nft.nft_remove_rule, Nft.assert_initialized.
  cbn [Nft.initialized guard_err negb Nft.kernel]. rewrite Hb.
  destruct (ra_apply (delete_cmd <$> rule_grants r) k) as [k2 [[]|e2]] eqn:E2.
  - cbn [fw_doors nft_firewall_laws Nft.kernel] in *.
    rewrite (apply_ok _ _ _ E2), delete_effect, Hd. set_solver.
  - cbn [fw_doors nft_firewall_laws Nft.kernel] in *. by rewrite (apply_err _ _ _ _ E2).
Qed.

(** [remove_rule] never opens a door, and reports a rule as not found
    exactly when the handle is malformed or the kernel's failure is
    classified as a missing element; a rule without ports has such a
    handle. *)
Theorem nft_remove_not_found b h :
  Nft.initialized b = true →
  fw_doors (Nft.nft_remove_rule b h).1 ⊆ fw_doors b ∧
  ((Nft.nft_remove_rule b h).2 = Err (RuleNotFound h) ↔
   (∃ e, delete_batch h = Err e) ∨
   ∃ batch k e, delete_batch h = Ok batch ∧ ra_apply batch (Nft.kernel b) = (k, Err e) ∧
     (e = RuleNotFound h ∨
      ∃ msg, e = Backend msg ∧
        (stderr_indicates_missing_element msg = true ∨
         backend_has_empty_stderr msg = true ∧
         ∃ rs, ra_get_current k = Ok rs ∧ handle_has_present_elements h rs = false))) ∧
  (∀ o r, rule_ports r = [] → delete_batch (open_handle o r) = Err (RuleNotFound [])).
Proof.
  intros Hi. pose proof (fw_remove_doors b h) as Hd. cbn [fw_remove_rule Nft.nft_backend] in Hd.
  split; [done|]. split; [clear Hd|by intros o r Hr; unfold open_handle; rewrite Hr].
  unfold Nft.nft_remove_rule, Nft.assert_initialized. rewrite Hi. cbn [guard_err negb].
  destruct (delete_batch h) as [batch|e] eqn:Hb.
  2: { apply delete_batch_err in Hb. subst e. cbn. split; eauto. }
  destruct (ra_apply batch _) as [k [[]|e]] eqn:E; cbn [snd].
  { split; [done|]. intros [[e He]|(batch' & k' & e & [= <-] & He & _)]; congruence. }
  split.
  - intros [= He]. right. exists batch, k, e. split_and!; [done|done|].
    unfold Nft.remove_error in He. destruct e as [msg| | |]; try (by left; congruence).
    right. exists msg. split; [done|]. destruct (stderr_indicates_missing_element msg); [by left|right].
    destruct (backend_has_empty_stderr msg); [|done].
    destruct (ra_get_current k) as [rs|]; [|done].
    destruct (handle_has_present_elements h rs) eqn:Hp; [done|]. eauto.
  - intros [[e' ?]|(batch' & k' & e' & [= <-] & E' & He)]; [done|]. f_equal.
    rewrite E in E'. injection E' as <- <-.
    unfold Nft.remove_error. destruct He as [->|(msg & -> & [->|(-> & rs & -> & ->)])]; [done|done|].
    by destruct (stderr_indicates_missing_element msg).
Qed.
End nft_properties.

(** ** Properties of the mock *)

Section mock_properties.
Import Mock.
Implicit Types (s : MockState) (r : AccessRule).

(** Handles given out so far are numbered below the next one. *)
Definition mock_inv s : Prop :=
  0 ≤ next_id s ∧ ∀ h r, rules s !! h = Some r → ∃ k, 0 ≤ k < next_id s ∧ h = lit "mock-" ++ dec k.

Lemma mock_fresh s : mock_inv s → rules s !! (lit "mock-" ++ dec (next_id s)) = None.
Proof.
  intros [Hn Hk]. destruct (rules s !! _) as [r|] eqn:E; [|done].
  apply Hk in E as (k & Hlt & E). apply app_inv_head in E.
  assert (parse_uint (next_id s) (dec (next_id s)) = Ok (next_id s)) as H1 by (apply parse_uint_dec; lia).
  assert (parse_uint (next_id s) (dec k) = Ok k) as H2 by (apply parse_uint_dec; lia).
  rewrite E, H2 in H1. injection H1 as H1. lia.
Qed.

(** The in-memory backend. From a state with numbered handles, opening
    stores the rule under a handle no other rule has, and removing that
    handle brings back exactly the rules there were; a second removal is
    [RuleNotFound], and [flush] leaves nothing and needs a new [init]. *)
Theorem mock_open_remove s r :
  mock_inv s → initialized s = true → next_id s < u64_max →
  ∃ s1 h, mock_open_access s r = (s1, Ok h) ∧ mock_inv s1 ∧ rules s !! h = None ∧
    rules s1 = <[h := r]> (rules s) ∧
    ∃ s2, mock_remove_rule s1 h = (s2, Ok ()) ∧ rules s2 = rules s ∧
      mock_remove_rule s2 h = (s2, Err (RuleNotFound h)) ∧
      rules (mock_flush s2).1 = ∅ ∧
      (mock_open_access (mock_flush s2).1 r).2 =
        Err (InconsistentState (lit "open_access called before init")).
Proof.
  intros Hinv Hi Hmax. pose proof (mock_fresh s Hinv) as Hfresh. destruct Hinv as [Hn Hk].
  unfold mock_open_access. rewrite Hi. cbn [negb]. do 2 eexists. split; [reflexivity|].
  assert (wrap_u64 (next_id s + 1) = next_id s + 1) as Hw
    by (unfold wrap_u64, u64_max in *; apply Z.mod_small; lia).
  split_and!; [|done|done|].
  - split; cbn [next_id rules]; rewrite Hw; [lia|]. intros h r'. rewrite lookup_insert_Some.
    intros [[<- _]|[_ Hh]]; [exists (next_id s); split; [lia|done]|].
    apply Hk in Hh as (k & ? & ->). exists k. split; [lia|done].
  - unfold mock_remove_rule. cbn [rules]. rewrite lookup_insert_eq. eexists. split; [done|].
    cbn [rules]. rewrite delete_insert_eq, delete_id by done. rewrite Hfresh. done.
Qed.
End mock_properties.

(** ** Witnesses *)

(** A kernel that is just the allow set and accepts every batch. *)
Definition set_kernel : RulesetApplier (gset grant) := {|
  ra_apply rs s := (foldl cmd_effect s rs, Ok ());
  ra_get_current s := Ok [ListObject (NfSet INET TABLE_NAME SET_NAME [] []
    (Some ((λ g, ExprConcat [ExprString g.1.1; ExprString g.1.2; ExprNumber g.2]) <$> elements s)))];
|}.
#[global] Existing Instance set_kernel.
#[global] Program Instance set_kernel_laws : ApplierLaws (gset grant) := { allow_set s := s }.
Next Obligation. by intros rs k k' [= <-]. Qed.
Next Obligation. by intros rs k k' e [=]. Qed.

Definition sample_rule : AccessRule := {|
  rule_source_ip := V4 [10; 0; 0; 9]; rule_ports := [PortProto_new Tcp 22; PortProto_new Udp 53];
  rule_timeout := from_secs 30; rule_comment := lit "fwknox:alice:1" |}.
Definition ready_nft : Nft.NftablesBackend (gset grant) := {| Nft.initialized := true; Nft.kernel := ∅ |}.

Lemma nft_open_remove_witness :
  delete_batch (lit "10.0.0.9/tcp/22,10.0.0.9/udp/53") = Ok (delete_cmd <$> rule_grants sample_rule).
Proof.
  apply (nft_open_remove ready_nft sample_rule (Nft.nft_open_access ready_nft sample_rule).1).
  - split; [reflexivity|]. apply (bool_decide_unpack _). vm_compute. exact I.
  - repeat constructor; vm_compute; discriminate.
  - discriminate.
  - rewrite (surjective_pairing (Nft.nft_open_access ready_nft sample_rule)) at 1.
    apply f_equal. vm_compute. reflexivity.
Defined.

Lemma nft_remove_not_found_witness :
  fw_doors (Nft.nft_remove_rule ready_nft (lit "junk")).1 ⊆ fw_doors ready_nft ∧
  (Nft.nft_remove_rule ready_nft (lit "junk")).2 = Err (RuleNotFound (lit "junk")).
Proof.
  destruct (nft_remove_not_found ready_nft (lit "junk")) as (Hd & Hiff & _); [reflexivity|].
  split; [exact Hd|]. apply Hiff. left. eexists. vm_compute. reflexivity.
Defined.

Lemma mock_open_remove_witness :
  ∃ s1 h, Mock.mock_open_access (Mock.mock_init Mock.mock_new).1 sample_rule = (s1, Ok h) ∧
          h = lit "mock-0".
Proof.
  destruct (mock_open_remove (Mock.mock_init Mock.mock_new).1 sample_rule) as (s1 & h & Ho & _).
  - split; [vm_compute; discriminate|]. intros h r Hh. vm_compute in Hh. discriminate Hh.
  - reflexivity.
  - reflexivity.
  - exists s1, h. split; [exact Ho|]. vm_compute in Ho. injection Ho as _ <-. reflexivity.
Defined.
