(* ===== verification/Capture.v ===== *)
(** * fwknox-capture: packets from a UDP socket

    Models crates/fwknox-capture/src/{error,packet,backend,udp}.rs. A system
    call is its outcome: [set_read_timeout] may fail, and [recvmsg] fails or
    fills the message header, the source address and the buffer. *)

From S2P Require Import Prelude RustStd Net.

(** [std::io::Error]: its kind and its text. *)
Inductive ErrorKind := WouldBlock | TimedOut | InvalidData | Interrupted | OtherKind.
#[global] Instance ErrorKind_eq_dec : EqDecision ErrorKind.
Proof. solve_decision. Defined.
Record io_error := { io_kind : ErrorKind; io_text : str }.

(** The two kinds that mean a timeout expired. *)
Definition is_tick (e : io_error) : bool :=
  bool_decide (io_kind e = WouldBlock) || bool_decide (io_kind e = TimedOut).

Inductive CaptureError :=
  | Bind (e : io_error)
  | Recv (e : io_error).

Record CapturedPacket := { cap_source_ip : IpAddr; cap_data : bytes }.

(** ** udp.rs *)

Definition MAX_DATAGRAM_LEN : Z := 1500.

Definition AF_INET : Z := 2.
Definition AF_INET6 : Z := 10.
Definition SIZEOF_SOCKADDR_IN : Z := 16.
Definition SIZEOF_SOCKADDR_IN6 : Z := 28.

(** [sockaddr_storage] seen through its family: the address bytes of a
    [sockaddr_in] and of a [sockaddr_in6], in memory order. *)
Record sockaddr_storage := { ss_family : Z; sin_addr : bytes; sin6_addr : bytes }.

Definition sockaddr_storage_to_ip (storage : sockaddr_storage) (namelen : Z)
  : result io_error IpAddr :=
  if ss_family storage =? AF_INET then
    if namelen <? SIZEOF_SOCKADDR_IN then
      Err {| io_kind := InvalidData; io_text := lit "short sockaddr_in from recvmsg" |}
    else Ok (V4 (sin_addr storage))
  else if ss_family storage =? AF_INET6 then
    if namelen <? SIZEOF_SOCKADDR_IN6 then
      Err {| io_kind := InvalidData; io_text := lit "short sockaddr_in6 from recvmsg" |}
    else Ok (V6 (sin6_addr storage))
  else
    Err {| io_kind := InvalidData;
           io_text := lit "recvmsg returned unsupported address family " ++ dec (ss_family storage) |}.

(** What a successful [recvmsg] with [MSG_TRUNC] leaves behind. *)
Record recvmsg_out := {
  rm_n : Z;
  rm_trunc : bool;
  rm_name : sockaddr_storage;
  rm_namelen : Z;
  rm_buf : bytes;
}.

Inductive RecvOutcome :=
  | Packet (n : Z) (source_ip : IpAddr)
  | Truncated (reported : Z) (source_ip : IpAddr).

Definition recvmsg_with_trunc (sys : result io_error recvmsg_out) : result io_error RecvOutcome :=
  m ← sys;
  source_ip ← sockaddr_storage_to_ip (rm_name m) (rm_namelen m);
  if rm_trunc m then Ok (Truncated (rm_n m) source_ip)
  else Ok (Packet (Z.min (rm_n m) MAX_DATAGRAM_LEN) source_ip).

(** The socket is the address it is bound to. *)
Record UdpCapture := { uc_socket : SocketAddr; uc_last_timeout : option Duration }.

Definition from_socket (socket : SocketAddr) : UdpCapture :=
  {| uc_socket := socket; uc_last_timeout := None |}.
(** [sys] is what [UdpSocket::bind] gave for the address. *)
Definition bind (sys : result io_error SocketAddr) : result CaptureError UdpCapture :=
  socket ← map_err Bind sys; Ok (from_socket socket).
Definition local_addr (c : UdpCapture) : result io_error SocketAddr := Ok (uc_socket c).

(** [recv_timeout] on the cached timeout: the new cache, whether the timeout
    was set, and the result. *)
Definition recv_timeout (cached : option Duration) (timeout : Duration)
    (set_read_timeout : result io_error unit) (sys : result io_error recvmsg_out)
  : option Duration * bool * result CaptureError (option CapturedPacket) :=
  let recv :=
    match recvmsg_with_trunc sys with
    | Ok (Packet n source_ip) =>
        let buf := match sys with Ok m => rm_buf m | Err _ => [] end in
        Ok (Some {| cap_source_ip := source_ip; cap_data := take (Z.to_nat n) buf |})
    | Ok (Truncated _ _) => Ok None
    | Err e => if is_tick e then Ok None else Err (Recv e)
    end in
  if bool_decide (cached = Some timeout) then (cached, false, recv)
  else match set_read_timeout with
  | Err e => (cached, true, Err (Recv e))
  | Ok _ => (Some timeout, true, recv)
  end.

(** The trait: [I] is what the system answers during one call. *)
Class CaptureBackend (C I : Type) := {
  cb_recv_timeout : C → Duration → I → C * result CaptureError (option CapturedPacket);
}.
#[global] Instance UdpCapture_backend :
  CaptureBackend UdpCapture (result io_error unit * result io_error recvmsg_out) := {|
  cb_recv_timeout c timeout sys :=
    let '(cached, _, r) := recv_timeout (uc_last_timeout c) timeout sys.1 sys.2 in
    ({| uc_socket := uc_socket c; uc_last_timeout := cached |}, r) |}.

(** ** Properties *)

(** What [recvmsg(2)] does with [MSG_TRUNC] for a datagram [d] from [ip]: it
    reports the real length, sets the flag when the buffer was too small, and
    fills the buffer from the front. *)
Definition delivers (d : bytes) (ip : IpAddr) (m : recvmsg_out) : Prop :=
  rm_n m = len d ∧ rm_trunc m = bool_decide (MAX_DATAGRAM_LEN < len d) ∧
  take (length d `min` 1500) (rm_buf m) = take 1500 d ∧
  sockaddr_storage_to_ip (rm_name m) (rm_namelen m) = Ok ip.

(** A datagram reaches the daemon whole or not at all: one of at most 1500
    bytes comes back as it was sent, with its source, and a longer one is a
    timer tick, never a truncated body. *)
Theorem recv_whole_or_nothing cached timeout d ip m :
  delivers d ip m →
  (recv_timeout cached timeout (Ok ()) (Ok m)).2 =
    Ok (if bool_decide (len d ≤ MAX_DATAGRAM_LEN)
        then Some {| cap_source_ip := ip; cap_data := d |} else None).
Proof.
  intros (Hn & Ht & Hb & Hip). unfold recv_timeout, recvmsg_with_trunc.
  cbn [mbind result_bind]. rewrite Hip. cbn [mbind result_bind]. rewrite Ht, Hn.
  unfold MAX_DATAGRAM_LEN in *. destruct (decide (len d ≤ 1500)) as [Hle|Hgt].
  - rewrite (bool_decide_eq_false_2 (1500 < len d)) by lia. rewrite (bool_decide_eq_true_2 _ Hle).
    assert (take (Z.to_nat (Z.min (len d) 1500)) (rm_buf m) = d) as Hbuf.
    2: { cbn iota beta zeta. rewrite Hbuf. by destruct (bool_decide (cached = Some timeout)). }
    unfold len in *. replace (Z.to_nat (Z.min (Z.of_nat (length d)) 1500)) with (length d `min` 1500)%nat by lia.
    rewrite Hb. apply take_ge. lia.
  - rewrite (bool_decide_eq_true_2 (1500 < len d)) by lia.
    rewrite (bool_decide_eq_false_2 _ Hgt). by destruct (bool_decide (cached = Some timeout)).
Qed.

(** The timeout is set again only when it differs from the one in force,
    and a failure to set it is reported and not remembered. *)
Theorem recv_timeout_cache cached timeout set_read_timeout sys :
  let '(cached', was_set, r) := recv_timeout cached timeout set_read_timeout sys in
  (was_set = false ↔ cached = Some timeout) ∧
  (cached' = Some timeout ∨ cached' = cached ∧ ∃ e, set_read_timeout = Err e ∧ r = Err (Recv e)).
Proof.
  unfold recv_timeout. case_bool_decide; [naive_solver|].
  destruct set_read_timeout as [[]|e]; naive_solver.
Qed.

Definition sample_recvmsg : recvmsg_out := {|
  rm_n := 3; rm_trunc := false;
  rm_name := {| ss_family := AF_INET; sin_addr := [10; 0; 0; 1]; sin6_addr := [] |};
  rm_namelen := 16; rm_buf := [7; 8; 9] ++ replicate 1497 0 |}.

Lemma recv_whole_or_nothing_witness :
  (recv_timeout None (from_millis 500) (Ok ()) (Ok sample_recvmsg)).2 =
    Ok (Some {| cap_source_ip := V4 [10; 0; 0; 1]; cap_data := [7; 8; 9] |}).
Proof.
  apply (recv_whole_or_nothing None (from_millis 500) [7; 8; 9] (V4 [10; 0; 0; 1]) sample_recvmsg).
  repeat split.
Defined.
