(* ===== verification/Privsep.v ===== *)
(** * fwknox-privsep: messages, IPC and the worker loops

    Models crates/fwknox-privsep/src/{error,messages,ipc,workers,fork}.rs. A
    worker is run on a finite list of loop iterations, each with what its
    system calls returned; the result says what it sent and whether and how it
    ended. *)

From S2P Require Import Prelude RustStd Net NetText Lru Proto Instances Serde Packet Config Capture RateLimit.

(** ** error.rs *)

(** [nix::errno::Errno]: its number and what it prints as. *)
Record Errno := { errno_code : Z; errno_text : str }.

Inductive PrivsepError :=
  | PProto (e : ProtoError)
  | IpcEncode (msg : str)
  | IpcDecode (msg : str)
  | PIo (e : io_error)
  | Syscall (syscall : str) (source : Errno)
  | PeerClosed
  | IpcTruncated (reported limit : Z).

Definition show_PrivsepError (e : PrivsepError) : str :=
  match e with
  | PProto e => lit "protocol error: " ++ show_ProtoError e
  | IpcEncode m => lit "ipc encode error: " ++ m
  | IpcDecode m => lit "ipc decode error: " ++ m
  | PIo e => lit "io error: " ++ io_text e
  | Syscall c e => lit "system call " ++ c ++ lit " failed: " ++ errno_text e
  | PeerClosed => lit "ipc peer closed"
  | IpcTruncated n limit =>
      lit "IPC datagram truncated: received " ++ dec n ++ lit " bytes, limit is " ++ dec limit
  end.

(** ** messages.rs *)

Inductive CaptureMsg :=
  | CapturePacket (source_ip : IpAddr) (data : bytes).

Inductive CryptoMsg :=
  | ValidRequest (stanza_name : str) (source_ip : IpAddr) (payload : SpaPayload)
  | CryptoRejected (source_ip : IpAddr) (reason : str)
  | CryptoNoMatch (source_ip : IpAddr).

#[global] Instance CaptureMsg_eq_dec : EqDecision CaptureMsg.
Proof. solve_decision. Defined.
#[global] Instance CryptoMsg_eq_dec : EqDecision CryptoMsg.
Proof. solve_decision. Defined.

(** The serialised forms: messages.rs has its own [serde_ip], with the body of
    the one in types.rs. *)
Inductive WireCaptureMsg :=
  | WireCapturePacket (source_ip : str) (data : bytes).

Inductive WireCryptoMsg :=
  | WireValidRequest (stanza_name source_ip : str) (payload : WirePayload)
  | WireRejected (source_ip reason : str)
  | WireNoMatch (source_ip : str).

#[global] Instance WireCaptureMsg_eq_dec : EqDecision WireCaptureMsg.
Proof. solve_decision. Defined.
#[global] Instance WireCryptoMsg_eq_dec : EqDecision WireCryptoMsg.
Proof. solve_decision. Defined.

Section message_codec.
Context `{SE : SerdeError}.

Definition ipc_ip_serialize (ip : IpAddr) : str := show_ip ip.
Definition ipc_ip_deserialize (raw : str) : result str IpAddr :=
  ok_or (serde_custom (lit "invalid IP address syntax")) (parse_ip raw).

Definition serialize_capture (m : CaptureMsg) : WireCaptureMsg :=
  match m with CapturePacket ip data => WireCapturePacket (ipc_ip_serialize ip) data end.
Definition deserialize_capture (w : WireCaptureMsg) : result str CaptureMsg :=
  match w with WireCapturePacket ip data => ip ← ipc_ip_deserialize ip; Ok (CapturePacket ip data) end.

Definition serialize_crypto (m : CryptoMsg) : WireCryptoMsg :=
  match m with
  | ValidRequest name ip payload => WireValidRequest name (ipc_ip_serialize ip) (serialize_payload payload)
  | CryptoRejected ip reason => WireRejected (ipc_ip_serialize ip) reason
  | CryptoNoMatch ip => WireNoMatch (ipc_ip_serialize ip)
  end.
Definition deserialize_crypto (w : WireCryptoMsg) : result str CryptoMsg :=
  match w with
  | WireValidRequest name ip payload =>
      ip ← ipc_ip_deserialize ip; payload ← deserialize_payload payload; Ok (ValidRequest name ip payload)
  | WireRejected ip reason => ip ← ipc_ip_deserialize ip; Ok (CryptoRejected ip reason)
  | WireNoMatch ip => ip ← ipc_ip_deserialize ip; Ok (CryptoNoMatch ip)
  end.

Definition capture_msg_rmp `{W : Rmp WireCaptureMsg} : Rmp CaptureMsg := {|
  rmp_to_vec m := rmp_to_vec (serialize_capture m);
  rmp_from_slice bs := w ← rmp_from_slice bs; deserialize_capture w |}.
Definition crypto_msg_rmp `{W : Rmp WireCryptoMsg} : Rmp CryptoMsg := {|
  rmp_to_vec m := rmp_to_vec (serialize_crypto m);
  rmp_from_slice bs := w ← rmp_from_slice bs; deserialize_crypto w |}.

#[global] Instance capture_portable : Portable CaptureMsg := λ m,
  match m with CapturePacket ip data => ip_wf ip ∧ is_bytes data end.
#[global] Instance wire_capture_portable : Portable WireCaptureMsg := λ w,
  match w with WireCapturePacket _ data => is_bytes data end.
#[global] Instance crypto_portable : Portable CryptoMsg := λ m,
  match m with
  | ValidRequest _ ip payload => ip_wf ip ∧ portable payload
  | CryptoRejected ip _ | CryptoNoMatch ip => ip_wf ip
  end.
#[global] Instance wire_crypto_portable : Portable WireCryptoMsg := λ w,
  match w with WireValidRequest _ _ payload => portable payload | _ => True end.

(** [messages.rs] and [types.rs] treat addresses alike. *)
Lemma ipc_ip_roundtrip ip : ip_wf ip → ipc_ip_deserialize (ipc_ip_serialize ip) = Ok ip.
Proof. exact (ip_roundtrip ip). Qed.
Lemma ipc_ip_wf raw ip : ipc_ip_deserialize raw = Ok ip → ip_wf ip.
Proof. exact (ip_deserialize_wf raw ip). Qed.

Lemma capture_msg_rmp_laws `{W : Rmp WireCaptureMsg} `{WL : !RmpLaws WireCaptureMsg} :
  @RmpLaws CaptureMsg capture_msg_rmp _.
Proof.
  constructor.
  - intros [ip data] v [Hip Hd] Hv. cbn in *. rewrite (rmp_roundtrip (WireCapturePacket _ data) v Hd Hv).
    cbn [mbind result_bind deserialize_capture].
    by rewrite ipc_ip_roundtrip.
  - intros v m Hm. cbn in Hm. inv_ok. match goal with w : WireCaptureMsg |- _ => destruct w as [raw data] end. cbn [deserialize_capture] in *. inv_ok. subst.
    split; [by eapply ipc_ip_wf|]. match goal with H : rmp_from_slice _ = Ok _ |- _ => exact (rmp_portable _ _ H) end.
Qed.

Lemma crypto_msg_rmp_laws `{W : Rmp WireCryptoMsg} `{WL : !RmpLaws WireCryptoMsg} :
  @RmpLaws CryptoMsg crypto_msg_rmp _.
Proof.
  constructor.
  - intros m v Hp Hv. cbn in *.
    assert (portable (serialize_crypto m)) as Hw.
    { destruct m; [|done|done]. destruct Hp as [_ Hp]. by apply serialize_portable. }
    rewrite (rmp_roundtrip _ _ Hw Hv). cbn [mbind result_bind].
    destruct m as [name ip p|ip reason|ip]; cbn [serialize_crypto deserialize_crypto] in *;
      [destruct Hp as [Hip Hp]|..]; rewrite ipc_ip_roundtrip by done; cbn [mbind result_bind]; [|done..].
    by rewrite payload_roundtrip.
  - intros v m Hm. cbn in Hm. inv_ok. match goal with w : WireCryptoMsg |- _ => destruct w end; cbn [deserialize_crypto] in *; inv_ok; subst;
      [split; [by eapply ipc_ip_wf|]|by eapply ipc_ip_wf..].
    eapply deserialize_portable; [|done]. match goal with H : rmp_from_slice _ = Ok _ |- _ => exact (rmp_portable _ _ H) end.
Qed.
End message_codec.

(** ** ipc.rs *)

Definition MAX_IPC_MSG : Z := 8192.

Section ipc.
Context {A : Type} `{Rmp A}.

(** The datagram handed to the socket; [send] is the outcome of the call. *)
Definition send_msg (msg : A) (send : result io_error unit) : result PrivsepError bytes :=
  bytes ← map_err IpcEncode (rmp_to_vec msg);
  _ ← guard_err (len bytes >? MAX_IPC_MSG)
        (IpcEncode (lit "message too large: " ++ dec (len bytes) ++ lit " bytes > " ++
                    dec MAX_IPC_MSG ++ lit " limit"));
  _ ← map_err PIo send;
  Ok bytes.

(** [recvmsg] gave a length, the [MSG_TRUNC] flag and the buffer. *)
Definition recv_msg (sys : result io_error (Z * bool * bytes)) : result PrivsepError A :=
  '(n, trunc, buf) ← map_err PIo sys;
  _ ← guard_err trunc (IpcTruncated n MAX_IPC_MSG);
  _ ← guard_err (n =? 0) PeerClosed;
  map_err IpcDecode (rmp_from_slice (take (Z.to_nat n) buf)).
End ipc.

(** [recvmsg] with [MSG_TRUNC] on a datagram [d] and a buffer of
    [MAX_IPC_MSG] bytes. *)
Definition ipc_delivers (d : bytes) (sys : Z * bool * bytes) : Prop :=
  sys.1.1 = len d ∧ sys.1.2 = bool_decide (MAX_IPC_MSG < len d) ∧
  take (length d `min` Z.to_nat MAX_IPC_MSG) sys.2 = take (Z.to_nat MAX_IPC_MSG) d.

Lemma send_recv {A : Type} `{RM : Rmp A} `{PA : Portable A} `{RL : !RmpLaws A} (msg : A) d sys :
  portable msg → send_msg msg (Ok ()) = Ok d → ipc_delivers d sys →
  recv_msg (Ok sys) = if bool_decide (d = []) then Err PeerClosed else Ok msg.
Proof.
  unfold send_msg, recv_msg. intros Hp Hs (Hn & Ht & Hb). destruct sys as [[n trunc] buf].
  cbn [fst snd] in *. inv_ok. subst. bool_prop.
  match goal with Hr : rmp_to_vec msg = Ok _ |- _ => apply rmp_roundtrip in Hr as Hdec; [|done] end.
  cbn [map_err mbind result_bind guard_err]. unfold MAX_IPC_MSG in *.
  rewrite bool_decide_eq_false_2 by lia. cbn [mbind result_bind guard_err].
  destruct (Z.eqb_spec (len d) 0) as [E|E]; cbn [guard_err mbind result_bind].
  - apply len_zero_nil in E. by rewrite bool_decide_eq_true_2.
  - rewrite bool_decide_eq_false_2 by (intros ->; by rewrite len_nil in E).
    assert (take (Z.to_nat (len d)) buf = d) as ->; [|by rewrite Hdec].
    unfold len in *. rewrite Nat2Z.id. replace (length d `min` Z.to_nat 8192)%nat with (length d) in Hb by lia.
    rewrite Hb. apply take_ge. lia.
Qed.

(** What one process sends, the other receives: a message [send_msg]
    accepted is received as itself, never truncated; an empty datagram is the
    one exception, taken for a closed peer. *)
Theorem ipc_roundtrip {A : Type} `{RM : Rmp A} `{PA : Portable A} `{RL : !RmpLaws A} (msg : A) d sys :
  portable msg → send_msg msg (Ok ()) = Ok d → ipc_delivers d sys →
  recv_msg (Ok sys) = if bool_decide (d = []) then Err PeerClosed else Ok msg.
Proof. apply send_recv. Qed.

(** ** workers.rs *)

(** A finished worker's return value, or [None] while it still runs. *)
Abbreviation worker_status := (option (result PrivsepError unit)) (only parsing).

(** *** The capture worker *)

Definition CAPTURE_POLL_INTERVAL : Duration := from_millis 500.

Record CaptureIter := {
  ci_shutdown : bool;
  ci_recv : result io_error (bytes * IpAddr);
  ci_reset_now : Instant;
  ci_now : Instant;
  ci_send : result io_error unit;
}.

Section capture_worker.
Context `{L : LruCache SourceKey TokenBucket} `{RM : Rmp CaptureMsg}.

(** [recv_from] fills a 1500-byte buffer: what does not fit is lost. *)
Definition recv_from (d : bytes) : bytes := take 1500 d.

Fixpoint capture_loop (rl : RateLimiter) (iters : list CaptureIter)
  : RateLimiter * list CaptureMsg * worker_status :=
  match iters with
  | [] => (rl, [], None)
  | it :: iters =>
      if ci_shutdown it then (rl, [], Some (Ok ()))
      else match ci_recv it with
      | Ok (d, ip) =>
          let '(rl, decision, _) := check rl ip (ci_reset_now it) (ci_now it) in
          match decision with
          | Pass =>
              let msg := CapturePacket ip (recv_from d) in
              match send_msg msg (ci_send it) with
              | Err e => (rl, [], Some (Err e))
              | Ok _ =>
                  let '(rl, sent, st) := capture_loop rl iters in (rl, msg :: sent, st)
              end
          | Drop _ => capture_loop rl iters
          end
      | Err e =>
          if is_tick e then capture_loop rl iters else (rl, [], Some (Err (PIo e)))
      end
  end.

(** The iterations are those whose calls have returned: a worker that stays in
    [send] on a full socket is a run whose list ends before that iteration
    ([None], still running). Processes.v has the blocked [send] as a state. *)
Definition run_capture_worker (set_read_timeout : result io_error unit) (rl : RateLimiter)
    (iters : list CaptureIter) : RateLimiter * list CaptureMsg * worker_status :=
  match set_read_timeout with
  | Err e => (rl, [], Some (Err (PIo e)))
  | Ok _ => capture_loop rl iters
  end.
End capture_worker.

(** *** The crypto worker *)

Definition CRYPTO_POLL_INTERVAL : Duration := from_millis 500.

Record CryptoIter := {
  yi_shutdown : bool;
  yi_recv : result PrivsepError CaptureMsg;
  yi_clock : option Z;
  yi_send : result io_error unit;
}.

(** What a panic does to the process: unwind, as in a test build, or abort, as
    under the hook every worker installs and in the release profile. *)
Inductive PanicMode := PanicUnwinds | PanicAborts.

(** sandbox/panic.rs: after the hook is installed, a panic aborts. *)
Definition install_worker_panic_hook (mode : PanicMode) : PanicMode := PanicAborts.

Inductive worker_end :=
  | Returned (r : result PrivsepError unit)
  | Aborted.

Section crypto_worker.
Context `{RM : Rmp CryptoMsg}.

(** [validate] reads the clock, and gives [None] when it panics. A panic that unwinds is caught,
    and the loop goes on with the next message. *)
Fixpoint crypto_loop (mode : PanicMode) (validate : option Z → CaptureMsg → option CryptoMsg)
    (iters : list CryptoIter) : list CryptoMsg * option worker_end :=
  match iters with
  | [] => ([], None)
  | it :: iters =>
      if yi_shutdown it then ([], Some (Returned (Ok ())))
      else match yi_recv it with
      | Ok capture_msg =>
          match validate (yi_clock it) capture_msg with
          | None =>
              match mode with
              | PanicUnwinds => crypto_loop mode validate iters
              | PanicAborts => ([], Some Aborted)
              end
          | Some reply =>
              match send_msg reply (yi_send it) with
              | Err e => ([], Some (Returned (Err e)))
              | Ok _ => let '(sent, st) := crypto_loop mode validate iters in (reply :: sent, st)
              end
          end
      | Err (PIo e) =>
          if is_tick e then crypto_loop mode validate iters
          else ([], Some (Returned (Err (PIo e))))
      | Err e => ([], Some (Returned (Err e)))
      end
  end.

Definition run_crypto_worker (mode : PanicMode) (set_read_timeout : result io_error unit)
    (validate : option Z → CaptureMsg → option CryptoMsg) (iters : list CryptoIter)
  : list CryptoMsg * option worker_end :=
  match set_read_timeout with
  | Err e => ([], Some (Returned (Err (PIo e))))
  | Ok _ => crypto_loop mode validate iters
  end.
End crypto_worker.

(** ** fork.rs *)

Definition ESRCH : Z := 3.
Definition ECHILD : Z := 10.

Inductive WaitStatus :=
  | Exited (pid code : Z)
  | Signaled (pid signal : Z)
  | StillAlive
  | OtherStatus.

Definition make_socketpair {A} (pair : result io_error A) : result PrivsepError A := map_err PIo pair.

Definition signal_terminate (kill : result Errno unit) : result PrivsepError unit :=
  map_err (Syscall (lit "kill")) kill.
Definition worker_wait (waitpid : result Errno WaitStatus) : result PrivsepError WaitStatus :=
  map_err (Syscall (lit "waitpid")) waitpid.

(** A failed signal is only logged, at debug level for [ESRCH]. *)
Definition terminate_and_wait (kill : result Errno unit) (waitpid : result Errno WaitStatus)
  : list Level * result PrivsepError WaitStatus :=
  let log := match signal_terminate kill with
             | Ok _ => []
             | Err (Syscall _ errno) => [if errno_code errno =? ESRCH then LDebug else LWarn]
             | Err _ => [LWarn]
             end in
  (log, worker_wait waitpid).

Definition try_reap_any_child (waitpid : result Errno WaitStatus) : result PrivsepError (option Z) :=
  match waitpid with
  | Ok (Exited pid _) | Ok (Signaled pid _) => Ok (Some pid)
  | Ok _ => Ok None
  | Err e => if errno_code e =? ECHILD then Ok None else Err (Syscall (lit "waitpid(WNOHANG)") e)
  end.

(** ** Properties of the workers *)

Section capture_properties.
Context `{L : LruCache SourceKey TokenBucket} `{LL : !LruLaws SourceKey TokenBucket L}
  `{RM : Rmp CaptureMsg}.

(** Every message comes from a received datagram, at most 1500 bytes of it,
    with the address it came from. *)
Definition forwards (it : CaptureIter) (msg : CaptureMsg) : Prop :=
  ci_shutdown it = false ∧
  ∃ d ip, ci_recv it = Ok (d, ip) ∧ msg = CapturePacket ip (take 1500 d).

Lemma capture_forwards rl iters rl' sent st :
  capture_loop rl iters = (rl', sent, st) →
  ∃ its, its `sublist_of` iters ∧ Forall2 forwards its sent.
Proof.
  revert rl rl' sent st. induction iters as [|it iters IH]; intros rl rl' sent st; cbn [capture_loop].
  { intros [= <- <- <-]. exists []. by split. }
  assert (∃ its, its `sublist_of` it :: iters ∧ Forall2 forwards its []) as Hnil
    by (exists []; split; [apply sublist_nil_l|constructor]).
  assert (∀ rl1, capture_loop rl1 iters = (rl', sent, st) →
    ∃ its, its `sublist_of` it :: iters ∧ Forall2 forwards its sent) as Hskip.
  { intros rl1 E. apply IH in E as (its & Hi & Hf). exists its. split; [by constructor|done]. }
  destruct (ci_shutdown it) eqn:Hsd; [naive_solver|].
  destruct (ci_recv it) as [[d ip]|e] eqn:Hrv; [|destruct (is_tick e); naive_solver].
  destruct (check rl ip _ _) as [[rl1 [|reason]] log]; [|naive_solver].
  destruct (send_msg _ _) as [dg|e]; [|naive_solver].
  destruct (capture_loop rl1 iters) as [[rl2 sent2] st2] eqn:E. intros [= <- <- <-].
  apply IH in E as (its & Hi & Hf). exists (it :: its). split; [by constructor|].
  constructor; [|done]. split; [done|]. by exists d, ip.
Qed.

Lemma wrap_u64_add a b : wrap_u64 (wrap_u64 a + b) = wrap_u64 (a + b).
Proof. unfold wrap_u64. apply Z.add_mod_idemp_l. lia. Qed.

Lemma capture_counts rl iters rl' sent st :
  capture_loop rl iters = (rl', sent, st) →
  ∃ failed, (failed = 0 ∨ failed = 1 ∧ ∃ e, st = Some (Err e)) ∧
    wrap_u64 (allowed (rl_stats rl')) = wrap_u64 (allowed (rl_stats rl) + (len sent + failed)).
Proof.
  revert rl rl' sent st. induction iters as [|it iters IH]; intros rl rl' sent st; cbn [capture_loop].
  { intros [= <- <- <-]. exists 0. split; [by left|]. f_equal. change (len []) with 0. lia. }
  assert (wrap_u64 (allowed (rl_stats rl)) = wrap_u64 (allowed (rl_stats rl) + (len (@nil CaptureMsg) + 0))) as H0
    by (f_equal; change (len []) with 0; lia).
  destruct (ci_shutdown it); [intros [= <- <- <-]; exists 0; naive_solver|].
  destruct (ci_recv it) as [[d ip]|e].
  2: { destruct (is_tick e); [apply IH|intros [= <- <- <-]; exists 0; naive_solver]. }
  pose proof (check_counts rl ip (ci_reset_now it) (ci_now it)) as Hc.
  destruct (check rl ip _ _) as [[rl1 [|reason]] log]; cbv zeta in Hc; destruct Hc as (Ha & _).
  - destruct (send_msg _ _) as [dg|e].
    + destruct (capture_loop rl1 iters) as [[rl2 sent2] st2] eqn:E. intros [= <- <- <-].
      apply IH in E as (failed & Hf & E). exists failed. split; [done|].
      rewrite E, Ha, wrap_u64_add, len_cons. f_equal. lia.
    + intros [= <- <- <-]. exists 1. split; [right; eauto|]. rewrite Ha.
      unfold wrap_u64 at 1 2. rewrite Z.mod_mod by lia. done.
  - intros E. apply IH in E as (failed & Hf & E). exists failed. by rewrite E, Ha.
Qed.

(** The capture worker forwards, in order, only what it received, at
    most 1500 bytes of each datagram; and the limiter's count of allowed
    packets goes up by exactly the number of messages forwarded, plus one
    when the sending of the last one failed and ended the worker. *)
Theorem capture_worker_spec rl iters rl' sent st :
  run_capture_worker (Ok ()) rl iters = (rl', sent, st) →
  (∃ its, its `sublist_of` iters ∧ Forall2 forwards its sent) ∧
  ∃ failed, (failed = 0 ∨ failed = 1 ∧ ∃ e, st = Some (Err e)) ∧
    wrap_u64 (allowed (rl_stats rl')) = wrap_u64 (allowed (rl_stats rl) + (len sent + failed)).
Proof. intros E. split; [by eapply capture_forwards|by eapply capture_counts]. Qed.
End capture_properties.

Section crypto_properties.
Context `{RM : Rmp CryptoMsg}.

(** An iteration that neither ends the loop nor fails to send. *)
Definition crypto_goes_on (validate : option Z → CaptureMsg → option CryptoMsg) (it : CryptoIter) : Prop :=
  yi_shutdown it = false ∧
  match yi_recv it with
  | Ok m => ∀ reply, validate (yi_clock it) m = Some reply → ∃ d, send_msg reply (yi_send it) = Ok d
  | Err (PIo e) => is_tick e = true
  | Err _ => False
  end.

Definition panics_on (validate : option Z → CaptureMsg → option CryptoMsg) (it : CryptoIter) : Prop :=
  ∃ m, yi_recv it = Ok m ∧ validate (yi_clock it) m = None.

Definition replies (validate : option Z → CaptureMsg → option CryptoMsg) (iters : list CryptoIter)
  : list CryptoMsg :=
  omap (λ it, match yi_recv it with Ok m => validate (yi_clock it) m | Err _ => None end) iters.

(** An iteration that goes on, and does not panic where panics abort, sends
    its reply if it has one and leaves the rest of the loop to run. *)
Lemma crypto_loop_cons mode validate it iters :
  crypto_goes_on validate it → (mode = PanicUnwinds ∨ ¬ panics_on validate it) →
  crypto_loop mode validate (it :: iters) =
    (replies validate [it] ++ (crypto_loop mode validate iters).1,
     (crypto_loop mode validate iters).2).
Proof.
  intros [Hsd Hit] Hm. cbn [crypto_loop replies omap list_omap]. rewrite Hsd.
  destruct (crypto_loop mode validate iters) as [sent st].
  destruct (yi_recv it) as [m|e] eqn:Hrv.
  - destruct (validate (yi_clock it) m) as [reply|] eqn:Hv.
    + by destruct (Hit reply) as [d ->].
    + destruct Hm as [->|Hp]; [done|]. destruct Hp. by exists m.
  - destruct e; try done. by rewrite Hit.
Qed.

Lemma crypto_loop_app mode validate pre post :
  Forall (crypto_goes_on validate) pre →
  Forall (λ it, mode = PanicUnwinds ∨ ¬ panics_on validate it) pre →
  crypto_loop mode validate (pre ++ post) =
    (replies validate pre ++ (crypto_loop mode validate post).1,
     (crypto_loop mode validate post).2).
Proof.
  intros Hpre Hm. induction pre as [|it pre IH]; [by apply surjective_pairing|].
  apply Forall_cons in Hpre as [Hit Hpre], Hm as [Hm1 Hm].
  cbn [app]. rewrite crypto_loop_cons, IH by done. cbn [fst snd].
  rewrite (app_assoc (replies validate [it])). unfold replies. by rewrite <- omap_app.
Qed.

(** While nothing else fails, the crypto worker answers every message the
    validator answers, in order, and runs on through timer ticks. A panic
    of the validator costs only its own packet where panics unwind; in the
    daemon, whose workers install the aborting hook, the first one ends the
    worker after the replies before it. *)
Theorem crypto_worker_spec mode validate iters :
  Forall (crypto_goes_on validate) iters →
  run_crypto_worker PanicUnwinds (Ok ()) validate iters = (replies validate iters, None) ∧
  ∀ pre it post, iters = pre ++ it :: post →
    Forall (λ it, ¬ panics_on validate it) pre → panics_on validate it →
    run_crypto_worker (install_worker_panic_hook mode) (Ok ()) validate iters =
      (replies validate pre, Some Aborted).
Proof.
  intros Hits. cbn [run_crypto_worker install_worker_panic_hook]. split.
  - rewrite <- (app_nil_r iters) at 1. rewrite crypto_loop_app; [|done|].
    + cbn [crypto_loop fst snd]. by rewrite app_nil_r.
    + apply Forall_true. by left.
  - intros pre it post -> Hnp (m & Hrv & Hv). apply Forall_app in Hits as [Hpre Hpost].
    rewrite crypto_loop_app; [|done|by eapply Forall_impl; [exact Hnp|right]].
    apply Forall_cons in Hpost as [[Hsd _] _]. cbn [crypto_loop]. rewrite Hsd, Hrv, Hv.
    cbn [fst snd]. by rewrite app_nil_r.
Qed.
End crypto_properties.

(** ** Witnesses *)

Definition sample_capture_msg : CaptureMsg := CapturePacket (V4 [10; 0; 0; 1]) [1; 2; 3].
Definition capture_wire_rmp : Rmp WireCaptureMsg := table_rmp [serialize_capture sample_capture_msg].
Definition capture_rmp : Rmp CaptureMsg := @capture_msg_rmp _ capture_wire_rmp.
#[local] Existing Instance capture_rmp.
Lemma capture_rmp_laws : RmpLaws CaptureMsg.
Proof.
  apply (@capture_msg_rmp_laws _ capture_wire_rmp), table_rmp_laws.
  repeat constructor; vm_compute; discriminate.
Qed.
#[local] Existing Instance capture_rmp_laws.

Lemma ipc_roundtrip_witness :
  recv_msg (Ok (1, false, [0] ++ replicate 9 0)) = Ok sample_capture_msg.
Proof.
  apply (ipc_roundtrip sample_capture_msg [0]); [|vm_compute; reflexivity|repeat split].
  repeat constructor; vm_compute; discriminate.
Defined.

Definition sample_capture_iter : CaptureIter := {|
  ci_shutdown := false; ci_recv := Ok ([1; 2; 3], V4 [10; 0; 0; 1]);
  ci_reset_now := 0; ci_now := 7; ci_send := Ok () |}.

Lemma capture_worker_spec_witness :
  ∃ rl', run_capture_worker (Ok ()) small_limiter [sample_capture_iter] =
           (rl', [sample_capture_msg], None) ∧
         ∃ failed, (failed = 0 ∨ failed = 1 ∧ ∃ e, (None : worker_status) = Some (Err e)) ∧
           wrap_u64 (allowed (rl_stats rl')) = wrap_u64 (0 + (1 + failed)).
Proof.
  exists (run_capture_worker (Ok ()) small_limiter [sample_capture_iter]).1.1.
  assert (run_capture_worker (Ok ()) small_limiter [sample_capture_iter] =
    ((run_capture_worker (Ok ()) small_limiter [sample_capture_iter]).1.1,
     [sample_capture_msg], None)) as E by (vm_compute; reflexivity).
  split; [exact E|]. apply (capture_worker_spec small_limiter [sample_capture_iter] _ _ _ E).
Defined.

Definition no_match_rmp : Rmp CryptoMsg := {|
  rmp_to_vec _ := Ok [0]; rmp_from_slice _ := Ok (CryptoNoMatch (V4 [10; 0; 0; 1])) |}.

(** Two packets, the validator panics on the second. *)
Definition panicky (clock : option Z) (m : CaptureMsg) : option CryptoMsg :=
  match m with CapturePacket ip [] => None | CapturePacket ip _ => Some (CryptoNoMatch ip) end.
Definition crypto_iter_of (m : CaptureMsg) : CryptoIter :=
  {| yi_shutdown := false; yi_recv := Ok m; yi_clock := None; yi_send := Ok () |}.

Lemma crypto_worker_spec_witness :
  let its := [crypto_iter_of sample_capture_msg; crypto_iter_of (CapturePacket (V4 [10; 0; 0; 1]) [])] in
  @run_crypto_worker no_match_rmp PanicUnwinds (Ok ()) panicky its =
    ([CryptoNoMatch (V4 [10; 0; 0; 1])], None) ∧
  @run_crypto_worker no_match_rmp PanicAborts (Ok ()) panicky its =
    ([CryptoNoMatch (V4 [10; 0; 0; 1])], Some Aborted).
Proof.
  intros its. destruct (@crypto_worker_spec no_match_rmp PanicUnwinds panicky its) as [H1 H2].
  - constructor; [split; [reflexivity|]; intros reply [= <-]; eexists; vm_compute; reflexivity|].
    constructor; [split; [reflexivity|]; by cbn|]. constructor.
  - split; [exact H1|].
    apply (H2 [crypto_iter_of sample_capture_msg]
             (crypto_iter_of (CapturePacket (V4 [10; 0; 0; 1]) [])) []); [reflexivity| |].
    + constructor; [|constructor]. intros (m & [= <-] & [=]).
    + by eexists.
Defined.
