(* ===== verification/Sandbox.v ===== *)
(** * fwknox-sandbox: capabilities, privilege drop, Landlock and seccomp

    Models crates/fwknox-sandbox/src/{error,capabilities,privdrop,landlock,
    seccomp,apply}.rs and the daemon's choice of a policy in
    crates/fwknox-daemon/src/bin/fwknoxd.rs. The process is an abstract state;
    the system calls and the [caps], [nix], [landlock] and [seccompiler] crates
    are operations on it. A step that returns early leaves the state as the
    steps before it made it. *)

From S2P Require Import Prelude RustStd Net Proto Config.

(** ** error.rs *)

Inductive SandboxError :=
  | SbCapability (msg : str)
  | SbPrivDrop (msg : str)
  | SbLandlock (msg : str)
  | SbSdNotify (msg : str)
  | SbConfiguration (msg : str).

Definition show_SandboxError (e : SandboxError) : str :=
  match e with
  | SbCapability m => lit "capability error: " ++ m
  | SbPrivDrop m => lit "user/group drop error: " ++ m
  | SbLandlock m => lit "landlock error: " ++ m
  | SbSdNotify m => lit "sd_notify error: " ++ m
  | SbConfiguration m => lit "sandbox configuration error: " ++ m
  end.

(** ** The outside *)

(** A capability is its number. *)
Abbreviation Capability := Z (only parsing).
Definition CAP_SETGID : Capability := 6.
Definition CAP_SETUID : Capability := 7.
Definition CAP_NET_ADMIN : Capability := 12.

Inductive CapSet := Effective | Permitted | Inheritable | Ambient | Bounding.
Inductive RulesetStatus := FullyEnforced | PartiallyEnforced | NotEnforced.

(** One Landlock rule: a path with read access, or with all access. *)
Inductive FsRule := ReadRule (path : str) | AllRule (path : str).

Class SandboxSys (P : Type) := {
  caps_all : list Capability;
  cap_debug : Capability → str;
  caps_drop : CapSet → Capability → P → P * result str unit;
  caps_read : CapSet → P → result str (list Capability);
  caps_raise : CapSet → Capability → P → P * result str unit;
  user_from_name : str → result str (option Z);
  group_from_name : str → result str (option Z);
  sys_setgroups : list Z → P → P * result str unit;
  sys_setgid : Z → P → P * result str unit;
  sys_setuid : Z → P → P * result str unit;
  sys_set_keepcaps : bool → P → P * result str unit;
  ll_handle_access : result str unit;
  ll_create : result str unit;
  ll_open_path : str → P → result str unit;
  ll_add_rule : FsRule → result str unit;
  ll_restrict_self : list FsRule → P → P * result str RulesetStatus;
  seccomp_build : list str → result str unit;
  seccomp_compile : list str → result str unit;
  seccomp_apply : list str → P → P * result str unit;
}.

(** ** State and errors *)

Section sandbox.
Context {P : Type} `{S : !SandboxSys P}.

(** A computation on the process that may fail. *)
Definition SM (A : Type) : Type := P → P * result SandboxError A.
Definition sm_ret {A} (a : A) : SM A := λ p, (p, Ok a).
Definition sm_bind {A C} (m : SM A) (k : A → SM C) : SM C := λ p,
  match m p with (p, Ok a) => k a p | (p, Err e) => (p, Err e) end.
Definition sm_err {A} (r : result SandboxError A) : SM A := λ p, (p, r).
(** A call whose error is wrapped in a message. *)
Definition sm_call {A} (wrap : str → SandboxError) (f : P → P * result str A) : SM A := λ p,
  let '(p, r) := f p in (p, map_err wrap r).

(** ** capabilities.rs *)

(** The outcome of a drop is only logged. *)
Definition drop_from (set : CapSet) (cap : Capability) (p : P) : P := (caps_drop set cap p).1.

Definition drop_cap (cap : Capability) (p : P) : P :=
  drop_from Bounding cap
    (drop_from Ambient cap
      (drop_from Inheritable cap (drop_from Permitted cap (drop_from Effective cap p)))).

Definition drop_all_except (keep : list Capability) : SM unit := λ p,
  let p := foldl (λ p cap, if bool_decide (cap ∈ keep) then p else drop_cap cap p) p caps_all in
  match caps_read Effective p with
  | Err e => (p, Err (SbCapability e))
  | Ok _ => (p, Ok ())
  end.

Definition drop_all : SM unit := drop_all_except [].

Fixpoint check_permitted (permitted keep : list Capability) : result SandboxError unit :=
  match keep with
  | [] => Ok ()
  | cap :: keep =>
      if bool_decide (cap ∈ permitted) then check_permitted permitted keep
      else Err (SbConfiguration (lit "cannot raise " ++ cap_debug cap ++ lit ": not in Permitted set"))
  end.

Fixpoint raise_all (keep : list Capability) : SM unit :=
  match keep with
  | [] => sm_ret ()
  | cap :: keep =>
      sm_bind (sm_call (λ e, SbCapability (lit "could not raise " ++ cap_debug cap ++
                                           lit " into effective set: " ++ e))
                 (caps_raise Effective cap))
        (λ _, raise_all keep)
  end.

Definition raise_effective (keep : list Capability) : SM unit := λ p,
  match caps_read Permitted p with
  | Err e => (p, Err (SbConfiguration (lit "read Permitted: " ++ e)))
  | Ok permitted => sm_bind (sm_err (check_permitted permitted keep)) (λ _, raise_all keep) p
  end.

(** ** privdrop.rs *)

Definition resolve_user (name : str) : result SandboxError Z :=
  u ← map_err (λ e, SbPrivDrop (lit "user lookup failed for " ++ name ++ lit ": " ++ e))
        (user_from_name name);
  ok_or (SbPrivDrop (lit "user " ++ name ++ lit " not found")) u.
Definition resolve_group (name : str) : result SandboxError Z :=
  g ← map_err (λ e, SbPrivDrop (lit "group lookup failed for " ++ name ++ lit ": " ++ e))
        (group_from_name name);
  ok_or (SbPrivDrop (lit "group " ++ name ++ lit " not found")) g.

Definition drop_to (user group : str) : SM unit :=
  sm_bind (sm_err (resolve_user user)) (λ uid,
  sm_bind (sm_err (resolve_group group)) (λ gid,
  sm_bind (sm_call (λ e, SbPrivDrop (lit "setgroups failed: " ++ e)) (sys_setgroups [gid])) (λ _,
  sm_bind (sm_call (λ e, SbPrivDrop (lit "setgid failed: " ++ e)) (sys_setgid gid)) (λ _,
  sm_bind (sm_call (λ e, SbPrivDrop (lit "set_keepcaps(true) failed: " ++ e))
             (sys_set_keepcaps true)) (λ _,
  sm_bind (sm_call (λ e, SbPrivDrop (lit "setuid failed: " ++ e)) (sys_setuid uid)) (λ _,
  sm_call (λ e, SbPrivDrop (lit "set_keepcaps(false) failed: " ++ e))
    (sys_set_keepcaps false))))))).

(** ** landlock.rs *)

Inductive RulesetOutcome := Enforced | Insufficient.

Definition classify_status (status : RulesetStatus) (policy_is_empty : bool) : RulesetOutcome :=
  match status, policy_is_empty with
  | FullyEnforced, _ => Enforced
  | PartiallyEnforced, true => Insufficient
  | PartiallyEnforced, false => Enforced
  | NotEnforced, _ => Insufficient
  end.

Record FilesystemPolicy := { read_only : list str; read_write : list str }.

Fixpoint add_rules (mk : str → FsRule) (what : str) (paths : list str) (p : P)
  : result SandboxError (list FsRule) :=
  match paths with
  | [] => Ok []
  | path :: paths =>
      _ ← map_err (λ e, SbLandlock (lit "open " ++ path ++ lit ": " ++ e)) (ll_open_path path p);
      _ ← map_err (λ e, SbLandlock (lit "add_rule " ++ what ++ lit ": " ++ e)) (ll_add_rule (mk path));
      rules ← add_rules mk what paths p;
      Ok (mk path :: rules)
  end.

Definition landlock_rules (policy : FilesystemPolicy) (p : P) : result SandboxError (list FsRule) :=
  _ ← map_err (λ e, SbLandlock (lit "handle_access failed: " ++ e)) ll_handle_access;
  _ ← map_err (λ e, SbLandlock (lit "ruleset create failed: " ++ e)) ll_create;
  ro ← add_rules ReadRule (lit "ro") (read_only policy) p;
  rw ← add_rules AllRule (lit "rw") (read_write policy) p;
  Ok (ro ++ rw).

Definition landlock_apply (policy : FilesystemPolicy) : SM unit := λ p,
  let policy_is_empty := bool_decide (read_only policy = []) && bool_decide (read_write policy = []) in
  match landlock_rules policy p with
  | Err e => (p, Err e)
  | Ok rules =>
      match ll_restrict_self rules p with
      | (p, Err e) => (p, Err (SbLandlock (lit "restrict_self failed: " ++ e)))
      | (p, Ok status) =>
          match classify_status status policy_is_empty with
          | Enforced => (p, Ok ())
          | Insufficient =>
              (p, Err (SbLandlock (match status with
                 | NotEnforced => lit "kernel does not support Landlock (needs Linux 5.13+)"
                 | _ => lit
                     "landlock: kernel only partially enforced an empty policy; refusing to run worker without full filesystem denial"
                 end)))
          end
      end
  end.

(** ** seccomp.rs, on [x86_64] *)

Definition worker_syscall_list : list str := [
  lit "read"; lit "write"; lit "recvfrom"; lit "sendto"; lit "recvmsg"; lit "sendmsg";
  lit "close"; lit "fcntl"; lit "setsockopt"; lit "getsockopt";
  lit "ppoll"; lit "epoll_pwait"; lit "epoll_ctl"; lit "epoll_create1";
  lit "brk"; lit "mmap"; lit "munmap"; lit "mprotect"; lit "madvise"; lit "mremap"; lit "futex";
  lit "clock_gettime"; lit "clock_nanosleep"; lit "nanosleep";
  lit "rt_sigaction"; lit "rt_sigprocmask"; lit "rt_sigreturn"; lit "sigaltstack";
  lit "getpid"; lit "gettid"; lit "tgkill";
  lit "getrandom"; lit "rseq"; lit "set_robust_list"; lit "set_tid_address";
  lit "restart_syscall"; lit "exit"; lit "exit_group";
  lit "poll"; lit "epoll_wait"; lit "gettimeofday"].

Definition worker_filter : result SandboxError unit :=
  _ ← map_err (λ e, SbConfiguration (lit "seccomp filter build: " ++ e))
        (seccomp_build worker_syscall_list);
  map_err (λ e, SbConfiguration (lit "seccomp filter compile: " ++ e))
    (seccomp_compile worker_syscall_list).

Definition install_worker_filter : SM unit :=
  sm_bind (sm_err worker_filter) (λ _,
    sm_call (λ e, SbConfiguration (lit "seccomp apply: " ++ e)) (seccomp_apply worker_syscall_list)).

(** ** apply.rs *)

Record PrivDropTarget := { target_user : str; target_group : str }.
Record LandlockConfig := { ll_read_only : list str; ll_read_write : list str }.
Record SandboxConfig := {
  keep_caps : list Capability;
  sb_drop_to : option PrivDropTarget;
  sb_landlock : option LandlockConfig;
}.

Definition sandbox_apply (config : SandboxConfig) : SM unit :=
  sm_bind (drop_all_except (keep_caps config)) (λ _,
  sm_bind (match sb_drop_to config with
           | Some t => sm_bind (drop_to (target_user t) (target_group t))
                         (λ _, raise_effective (keep_caps config))
           | None => sm_ret ()
           end) (λ _,
  match sb_landlock config with
  | Some ll => landlock_apply {| read_only := ll_read_only ll; read_write := ll_read_write ll |}
  | None => sm_ret ()
  end)).

Definition apply_worker_sandbox : SM unit :=
  sm_bind (landlock_apply {| read_only := []; read_write := [] |}) (λ _, install_worker_filter).

(** ** bin/fwknoxd.rs *)

(** The part of a path before its last component, ["."] when there is none;
    for the absolute paths a validated configuration has. *)
Definition parent_or_current (path : str) : str :=
  match split_char 47 path with
  | [] | [_] => lit "."
  | comps => match str_join (lit "/") (removelast comps) with [] => lit "/" | d => d end
  end.

Definition daemon_sandbox_config `{IpNetOps} (config : DaemonConfig) (is_root : bool) : SandboxConfig := {|
  keep_caps := [CAP_NET_ADMIN];
  sb_drop_to :=
    if is_root then Some {| target_user := run_user (daemon config);
                            target_group := run_group (daemon config) |} else None;
  sb_landlock :=
    if landlock_enabled (daemon config) then
      Some {| ll_read_only := [];
              ll_read_write := [parent_or_current (cache_path (replay config))] |}
    else None;
|}.

Definition apply_sandbox `{IpNetOps} (config : DaemonConfig) (is_root : bool) : SM unit :=
  sandbox_apply (daemon_sandbox_config config is_root).
End sandbox.
Arguments SM : clear implicits.

(** ** What the kernel promises

    From capabilities(7): a drop from the effective set leaves the capability
    out of it, no drop adds one, and [setgroups] fails without [CAP_SETGID] in
    the effective set. *)

Class SandboxLaws (P : Type) `{S : !SandboxSys P} := {
  effective : P → Capability → Prop;
  all_has_setgid : CAP_SETGID ∈ caps_all (P := P);
  drop_effective cap (p : P) : ¬ effective (caps_drop Effective cap p).1 cap;
  drop_only_shrinks set cap (p : P) c : effective (caps_drop set cap p).1 c → effective p c;
  setgroups_needs_cap gs (p : P) :
    ¬ effective p CAP_SETGID → ∃ e, sys_setgroups gs p = (p, Err e);
}.

Section properties.
Context {P : Type} `{S : !SandboxSys P} `{SL : !SandboxLaws P}.
Implicit Types (p : P).

Lemma drop_cap_shrinks cap p c : effective (drop_cap cap p) c → effective p c.
Proof. unfold drop_cap, drop_from. intros He. do 5 apply drop_only_shrinks in He. done. Qed.

Lemma drop_cap_drops cap p : ¬ effective (drop_cap cap p) cap.
Proof.
  unfold drop_cap, drop_from. intros He. apply (drop_effective cap p).
  do 4 apply drop_only_shrinks in He. done.
Qed.

Lemma fold_drop_shrinks (keep caps : list Capability) p c :
  effective (foldl (λ p cap, if bool_decide (cap ∈ keep) then p else drop_cap cap p) p caps) c →
  effective p c.
Proof.
  revert p. induction caps as [|cap caps IH]; intros p; cbn [foldl]; [done|].
  intros He. apply IH in He. case_bool_decide; [done|]. by eapply drop_cap_shrinks.
Qed.

(** Every capability that is not kept is out of the effective set. *)
Lemma drop_all_except_effective keep p cap :
  cap ∈ caps_all (P := P) → cap ∉ keep → ¬ effective (drop_all_except keep p).1 cap.
Proof.
  intros Hin Hk. unfold drop_all_except.
  assert (¬ effective (foldl (λ p cap, if bool_decide (cap ∈ keep) then p else drop_cap cap p) p
                        caps_all) cap) as Hd.
  { revert p. induction (caps_all (P := P)) as [|c cs IH]; intros p; [set_solver|]. cbn [foldl].
    destruct (decide (c = cap)) as [->|Hne].
    - rewrite bool_decide_eq_false_2 by done. intros He. apply fold_drop_shrinks in He.
      by apply drop_cap_drops in He.
    - apply IH. set_solver. }
  by destruct (caps_read Effective _).
Qed.

Lemma sandbox_apply_no_setgid config t p :
  sb_drop_to config = Some t → CAP_SETGID ∉ keep_caps config →
  ∃ e, (sandbox_apply config p).2 = Err e.
Proof.
  intros Ht Hk. unfold sandbox_apply, sm_bind.
  pose proof (drop_all_except_effective (keep_caps config) p CAP_SETGID all_has_setgid Hk) as Hd.
  destruct (drop_all_except (keep_caps config) p) as [p1 [[]|e]]; [|by eexists]. cbn [fst] in Hd.
  rewrite Ht. unfold drop_to, sm_bind, sm_err.
  destruct (resolve_user (target_user t)) as [uid|e]; [|by eexists].
  destruct (resolve_group (target_group t)) as [gid|e]; [|by eexists].
  unfold sm_call. destruct (setgroups_needs_cap [gid] p1 Hd) as [e ->]. by eexists.
Qed.

(** The order of the sandbox steps defeats the privilege drop. Whenever
    a user and group to drop to are configured and [CAP_SETGID] is not among
    the kept capabilities, as in the daemon's own configuration, [apply]
    never succeeds: the capability was dropped before [setgroups] needed
    it. *)
Theorem privdrop_always_fails config t p :
  sb_drop_to config = Some t → CAP_SETGID ∉ keep_caps config →
  ∃ e, (sandbox_apply config p).2 = Err e.
Proof. apply sandbox_apply_no_setgid. Qed.

Lemma worker_sandbox_ok p p' :
  apply_worker_sandbox p = (p', Ok ()) →
  ∃ p1, ll_restrict_self [] p = (p1, Ok FullyEnforced) ∧
        seccomp_apply worker_syscall_list p1 = (p', Ok ()).
Proof.
  unfold apply_worker_sandbox, sm_bind, landlock_apply, landlock_rules. cbn.
  destruct ll_handle_access as [[]|e]; cbn; [|done]. destruct ll_create as [[]|e]; cbn; [|done].
  destruct (ll_restrict_self [] p) as [p1 [[| |]|e]]; cbn; try done.
  unfold install_worker_filter, sm_bind, sm_err, sm_call.
  destruct worker_filter as [[]|e]; [|done].
  destruct (seccomp_apply worker_syscall_list p1) as [p2 [[]|e]] eqn:E; [|done].
  intros [= <-]. exists p1. by rewrite E.
Qed.

(** The worker sandbox fails closed. It succeeds only when the kernel
    fully enforced a Landlock ruleset without any rule, that is denied the
    whole file system, and the seccomp filter was installed on the process
    that resulted. *)
Theorem worker_sandbox_fails_closed p p' :
  apply_worker_sandbox p = (p', Ok ()) →
  ∃ p1, ll_restrict_self [] p = (p1, Ok FullyEnforced) ∧
        seccomp_apply worker_syscall_list p1 = (p', Ok ()).
Proof. apply worker_sandbox_ok. Qed.

(** The workers cannot touch the file system or start a program: none of
    the calls that open a path, make a connection, execute, fork or trace is
    on the list. *)
Theorem worker_list_is_tight call :
  call ∈ [lit "open"; lit "openat"; lit "openat2"; lit "creat"; lit "unlink"; lit "rename";
          lit "socket"; lit "connect"; lit "bind"; lit "execve"; lit "execveat"; lit "fork";
          lit "vfork"; lit "clone"; lit "clone3"; lit "ptrace"; lit "prlimit64"; lit "kill";
          lit "setuid"; lit "setgid"; lit "capset"; lit "mount"; lit "bpf"; lit "process_vm_readv"] →
  call ∉ worker_syscall_list.
Proof.
  intros Hin Hl. revert Hin. revert Hl.
  assert (forallb (λ c, bool_decide (c ∉ worker_syscall_list))
    [lit "open"; lit "openat"; lit "openat2"; lit "creat"; lit "unlink"; lit "rename";
     lit "socket"; lit "connect"; lit "bind"; lit "execve"; lit "execveat"; lit "fork";
     lit "vfork"; lit "clone"; lit "clone3"; lit "ptrace"; lit "prlimit64"; lit "kill";
     lit "setuid"; lit "setgid"; lit "capset"; lit "mount"; lit "bpf"; lit "process_vm_readv"] = true)
    as Hall by (vm_compute; reflexivity).
  intros Hl Hin. rewrite forallb_Forall, Forall_forall in Hall. apply Hall in Hin.
  by apply bool_decide_eq_true_1 in Hin.
Qed.
End properties.

(** ** Witnesses *)

(** A process that is its effective set, on a kernel that enforces Landlock
    to the given degree. *)
Definition may_setgid (p : list Capability) : result str unit :=
  if bool_decide (CAP_SETGID ∈ p) then Ok () else Err (lit "EPERM").

Definition process_on (status : RulesetStatus) : SandboxSys (list Capability) := {|
  caps_all := [CAP_SETGID; CAP_SETUID; CAP_NET_ADMIN];
  cap_debug c := dec c;
  caps_drop set cap p := (match set with Effective => filter (λ c, c ≠ cap) p | _ => p end, Ok ());
  caps_read set p := Ok p;
  caps_raise set cap p := (cap :: p, Ok ());
  user_from_name _ := Ok (Some 1000);
  group_from_name _ := Ok (Some 1000);
  sys_setgroups _ p := (p, may_setgid p);
  sys_setgid _ p := (p, may_setgid p);
  sys_setuid _ p := (p, Ok ());
  sys_set_keepcaps _ p := (p, Ok ());
  ll_handle_access := Ok ();
  ll_create := Ok ();
  ll_open_path _ _ := Ok ();
  ll_add_rule _ := Ok ();
  ll_restrict_self _ p := (p, Ok status);
  seccomp_build _ := Ok ();
  seccomp_compile _ := Ok ();
  seccomp_apply _ p := (p, Ok ());
|}.

#[global] Instance list_process : SandboxSys (list Capability) := process_on FullyEnforced.

#[global] Program Instance list_process_laws : SandboxLaws (list Capability) := {
  effective p c := c ∈ p;
}.
Next Obligation. apply list_elem_of_here. Qed.
Next Obligation. cbn. intros cap p Hin. by apply list_elem_of_filter in Hin as [? _]. Qed.
Next Obligation. cbn. intros [] cap p c; try done. intros Hin. by apply list_elem_of_filter in Hin as [_ ?]. Qed.
Next Obligation.
  cbn. intros gs p Hc. unfold may_setgid. rewrite bool_decide_eq_false_2 by done. by eexists.
Qed.

(** A root daemon with the default configuration. *)
Lemma privdrop_always_fails_witness :
  ∃ e, (apply_sandbox sample_config true [CAP_SETGID; CAP_SETUID; CAP_NET_ADMIN]).2 = Err e.
Proof.
  apply (privdrop_always_fails (daemon_sandbox_config sample_config true)
    {| target_user := lit "fwknox"; target_group := lit "fwknox" |}).
  - reflexivity.
  - apply (bool_decide_unpack _). vm_compute. exact I.
Defined.

Lemma worker_sandbox_fails_closed_witness :
  ∃ p1, ll_restrict_self [] [CAP_NET_ADMIN] = (p1, Ok FullyEnforced) ∧
        seccomp_apply worker_syscall_list p1 = ([CAP_NET_ADMIN], Ok ()).
Proof. apply (worker_sandbox_fails_closed [CAP_NET_ADMIN]). vm_compute. reflexivity. Defined.

Lemma worker_list_is_tight_witness : lit "execve" ∉ worker_syscall_list.
Proof. apply worker_list_is_tight. apply (bool_decide_unpack _). vm_compute. exact I. Defined.
