(* ===== verification/Daemon.v ===== *)
(** * fwknox-daemon: stanza matching and the packet pipeline

    Models crates/fwknox-daemon/src/matcher.rs and pipeline.rs. The pipeline
    threads the replay cache, the file it is persisted in and the firewall;
    what it reads from the outside (two clock readings and the faults of the
    cache write) is its environment. *)

From S2P Require Import Prelude RustStd Net Lru Proto Instances Packet Persist Replay Config Firewall.
From S2P Require Import Capture Privsep Sandbox.

(** ** matcher.rs *)

Inductive MatchResult :=
  | Matched (stanza_name : str) (payload : SpaPayload)
  | NoMatch
  | MatchRejected (stanza_name : str) (reason : ProtoError).

Section matcher.
Context `{N : IpNetOps} `{R : Ring} `{M : Rmp SpaPayload}.

Fixpoint match_packet (wire : bytes) (stanzas : list AccessStanza) : MatchResult :=
  match stanzas with
  | [] => NoMatch
  | stanza :: rest =>
      match parse_packet wire (master_key_base64 stanza) with
      | Ok payload => Matched (stanza_name stanza) payload
      | Err HmacFailed => match_packet wire rest
      | Err other => MatchRejected (stanza_name stanza) other
      end
  end.
End matcher.

(** ** error.rs *)

Inductive DaemonError :=
  | DConfig (e : ConfigError)
  | DFirewall (e : FirewallError)
  | DCapture (e : CaptureError)
  | DReplay (e : ReplayError)
  | DSandbox (e : SandboxError)
  | DProto (e : ProtoError)
  | DPrivsep (e : PrivsepError)
  | DIo (e : io_error)
  | InvariantViolation (msg : str).

(** ** pipeline.rs *)

Inductive ProcessResult :=
  | Installed (stanza_name : str) (handle : RuleHandle)
  | ReplayHit (stanza_name : str)
  | PNoMatch
  | Rejected (stanza_name : str) (reason : str).

(** [SystemTime::now()] as seconds since the epoch, [None] before it; the
    [as i64] wraps. *)
Definition now_unix (clock : option Z) : Z := wrap_i64 (default 0 clock).

Definition clamp_timeout (requested max : Duration) : Duration :=
  if requested >? max then max else requested.

(** [i64::try_from(d.as_secs()).unwrap_or(i64::MAX)]. *)
Definition max_age_of (d : Duration) : Z := Z.min (as_secs d) i64_max.

Section pipeline.
Context `{N : IpNetOps} `{R : Ring} `{M : Rmp SpaPayload} `{L : LruCache Nonce Z} `{HI : HashIter}
  {B : Type} `{F : !FirewallBackend B}.

Definition find_stanza (config : DaemonConfig) (name : str) : result DaemonError AccessStanza :=
  ok_or (InvariantViolation (lit "stanza " ++ name ++ lit " not in config"))
    (List.find (λ s, bool_decide (stanza_name s = name)) (access config)).

Record World := { w_replay : ReplayCache; w_fs : Fs; w_fw : B }.

Record PacketEnv := {
  env_clock : option Z;
  env_replay_now : Z;
  env_faults : WriteFaults;
}.

Definition with_fw (w : World) (fw : B) : World :=
  {| w_replay := w_replay w; w_fs := w_fs w; w_fw := fw |}.

(** The requested port that [open_ports] lacks, if any. *)
Definition port_outside (allowed ports : list PortProto) : option PortProto :=
  List.find (λ pp, negb (existsb (λ a, bool_decide (a = pp)) allowed)) ports.

(** The source and port policy of a stanza for an access request, shared by
    the single-process pipeline and the crypto worker. *)
Definition check_policy (stanza : AccessStanza) (captured_ip : IpAddr) (m : SpaMessage)
    (unsupported : str) : result str (IpAddr * list PortProto) :=
  match m with
  | Access source_ip ports =>
      _ ← guard_err (require_source_match stanza && negb (bool_decide (source_ip = captured_ip)))
            (lit "source mismatch: payload says " ++ show_ip source_ip ++ lit ", packet from " ++
             show_ip captured_ip);
      _ ← guard_err (negb (existsb (λ s, SourceSpec_matches s captured_ip) (source stanza)))
            (lit "source " ++ show_ip captured_ip ++ lit " not in stanza allowlist");
      match port_outside (open_ports stanza) ports with
      | Some pp => Err (lit "requested port " ++ show_PortProto pp ++ lit " not in stanza open_ports")
      | None => Ok (source_ip, ports)
      end
  | _ => Err unsupported
  end.

(** The rule of step 6. *)
Definition access_rule (config : DaemonConfig) (stanza : AccessStanza) (p : SpaPayload)
    (source_ip : IpAddr) (ports : list PortProto) : AccessRule := {|
  rule_source_ip := source_ip;
  rule_ports := ports;
  rule_timeout := clamp_timeout (default (default_fw_timeout (daemon config)) (fw_timeout stanza))
                    (max_fw_timeout (daemon config));
  rule_comment := lit "fwknox:" ++ username p ++ lit ":" ++ dec (timestamp p);
|}.

Definition process_packet (captured : CapturedPacket) (config : DaemonConfig) (env : PacketEnv)
    (w : World) : World * result DaemonError ProcessResult :=
  match match_packet (cap_data captured) (access config) with
  | NoMatch => (w, Ok PNoMatch)
  | MatchRejected name reason => (w, Ok (Rejected name (show_ProtoError reason)))
  | Matched name payload =>
      match find_stanza config name with
      | Err e => (w, Err e)
      | Ok stanza =>
          match validate_against_clock payload (now_unix (env_clock env))
                  (max_age_of (max_spa_packet_age (daemon config))) DEFAULT_MAX_SKEW_SECS with
          | Err e => (w, Ok (Rejected name (show_ProtoError e)))
          | Ok _ =>
              let '(replay, fs, seen) :=
                check_and_insert (w_replay w) (nonce payload) (env_replay_now env)
                  (env_faults env) (w_fs w) in
              let w := {| w_replay := replay; w_fs := fs; w_fw := w_fw w |} in
              match seen with
              | Ok false => (w, Ok (ReplayHit name))
              | Err e =>
                  (w, Ok (Rejected name (lit "replay cache persist failed: " ++ show_ReplayError e)))
              | Ok true =>
                  match check_policy stanza (cap_source_ip captured) (message payload)
                          (lit "unsupported message variant in Phase 3") with
                  | Err reason => (w, Ok (Rejected name reason))
                  | Ok (source_ip, ports) =>
                      let '(fw, r) :=
                        fw_open_access (w_fw w) (access_rule config stanza payload source_ip ports) in
                      match r with
                      | Err e => (with_fw w fw, Err (DFirewall e))
                      | Ok handle => (with_fw w fw, Ok (Installed name handle))
                      end
                  end
              end
          end
      end
  end.
End pipeline.
Arguments World {_} _.

(** ** Lemmas *)

Section matcher_lemmas.
Context `{N : IpNetOps} `{R : Ring} `{M : Rmp SpaPayload}.

(** The stanza that ends the search: the earlier ones failed at the HMAC. *)
Definition first_key (wire : bytes) (ss : list AccessStanza) (s : AccessStanza) : Prop :=
  ∃ l1 l2, ss = l1 ++ s :: l2 ∧
    Forall (λ s', parse_packet wire (master_key_base64 s') = Err HmacFailed) l1.

Lemma match_packet_spec wire ss :
  match match_packet wire ss with
  | Matched name p =>
      ∃ s, first_key wire ss s ∧ stanza_name s = name ∧
           parse_packet wire (master_key_base64 s) = Ok p
  | MatchRejected name e =>
      ∃ s, first_key wire ss s ∧ stanza_name s = name ∧ e ≠ HmacFailed ∧
           parse_packet wire (master_key_base64 s) = Err e
  | NoMatch => Forall (λ s, parse_packet wire (master_key_base64 s) = Err HmacFailed) ss
  end.
Proof.
  induction ss as [|s ss IH]; cbn [match_packet]; [constructor|].
  destruct (parse_packet wire (master_key_base64 s)) as [p|e] eqn:E.
  - exists s. split_and!; [|done|done]. by exists [], ss.
  - destruct (decide (e = HmacFailed)) as [->|Hne].
    + destruct (match_packet wire ss) as [name p| |name e'].
      * destruct IH as (s' & (l1 & l2 & -> & ?) & ?). exists s'. split; [|done].
        exists (s :: l1), l2. split; [done|]. by constructor.
      * by constructor.
      * destruct IH as (s' & (l1 & l2 & -> & ?) & ?). exists s'. split; [|done].
        exists (s :: l1), l2. split; [done|]. by constructor.
    + assert (∃ s', first_key wire (s :: ss) s' ∧ stanza_name s' = stanza_name s ∧
                e ≠ HmacFailed ∧ parse_packet wire (master_key_base64 s') = Err e) as Hr.
      { exists s. split_and!; [|done|done|done]. by exists [], ss. }
      destruct e; done.
Qed.

Lemma match_packet_first wire ss s p :
  first_key wire ss s → parse_packet wire (master_key_base64 s) = Ok p →
  match_packet wire ss = Matched (stanza_name s) p.
Proof.
  intros (l1 & l2 & -> & Hl) Hp. induction Hl as [|s' l1 Hs' _ IH]; cbn; [by rewrite Hp|by rewrite Hs'].
Qed.

Lemma first_key_in wire ss s : first_key wire ss s → s ∈ ss.
Proof. intros (l1 & l2 & -> & _). set_solver. Qed.

(** With unique names the stanza found by name is the one that matched. *)
Lemma find_stanza_in config s :
  NoDup (stanza_name <$> access config) → s ∈ access config →
  find_stanza config (stanza_name s) = Ok s.
Proof. intros Hn Hs. unfold find_stanza. by rewrite find_unique. Qed.

Lemma port_outside_none allowed ports :
  port_outside allowed ports = None ↔ ∀ pp, pp ∈ ports → pp ∈ allowed.
Proof.
  unfold port_outside. split.
  - intros Hf pp Hin. apply list_elem_of_In in Hin.
    pose proof (List.find_none _ _ Hf pp Hin) as He. apply negb_false_iff in He.
    by apply existsb_eq_elem_of in He.
  - intros Hall. destruct (List.find _ ports) as [pp|] eqn:E; [|done].
    apply List.find_some in E as [Hin He]. apply list_elem_of_In, Hall in Hin.
    apply negb_true_iff, not_true_iff_false in He. destruct He. by apply existsb_eq_elem_of.
Qed.

(** The declarative source and port policy. *)
Definition policy_allows (s : AccessStanza) (captured_ip source_ip : IpAddr)
    (ports : list PortProto) : Prop :=
  (require_source_match s = true → source_ip = captured_ip) ∧
  (∃ spec, spec ∈ source s ∧ SourceSpec_matches spec captured_ip = true) ∧
  (∀ pp, pp ∈ ports → pp ∈ open_ports s).

Lemma check_policy_ok s ip m u src ports :
  check_policy s ip m u = Ok (src, ports) ↔ m = Access src ports ∧ policy_allows s ip src ports.
Proof.
  unfold check_policy, policy_allows. destruct m as [src' ports'| | |]; try naive_solver.
  rewrite !bind_unit_ok, !guard_err_ok, andb_false_iff, !negb_false_iff, bool_decide_eq_true.
  rewrite existsb_exists. setoid_rewrite <- list_elem_of_In.
  pose proof (port_outside_none (open_ports s) ports') as Hp.
  destruct (port_outside (open_ports s) ports') as [pp|].
  - split; [naive_solver|]. intros ([= <- <-] & _ & _ & Hall). apply Hp in Hall. done.
  - split.
    + intros (Hm & Hs & [= <- <-]). split_and!; [done| |done|by apply Hp].
      destruct Hm; [congruence|done].
    + intros ([= <- <-] & Hm & Hs & _). split_and!; [|done|done].
      destruct (require_source_match s); auto.
Qed.
End matcher_lemmas.

(** ** Properties *)

Section pipeline_properties.
Context `{N : IpNetOps} `{U : UnicodeTables} `{R : Ring} `{M : Rmp SpaPayload}
  `{L : LruCache Nonce Z} `{LL : !LruLaws Nonce Z L} `{HL : HashIterLaws}
  {B : Type} `{F : !FirewallBackend B} `{FL : !FirewallLaws B}.
Implicit Types (config : DaemonConfig) (env : PacketEnv) (w : World B) (captured : CapturedPacket).

(** A packet that is authentic for a stanza and within the clock window. *)
Definition authentic config (clock : option Z) captured (s : AccessStanza) (p : SpaPayload) : Prop :=
  first_key (cap_data captured) (access config) s ∧
  parse_packet (cap_data captured) (master_key_base64 s) = Ok p ∧
  validate_against_clock p (now_unix clock)
    (max_age_of (max_spa_packet_age (daemon config))) DEFAULT_MAX_SKEW_SECS = Ok ().

(** The stanza a packet belongs to and its payload are determined. *)
Lemma authentic_fun config clock captured s1 p1 s2 p2 :
  authentic config clock captured s1 p1 → authentic config clock captured s2 p2 → p1 = p2.
Proof.
  intros (F1 & P1 & _) (F2 & P2 & _).
  pose proof (match_packet_first _ _ _ _ F1 P1) as H1.
  rewrite (match_packet_first _ _ _ _ F2 P2) in H1. congruence.
Qed.

(** The replay check a packet with nonce [n] makes. *)
Definition replay_check env w (n : Nonce) :=
  check_and_insert (w_replay w) n (env_replay_now env) (env_faults env) (w_fs w).

(** What [process_packet] did, from its result. *)
Lemma process_packet_cases captured config env w w' r :
  NoDup (stanza_name <$> access config) → process_packet captured config env w = (w', r) →
  match r with
  | Ok PNoMatch => w' = w
  | Ok (Installed name h) =>
      ∃ s p src ports, authentic config (env_clock env) captured s p ∧ stanza_name s = name ∧
        message p = Access src ports ∧ policy_allows s (cap_source_ip captured) src ports ∧
        replay_check env w (nonce p) = (w_replay w', w_fs w', Ok true) ∧
        fw_open_access (w_fw w) (access_rule config s p src ports) = (w_fw w', Ok h)
  | Ok (ReplayHit name) =>
      w' = w ∧ ∃ s p, authentic config (env_clock env) captured s p ∧ nonce p ∈ cache_keys (w_replay w)
  | Ok (Rejected name reason) =>
      w' = w ∨ ∃ s p res, authentic config (env_clock env) captured s p ∧ stanza_name s = name ∧
        replay_check env w (nonce p) = (w_replay w', w_fs w', res) ∧ w_fw w' = w_fw w
  | Err e =>
      ∃ fe s p src ports, e = DFirewall fe ∧ authentic config (env_clock env) captured s p ∧
        replay_check env w (nonce p) = (w_replay w', w_fs w', Ok true) ∧
        fw_open_access (w_fw w) (access_rule config s p src ports) = (w_fw w', Err fe)
  end.
Proof.
  intros Hnd. unfold process_packet.
  pose proof (match_packet_spec (cap_data captured) (access config)) as Hm.
  destruct (match_packet (cap_data captured) (access config)) as [name p| |name e].
  2: by intros [= <- <-]. 2: { intros [= <- <-]. by left. }
  destruct Hm as (s & Hs & <- & Hp). rewrite find_stanza_in by (done || by eapply first_key_in).
  destruct (validate_against_clock p _ _ _) as [[]|e] eqn:Hc; [|intros [= <- <-]; by left].
  assert (authentic config (env_clock env) captured s p) as Ha by by split_and!.
  change (check_and_insert _ _ _ _ _) with (replay_check env w (nonce p)).
  destruct (replay_check env w (nonce p)) as [[c fs] seen] eqn:Hr.
  destruct seen as [[|]|re]; cbv beta iota zeta.
  - destruct (check_policy s _ _ _) as [[src ports]|reason] eqn:Hpol.
    + apply check_policy_ok in Hpol as [Hmsg Hpol]. cbn [w_fw].
      destruct (fw_open_access _ _) as [fw [h|fe]] eqn:Hf; intros [= <- <-]; cbn [with_fw w_replay w_fs w_fw].
      * exists s, p, src, ports. by split_and!.
      * exists fe, s, p, src, ports. by split_and!.
    + intros [= <- <-]. right. exists s, p, (Ok true). by split_and!.
  - intros [= <- <-]. unfold replay_check in Hr.
    destruct (check_and_insert_cases (w_replay w) (nonce p) (env_replay_now env) (env_faults env) (w_fs w))
      as [[Hk E]|[(_ & ? & ? & E & _)|(_ & ? & ? & ? & E & _)]]; rewrite E in Hr; try discriminate.
    injection Hr as <- <-. split; [by destruct w|]. by exists s, p.
  - intros [= <- <-]. right. exists s, p, (Err re). by split_and!.
Qed.

(** C1: soundness of an installed rule. A rule is installed only for a
    packet that authenticates under the key of a configured stanza (the
    first one whose HMAC verifies), whose timestamp is in the window, whose
    nonce was not in the replay cache and now is, that asks for plain
    access from an allowed source and for allowed ports only; and exactly
    those doors open, by one rule for at most the configured maximum time. *)
Theorem installed_sound captured config env w w' name h :
  config_valid config →
  process_packet captured config env w = (w', Ok (Installed name h)) →
  ∃ s p src ports r, s ∈ access config ∧ stanza_name s = name ∧
    authentic config (env_clock env) captured s p ∧ message p = Access src ports ∧
    policy_allows s (cap_source_ip captured) src ports ∧
    (nonce p ∉ cache_keys (w_replay w)) ∧ nonce p ∈ cache_keys (w_replay w') ∧
    fw_open_access (w_fw w) r = (w_fw w', Ok h) ∧
    rule_timeout r ≤ max_fw_timeout (daemon config) ∧
    fw_doors (w_fw w') = fw_doors (w_fw w) ∪ list_to_set (doors_of src ports).
Proof.
  intros (_ & Hnd & _) Hr. apply process_packet_cases in Hr; [|done].
  destruct Hr as (s & p & src & ports & Ha & Hn & Hm & Hpol & Hrc & Hf).
  exists s, p, src, ports, (access_rule config s p src ports). unfold replay_check in Hrc.
  destruct (check_and_insert_cases (w_replay w) (nonce p) (env_replay_now env) (env_faults env) (w_fs w))
    as [[Hk E]|[(Hk & c' & fs' & E & _ & _ & He & _)|(_ & ? & ? & ? & E & _)]];
    rewrite E in Hrc; try discriminate. injection Hrc as Hc _. subst c'.
  split_and!; try done.
  - eapply first_key_in, Ha.
  - unfold cache_keys. rewrite He. apply elem_of_cons. by left.
  - unfold access_rule, clamp_timeout; cbn [rule_timeout]. destruct (Z.gtb_spec
      (default (default_fw_timeout (daemon config)) (fw_timeout s)) (max_fw_timeout (daemon config))); lia.
  - by rewrite (fw_open_ok _ _ _ _ Hf).
Qed.

(** C23: fail closed. Whatever the packet, a result other than [Installed]
    leaves every door as it was; the only error is the firewall's own, so
    the stanza lookup after a match never fails; and a packet no key
    matches changes nothing at all. *)
Theorem process_fails_closed captured config env w w' r :
  config_valid config → process_packet captured config env w = (w', r) →
  (∀ name h, r ≠ Ok (Installed name h)) →
  fw_doors (w_fw w') = fw_doors (w_fw w) ∧
  (r = Ok PNoMatch → w' = w) ∧ (∀ e, r = Err e → ∃ fe, e = DFirewall fe).
Proof.
  intros (_ & Hnd & _) Hr Hni. apply process_packet_cases in Hr; [|done].
  destruct r as [[name h|name| |name reason]|e].
  - by destruct (Hni name h).
  - destruct Hr as [-> _]. naive_solver.
  - subst. naive_solver.
  - destruct Hr as [->|(s & p & res & _ & _ & _ & ->)]; naive_solver.
  - destruct Hr as (fe & s & p & src & ports & -> & _ & _ & Hf). pose proof (fw_open_err _ _ _ _ Hf).
    split_and!; [done|done|]. intros e [= <-]. eauto.
Qed.

Lemma built_installs `{!RingLaws R, !RmpLaws SpaPayload}
    config env w s p n wire ip src ports :
  config_valid config → portable p → len n = NONCE_LEN →
  build_packet p (master_key_base64 s) (Some n) = Ok wire → validate_structure p = Ok () →
  first_key wire (access config) s →
  validate_against_clock p (now_unix (env_clock env))
    (max_age_of (max_spa_packet_age (daemon config))) DEFAULT_MAX_SKEW_SECS = Ok () →
  (nonce p ∉ cache_keys (w_replay w)) → env_faults env = no_faults →
  message p = Access src ports → policy_allows s ip src ports →
  (∀ r, rule_source_ip r = src → rule_ports r = ports →
     ∃ fw h, fw_open_access (w_fw w) r = (fw, Ok h)) →
  ∃ w' h r, process_packet {| cap_source_ip := ip; cap_data := wire |} config env w =
              (w', Ok (Installed (stanza_name s) h)) ∧
    rule_source_ip r = src ∧ rule_ports r = ports ∧ fw_open_access (w_fw w) r = (w_fw w', Ok h).
Proof.
  intros (_ & Hnd & _) Hport Hn Hb Hv Hk Hc Hfresh Hnf Hm Hpol Hf.
  assert ((replay_check env w (nonce p)).2 = Ok true) as Hr
    by (unfold replay_check; rewrite Hnf; by apply check_and_insert_accepts).
  assert (parse_packet wire (master_key_base64 s) = Ok p) as Hp
    by (rewrite (parse_built p _ n wire) by done; by rewrite Hv).
  unfold process_packet; cbn [cap_data cap_source_ip].
  rewrite (match_packet_first _ _ _ _ Hk Hp).
  rewrite find_stanza_in by (done || by eapply first_key_in). rewrite Hc.
  change (check_and_insert _ _ _ _ _) with (replay_check env w (nonce p)).
  destruct (replay_check env w (nonce p)) as [[c fs] seen]. cbn [snd] in Hr. subst seen.
  cbv beta iota zeta.
  rewrite (proj2 (check_policy_ok s ip (message p) _ src ports)) by done. cbn [w_fw].
  destruct (Hf (access_rule config s p src ports)) as (fw & h & Ho); [done|done|]. rewrite Ho.
  eexists _, h, (access_rule config s p src ports). by split_and!.
Qed.

(** C21: completeness, from client to firewall. A packet the client built
    under a stanza's key from an [Access] payload whose user name passes
    [validate_structure] (the sender does not check it, the receiver does),
    that no earlier stanza's key claims, in the clock window, with a nonce that
    is not in the cache, an allowed source and allowed ports, is installed
    whenever the configuration is valid, the cache can be written and the
    firewall accepts rules for that source and those ports: one such rule is
    opened. *)
Theorem built_packet_installs `{!RingLaws R, !RmpLaws SpaPayload}
    config env w s p n wire ip src ports :
  config_valid config → portable p → len n = NONCE_LEN →
  build_packet p (master_key_base64 s) (Some n) = Ok wire → validate_structure p = Ok () →
  first_key wire (access config) s →
  validate_against_clock p (now_unix (env_clock env))
    (max_age_of (max_spa_packet_age (daemon config))) DEFAULT_MAX_SKEW_SECS = Ok () →
  (nonce p ∉ cache_keys (w_replay w)) → env_faults env = no_faults →
  message p = Access src ports → policy_allows s ip src ports →
  (∀ r, rule_source_ip r = src → rule_ports r = ports →
     ∃ fw h, fw_open_access (w_fw w) r = (fw, Ok h)) →
  ∃ w' h r, process_packet {| cap_source_ip := ip; cap_data := wire |} config env w =
              (w', Ok (Installed (stanza_name s) h)) ∧
    rule_source_ip r = src ∧ rule_ports r = ports ∧ fw_open_access (w_fw w) r = (w_fw w', Ok h).
Proof. apply built_installs. Qed.

(** *** Sequences of packets *)

(** A step of the main loop: a packet, or a prune of the replay cache. *)
Inductive daemon_op :=
  | OpPacket (captured : CapturedPacket) (env : PacketEnv)
  | OpPruneCache (max_age : Duration) (now : Z) (faults : WriteFaults).

Definition daemon_exec config w (op : daemon_op) : World B :=
  match op with
  | OpPacket captured env => (process_packet captured config env w).1
  | OpPruneCache max_age now faults =>
      let '(c, fs, _) := prune_older_than (w_replay w) max_age now faults (w_fs w) in
      {| w_replay := c; w_fs := fs; w_fw := w_fw w |}
  end.
Definition daemon_run config w (ops : list daemon_op) : World B := foldl (daemon_exec config) w ops.

Definition daemon_op_keeps (t : Z) (op : daemon_op) : Prop :=
  match op with
  | OpPacket _ _ => True
  | OpPruneCache max_age now _ => sat_sub_u64 now (as_secs max_age) ≤ t
  end.
Definition count_packets (ops : list daemon_op) : Z :=
  foldr (λ op k, match op with OpPacket _ _ => 1 | _ => 0 end + k) 0 ops.

(** The replay cache evolves by at most one insertion per packet. *)
Lemma exec_replay_ops config w t op :
  NoDup (stanza_name <$> access config) → daemon_op_keeps t op →
  ∃ rops, (w_replay (daemon_exec config w op), w_fs (daemon_exec config w op)) =
            replay_run (w_replay w, w_fs w) rops ∧
    Forall (op_keeps t) rops ∧
    count_inserts rops ≤ match op with OpPacket _ _ => 1 | _ => 0 end.
Proof.
  intros Hnd Hop. destruct op as [captured env|max_age now faults]; cbn [daemon_exec].
  - destruct (process_packet captured config env w) as [w' r] eqn:E. cbn [fst].
    apply process_packet_cases in E; [|done].
    assert ((w_replay w', w_fs w') = (w_replay w, w_fs w) ∨
            ∃ n, (w_replay w', w_fs w') = (replay_check env w n).1) as [Hw|[n Hw]].
    { destruct r as [[name h|name| |name reason]|e].
      - destruct E as (s & p & src & ports & _ & _ & _ & _ & E & _). right. exists (nonce p). by rewrite E.
      - destruct E as [-> _]. by left.
      - subst. by left.
      - destruct E as [->|(s & p & res & _ & _ & E & _)]; [by left|]. right. exists (nonce p). by rewrite E.
      - destruct E as (fe & s & p & src & ports & _ & _ & E & _). right. exists (nonce p). by rewrite E. }
    + exists []. rewrite Hw. by split_and!; [|constructor|].
    + exists [OpInsert n (env_replay_now env) (env_faults env)]. rewrite Hw.
      by split_and!; [|repeat constructor|].
  - exists [OpPrune max_age now faults]. cbn [replay_run foldl replay_exec fst snd].
    destruct (prune_older_than _ _ _ _ _) as [[c fs] r]. by split_and!; [|repeat constructor|].
Qed.

Lemma count_inserts_app ops1 ops2 :
  count_inserts (ops1 ++ ops2) = count_inserts ops1 + count_inserts ops2.
Proof. unfold count_inserts. induction ops1 as [|op ops1 IH]; cbn; [done|]. lia. Qed.

Lemma run_replay_ops config w t ops :
  NoDup (stanza_name <$> access config) → Forall (daemon_op_keeps t) ops →
  ∃ rops, (w_replay (daemon_run config w ops), w_fs (daemon_run config w ops)) =
            replay_run (w_replay w, w_fs w) rops ∧
    Forall (op_keeps t) rops ∧ count_inserts rops ≤ count_packets ops.
Proof.
  intros Hnd Hops. revert w. induction Hops as [|op ops Hop _ IH]; intros w.
  { exists []. by split_and!; [|constructor|]. }
  destruct (exec_replay_ops config w t op Hnd Hop) as (r1 & E1 & H1 & C1).
  destruct (IH (daemon_exec config w op)) as (r2 & E2 & H2 & C2).
  exists (r1 ++ r2). change (daemon_run config w (op :: ops)) with
    (daemon_run config (daemon_exec config w op) ops). rewrite E2, E1. unfold replay_run.
  rewrite foldl_app. split_and!; [done|by apply Forall_app|].
  rewrite count_inserts_app. change (count_packets (op :: ops)) with
    (match op with OpPacket _ _ => 1 | _ => 0 end + count_packets ops). lia.
Qed.

(** C22: no packet is honoured twice. After a packet has been installed, and
    through any sequence of fewer packets than the cache holds and of prunes
    whose cutoff does not pass the time of the installation, a packet with
    the same nonce, however it is presented again, is not installed. *)
Theorem no_second_install captured config env w w1 name h ops captured' env' :
  config_valid config →
  process_packet captured config env w = (w1, Ok (Installed name h)) →
  Forall (daemon_op_keeps (env_replay_now env)) ops →
  count_packets ops < cache_capacity (w_replay w) →
  ∃ p, (∃ s, authentic config (env_clock env) captured s p) ∧
    ∀ s' p', authentic config (env_clock env') captured' s' p' → nonce p' = nonce p →
      ∀ name' h', (process_packet captured' config env' (daemon_run config w1 ops)).2 ≠
                  Ok (Installed name' h').
Proof.
  intros (_ & Hnd & _) Hr Hops Hcount. apply process_packet_cases in Hr; [|done].
  destruct Hr as (s & p & src & ports & Ha & _ & _ & _ & Hrc & _).
  exists p. split; [by exists s|]. intros s' p' Ha' Hn name' h' Hin.
  destruct (run_replay_ops config w1 _ ops Hnd Hops) as (rops & E & Hk & Hc).
  destruct (process_packet captured' config env' (daemon_run config w1 ops)) as [w2 r2] eqn:E2.
  cbn [snd] in Hin. subst r2. apply process_packet_cases in E2; [|done].
  destruct E2 as (s2 & p2 & src2 & ports2 & Ha2 & _ & _ & _ & Hrc2 & _).
  assert (p2 = p') as -> by (eapply authentic_fun; eauto).
  rewrite Hn in Hrc2. unfold replay_check in Hrc, Hrc2.
  pose proof (accepted_stays_known _ _ _ _ _ _ _ rops Hrc Hk ltac:(lia)) as Hin.
  rewrite <- E in Hin. rewrite (known_is_replay _ _ _ _ _ Hin) in Hrc2. congruence.
Qed.
End pipeline_properties.

(** ** Witnesses *)

#[local] Existing Instance sample_rmp.
#[local] Existing Instance sample_rmp_laws.
#[local] Existing Instance sorted_hash_iter.
#[local] Existing Instance sorted_hash_iter_laws.

Definition stanza_wire : bytes := build_or_nil sample_payload (replicate 32 7) sample_nonce.
Definition sample_captured : CapturedPacket :=
  {| cap_source_ip := V4 [192; 168; 1; 5]; cap_data := stanza_wire |}.
Definition sample_env : PacketEnv :=
  {| env_clock := Some 1700000005; env_replay_now := 1700000005; env_faults := no_faults |}.
Definition sample_world : World (Nft.NftablesBackend (gset grant)) :=
  {| w_replay := sample_cache; w_fs := ∅; w_fw := ready_nft |}.
Definition sample_handle : RuleHandle := lit "192.168.1.5/tcp/22".
Definition sample_after : World (Nft.NftablesBackend (gset grant)) :=
  (process_packet sample_captured sample_config sample_env sample_world).1.

Lemma sample_config_ok : config_valid sample_config.
Proof. apply validate_iff. vm_compute. reflexivity. Qed.

Lemma sample_installs :
  process_packet sample_captured sample_config sample_env sample_world =
    (sample_after, Ok (Installed (lit "ssh") sample_handle)).
Proof.
  rewrite (surjective_pairing (process_packet sample_captured sample_config sample_env sample_world)).
  apply f_equal. vm_compute. reflexivity.
Qed.

Lemma installed_sound_witness :
  ∃ s p src ports, s ∈ access sample_config ∧ stanza_name s = lit "ssh" ∧
    authentic sample_config (env_clock sample_env) sample_captured s p ∧ message p = Access src ports.
Proof.
  destruct (installed_sound sample_captured sample_config sample_env sample_world sample_after
    (lit "ssh") sample_handle sample_config_ok sample_installs)
    as (s & p & src & ports & r & Hs & Hn & Ha & Hm & _).
  exists s, p, src, ports. auto.
Defined.

(** A replay: the nonce is already known, and no door changes. *)
Lemma process_fails_closed_witness :
  fw_doors (w_fw (process_packet sample_captured sample_config sample_env sample_after).1) =
  fw_doors (w_fw sample_after).
Proof.
  destruct (process_fails_closed sample_captured sample_config sample_env sample_after
    (process_packet sample_captured sample_config sample_env sample_after).1
    (Ok (ReplayHit (lit "ssh")))) as [Hd _].
  - apply sample_config_ok.
  - rewrite (surjective_pairing (process_packet sample_captured sample_config sample_env sample_after)) at 1.
    apply f_equal. vm_compute. reflexivity.
  - intros name h [=].
  - exact Hd.
Defined.

(** The sample kernel accepts every rule for an IPv4 source. *)
Lemma sample_opens r o :
  rule_source_ip r = V4 o →
  fw_open_access ready_nft r =
    ({| Nft.initialized := true; Nft.kernel := (ra_apply (open_batch o r) (Nft.kernel ready_nft)).1 |},
     Ok (open_handle o r)).
Proof. intros Hip. cbn. unfold Nft.nft_open_access. rewrite Hip. reflexivity. Qed.

Lemma built_packet_installs_witness :
  ∃ w' h r, process_packet {| cap_source_ip := V4 [192; 168; 1; 5]; cap_data := stanza_wire |}
              sample_config sample_env sample_world = (w', Ok (Installed (lit "ssh") h)) ∧
    rule_source_ip r = V4 [192; 168; 1; 5] ∧ rule_ports r = [PortProto_new Tcp 22] ∧
    fw_open_access ready_nft r = (w_fw w', Ok h).
Proof.
  apply (built_packet_installs sample_config sample_env sample_world sample_stanza sample_payload
    sample_nonce stanza_wire (V4 [192; 168; 1; 5]) (V4 [192; 168; 1; 5]) [PortProto_new Tcp 22]).
  - apply sample_config_ok.
  - apply sample_portable.
  - reflexivity.
  - vm_compute. reflexivity.
  - vm_compute. reflexivity.
  - exists [], []. split; [reflexivity|constructor].
  - vm_compute. reflexivity.
  - apply (bool_decide_unpack _). vm_compute. exact I.
  - reflexivity.
  - reflexivity.
  - split; [intros _; reflexivity|]. split.
    + eexists. split; [apply list_elem_of_here|reflexivity].
    + intros pp Hpp. exact Hpp.
  - intros r Hip Hpp. change (w_fw sample_world) with ready_nft. eexists _, _.
    apply sample_opens. exact Hip.
Defined.

Lemma no_second_install_witness :
  ∃ p, ∀ s' p', authentic sample_config (env_clock sample_env) sample_captured s' p' → nonce p' = nonce p →
    ∀ name' h', (process_packet sample_captured sample_config sample_env
                   (daemon_run sample_config sample_after
                      [OpPruneCache (from_secs 3600) 1700000060 no_faults])).2 ≠
                Ok (Installed name' h').
Proof.
  destruct (no_second_install sample_captured sample_config sample_env sample_world sample_after
    (lit "ssh") sample_handle [OpPruneCache (from_secs 3600) 1700000060 no_faults]
    sample_captured sample_env) as (p & _ & Hp).
  - apply sample_config_ok.
  - apply sample_installs.
  - repeat constructor; vm_compute; discriminate.
  - vm_compute. reflexivity.
  - exists p. exact Hp.
Defined.
