(* ===== verification/DaemonRun.v ===== *)
(** * fwknox-daemon: the main loops

    Models crates/fwknox-daemon/src/{validate,run,privsep_run,shutdown}.rs: the
    single-process loop, and in privilege-separated mode the validation of the
    crypto worker and the loop of the parent. A loop runs on a finite list of
    iterations, each with what the outside did during it. Notifications to
    systemd are recorded in order. *)

From S2P Require Import Prelude RustStd Net Lru Proto Instances Serde Packet Persist Replay Config RateLimit.
From S2P Require Import Firewall Capture Privsep Sandbox Daemon.

(** ** validate.rs *)

Section validate.
Context `{N : IpNetOps} `{R : Ring} `{M : Rmp SpaPayload}.

Definition show_DaemonError (e : DaemonError) : str :=
  match e with
  | InvariantViolation m => lit "internal invariant violated: " ++ m
  | DFirewall fe => lit "firewall error: " ++ show_FirewallError fe
  | DReplay re => lit "replay cache error: " ++ show_ReplayError re
  | DProto pe => lit "protocol error: " ++ show_ProtoError pe
  | DConfig ce => lit "config error: " ++ show_ConfigError ce
  | DSandbox m => lit "sandbox error: " ++ show_SandboxError m
  | DPrivsep m => lit "privsep error: " ++ show_PrivsepError m
  | DIo ie => lit "io error: " ++ io_text ie
  | DCapture (Bind ie) => lit "capture error: failed to bind capture socket: " ++ io_text ie
  | DCapture (Recv ie) => lit "capture error: failed to receive packet: " ++ io_text ie
  end.

Definition validate_capture_msg (msg : CaptureMsg) (config : DaemonConfig) (clock : option Z)
  : CryptoMsg :=
  let '(CapturePacket source_ip data) := msg in
  match match_packet data (access config) with
  | NoMatch => CryptoNoMatch source_ip
  | MatchRejected _ reason => CryptoRejected source_ip (show_ProtoError reason)
  | Matched name payload =>
      match find_stanza config name with
      | Err e => CryptoRejected source_ip (show_DaemonError e)
      | Ok stanza =>
          match validate_against_clock payload (now_unix clock)
                  (max_age_of (max_spa_packet_age (daemon config))) DEFAULT_MAX_SKEW_SECS with
          | Err e => CryptoRejected source_ip (show_ProtoError e)
          | Ok _ =>
              match check_policy stanza source_ip (message payload)
                      (lit "unsupported message variant") with
              | Err reason => CryptoRejected source_ip reason
              | Ok _ => ValidRequest name source_ip payload
              end
          end
      end
  end.
End validate.

Inductive Notify := Ready | Watchdog | Stopping.

Definition LOOP_TICK : Duration := from_millis 500.
Definition PRUNE_EVERY_TICKS : Z := 600.
Definition PARENT_POLL_INTERVAL : Duration := from_millis 100.

Section loops.
Context `{N : IpNetOps} `{R : Ring} `{M : Rmp SpaPayload} `{L : LruCache Nonce Z} `{HI : HashIter}
  `{LT : LruCache SourceKey TokenBucket} {B : Type} `{F : !FirewallBackend B}.

(** ** privsep_run.rs: one message from the crypto worker *)

Definition handle_crypto_msg (msg : CryptoMsg) (config : DaemonConfig) (env : PacketEnv)
    (w : World B) : World B :=
  match msg with
  | CryptoNoMatch _ => w
  | CryptoRejected _ _ => w
  | ValidRequest name _ payload =>
      let '(replay, fs, seen) :=
        check_and_insert (w_replay w) (nonce payload) (env_replay_now env) (env_faults env) (w_fs w) in
      let w := {| w_replay := replay; w_fs := fs; w_fw := w_fw w |} in
      match seen with
      | Ok false => w
      | Err _ => w
      | Ok true =>
          match message payload with
          | Access payload_src ports =>
              match List.find (λ s, bool_decide (stanza_name s = name)) (access config) with
              | None => w
              | Some stanza =>
                  let timeout := default (default_fw_timeout (daemon config)) (fw_timeout stanza) in
                  let rule := {|
                    rule_source_ip := payload_src;
                    rule_ports := ports;
                    rule_timeout := Z.min timeout (max_fw_timeout (daemon config));
                    rule_comment := lit "fwknox:" ++ username payload ++ lit ":" ++
                                    dec (timestamp payload) |} in
                  with_fw w (fw_open_access (w_fw w) rule).1
              end
          | _ => w
          end
      end
  end.

(** A prune every 600 ticks; its result is only logged. *)
Definition prune_tick (config : DaemonConfig) (tick now : Z) (faults : WriteFaults) (w : World B)
  : World B :=
  if tick mod PRUNE_EVERY_TICKS =? 0 then
    let '(c, fs, _) := prune_older_than (w_replay w) (max_age (replay config)) now faults (w_fs w) in
    {| w_replay := c; w_fs := fs; w_fw := w_fw w |}
  else w.

(** The common end of both loops: flush if configured, then save the cache;
    errors are only logged. *)
Definition shutdown_steps (config : DaemonConfig) (faults : WriteFaults) (w : World B) : World B :=
  let fw := if flush_rules_at_exit (daemon config) then (fw_flush (w_fw w)).1 else w_fw w in
  let '(fs, _) := save_to_file (w_replay w) (cache_path (replay config)) faults (w_fs w) in
  {| w_replay := w_replay w; w_fs := fs; w_fw := fw |}.

(** ** run.rs *)

Record RunIter := {
  ri_shutdown : bool;
  ri_recv : result CaptureError (option CapturedPacket);
  ri_reset_now : Instant;
  ri_now : Instant;
  ri_env : PacketEnv;
  ri_prune_now : Z;
  ri_prune_faults : WriteFaults;
}.

Record RunState := {
  rs_world : World B;
  rs_limiter : RateLimiter;
  rs_tick : Z;
  rs_notes : list Notify;
}.

Definition notify (config : DaemonConfig) (n : Notify) (notes : list Notify) : list Notify :=
  if enable_systemd (daemon config) then notes ++ [n] else notes.

(** The result of the pipeline is only logged, with the level of each case. *)
Definition handle_packet (pkt : CapturedPacket) (config : DaemonConfig) (env : PacketEnv) (w : World B)
  : World B * Level :=
  let '(w, r) := process_packet pkt config env w in
  (w, match r with
      | Ok (Installed _ _) => LInfo
      | Ok (ReplayHit _) => LWarn
      | Ok PNoMatch => LDebug
      | Ok (Rejected _ _) => LWarn
      | Err _ => LError
      end).

Lemma handle_packet_world pkt config env w :
  (handle_packet pkt config env w).1 = (process_packet pkt config env w).1.
Proof. unfold handle_packet. by destruct (process_packet pkt config env w). Qed.

(** The body of the loop after the shutdown check. *)
Definition run_iter (config : DaemonConfig) (it : RunIter) (s : RunState) : RunState :=
  let '(w, rl) :=
    match ri_recv it with
    | Ok None => (rs_world s, rs_limiter s)
    | Ok (Some pkt) =>
        let '(rl, decision, _) :=
          check (rs_limiter s) (cap_source_ip pkt) (ri_reset_now it) (ri_now it) in
        match decision with
        | Pass => ((handle_packet pkt config (ri_env it) (rs_world s)).1, rl)
        | Drop _ => (rs_world s, rl)
        end
    | Err _ => (rs_world s, rs_limiter s)
    end in
  let tick := wrap_u64 (rs_tick s + 1) in
  {| rs_world := prune_tick config tick (ri_prune_now it) (ri_prune_faults it) w;
     rs_limiter := rl;
     rs_tick := tick;
     rs_notes := notify config Watchdog (rs_notes s) |}.

(** The loop: [true] when it broke on the shutdown flag. *)
Fixpoint run_loop (config : DaemonConfig) (iters : list RunIter) (s : RunState) : RunState * bool :=
  match iters with
  | [] => (s, false)
  | it :: iters => if ri_shutdown it then (s, true) else run_loop config iters (run_iter config it s)
  end.

(** [run]: [None] while the loop goes on. *)
Definition run (config : DaemonConfig) (iters : list RunIter) (exit_faults : WriteFaults)
    (w : World B) (rl : RateLimiter) : RunState * option (result DaemonError unit) :=
  let fw := if flush_rules_at_init (daemon config) then (fw_flush (w_fw w)).1 else w_fw w in
  match fw_init fw with
  | (fw, Err e) =>
      ({| rs_world := with_fw w fw; rs_limiter := rl; rs_tick := 0; rs_notes := [] |},
       Some (Err (DFirewall e)))
  | (fw, Ok _) =>
      let s := {| rs_world := with_fw w fw; rs_limiter := rl; rs_tick := 0;
                  rs_notes := notify config Ready [] |} in
      match run_loop config iters s with
      | (s, false) => (s, None)
      | (s, true) =>
          ({| rs_world := shutdown_steps config exit_faults (rs_world s);
              rs_limiter := rs_limiter s; rs_tick := rs_tick s;
              rs_notes := notify config Stopping (rs_notes s) |}, Some (Ok ()))
      end
  end.

(** ** privsep_run.rs: the loop of the parent *)

Record ParentIter := {
  pi_shutdown : bool;
  pi_recv : result PrivsepError CryptoMsg;
  pi_env : PacketEnv;
  pi_reap : result Errno WaitStatus;
  pi_prune_now : Z;
  pi_prune_faults : WriteFaults;
}.

(** The shutdown flag is the one the signal handlers set, or the one the
    loop sets itself when it reaped a worker. *)
Record ParentState := {
  ps_world : World B;
  ps_tick : Z;
  ps_triggered : bool;
  ps_notes : list Notify;
}.

Definition parent_iter (config : DaemonConfig) (it : ParentIter) (s : ParentState) : ParentState :=
  let w := match pi_recv it with
           | Ok msg => handle_crypto_msg msg config (pi_env it) (ps_world s)
           | Err _ => ps_world s
           end in
  let tick := wrap_u64 (ps_tick s + 1) in
  let triggered := match try_reap_any_child (pi_reap it) with
                   | Ok (Some _) => true
                   | _ => ps_triggered s
                   end in
  {| ps_world := prune_tick config tick (pi_prune_now it) (pi_prune_faults it) w;
     ps_tick := tick;
     ps_triggered := triggered;
     ps_notes := notify config Watchdog (ps_notes s) |}.

Fixpoint parent_loop (config : DaemonConfig) (iters : list ParentIter) (s : ParentState)
  : ParentState * bool :=
  match iters with
  | [] => (s, ps_triggered s)
  | it :: iters =>
      if ps_triggered s || pi_shutdown it then (s, true)
      else parent_loop config iters (parent_iter config it s)
  end.

(** What the calls around the loop returned: the two signal handlers, the
    read timeout, and at the end the signal and the wait for each worker. The
    waits have no time limit: [None] is one that does not return. The
    registration for [SIGCHLD] is only logged when it fails. *)
Record ParentEnv := {
  pe_handlers : result io_error unit;
  pe_set_read_timeout : result io_error unit;
  pe_capture_end : option (result Errno unit * result Errno WaitStatus);
  pe_crypto_end : option (result Errno unit * result Errno WaitStatus);
  pe_exit_faults : WriteFaults;
}.

(** The worker is signalled and reaped; a failure is only logged. *)
Definition end_worker (e : result Errno unit * result Errno WaitStatus) : list Level :=
  let '(log, r) := terminate_and_wait e.1 e.2 in
  match r with Ok _ => log | Err _ => log ++ [LWarn] end.

(** [run_parent_loop], with what it logged while it ended the workers;
    [None] while the loop goes on or waits for a worker. *)
Definition run_parent_loop (config : DaemonConfig) (env : ParentEnv) (iters : list ParentIter)
    (w : World B) : ParentState * list Level * option (result DaemonError unit) :=
  let start := {| ps_world := w; ps_tick := 0; ps_triggered := false; ps_notes := [] |} in
  match pe_handlers env with
  | Err e => (start, [], Some (Err (DIo e)))
  | Ok _ =>
      match pe_set_read_timeout env with
      | Err e => (start, [], Some (Err (DPrivsep (PIo e))))
      | Ok _ =>
          let s := {| ps_world := w; ps_tick := 0; ps_triggered := false;
                      ps_notes := notify config Ready [] |} in
          match parent_loop config iters s with
          | (s, false) => (s, [], None)
          | (s, true) =>
              let s := {| ps_world := ps_world s; ps_tick := ps_tick s; ps_triggered := ps_triggered s;
                          ps_notes := notify config Stopping (ps_notes s) |} in
              match pe_capture_end env with
              | None => (s, [], None)
              | Some c =>
                  match pe_crypto_end env with
                  | None => (s, end_worker c, None)
                  | Some y =>
                      ({| ps_world := shutdown_steps config (pe_exit_faults env) (ps_world s);
                          ps_tick := ps_tick s; ps_triggered := ps_triggered s; ps_notes := ps_notes s |},
                       end_worker c ++ end_worker y, Some (Ok ()))
                  end
              end
          end
      end
  end.
End loops.

(** ** Single-process and privilege-separated mode *)

Section modes.
Context `{N : IpNetOps} `{U : UnicodeTables} `{R : Ring} `{M : Rmp SpaPayload}
  `{L : LruCache Nonce Z} `{LL : !LruLaws Nonce Z L} `{HL : HashIterLaws}
  {B : Type} `{F : !FirewallBackend B} `{FL : !FirewallLaws B}.
Implicit Types (config : DaemonConfig) (env : PacketEnv) (w : World B).

Lemma clamp_timeout_min a b : clamp_timeout a b = Z.min a b.
Proof. unfold clamp_timeout. destruct (Z.gtb_spec a b); lia. Qed.

(** The two modes agree. Running the crypto worker's validation and then
    the parent's handler has exactly the effect of the single-process
    pipeline on a packet that passes validation and on one no key matches.
    On a rejected packet neither opens a door, but only the pipeline may
    already have spent the packet's nonce. *)
Theorem privsep_agrees config env w ip data :
  config_valid config →
  let msg := validate_capture_msg (CapturePacket ip data) config (env_clock env) in
  let '(w1, r) := process_packet {| cap_source_ip := ip; cap_data := data |} config env w in
  let w2 := handle_crypto_msg msg config env w in
  match msg with
  | ValidRequest _ _ _ => w2 = w1
  | CryptoNoMatch _ => w2 = w ∧ w1 = w ∧ r = Ok PNoMatch
  | CryptoRejected _ _ => w2 = w ∧ w_fw w1 = w_fw w ∧ ∀ name h, r ≠ Ok (Installed name h)
  end.
Proof.
  intros (_ & Hnd & _). unfold validate_capture_msg, process_packet. cbn [cap_data cap_source_ip].
  pose proof (match_packet_spec data (access config)) as Hm.
  destruct (match_packet data (access config)) as [name p| |name e]; [|done|done].
  destruct Hm as (s & Hs & <- & Hp). apply first_key_in in Hs.
  rewrite find_stanza_in by done.
  destruct (validate_against_clock p _ _ _) as [[]|e]; [|done].
  destruct (check_and_insert _ _ _ _ _) as [[c fs] seen] eqn:Hr.
  destruct (check_policy s ip (message p) (lit "unsupported message variant")) as [[src ports]|reason] eqn:Hpol.
  - apply check_policy_ok in Hpol as [Hmsg Hpol]. unfold handle_crypto_msg. rewrite Hr.
    destruct seen as [[|]|re]; [|done|done]. cbv beta iota zeta.
    rewrite (proj2 (check_policy_ok s ip (message p) _ src ports)) by done. rewrite Hmsg.
    rewrite find_unique by done. cbn [w_fw]. unfold access_rule. rewrite clamp_timeout_min.
    by destruct (fw_open_access _ _) as [fw [h|fe]].
  - assert (∀ u, ∃ e, check_policy s ip (message p) u = Err e) as Herr.
    { intros u. destruct (check_policy s ip (message p) u) as [[src ports]|e] eqn:E; [|eauto].
      apply check_policy_ok in E.
      rewrite (proj2 (check_policy_ok s ip (message p) (lit "unsupported message variant") src ports) E) in Hpol.
      done. }
    destruct (Herr (lit "unsupported message variant in Phase 3")) as [e ->].
    by destruct seen as [[|]|re].
Qed.

(** What one message does to the doors. *)
Lemma handle_crypto_msg_doors config env w msg :
  fw_doors (w_fw (handle_crypto_msg msg config env w)) = fw_doors (w_fw w) ∨
  ∃ name ip p src ports s r h, msg = ValidRequest name ip p ∧ message p = Access src ports ∧
    s ∈ access config ∧ stanza_name s = name ∧ (nonce p ∉ cache_keys (w_replay w)) ∧
    nonce p ∈ cache_keys (w_replay (handle_crypto_msg msg config env w)) ∧
    rule_source_ip r = src ∧ rule_ports r = ports ∧
    rule_timeout r ≤ max_fw_timeout (daemon config) ∧
    fw_open_access (w_fw w) r = (w_fw (handle_crypto_msg msg config env w), Ok h) ∧
    fw_doors (w_fw (handle_crypto_msg msg config env w)) =
      fw_doors (w_fw w) ∪ list_to_set (doors_of src ports).
Proof.
  destruct msg as [name ip p|ip reason|ip]; [|by left|by left]. unfold handle_crypto_msg.
  destruct (check_and_insert_cases (w_replay w) (nonce p) (env_replay_now env) (env_faults env) (w_fs w))
    as [[Hk ->]|[(Hk & c' & fs' & -> & _ & _ & He & _)|(_ & c' & q & io & -> & _)]];
    cbv beta iota zeta; [by left| |by left].
  destruct (message p) as [src ports| | |] eqn:Hm; try by left.
  destruct (List.find _ (access config)) as [s|] eqn:Hf; [|by left].
  apply List.find_some in Hf as [Hs Hn]. apply list_elem_of_In in Hs. apply bool_decide_eq_true in Hn.
  cbn [w_fw w_replay with_fw].
  match goal with |- context [fw_open_access ?a ?b] => set (r := b);
    destruct (fw_open_access a r) as [fw [h|fe]] eqn:Ho end; cbn [fst w_fw with_fw w_replay].
  - right. exists name, ip, p, src, ports, s, r, h. split_and!; try done.
    + unfold cache_keys. rewrite He. apply elem_of_cons. by left.
    + cbn [r rule_timeout]. lia.
    + by rewrite (fw_open_ok _ _ _ _ Ho).
  - left. by eapply fw_open_err.
Qed.

(** C33: what the parent enforces by itself. For any message at all, also one
    from a compromised crypto worker, the parent opens doors only for a
    request with a nonce it has not seen, under the name of a configured
    stanza, and only those of the request. *)
Theorem parent_trust_boundary config env w msg :
  fw_doors (w_fw (handle_crypto_msg msg config env w)) = fw_doors (w_fw w) ∨
  ∃ name ip p src ports s r h, msg = ValidRequest name ip p ∧ message p = Access src ports ∧
    s ∈ access config ∧ stanza_name s = name ∧ (nonce p ∉ cache_keys (w_replay w)) ∧
    nonce p ∈ cache_keys (w_replay (handle_crypto_msg msg config env w)) ∧
    rule_source_ip r = src ∧ rule_ports r = ports ∧
    rule_timeout r ≤ max_fw_timeout (daemon config) ∧
    fw_open_access (w_fw w) r = (w_fw (handle_crypto_msg msg config env w), Ok h) ∧
    fw_doors (w_fw (handle_crypto_msg msg config env w)) =
      fw_doors (w_fw w) ∪ list_to_set (doors_of src ports).
Proof. apply handle_crypto_msg_doors. Qed.

(** A valid request comes from a packet that was authentic at the worker's
    clock and that its stanza's policy allows. *)
Lemma validate_valid config clock ip data name ip' p :
  NoDup (stanza_name <$> access config) →
  validate_capture_msg (CapturePacket ip data) config clock = ValidRequest name ip' p →
  ∃ s src ports, stanza_name s = name ∧
    authentic config clock {| cap_source_ip := ip; cap_data := data |} s p ∧
    message p = Access src ports ∧ policy_allows s ip src ports.
Proof.
  intros Hnd. unfold validate_capture_msg.
  pose proof (match_packet_spec data (access config)) as Hm.
  destruct (match_packet data (access config)) as [name0 p0| |name0 e]; [|done|done].
  destruct Hm as (s & Hs & <- & Hp). rewrite find_stanza_in by (done || by eapply first_key_in).
  destruct (validate_against_clock p0 _ _ _) as [[]|e] eqn:Hc; [|done].
  destruct (check_policy s ip _ _) as [[src ports]|reason] eqn:Hpol; [|done].
  intros [= <- <- <-]. apply check_policy_ok in Hpol as [Hm Hpol]. exists s, src, ports. by split_and!.
Qed.

Lemma authentic_valid config clock ip data s p src ports :
  NoDup (stanza_name <$> access config) →
  authentic config clock {| cap_source_ip := ip; cap_data := data |} s p →
  message p = Access src ports → policy_allows s ip src ports →
  ∃ name, validate_capture_msg (CapturePacket ip data) config clock = ValidRequest name ip p.
Proof.
  intros Hnd Ha Hm Hpol. pose proof Ha as (Hk & Hp & Hc). cbn [cap_data] in *. exists (stanza_name s).
  unfold validate_capture_msg. rewrite (match_packet_first _ _ _ _ Hk Hp).
  rewrite find_stanza_in by (done || by eapply first_key_in). rewrite Hc.
  by rewrite (proj2 (check_policy_ok s ip (message p) _ src ports)).
Qed.
End modes.

(** ** The loops *)

Section loop_properties.
Context `{N : IpNetOps} `{U : UnicodeTables} `{R : Ring} `{M : Rmp SpaPayload}
  `{L : LruCache Nonce Z} `{LL : !LruLaws Nonce Z L} `{HL : HashIterLaws}
  `{LT : LruCache SourceKey TokenBucket}
  {B : Type} `{F : !FirewallBackend B} `{FL : !FirewallLaws B}.
Implicit Types (config : DaemonConfig) (env : PacketEnv) (w : World B) (rl : RateLimiter).

(** A door a packet of these iterations has the right to. *)
Definition justified config (iters : list RunIter) (g : grant) : Prop :=
  ∃ it pkt s p src ports, it ∈ iters ∧ ri_shutdown it = false ∧ ri_recv it = Ok (Some pkt) ∧
    authentic config (env_clock (ri_env it)) pkt s p ∧ message p = Access src ports ∧
    policy_allows s (cap_source_ip pkt) src ports ∧
    g ∈ doors_of src ports.

Lemma prune_tick_fw config tick now faults w : w_fw (prune_tick config tick now faults w) = w_fw w.
Proof. unfold prune_tick. case_match; [|done]. by destruct (prune_older_than _ _ _ _ _) as [[? ?] ?]. Qed.

Lemma shutdown_steps_doors config faults w :
  fw_doors (w_fw (shutdown_steps config faults w)) ⊆ fw_doors (w_fw w).
Proof.
  unfold shutdown_steps. destruct (save_to_file _ _ _ _) as [fs r]. cbn [w_fw].
  destruct (flush_rules_at_exit _); [apply fw_flush_doors|done].
Qed.

Lemma run_iter_doors config it (s : RunState) g :
  NoDup (stanza_name <$> access config) → ri_shutdown it = false →
  g ∈ fw_doors (w_fw (rs_world (run_iter config it s))) →
  g ∈ fw_doors (w_fw (rs_world s)) ∨ justified config [it] g.
Proof.
  intros Hnd Hsd. unfold run_iter.
  destruct (ri_recv it) as [[pkt|]|e] eqn:Hrv;
    [|cbn [rs_world]; rewrite prune_tick_fw; by left..].
  destruct (check _ _ _ _) as [[rl [|reason]] log]; cbn [rs_world]; rewrite prune_tick_fw; [|by left].
  rewrite handle_packet_world. destruct (process_packet pkt config (ri_env it) (rs_world s)) as [w' r] eqn:E. cbn [fst].
  apply process_packet_cases in E; [|done]. destruct r as [[name h|name| |name reason]|e].
  - destruct E as (s0 & p & src & ports & Ha & _ & Hm & Hpol & _ & Hf).
    rewrite (fw_open_ok _ _ _ _ Hf), elem_of_union, elem_of_list_to_set.
    intros [?|Hg]; [by left|right]. exists it, pkt, s0, p, src, ports. split_and!; try done. set_solver.
  - destruct E as [-> _]. by left.
  - subst. by left.
  - destruct E as [->|(? & ? & ? & _ & _ & _ & ->)]; by left.
  - destruct E as (fe & ? & ? & ? & ? & _ & _ & _ & Hf). rewrite (fw_open_err _ _ _ _ Hf). by left.
Qed.

Lemma run_loop_doors config iters (s s' : RunState) b g :
  NoDup (stanza_name <$> access config) → run_loop config iters s = (s', b) →
  g ∈ fw_doors (w_fw (rs_world s')) →
  g ∈ fw_doors (w_fw (rs_world s)) ∨ justified config iters g.
Proof.
  intros Hnd. revert s. induction iters as [|it iters IH]; intros s; cbn [run_loop].
  { intros [= <- <-]. by left. }
  destruct (ri_shutdown it) eqn:Hsd; [intros [= <- <-]; by left|]. intros E Hg.
  destruct (IH _ E Hg) as [H1|(it' & pkt & s0 & p & src & ports & Hin & Hj)].
  - apply run_iter_doors in H1 as [?|(it' & pkt & s0 & p & src & ports & Hin & Hj)]; [by left| |done|done].
    right. exists it', pkt, s0, p, src, ports. split; [set_solver|done].
  - right. exists it', pkt, s0, p, src, ports. split; [set_solver|done].
Qed.

Lemma run_doors config iters exit_faults w rl s' st g :
  NoDup (stanza_name <$> access config) → run config iters exit_faults w rl = (s', st) →
  g ∈ fw_doors (w_fw (rs_world s')) → g ∈ fw_doors (w_fw w) ∨ justified config iters g.
Proof.
  intros Hnd. unfold run.
  set (fw0 := if flush_rules_at_init (daemon config) then _ else _).
  assert (fw_doors fw0 ⊆ fw_doors (w_fw w)) as H0
    by (unfold fw0; destruct (flush_rules_at_init _); [apply fw_flush_doors|done]).
  pose proof (fw_init_doors fw0) as Hi. destruct (fw_init fw0) as [fw [[]|e]]; cbn [fst] in Hi.
  - destruct (run_loop config iters _) as [s1 b] eqn:E.
    assert (∀ g, g ∈ fw_doors (w_fw (rs_world s1)) → g ∈ fw_doors (w_fw w) ∨ justified config iters g) as Hl.
    { intros g' Hg. apply (run_loop_doors _ _ _ _ _ _ Hnd E) in Hg as [Hg|Hg]; [|by right].
      left. cbn [rs_world with_fw w_fw] in Hg. set_solver. }
    destruct b; intros [= <- <-]; cbn [rs_world]; [|apply Hl].
    intros Hg. apply Hl. by apply (shutdown_steps_doors config exit_faults).
  - intros [= <- <-]. cbn [rs_world with_fw w_fw]. set_solver.
Qed.

(** C10: the safety of the daemon as a whole. Whatever happens during a run
    of the main loop, from start-up to after shutdown, with firewall, disk
    and capture failing at will, every open door was open before or belongs
    to a received packet that authenticated under a stanza's key within the
    clock window and satisfied that stanza's source and port policy. *)
Theorem run_doors_justified config iters exit_faults w rl s' st g :
  config_valid config → run config iters exit_faults w rl = (s', st) →
  g ∈ fw_doors (w_fw (rs_world s')) → g ∈ fw_doors (w_fw w) ∨ justified config iters g.
Proof. intros (_ & Hnd & _). by apply run_doors. Qed.

(** *** The parent of the privilege-separated mode *)

(** A message the crypto worker's validation produced. *)
Definition from_validator config (it : ParentIter) : Prop :=
  ∀ msg, pi_recv it = Ok msg →
    ∃ ip data clock, msg = validate_capture_msg (CapturePacket ip data) config clock.

(** A door a packet behind these messages has the right to. *)
Definition parent_justified config (iters : list ParentIter) (g : grant) : Prop :=
  ∃ it ip data clock s p src ports, it ∈ iters ∧
    pi_recv it = Ok (validate_capture_msg (CapturePacket ip data) config clock) ∧
    authentic config clock {| cap_source_ip := ip; cap_data := data |} s p ∧
    message p = Access src ports ∧ policy_allows s ip src ports ∧ g ∈ doors_of src ports.

Lemma parent_iter_doors config it (s : ParentState) g :
  NoDup (stanza_name <$> access config) → from_validator config it →
  g ∈ fw_doors (w_fw (ps_world (parent_iter config it s))) →
  g ∈ fw_doors (w_fw (ps_world s)) ∨ parent_justified config [it] g.
Proof.
  intros Hnd Hv. unfold parent_iter. cbn [ps_world]. rewrite prune_tick_fw.
  destruct (pi_recv it) as [msg|e] eqn:Hrv; [|by left].
  destruct (Hv msg Hrv) as (ip & data & clock & Hmsg).
  destruct (handle_crypto_msg_doors config (pi_env it) (ps_world s) msg)
    as [->|(name & ip' & p & src & ports & s0 & r & h & -> & Hm & _ & _ & _ & _ & _ & _ & _ & _ & ->)];
    [by left|].
  rewrite elem_of_union, elem_of_list_to_set. intros [?|Hg]; [by left|right].
  destruct (validate_valid _ _ _ _ _ _ _ Hnd (eq_sym Hmsg)) as (s1 & src1 & ports1 & _ & Ha & Hm1 & Hpol).
  rewrite Hm in Hm1. injection Hm1 as <- <-.
  exists it, ip, data, clock, s1, p, src, ports. rewrite <- Hmsg. split_and!; try done. set_solver.
Qed.

Lemma parent_loop_doors config iters (s s' : ParentState) b g :
  NoDup (stanza_name <$> access config) → Forall (from_validator config) iters →
  parent_loop config iters s = (s', b) → g ∈ fw_doors (w_fw (ps_world s')) →
  g ∈ fw_doors (w_fw (ps_world s)) ∨ parent_justified config iters g.
Proof.
  intros Hnd Hv. revert s. induction Hv as [|it iters Hit _ IH]; intros s; cbn [parent_loop].
  { intros [= <- <-]. by left. }
  destruct (ps_triggered s || pi_shutdown it); [intros [= <- <-]; by left|]. intros E Hg.
  destruct (IH _ E Hg) as [H1|(it' & ip & data & clock & s0 & p & src & ports & Hin & Hj)].
  - apply parent_iter_doors in H1
      as [?|(it' & ip & data & clock & s0 & p & src & ports & Hin & Hj)]; [by left| |done|done].
    right. exists it', ip, data, clock, s0, p, src, ports. split; [set_solver|done].
  - right. exists it', ip, data, clock, s0, p, src, ports. split; [set_solver|done].
Qed.

Lemma parent_run_doors config penv iters w s' log st g :
  NoDup (stanza_name <$> access config) → Forall (from_validator config) iters →
  run_parent_loop config penv iters w = (s', log, st) → g ∈ fw_doors (w_fw (ps_world s')) →
  g ∈ fw_doors (w_fw w) ∨ parent_justified config iters g.
Proof.
  intros Hnd Hv. unfold run_parent_loop.
  destruct (pe_handlers penv) as [[]|e]; [|intros [= <- <- <-]; by left].
  destruct (pe_set_read_timeout penv) as [[]|e]; [|intros [= <- <- <-]; by left].
  destruct (parent_loop config iters _) as [s1 b] eqn:E.
  pose proof (λ g, parent_loop_doors _ _ _ _ _ g Hnd Hv E) as Hl. cbn [ps_world] in Hl.
  destruct b; [destruct (pe_capture_end penv); [destruct (pe_crypto_end penv)|]|];
    intros [= <- <- <-]; cbn [ps_world]; try apply Hl.
  intros Hg. apply Hl. by apply (shutdown_steps_doors config (pe_exit_faults penv)).
Qed.

(** The safety of the privilege-separated daemon. As long as the messages
    the parent receives are those of the crypto worker's validation, of
    whatever packets and at whatever times, every door open during a run of
    the parent and after its shutdown was open before or belongs to a packet
    that authenticated under a stanza's key within the clock window and
    satisfied that stanza's policy. *)
Theorem parent_doors_justified config penv iters w s' log st g :
  config_valid config → Forall (from_validator config) iters →
  run_parent_loop config penv iters w = (s', log, st) → g ∈ fw_doors (w_fw (ps_world s')) →
  g ∈ fw_doors (w_fw w) ∨ parent_justified config iters g.
Proof. intros (_ & Hnd & _). by apply parent_run_doors. Qed.

(** Fail closed on a dead worker. Once the parent has reaped a worker it
    handles no further message: the loop stops at its next check and the
    shutdown steps follow. *)
Theorem dead_worker_stops_parent config it iters (s : ParentState) pid :
  ps_triggered s = false → pi_shutdown it = false →
  try_reap_any_child (pi_reap it) = Ok (Some pid) →
  parent_loop config (it :: iters) s = (parent_iter config it s, true).
Proof.
  intros Hs Hsd Hr. cbn [parent_loop]. rewrite Hs, Hsd. cbn [orb].
  assert (ps_triggered (parent_iter config it s) = true) as Ht
    by (unfold parent_iter; cbn [ps_triggered]; by rewrite Hr).
  destruct iters as [|it' iters]; cbn [parent_loop]; by rewrite Ht.
Qed.
End loop_properties.

(** ** Durability of the replay cache across a run *)

Section durability.
Context `{N : IpNetOps} `{U : UnicodeTables} `{R : Ring} `{M : Rmp SpaPayload} `{ML : !RmpLaws SpaPayload}
  `{L : LruCache Nonce Z} `{LL : !LruLaws Nonce Z L} `{HL : HashIterLaws}
  `{LT : LruCache SourceKey TokenBucket} {B : Type} `{F : !FirewallBackend B}.
Implicit Types (config : DaemonConfig) (env : PacketEnv) (w : World B) (rl : RateLimiter).

Lemma parse_nonce_wf wire mk p : parse_packet wire mk = Ok p → nonce_wf (nonce p).
Proof. intros Hp. by apply parsed_portable in Hp as [[Hn _] _]. Qed.

Definition world_ok w : Prop := cache_ok (w_replay w, w_fs w).

Lemma process_packet_ok captured config env w :
  NoDup (stanza_name <$> access config) → is_u64 (env_replay_now env) →
  world_ok w → world_ok (process_packet captured config env w).1.
Proof.
  intros Hnd Hnow Hok. destruct (process_packet captured config env w) as [w' r] eqn:E. cbn [fst].
  apply process_packet_cases in E; [|done].
  assert (w' = w ∨ ∃ s p, authentic config (env_clock env) captured s p ∧
            (w_replay w', w_fs w') = (replay_check env w (nonce p)).1) as [->|(s & p & Ha & Hw)].
  { destruct r as [[name h|name| |name reason]|e].
    - destruct E as (s & p & src & ports & ? & _ & _ & _ & E & _). right. exists s, p. by rewrite E.
    - destruct E as [-> _]. by left.
    - by left.
    - destruct E as [->|(s & p & res & ? & _ & E & _)]; [by left|]. right. exists s, p. by rewrite E.
    - destruct E as (fe & s & p & src & ports & _ & ? & E & _). right. exists s, p. by rewrite E. }
  - done.
  - unfold world_ok. rewrite Hw. destruct Ha as (_ & Hp & _). apply insert_ok; [|done|done].
    by eapply parse_nonce_wf.
Qed.

Lemma prune_tick_ok config tick now faults w :
  world_ok w → world_ok (prune_tick config tick now faults w).
Proof.
  intros Hok. unfold prune_tick. case_match; [|done]. unfold world_ok in *.
  pose proof (prune_ok (w_replay w) (max_age (replay config)) now faults (w_fs w) Hok) as Hp.
  by destruct (prune_older_than _ _ _ _ _) as [[c fs] r].
Qed.

Lemma shutdown_steps_ok config faults w : world_ok w → world_ok (shutdown_steps config faults w).
Proof.
  intros [Hw Hd]. unfold shutdown_steps, save_to_file, world_ok.
  set (path := cache_path (replay config)).
  match goal with |- context [write_cache_file path ?m faults ?fs] =>
    destruct (write_cache_file_cases path m faults fs) as [->|[e ->]] end; [|done].
  cbn [w_replay w_fs]. split; [done|]. cbn [fst snd] in *. unfold disk_covers in *.
  destruct (persist_path (w_replay w)) as [p|] eqn:Hp; [|done].
  destruct (decide (p = path)) as [->|Hne].
  - pose proof (written_covers (w_replay w) path (w_fs w) Hw Hp) as Hc.
    unfold disk_covers in Hc. by rewrite Hp in Hc.
  - destruct Hd as (m & Hr & ?). exists m. split; [|done].
    unfold read_cache_file in *. by rewrite lookup_insert_ne.
Qed.

Lemma run_loop_ok config iters (s s' : RunState) b :
  NoDup (stanza_name <$> access config) →
  Forall (λ it, is_u64 (env_replay_now (ri_env it))) iters →
  run_loop config iters s = (s', b) → world_ok (rs_world s) → world_ok (rs_world s').
Proof.
  intros Hnd Hu. revert s. induction Hu as [|it iters Hit _ IH]; intros s; cbn [run_loop].
  { by intros [= <- <-]. }
  destruct (ri_shutdown it); [by intros [= <- <-]|]. intros E Hok. apply (IH _ E).
  unfold run_iter. destruct (ri_recv it) as [[pkt|]|e]; [|by apply prune_tick_ok..].
  destruct (check _ _ _ _) as [[rl [|reason]] log]; apply prune_tick_ok; [|done].
  rewrite handle_packet_world. by apply process_packet_ok.
Qed.

(** Durability of the daemon's replay protection. If the cache file
    covers the cache when the main loop starts, then at every point of the
    run, and after shutdown, every nonce that was ever accepted and is in
    memory is also on disk, whatever writes failed on the way: killing the
    daemon there forgets none of them. *)
Theorem run_durable config iters exit_faults w rl s' st :
  config_valid config → Forall (λ it, is_u64 (env_replay_now (ri_env it))) iters →
  cache_ok (w_replay w, w_fs w) → run config iters exit_faults w rl = (s', st) →
  cache_ok (w_replay (rs_world s'), w_fs (rs_world s')).
Proof.
  intros (_ & Hnd & _) Hu Hok. unfold run.
  destruct (fw_init _) as [fw [[]|e]]; [|intros [= <- <-]; exact Hok].
  destruct (run_loop config iters _) as [s1 b] eqn:E.
  assert (world_ok (rs_world s1)) as H1 by by eapply run_loop_ok.
  destruct b; intros [= <- <-]; [|exact H1]. by apply shutdown_steps_ok.
Qed.

Lemma handle_crypto_ok msg config env w :
  portable msg → is_u64 (env_replay_now env) → world_ok w → world_ok (handle_crypto_msg msg config env w).
Proof.
  intros Hp Hnow Hok. destruct msg as [name ip p|ip reason|ip]; cbn [handle_crypto_msg]; [|done|done].
  destruct Hp as [_ [Hn _]].
  pose proof (insert_ok (w_replay w) (nonce p) (env_replay_now env) (env_faults env) (w_fs w) Hn Hnow Hok) as Hc.
  destruct (check_and_insert _ _ _ _ _) as [[c fs] seen]. cbn [fst] in Hc. unfold world_ok.
  destruct seen as [[]|]; [|exact Hc|exact Hc]. destruct (message p); [|exact Hc..].
  by destruct (List.find _ _).
Qed.

(** A message the parent reads from its socket. *)
Definition on_socket `{RY : Rmp CryptoMsg} (it : ParentIter) : Prop := ∃ sys, pi_recv it = recv_msg sys.

Lemma recv_portable `{RY : Rmp CryptoMsg} `{YL : !RmpLaws CryptoMsg} sys msg :
  recv_msg (A := CryptoMsg) sys = Ok msg → portable msg.
Proof.
  unfold recv_msg. destruct sys as [[[n trunc] buf]|e]; [|done]. cbn [map_err mbind result_bind].
  intros Hr. inv_ok. by eapply rmp_portable.
Qed.

Lemma parent_loop_ok `{RY : Rmp CryptoMsg} `{YL : !RmpLaws CryptoMsg} config iters (s s' : ParentState) b :
  Forall (λ it, is_u64 (env_replay_now (pi_env it)) ∧ on_socket it) iters →
  parent_loop config iters s = (s', b) → world_ok (ps_world s) → world_ok (ps_world s').
Proof.
  intros Hu. revert s. induction Hu as [|it iters [Hnow [sys Hsock]] _ IH]; intros s; cbn [parent_loop].
  { by intros [= <- <-]. }
  destruct (_ || _); [by intros [= <- <-]|]. intros E Hok. apply (IH _ E).
  unfold parent_iter. cbn [ps_world]. apply prune_tick_ok. destruct (pi_recv it) as [msg|e]; [|done].
  apply handle_crypto_ok; [|done|done]. by eapply recv_portable.
Qed.

(** C32: durability in privilege-separated mode. If every nonce in memory is
    in the cache file when the parent enters its loop, as it is when the cache
    was opened from that file, then this still holds at every point of the loop
    and after shutdown, whatever bytes the crypto worker sends and whatever
    writes fail. *)
Theorem parent_durable `{RY : Rmp CryptoMsg} `{YL : !RmpLaws CryptoMsg} config penv iters w s' log st :
  Forall (λ it, is_u64 (env_replay_now (pi_env it)) ∧ on_socket it) iters →
  cache_ok (w_replay w, w_fs w) → run_parent_loop config penv iters w = (s', log, st) →
  cache_ok (w_replay (ps_world s'), w_fs (ps_world s')).
Proof.
  intros Hu Hok. unfold run_parent_loop. cbv zeta.
  destruct (pe_handlers penv) as [?|e]; [|intros [= <- _ _]; exact Hok].
  destruct (pe_set_read_timeout penv) as [?|e]; [|intros [= <- _ _]; exact Hok].
  destruct (parent_loop config iters _) as [s1 b] eqn:E.
  assert (world_ok (ps_world s1)) as H1 by by eapply parent_loop_ok.
  destruct b; [destruct (pe_capture_end penv); [destruct (pe_crypto_end penv)|]|];
    intros [= <- _ _]; try exact H1. by apply shutdown_steps_ok.
Qed.
End durability.

(** ** Witnesses *)

#[local] Existing Instance sample_rmp.
#[local] Existing Instance sample_rmp_laws.
#[local] Existing Instance sorted_hash_iter.
#[local] Existing Instance sorted_hash_iter_laws.

Lemma privsep_agrees_witness :
  handle_crypto_msg
    (validate_capture_msg (CapturePacket (V4 [192; 168; 1; 5]) stanza_wire) sample_config
       (env_clock sample_env)) sample_config sample_env sample_world = sample_after.
Proof.
  pose proof (privsep_agrees sample_config sample_env sample_world (V4 [192; 168; 1; 5]) stanza_wire
    sample_config_ok) as Hw.
  change {| cap_source_ip := V4 [192; 168; 1; 5]; cap_data := stanza_wire |} with sample_captured in Hw.
  rewrite sample_installs in Hw. cbv zeta in Hw.
  assert (validate_capture_msg (CapturePacket (V4 [192; 168; 1; 5]) stanza_wire) sample_config
    (env_clock sample_env) = ValidRequest (lit "ssh") (V4 [192; 168; 1; 5]) sample_payload) as E
    by (vm_compute; reflexivity).
  rewrite E in Hw |- *. exact Hw.
Defined.

(** A message with the name of an unknown stanza: no door opens. *)
Lemma parent_trust_boundary_witness :
  fw_doors (w_fw (handle_crypto_msg (ValidRequest (lit "other") (V4 [192; 168; 1; 5]) sample_payload)
                    sample_config sample_env sample_world)) = fw_doors (w_fw sample_world).
Proof.
  destruct (parent_trust_boundary sample_config sample_env sample_world
    (ValidRequest (lit "other") (V4 [192; 168; 1; 5]) sample_payload))
    as [E|(name & ip & p & src & ports & s & r & h & E & _ & Hs & Hn & _)]; [exact E|].
  exfalso. injection E as <- _ _. apply list_elem_of_singleton in Hs. subst s. discriminate Hn.
Defined.

Definition sample_run_iter : RunIter := {|
  ri_shutdown := false; ri_recv := Ok (Some sample_captured); ri_reset_now := 0; ri_now := 7;
  ri_env := sample_env; ri_prune_now := 1700000006; ri_prune_faults := no_faults |}.

Definition sample_door : grant := (lit "192.168.1.5", lit "tcp", 22).

Lemma run_doors_justified_witness :
  sample_door ∈ fw_doors (w_fw (rs_world (run sample_config [sample_run_iter] no_faults sample_world
                                            small_limiter).1)) ∧
  (sample_door ∈ fw_doors (w_fw sample_world) ∨ justified sample_config [sample_run_iter] sample_door).
Proof.
  assert (sample_door ∈ fw_doors (w_fw (rs_world (run sample_config [sample_run_iter] no_faults
    sample_world small_limiter).1))) as Hg by (apply (bool_decide_unpack _); vm_compute; exact I).
  split; [exact Hg|].
  apply (run_doors_justified sample_config [sample_run_iter] no_faults sample_world small_limiter
    (run sample_config [sample_run_iter] no_faults sample_world small_limiter).1
    (run sample_config [sample_run_iter] no_faults sample_world small_limiter).2 sample_door).
  - apply sample_config_ok.
  - apply surjective_pairing.
  - exact Hg.
Defined.

Definition sample_parent : ParentState (B := Nft.NftablesBackend (gset grant)) :=
  {| ps_world := sample_world; ps_tick := 0; ps_triggered := false; ps_notes := [] |}.
Definition reaping_iter : ParentIter := {|
  pi_shutdown := false; pi_recv := Err PeerClosed; pi_env := sample_env;
  pi_reap := Ok (Signaled 42 9); pi_prune_now := 0; pi_prune_faults := no_faults |}.

Definition sample_parent_env : ParentEnv := {|
  pe_handlers := Ok (); pe_set_read_timeout := Ok ();
  pe_capture_end := Some (Ok (), Ok (Exited 41 0)); pe_crypto_end := Some (Ok (), Ok (Exited 42 0));
  pe_exit_faults := no_faults |}.
(** The parent receives the answer to the sample packet. *)
Definition request_iter : ParentIter := {|
  pi_shutdown := false;
  pi_recv := Ok (validate_capture_msg (CapturePacket (V4 [192; 168; 1; 5]) stanza_wire) sample_config
                   (Some 1700000005));
  pi_env := sample_env; pi_reap := Ok StillAlive; pi_prune_now := 0; pi_prune_faults := no_faults |}.

Lemma parent_doors_justified_witness :
  sample_door ∈ fw_doors (w_fw (ps_world (run_parent_loop sample_config sample_parent_env [request_iter]
                                            sample_world).1.1)) ∧
  (sample_door ∈ fw_doors (w_fw sample_world) ∨
   parent_justified sample_config [request_iter] sample_door).
Proof.
  assert (sample_door ∈ fw_doors (w_fw (ps_world (run_parent_loop sample_config sample_parent_env
    [request_iter] sample_world).1.1))) as Hg by (apply (bool_decide_unpack _); vm_compute; exact I).
  split; [exact Hg|].
  apply (parent_doors_justified sample_config sample_parent_env [request_iter] sample_world
    (run_parent_loop sample_config sample_parent_env [request_iter] sample_world).1.1
    (run_parent_loop sample_config sample_parent_env [request_iter] sample_world).1.2
    (run_parent_loop sample_config sample_parent_env [request_iter] sample_world).2 sample_door).
  - apply sample_config_ok.
  - constructor; [|constructor]. intros msg Hm. unfold request_iter in Hm.
    exists (V4 [192; 168; 1; 5]), stanza_wire, (Some 1700000005).
    exact (f_equal (λ r, match r with Ok m => m | Err _ => msg end) (eq_sym Hm)).
  - rewrite <- surjective_pairing. apply surjective_pairing.
  - exact Hg.
Defined.

Lemma dead_worker_stops_parent_witness :
  parent_loop sample_config [reaping_iter; reaping_iter] sample_parent =
    (parent_iter sample_config reaping_iter sample_parent, true).
Proof. apply (dead_worker_stops_parent sample_config reaping_iter [reaping_iter] sample_parent 42);
  reflexivity. Defined.

Lemma run_durable_witness :
  cache_ok (w_replay (rs_world (run sample_config [sample_run_iter] no_faults sample_world small_limiter).1),
            w_fs (rs_world (run sample_config [sample_run_iter] no_faults sample_world small_limiter).1)).
Proof.
  apply (run_durable sample_config [sample_run_iter] no_faults sample_world small_limiter
    _ (run sample_config [sample_run_iter] no_faults sample_world small_limiter).2).
  - apply sample_config_ok.
  - constructor; [vm_compute; split; discriminate|constructor].
  - apply empty_cache_ok.
  - apply surjective_pairing.
Defined.

(** The parent reads a datagram that is no message and one that is. *)
Definition crypto_wire_rmp : Rmp WireCryptoMsg :=
  table_rmp [serialize_crypto (ValidRequest (lit "ssh") (V4 [192; 168; 1; 5]) sample_payload)].
Definition sample_crypto_codec : Rmp CryptoMsg := @crypto_msg_rmp _ crypto_wire_rmp.
Lemma sample_crypto_codec_laws : @RmpLaws CryptoMsg sample_crypto_codec _.
Proof.
  apply (@crypto_msg_rmp_laws _ crypto_wire_rmp), table_rmp_laws.
  repeat constructor; apply (bool_decide_unpack _); vm_compute; exact I.
Qed.
#[local] Existing Instance sample_crypto_codec.
#[local] Existing Instance sample_crypto_codec_laws.
Definition socket_iter (datagram : bytes) : ParentIter := {|
  pi_shutdown := false; pi_recv := recv_msg (Ok (len datagram, false, datagram));
  pi_env := sample_env; pi_reap := Ok StillAlive; pi_prune_now := 0; pi_prune_faults := no_faults |}.

Lemma parent_durable_witness :
  let r := run_parent_loop sample_config sample_parent_env [socket_iter [0]; socket_iter [9; 9]] sample_world in
  cache_ok (w_replay (ps_world r.1.1), w_fs (ps_world r.1.1)).
Proof.
  cbv zeta.
  apply (parent_durable sample_config sample_parent_env
    [socket_iter [0]; socket_iter [9; 9]] sample_world _
    (run_parent_loop sample_config sample_parent_env [socket_iter [0]; socket_iter [9; 9]] sample_world).1.2
    (run_parent_loop sample_config sample_parent_env [socket_iter [0]; socket_iter [9; 9]] sample_world).2).
  - apply Forall_cons; split; [split; [vm_compute; split; discriminate|by eexists]|].
    apply Forall_cons; split; [split; [vm_compute; split; discriminate|by eexists]|constructor].
  - apply empty_cache_ok.
  - by rewrite <- !surjective_pairing.
Defined.
