(* ===== verification/Expiry.v ===== *)
(** * How long a door stays open

    The doors of Firewall.v have no end: an element of the kernel's set expires
    by itself, after the timeout that crates/fwknox-firewall/src/nftables.rs
    puts into the transaction. Here the kernel has a clock and its elements
    deadlines, and the theorems bound the deadline of every door the daemon
    opens, in both of its modes. *)

From S2P Require Import Prelude RustStd Net Lru Proto Instances Packet Persist Replay Config RateLimit.
From S2P Require Import Firewall Capture Privsep Sandbox Daemon DaemonRun.

(** ** A kernel with a clock *)

Inductive deadline := Never | At (t : Z).
#[global] Instance deadline_eq_dec : EqDecision deadline.
Proof. solve_decision. Defined.

(** An element without a timeout stays until it is deleted, as the set has no
    default. So does one with the timeout zero: nf_tables starts a timer only
    for a timeout that is not zero. (The comment of [validate_durations] in
    crates/fwknox-config/src/daemon.rs takes zero for an instant expiry.) *)
Definition element_deadline (now : Z) (timeout : option Z) : deadline :=
  match timeout with
  | Some secs => if secs =? 0 then Never else At (now + secs * NANOS)
  | None => Never
  end.

(** The elements a command adds to the set, with their timeouts. *)
Definition expr_timed (e : Expression) : option (grant * option Z) :=
  match e with
  | ExprElem v timeout => (λ g, (g, timeout)) <$> element_grant v
  | e => (λ g, (g, None)) <$> element_grant e
  end.
Definition added_by (o : NfObject) : list (grant * option Z) :=
  match o with
  | CmdAdd (NfElement _ t n es) =>
      if bool_decide (t = TABLE_NAME ∧ n = SET_NAME) then omap expr_timed es else []
  | _ => []
  end.
Definition added (rs : Nftables) : list (grant * option Z) := concat (added_by <$> rs).

Definition is_add (o : NfObject) : bool := match o with CmdAdd _ => true | _ => false end.

(** Time may pass in a transaction. An element that was there before keeps its
    deadline or gets the one of the command that adds it again; kernels differ
    in this. *)
Class TimedKernel (K : Type) `{A : !RulesetApplier K} := {
  k_now : K → Z;
  k_deadlines : K → gmap grant deadline;
  timed_ok rs k k' g d :
    ra_apply rs k = (k', Ok ()) → k_deadlines k' !! g = Some d →
    k_deadlines k !! g = Some d ∨ ∃ timeout, (g, timeout) ∈ added rs ∧ d = element_deadline (k_now k') timeout;
  timed_err rs k k' e g d :
    ra_apply rs k = (k', Err e) → k_deadlines k' !! g = Some d → k_deadlines k !! g = Some d;
  timed_adds rs k k' g timeout :
    ra_apply rs k = (k', Ok ()) → forallb is_add rs = true → (g, timeout) ∈ added rs →
    is_Some (k_deadlines k' !! g);
}.

(** What a backend promises about deadlines. *)
Class TimedFirewall (B : Type) `{F : !FirewallBackend B} := {
  fw_now : B → Z;
  fw_deadlines : B → gmap grant deadline;
  timed_init b g d : fw_deadlines (fw_init b).1 !! g = Some d → fw_deadlines b !! g = Some d;
  timed_flush b g d : fw_deadlines (fw_flush b).1 !! g = Some d → fw_deadlines b !! g = Some d;
  timed_open_ok b r b' h g d :
    fw_open_access b r = (b', Ok h) → fw_deadlines b' !! g = Some d →
    fw_deadlines b !! g = Some d ∨
    g ∈ rule_grants r ∧ d = element_deadline (fw_now b') (Some (timeout_secs (rule_timeout r)));
  timed_open_err b r b' e g d :
    fw_open_access b r = (b', Err e) → fw_deadlines b' !! g = Some d → fw_deadlines b !! g = Some d;
  timed_open_adds b r b' h g :
    fw_open_access b r = (b', Ok h) → g ∈ rule_grants r → is_Some (fw_deadlines b' !! g);
}.

(** Neither clock runs backwards. *)
Class KernelClock (K : Type) `{A : !RulesetApplier K} `{T : !TimedKernel K} :=
  kernel_clock rs k : k_now k ≤ k_now (ra_apply rs k).1.
Class FirewallClock (B : Type) `{F : !FirewallBackend B} `{T : !TimedFirewall B} := {
  clock_flush b : fw_now b ≤ fw_now (fw_flush b).1;
  clock_open b r : fw_now b ≤ fw_now (fw_open_access b r).1;
}.

Section nft.
Context {K : Type} `{A : !RulesetApplier K} `{T : !TimedKernel K}.

Lemma added_open o r x :
  x ∈ added (open_batch o r) ↔
  x.2 = Some (timeout_secs (rule_timeout r)) ∧ x.1 ∈ doors_of (V4 o) (rule_ports r).
Proof.
  unfold added, open_batch, doors_of. set (t := timeout_secs _). clearbody t.
  induction (rule_ports r) as [|pp pps IH]; [by split; [intros ?%elem_of_nil|intros [_ ?%elem_of_nil]]|].
  cbn [fmap list_fmap concat]. rewrite elem_of_app, elem_of_cons, IH. unfold open_element. cbn [added_by].
  rewrite bool_decide_eq_true_2 by done. cbn. rewrite list_elem_of_singleton.
  destruct x as [g t']; cbn. naive_solver.
Qed.

#[global] Program Instance nft_timed : TimedFirewall (Nft.NftablesBackend K) := {
  fw_now b := k_now (Nft.kernel b);
  fw_deadlines b := k_deadlines (Nft.kernel b);
}.
Next Obligation.
  intros b g d. cbn. unfold Nft.nft_init. destruct (ra_apply init_ruleset _) as [k [[]|e]] eqn:E; cbn; intros Hd.
  - by destruct (timed_ok _ _ _ _ _ E Hd) as [?|(t & ?%elem_of_nil & _)].
  - by eapply timed_err.
Qed.
Next Obligation.
  intros b g d. cbn. unfold Nft.nft_flush. destruct (ra_apply flush_ruleset _) as [k [[]|e]] eqn:E; cbn; intros Hd.
  - by destruct (timed_ok _ _ _ _ _ E Hd) as [?|(t & ?%elem_of_nil & _)].
  - by eapply timed_err.
Qed.
Next Obligation.
  intros b r b' h g d. cbn. unfold Nft.nft_open_access.
  destruct (Nft.assert_initialized _ _); [|done].
  destruct (rule_source_ip r) as [o|o] eqn:Hip; [|done].
  destruct (ra_apply (open_batch o r) _) as [k [[]|e]] eqn:E; [|done]. intros [= <- _] Hd.
  destruct (timed_ok _ _ _ _ _ E Hd) as [?|(t & Hin & ->)]; [by left|right].
  apply added_open in Hin as [Ht Hg]. cbn in Ht, Hg. subst t. unfold rule_grants. by rewrite Hip.
Qed.
Next Obligation.
  intros b r b' e g d. cbn. unfold Nft.nft_open_access.
  destruct (Nft.assert_initialized _ _); [|by intros [= <- _]].
  destruct (rule_source_ip r) as [o|o]; [|by intros [= <- _]].
  destruct (ra_apply (open_batch o r) _) as [k [[]|e']] eqn:E; [done|]. intros [= <- _] Hd.
  by eapply timed_err.
Qed.
Next Obligation.
  intros b r b' h g. cbn. unfold Nft.nft_open_access, rule_grants.
  destruct (Nft.assert_initialized _ _); [|done].
  destruct (rule_source_ip r) as [o|o] eqn:Hip; [|done].
  destruct (ra_apply (open_batch o r) _) as [k [[]|e']] eqn:E; [|done]. intros [= <- _] Hg.
  apply (timed_adds _ _ _ g (Some (timeout_secs (rule_timeout r))) E).
  - unfold open_batch. set (t := timeout_secs _). clearbody t. clear. by induction (rule_ports r) as [|pp pps IH].
  - by apply added_open.
Qed.

#[global] Instance nft_clock `{C : !KernelClock K} : FirewallClock (Nft.NftablesBackend K).
Proof.
  split; intros b; cbn.
  - unfold Nft.nft_flush. pose proof (kernel_clock flush_ruleset (Nft.kernel b)) as H.
    by destruct (ra_apply _ _) as [k [[]|e]].
  - intros r. unfold Nft.nft_open_access. destruct (Nft.assert_initialized _ _); [|done].
    destruct (rule_source_ip r) as [o|o]; [|done].
    pose proof (kernel_clock (open_batch o r) (Nft.kernel b)) as H. by destruct (ra_apply _ _) as [k [[]|e]].
Qed.
End nft.

(** ** The timeouts of a configuration *)

(** No timeout is shorter than a second. *)
Definition whole_timeouts `{N : IpNetOps} (config : DaemonConfig) : Prop :=
  NANOS ≤ max_fw_timeout (daemon config) ∧ NANOS ≤ default_fw_timeout (daemon config) ∧
  ∀ s t, s ∈ access config → fw_timeout s = Some t → NANOS ≤ t.

(** A rule with such a timeout ends, in time. *)
Lemma rule_ends now timeout most :
  NANOS ≤ timeout ≤ most → ∃ e, element_deadline now (Some (timeout_secs timeout)) = At e ∧ e ≤ now + most.
Proof.
  intros [Hlo Hhi]. unfold element_deadline, timeout_secs, as_secs, NANOS, u32_max in *.
  pose proof (Z.div_le_lower_bound timeout 1000000000 1 ltac:(lia) ltac:(lia)).
  pose proof (Z.mul_div_le timeout 1000000000 ltac:(lia)).
  destruct (Z.eqb_spec (Z.min (timeout / 1000000000) 4294967295) 0); [lia|].
  eexists. split; [done|]. lia.
Qed.

(** ** The two loops *)

Section loops.
Context `{N : IpNetOps} `{U : UnicodeTables} `{R : Ring} `{M : Rmp SpaPayload}
  `{L : LruCache Nonce Z} `{LL : !LruLaws Nonce Z L} `{HL : HashIterLaws}
  `{LT : LruCache SourceKey TokenBucket}
  {B : Type} `{F : !FirewallBackend B} `{T : !TimedFirewall B}.
Implicit Types (config : DaemonConfig) (env : PacketEnv) (w : World B) (rl : RateLimiter).

Definition world_deadlines w : gmap grant deadline := fw_deadlines (w_fw w).
Definition world_now w : Z := fw_now (w_fw w).

Lemma timeout_range config s :
  whole_timeouts config → s ∈ access config →
  NANOS ≤ Z.min (default (default_fw_timeout (daemon config)) (fw_timeout s)) (max_fw_timeout (daemon config))
        ≤ max_fw_timeout (daemon config).
Proof.
  intros (Hm & Hd & Hs) Hin. destruct (fw_timeout s) as [t|] eqn:E; unfold default; [|lia].
  specialize (Hs s t Hin E). unfold default, id. split; [apply Z.min_glb|]; lia.
Qed.

(** An opening within these timeouts. *)
Lemma open_ends config s w fw r g d :
  whole_timeouts config → s ∈ access config →
  rule_timeout r = Z.min (default (default_fw_timeout (daemon config)) (fw_timeout s))
                         (max_fw_timeout (daemon config)) →
  (∃ h, fw_open_access (w_fw w) r = (fw, Ok h)) → fw_deadlines fw !! g = Some d →
  world_deadlines w !! g = Some d ∨
  g ∈ doors_of (rule_source_ip r) (rule_ports r) ∧
  ∃ e, d = At e ∧ e ≤ fw_now fw + max_fw_timeout (daemon config).
Proof.
  intros Hw Hs Ht [h Ho] Hd. destruct (timed_open_ok _ _ _ _ _ _ Ho Hd) as [?|[Hg ->]]; [by left|right].
  split; [done|]. rewrite Ht.
  destruct (rule_ends (fw_now fw) _ _ (timeout_range config s Hw Hs)) as (e & -> & He). eauto.
Qed.

(** *** The single process *)

Lemma run_iter_ends config it (s : RunState) g d :
  NoDup (stanza_name <$> access config) → whole_timeouts config → ri_shutdown it = false →
  world_deadlines (rs_world (run_iter config it s)) !! g = Some d →
  world_deadlines (rs_world s) !! g = Some d ∨
  justified config [it] g ∧
  ∃ e, d = At e ∧ e ≤ world_now (rs_world (run_iter config it s)) + max_fw_timeout (daemon config).
Proof.
  intros Hnd Hw Hsd. unfold run_iter, world_now, world_deadlines.
  destruct (ri_recv it) as [[pkt|]|e] eqn:Hrv;
    [|cbn [rs_world]; rewrite prune_tick_fw; by left..].
  destruct (check _ _ _ _) as [[rl [|reason]] log]; cbn [rs_world]; rewrite prune_tick_fw; [|by left].
  rewrite handle_packet_world. destruct (process_packet pkt config (ri_env it) (rs_world s)) as [w' r] eqn:E. cbn [fst].
  apply process_packet_cases in E; [|done]. destruct r as [[name h|name| |name reason]|e].
  - destruct E as (s0 & p & src & ports & Ha & _ & Hm & Hpol & _ & Hf). intros Hd.
    destruct (open_ends config s0 (rs_world s) (w_fw w') (access_rule config s0 p src ports) g d)
      as [?|[Hg He]]; [done|by eapply first_key_in, Ha|apply clamp_timeout_min|by eexists|done|by left|].
    right. split; [|done]. exists it, pkt, s0, p, src, ports. split_and!; try done. set_solver.
  - destruct E as [-> _]. by left.
  - subst. by left.
  - destruct E as [->|(? & ? & ? & _ & _ & _ & ->)]; by left.
  - destruct E as (fe & ? & ? & ? & ? & _ & _ & _ & Hf). intros Hd. left. by eapply timed_open_err.
Qed.

Lemma run_loop_ends config iters (s s' : RunState) b g d :
  NoDup (stanza_name <$> access config) → whole_timeouts config →
  run_loop config iters s = (s', b) → world_deadlines (rs_world s') !! g = Some d →
  world_deadlines (rs_world s) !! g = Some d ∨
  ∃ pre it post si e, iters = pre ++ it :: post ∧ run_loop config (pre ++ [it]) s = (si, false) ∧
    justified config [it] g ∧ d = At e ∧
    e ≤ world_now (rs_world si) + max_fw_timeout (daemon config).
Proof.
  intros Hnd Hw. revert s. induction iters as [|it iters IH]; intros s; cbn [run_loop].
  { intros [= <- <-]. by left. }
  destruct (ri_shutdown it) eqn:Hsd; [intros [= <- <-]; by left|]. intros E Hg.
  destruct (IH _ E Hg) as [H1|(pre & it' & post & si & e & -> & Hr & Hj)].
  - apply run_iter_ends in H1 as [?|(Hj & e & -> & He)]; [by left| |done..].
    right. exists [], it, iters, (run_iter config it s), e. cbn [app run_loop]. by rewrite Hsd.
  - right. exists (it :: pre), it', post, si, e. cbn [app run_loop]. by rewrite Hsd.
Qed.

Lemma flush_if_ends (b : bool) (fw : B) g d :
  fw_deadlines (if b then (fw_flush fw).1 else fw) !! g = Some d → fw_deadlines fw !! g = Some d.
Proof. destruct b; [apply timed_flush|done]. Qed.

Lemma shutdown_steps_ends config faults w g d :
  world_deadlines (shutdown_steps config faults w) !! g = Some d → world_deadlines w !! g = Some d.
Proof.
  unfold shutdown_steps, world_deadlines. destruct (save_to_file _ _ _ _) as [fs r]. cbn [w_fw].
  apply flush_if_ends.
Qed.

(** C8: no door outlives its packet for longer than the configured maximum.
    With timeouts of a second or more, every element of the kernel's set at any
    point of a run of the daemon, and after its shutdown, was there before with
    the same deadline or has a deadline at most [max_fw_timeout] after the
    iteration that handled a packet which authenticated and had the right to
    that door. *)
Theorem doors_expire config iters exit_faults w rl s' st g d :
  config_valid config → whole_timeouts config → run config iters exit_faults w rl = (s', st) →
  world_deadlines (rs_world s') !! g = Some d →
  world_deadlines w !! g = Some d ∨
  ∃ pre it post e, iters = pre ++ it :: post ∧ justified config [it] g ∧ d = At e ∧
    e ≤ world_now (rs_world (run config (pre ++ [it]) exit_faults w rl).1) + max_fw_timeout (daemon config).
Proof.
  intros (_ & Hnd & _) Hw. unfold run.
  set (fw0 := if flush_rules_at_init (daemon config) then _ else _).
  pose proof (timed_init fw0 g d) as Hi. destruct (fw_init fw0) as [fw [[]|e]]; cbn [fst] in Hi.
  2: { intros [= <- <-] Hd. left. by eapply flush_if_ends, Hi. }
  destruct (run_loop config iters _) as [s1 b] eqn:E. intros Hr Hd.
  assert (world_deadlines (rs_world s1) !! g = Some d) as H1.
  { destruct b; injection Hr as <- <-; [|done]. by apply shutdown_steps_ends in Hd. }
  destruct (run_loop_ends _ _ _ _ _ _ _ Hnd Hw E H1) as [H0|(pre & it & post & si & e & -> & Es & Hj & -> & He)].
  - left. by eapply flush_if_ends, Hi.
  - right. exists pre, it, post, e. by rewrite Es.
Qed.

(** *** The parent *)

(** A door a request among these messages asks for, whoever wrote it. *)
Definition requested (it : ParentIter) (g : grant) : Prop :=
  ∃ name ip p src ports, pi_recv it = Ok (ValidRequest name ip p) ∧ message p = Access src ports ∧
    g ∈ doors_of src ports.

Lemma handle_crypto_msg_ends config env w msg g d :
  whole_timeouts config → let w' := handle_crypto_msg msg config env w in
  world_deadlines w' !! g = Some d →
  world_deadlines w !! g = Some d ∨
  ∃ name ip p src ports e, msg = ValidRequest name ip p ∧ message p = Access src ports ∧
    g ∈ doors_of src ports ∧ d = At e ∧ e ≤ world_now w' + max_fw_timeout (daemon config).
Proof.
  intros Hw. unfold handle_crypto_msg. destruct msg as [name ip p|ip reason|ip]; [|by left|by left].
  destruct (check_and_insert _ _ _ _ _) as [[c fs] [[|]|re]]; [|by left|by left].
  destruct (message p) as [src ports| | |] eqn:Hm; try by left.
  destruct (List.find _ (access config)) as [s|] eqn:Hf; [|by left].
  apply List.find_some in Hf as [Hs _]. apply list_elem_of_In in Hs.
  unfold world_deadlines, world_now; cbn [w_fw with_fw].
  match goal with |- context [fw_open_access ?a ?b] => set (r := b);
    destruct (fw_open_access a r) as [fw [h|fe]] eqn:Ho end; cbn [fst]; intros Hd.
  - destruct (open_ends config s w fw r g d) as [?|(Hg & e & -> & He)]; [done..|by eexists|done|by left|].
    right. by exists name, ip, p, src, ports, e.
  - left. by eapply timed_open_err.
Qed.

Lemma parent_iter_ends config it (s : ParentState) g d :
  whole_timeouts config → world_deadlines (ps_world (parent_iter config it s)) !! g = Some d →
  world_deadlines (ps_world s) !! g = Some d ∨
  requested it g ∧
  ∃ e, d = At e ∧ e ≤ world_now (ps_world (parent_iter config it s)) + max_fw_timeout (daemon config).
Proof.
  intros Hw. unfold parent_iter, world_deadlines, world_now. cbn [ps_world]. rewrite prune_tick_fw.
  destruct (pi_recv it) as [msg|e] eqn:Hrv; [|by left]. intros Hd.
  destruct (handle_crypto_msg_ends config (pi_env it) (ps_world s) msg g d Hw Hd)
    as [?|(name & ip & p & src & ports & e & -> & Hm & Hg & -> & He)]; [by left|right].
  split; [|by eexists]. by exists name, ip, p, src, ports.
Qed.

Lemma parent_loop_ends config iters (s s' : ParentState) b g d :
  whole_timeouts config → parent_loop config iters s = (s', b) →
  world_deadlines (ps_world s') !! g = Some d →
  world_deadlines (ps_world s) !! g = Some d ∨
  ∃ pre it post e, iters = pre ++ it :: post ∧ requested it g ∧ d = At e ∧
    e ≤ world_now (ps_world (foldl (λ s it, parent_iter config it s) s (pre ++ [it]))) +
        max_fw_timeout (daemon config).
Proof.
  intros Hw. revert s. induction iters as [|it iters IH]; intros s; cbn [parent_loop].
  { intros [= <- <-]. by left. }
  destruct (ps_triggered s || pi_shutdown it); [intros [= <- <-]; by left|]. intros E Hg.
  destruct (IH _ E Hg) as [H1|(pre & it' & post & e & -> & Hj)].
  - apply parent_iter_ends in H1 as [?|(Hj & e & -> & He)]; [by left| |done].
    right. by exists [], it, iters, e.
  - right. by exists (it :: pre), it', post, e.
Qed.

(** The parent's own bound, which no worker can move. Whatever messages
    the parent receives, also from a compromised crypto worker, every element
    of the kernel's set after any run of its loop was there before with the
    same deadline, or one of the requests asked for it and its deadline is at
    most [max_fw_timeout] after the iteration that handled this request. *)
Theorem parent_doors_expire config penv iters w s' log st g d :
  whole_timeouts config → run_parent_loop config penv iters w = (s', log, st) →
  world_deadlines (ps_world s') !! g = Some d →
  world_deadlines w !! g = Some d ∨
  ∃ pre it post e, iters = pre ++ it :: post ∧ requested it g ∧ d = At e ∧
    e ≤ world_now (ps_world (foldl (λ s it, parent_iter config it s)
          {| ps_world := w; ps_tick := 0; ps_triggered := false; ps_notes := notify config Ready [] |}
          (pre ++ [it]))) + max_fw_timeout (daemon config).
Proof.
  intros Hw. unfold run_parent_loop.
  destruct (pe_handlers penv) as [[]|e]; [|intros [= <- <- <-]; by left].
  destruct (pe_set_read_timeout penv) as [[]|e]; [|intros [= <- <- <-]; by left].
  destruct (parent_loop config iters _) as [s1 b] eqn:E. intros Hr Hd.
  apply (parent_loop_ends _ _ _ _ _ _ _ Hw E).
  destruct b; [destruct (pe_capture_end penv); [destruct (pe_crypto_end penv)|]|];
    injection Hr as <- <- <-; try done. by apply shutdown_steps_ends in Hd.
Qed.

(** *** The time left *)

(** No door has more than the configured maximum left, but for those that were
    there at the beginning. *)
Definition time_left config w0 w : Prop :=
  ∀ g d, world_deadlines w !! g = Some d →
    world_deadlines w0 !! g = Some d ∨ ∃ e, d = At e ∧ e ≤ world_now w + max_fw_timeout (daemon config).

Context `{C : !FirewallClock B}.

(** [w'] has the doors of [w], perhaps fewer, and some time may have passed. *)
Lemma time_left_later config w0 w w' :
  time_left config w0 w → world_now w ≤ world_now w' →
  (∀ g d, world_deadlines w' !! g = Some d → world_deadlines w !! g = Some d) → time_left config w0 w'.
Proof.
  intros Hl Hn Hd g d Hg. destruct (Hl g d (Hd g d Hg)) as [?|(e & -> & He)]; [by left|right].
  exists e. split; [done|]. lia.
Qed.

Lemma open_left config w0 w w' s r h :
  whole_timeouts config → s ∈ access config →
  rule_timeout r = Z.min (default (default_fw_timeout (daemon config)) (fw_timeout s))
                         (max_fw_timeout (daemon config)) →
  fw_open_access (w_fw w) r = (w_fw w', Ok h) → time_left config w0 w → time_left config w0 w'.
Proof.
  intros Hw Hs Ht Ho Hl g d Hd. pose proof (clock_open (w_fw w) r) as Hn. rewrite Ho in Hn. cbn [fst] in Hn.
  destruct (open_ends config s w (w_fw w') r g d) as [Hg|[_ He]]; [done..|by eexists|done| |by right].
  destruct (Hl g d Hg) as [?|(e & -> & He)]; [by left|right]. exists e. split; [done|]. unfold world_now in *. lia.
Qed.

Lemma daemon_exec_left config w0 w op :
  NoDup (stanza_name <$> access config) → whole_timeouts config →
  time_left config w0 w → time_left config w0 (daemon_exec config w op).
Proof.
  intros Hnd Hw Hl. destruct op as [captured env|max_age now faults]; cbn [daemon_exec].
  - destruct (process_packet captured config env w) as [w' r] eqn:E. cbn [fst].
    apply process_packet_cases in E; [|done]. destruct r as [[name h|name| |name reason]|e].
    + destruct E as (s & p & src & ports & Ha & _ & _ & _ & _ & Hf).
      eapply open_left; [done|by eapply first_key_in, Ha| |exact Hf|done]. apply clamp_timeout_min.
    + by destruct E as [-> _].
    + by subst.
    + destruct E as [->|(? & ? & ? & _ & _ & _ & E)]; [done|].
      eapply time_left_later; [done|..]; unfold world_now, world_deadlines; by rewrite E.
    + destruct E as (fe & s & p & src & ports & _ & _ & _ & Hf).
      pose proof (clock_open (w_fw w) (access_rule config s p src ports)) as Hn. rewrite Hf in Hn.
      eapply time_left_later; [done|done|]. intros g d Hd. by eapply timed_open_err.
  - by destruct (prune_older_than _ _ _ _ _) as [[c fs] r].
Qed.

Lemma daemon_run_left config w ops :
  NoDup (stanza_name <$> access config) → whole_timeouts config → time_left config w (daemon_run config w ops).
Proof.
  intros Hnd Hw. induction ops as [|op ops IH] using rev_ind; [by left|].
  unfold daemon_run. rewrite foldl_app. cbn [foldl]. by apply daemon_exec_left.
Qed.

Lemma shutdown_left config w0 w faults :
  time_left config w0 w → time_left config w0 (shutdown_steps config faults w).
Proof.
  intros Hl. eapply time_left_later; [done| |intros g d; apply shutdown_steps_ends].
  unfold shutdown_steps, world_now. destruct (save_to_file _ _ _ _) as [fs r]. cbn [w_fw].
  destruct (flush_rules_at_exit _); [apply clock_flush|done].
Qed.
End loops.

(** ** Timeouts below a second *)

(** The elements of such a rule's transaction carry the timeout zero. *)
Lemma short_timeout_never_ends {K : Type} `{A : !RulesetApplier K} `{T : !TimedKernel K}
    (b b' : Nft.NftablesBackend K) r h g :
  0 ≤ rule_timeout r < NANOS → fw_open_access b r = (b', Ok h) → g ∈ rule_grants r →
  fw_deadlines b !! g = None → fw_deadlines b' !! g = Some Never.
Proof.
  intros Ht Ho Hg Hn. destruct (timed_open_adds _ _ _ _ _ Ho Hg) as [d Hd].
  destruct (timed_open_ok _ _ _ _ _ _ Ho Hd) as [?|[_ ->]]; [congruence|].
  rewrite Hd. unfold element_deadline, timeout_secs, as_secs. by rewrite Z.div_small.
Qed.

(** The configuration with the timeout [t] everywhere, as the default and in
    every stanza. *)
Definition with_timeout `{N : IpNetOps} (t : Duration) (s : AccessStanza) : AccessStanza := {|
  stanza_name := stanza_name s; source := source s; open_ports := open_ports s;
  master_key_base64 := master_key_base64 s; fw_timeout := Some t;
  stanza_max_fw_timeout := stanza_max_fw_timeout s; require_source_match := require_source_match s;
  require_username := require_username s; enable_nat := enable_nat s; nat_destination := nat_destination s;
  enable_cmd_exec := enable_cmd_exec s; cmd_exec_user := cmd_exec_user s; expiration_date := expiration_date s |}.
Definition hasty `{N : IpNetOps} (config : DaemonConfig) (t : Duration) : DaemonConfig :=
  let d := daemon config in {|
  daemon := {|
    listen_addr := listen_addr d; listen_port := listen_port d; firewall_backend := firewall_backend d;
    run_user := run_user d; run_group := run_group d; max_spa_packet_age := max_spa_packet_age d;
    flush_rules_at_init := flush_rules_at_init d; flush_rules_at_exit := flush_rules_at_exit d;
    default_fw_timeout := t; max_fw_timeout := max_fw_timeout d;
    enable_systemd := enable_systemd d; enable_sandbox := enable_sandbox d; enable_privsep := enable_privsep d;
    landlock_enabled := landlock_enabled d |};
  replay := replay config; rate_limit := rate_limit config; access := with_timeout t <$> access config |}.

Lemma hasty_validates `{N : IpNetOps} `{U : UnicodeTables} config t :
  DaemonConfig_validate config = Ok () → 0 < t < NANOS → t ≤ max_fw_timeout (daemon config) →
  DaemonConfig_validate (hasty config t) = Ok ().
Proof.
  rewrite !validate_iff. intros (Ha & Hnd & Hst & Hdur & Hle & Hp & Hr) Ht Hmax.
  rewrite !Forall_cons in Hdur. destruct Hdur as (_ & Hd).
  split_and!; [|unfold hasty; cbn [access]; by rewrite <- list_fmap_compose| | |done|done|done].
  - cbn. by destruct (access config).
  - cbn. apply Forall_fmap. eapply Forall_impl; [exact Hst|]. by intros s.
  - rewrite !Forall_cons. split; [|done]. unfold duration_valid, NANOS in *. cbn. unfold from_secs, NANOS. lia.
Qed.

(** The rule the daemon sends, and what the kernel answers. *)
Lemma nft_open_sent {K : Type} `{A : !RulesetApplier K} (b b' : Nft.NftablesBackend K) r h :
  fw_open_access b r = (b', Ok h) →
  ∃ o, rule_source_ip r = V4 o ∧ ra_apply (open_batch o r) (Nft.kernel b) = (Nft.kernel b', Ok ()).
Proof.
  cbn. unfold Nft.nft_open_access. destruct (Nft.assert_initialized _ _); [|done].
  destruct (rule_source_ip r) as [o|o]; [|done]. destruct (ra_apply _ _) as [k [[]|e]] eqn:E; [|done].
  intros [= <- <-]. by exists o.
Qed.

(** C24: a timeout below a second opens a door for ever. Whatever the
    configuration that validates, it still validates with any timeout below
    one second, not zero and not above the maximum, as the default and as the
    timeout of every stanza. And with it every packet that is installed is
    sent to the kernel with the timeout zero on all of its elements, and every
    door of it that was closed before is open afterwards and has no deadline. *)
Theorem short_timeout_installs_forever {K : Type} `{A : !RulesetApplier K} `{T : !TimedKernel K}
    `{N : IpNetOps} `{U : UnicodeTables} `{R : Ring} `{M : Rmp SpaPayload}
    `{L : LruCache Nonce Z} `{LL : !LruLaws Nonce Z L} `{HL : HashIterLaws} config t :
  DaemonConfig_validate config = Ok () → 0 < t < NANOS → t ≤ max_fw_timeout (daemon config) →
  DaemonConfig_validate (hasty config t) = Ok () ∧
  ∀ captured env (w w' : World (Nft.NftablesBackend K)) name h,
    process_packet captured (hasty config t) env w = (w', Ok (Installed name h)) →
    ∃ s p o ports r, authentic (hasty config t) (env_clock env) captured s p ∧ stanza_name s = name ∧
      message p = Access (V4 o) ports ∧
      ra_apply (open_batch o r) (Nft.kernel (w_fw w)) = (Nft.kernel (w_fw w'), Ok ()) ∧
      (∀ g timeout, (g, timeout) ∈ added (open_batch o r) ↔ g ∈ doors_of (V4 o) ports ∧ timeout = Some 0) ∧
      ∀ g, g ∈ doors_of (V4 o) ports → world_deadlines w !! g = None → world_deadlines w' !! g = Some Never.
Proof.
  intros Hv Ht Hmax. pose proof (hasty_validates config t Hv Ht Hmax) as Hv'. split; [done|].
  intros captured env w w' name h Hr. apply validate_iff in Hv' as (_ & Hnd & _).
  apply process_packet_cases in Hr; [|done]. destruct Hr as (s & p & src & ports & Ha & Hn & Hm & _ & _ & Hf).
  destruct (nft_open_sent _ _ _ _ Hf) as (o & Ho & Hap). cbn [access_rule rule_source_ip] in Ho. subst src.
  assert (fw_timeout s = Some t) as Hs.
  { pose proof (first_key_in _ _ _ (proj1 Ha)) as Hin. cbn [access hasty] in Hin.
    by apply list_elem_of_fmap in Hin as (s0 & -> & _). }
  assert (rule_timeout (access_rule (hasty config t) s p (V4 o) ports) = t) as Hrt.
  { unfold access_rule; cbn [rule_timeout]. rewrite Hs, clamp_timeout_min. cbn. lia. }
  assert (timeout_secs t = 0) as Hz by (unfold timeout_secs, as_secs; by rewrite Z.div_small by lia).
  exists s, p, o, ports, (access_rule (hasty config t) s p (V4 o) ports). split_and!; try done.
  - intros g timeout. rewrite added_open, Hrt, Hz. cbn. tauto.
  - intros g Hg Hnone. eapply short_timeout_never_ends; [|done..]. rewrite Hrt. lia.
Qed.

(** ** A kernel that keeps time *)

Record timed_kernel := { tk_now : Z; tk_set : gmap grant deadline }.

Definition insert_all (now : Z) (s : gmap grant deadline) (xs : list (grant * option Z)) : gmap grant deadline :=
  foldl (λ s x, <[x.1 := element_deadline now x.2]> s) s xs.

Definition timed_effect (now : Z) (s : gmap grant deadline) (o : NfObject) : gmap grant deadline :=
  match o with
  | CmdAdd _ => insert_all now s (added_by o)
  | CmdDelete (NfElement _ t n es) =>
      if bool_decide (t = TABLE_NAME ∧ n = SET_NAME) then foldr delete s (omap expr_grant es) else s
  | CmdDelete (NfTable _ n) => if bool_decide (n = TABLE_NAME) then ∅ else s
  | _ => s
  end.

(** Every transaction takes a second. *)
Definition ticking_kernel : RulesetApplier timed_kernel := {|
  ra_apply rs k :=
    let now := tk_now k + NANOS in
    ({| tk_now := now; tk_set := foldl (timed_effect now) (tk_set k) rs |}, Ok ());
  ra_get_current _ := Err (Unsupported (lit "get_current"));
|}.
#[local] Existing Instance ticking_kernel.

Lemma insert_all_lookup now (xs : list (grant * option Z)) s g d :
  insert_all now s xs !! g = Some d →
  s !! g = Some d ∨ ∃ timeout, (g, timeout) ∈ xs ∧ d = element_deadline now timeout.
Proof.
  revert s. induction xs as [|[g' t] xs IH]; intros s; [by left|].
  intros [H|(t' & Hin & ->)]%IH.
  - cbn [fst snd] in H. apply lookup_insert_Some in H as [[<- <-]|[_ ?]]; [|by left].
    right. exists t. split; [apply list_elem_of_here|done].
  - right. exists t'. split; [by apply list_elem_of_further|done].
Qed.

Lemma insert_all_there now (xs : list (grant * option Z)) s g :
  is_Some (s !! g) ∨ (∃ timeout, (g, timeout) ∈ xs) →
  is_Some (insert_all now s xs !! g).
Proof.
  revert s. induction xs as [|[g' t] xs IH]; intros s.
  { by intros [?|[? ?%elem_of_nil]]. }
  intros H. apply IH. cbn [fst snd]. destruct (decide (g = g')) as [->|Hne].
  { left. rewrite lookup_insert_eq. by eexists. }
  rewrite lookup_insert_ne by done. destruct H as [?|[t' [[= ? ?]|?]%elem_of_cons]]; [by left|done|right; eauto].
Qed.

Lemma foldr_delete_lookup (gs : list grant) (s : gmap grant deadline) g d :
  foldr delete s gs !! g = Some d → s !! g = Some d.
Proof. induction gs as [|g' gs IH]; cbn [foldr]; [done|]. by intros [_ ?%IH]%lookup_delete_Some. Qed.

Lemma timed_effect_lookup now s o g d :
  timed_effect now s o !! g = Some d →
  s !! g = Some d ∨ ∃ timeout, (g, timeout) ∈ added_by o ∧ d = element_deadline now timeout.
Proof.
  destruct o as [o|o|o|]; [apply insert_all_lookup|intros H; left; revert H|by left..].
  unfold timed_effect. destruct o; try done; case_bool_decide; try done. apply foldr_delete_lookup.
Qed.

Lemma timed_effects_lookup now rs s g d :
  foldl (timed_effect now) s rs !! g = Some d →
  s !! g = Some d ∨ ∃ timeout, (g, timeout) ∈ added rs ∧ d = element_deadline now timeout.
Proof.
  unfold added. revert s. induction rs as [|o rs IH]; intros s; cbn [foldl fmap list_fmap concat]; [by left|].
  setoid_rewrite elem_of_app. intros [[?|(t & ? & ->)]%timed_effect_lookup|(t & ? & ->)]%IH; eauto 10.
Qed.

Lemma timed_adds_there now rs s g :
  forallb is_add rs = true → is_Some (s !! g) ∨ (∃ timeout, (g, timeout) ∈ added rs) →
  is_Some (foldl (timed_effect now) s rs !! g).
Proof.
  unfold added. revert s. induction rs as [|o rs IH]; intros s; cbn [foldl fmap list_fmap concat forallb].
  { by intros _ [?|[? ?%elem_of_nil]]. }
  intros [Ho Hrs]%andb_true_iff H. apply (IH _ Hrs). setoid_rewrite elem_of_app in H.
  destruct o as [o| | |]; [|done..]. destruct H as [?|[t [?|?]]]; [left|left|right; eauto];
    apply insert_all_there; eauto.
Qed.

#[local] Program Instance ticking_kernel_timed : TimedKernel timed_kernel := {
  k_now := tk_now;
  k_deadlines := tk_set;
}.
Next Obligation. intros rs k k' g d. cbn. intros [= <-]. apply timed_effects_lookup. Qed.
Next Obligation. done. Qed.
Next Obligation. intros rs k k' g t. cbn. intros [= <-] Ha Hin. apply timed_adds_there; eauto. Qed.

Lemma insert_all_dom now s xs : dom (insert_all now s xs) = dom s ∪ list_to_set (fst <$> xs).
Proof.
  revert s. induction xs as [|[g t] xs IH]; intros s; [cbn; set_solver|].
  change (insert_all now s ((g, t) :: xs)) with (insert_all now (<[g := element_deadline now t]> s) xs).
  rewrite IH, dom_insert_L. cbn. set_solver.
Qed.

Lemma foldr_delete_dom (gs : list grant) (s : gmap grant deadline) :
  dom (foldr delete s gs) = dom s ∖ list_to_set gs.
Proof. induction gs as [|g gs IH]; cbn; [set_solver|]. rewrite dom_delete_L, IH. set_solver. Qed.

Lemma expr_timed_grants (es : list Expression) : fst <$> omap expr_timed es = omap expr_grant es.
Proof.
  assert (∀ e, fst <$> expr_timed e = expr_grant e) as H.
  { assert (∀ (o : option grant) (t : option Z), fst <$> ((λ g, (g, t)) <$> o) = o) as Ho by by intros [].
    intros []; apply Ho. }
  induction es as [|e es IH]; cbn; [done|]. rewrite <- (H e). destruct (expr_timed e); cbn; by rewrite IH.
Qed.

Lemma timed_effect_dom now s o : dom (timed_effect now s o) = cmd_effect (dom s) o.
Proof.
  destruct o as [o|o|o|]; [| |done|done].
  - cbn [timed_effect]. rewrite insert_all_dom.
    destruct o; cbn [added_by cmd_effect]; try (cbn; set_solver).
    case_bool_decide; [by rewrite expr_timed_grants|cbn; set_solver].
  - destruct o; cbn [timed_effect cmd_effect]; try done; case_bool_decide; try done.
    apply foldr_delete_dom.
Qed.

#[local] Program Instance ticking_kernel_laws : ApplierLaws timed_kernel := { allow_set k := dom (tk_set k) }.
Next Obligation.
  intros rs k k'. cbn. intros [= <-]. cbn [tk_set]. generalize (tk_now k + NANOS) as now. intros now.
  generalize (tk_set k). induction rs as [|o rs IH]; intros s; cbn [foldl]; [done|]. by rewrite IH, timed_effect_dom.
Qed.
Next Obligation. done. Qed.

#[local] Instance ticking_kernel_clock : KernelClock timed_kernel.
Proof. intros rs k. change (tk_now k ≤ tk_now k + NANOS). unfold NANOS. lia. Qed.

(** ** Witnesses *)

#[local] Existing Instance sample_rmp.
#[local] Existing Instance sorted_hash_iter.
#[local] Existing Instance sorted_hash_iter_laws.

Definition timed_world : World (Nft.NftablesBackend timed_kernel) :=
  {| w_replay := sample_cache; w_fs := ∅;
     w_fw := {| Nft.initialized := true; Nft.kernel := {| tk_now := 5 * NANOS; tk_set := ∅ |} |} |}.

Lemma sample_whole : whole_timeouts sample_config.
Proof.
  split_and!; [by vm_compute|by vm_compute|]. intros s t ->%list_elem_of_singleton Ht. discriminate Ht.
Qed.

(** The door of the sample packet closes 30 seconds after it opened. *)
Lemma sample_run_deadline :
  world_deadlines (rs_world (run sample_config [sample_run_iter] no_faults timed_world small_limiter).1)
    !! sample_door = Some (At (38 * NANOS)).
Proof. vm_compute. reflexivity. Qed.

Lemma doors_expire_witness :
  world_deadlines timed_world !! sample_door = Some (At (38 * NANOS)) ∨
  ∃ pre it post e, [sample_run_iter] = pre ++ it :: post ∧ justified sample_config [it] sample_door ∧
    At (38 * NANOS) = At e ∧
    e ≤ world_now (rs_world (run sample_config (pre ++ [it]) no_faults timed_world small_limiter).1) +
        max_fw_timeout (daemon sample_config).
Proof.
  apply (doors_expire sample_config [sample_run_iter] no_faults timed_world small_limiter
    (run sample_config [sample_run_iter] no_faults timed_world small_limiter).1
    (run sample_config [sample_run_iter] no_faults timed_world small_limiter).2
    sample_door (At (38 * NANOS))).
  - apply sample_config_ok.
  - apply sample_whole.
  - apply surjective_pairing.
  - apply sample_run_deadline.
Defined.

Lemma parent_doors_expire_witness :
  let r := run_parent_loop sample_config sample_parent_env [request_iter] timed_world in
  world_deadlines (ps_world r.1.1) !! sample_door = Some (At (36 * NANOS)) ∧
  (world_deadlines timed_world !! sample_door = Some (At (36 * NANOS)) ∨
   ∃ pre it post, [request_iter] = pre ++ it :: post ∧ requested it sample_door).
Proof.
  set (r := run_parent_loop sample_config sample_parent_env [request_iter] timed_world).
  assert (world_deadlines (ps_world r.1.1) !! sample_door = Some (At (36 * NANOS))) as Hd
    by (vm_compute; reflexivity).
  split; [exact Hd|].
  destruct (parent_doors_expire sample_config sample_parent_env [request_iter] timed_world
    r.1.1 r.1.2 r.2 sample_door (At (36 * NANOS))) as [H|(pre & it & post & e & E & Hr & _)].
  - apply sample_whole.
  - unfold r. rewrite <- surjective_pairing. apply surjective_pairing.
  - exact Hd.
  - left. exact H.
  - right. exists pre, it, post. split; [exact E|exact Hr].
Defined.

(** The sample configuration with timeouts of half a second. *)
Lemma short_timeout_installs_forever_witness :
  DaemonConfig_validate (hasty sample_config 500000000) = Ok () ∧
  (process_packet sample_captured (hasty sample_config 500000000) sample_env timed_world).2 =
    Ok (Installed (lit "ssh") sample_handle) ∧
  world_deadlines timed_world !! sample_door = None ∧
  world_deadlines (process_packet sample_captured (hasty sample_config 500000000) sample_env timed_world).1
    !! sample_door = Some Never.
Proof.
  destruct (short_timeout_installs_forever sample_config 500000000) as [Hv Hi];
    [vm_compute; reflexivity|vm_compute; split; reflexivity|vm_compute; discriminate|].
  assert ((process_packet sample_captured (hasty sample_config 500000000) sample_env timed_world).2 =
    Ok (Installed (lit "ssh") sample_handle)) as Hr by (vm_compute; reflexivity).
  assert (world_deadlines timed_world !! sample_door = None) as Hn by (vm_compute; reflexivity).
  split; [exact Hv|]. split; [exact Hr|]. split; [exact Hn|].
  destruct (Hi sample_captured sample_env timed_world
    (process_packet sample_captured (hasty sample_config 500000000) sample_env timed_world).1 (lit "ssh") sample_handle)
    as (s & p & o & ports & r & _ & _ & _ & Hap & Hadd & Hd).
  - rewrite <- Hr. apply surjective_pairing.
  - destruct (decide (sample_door ∈ doors_of (V4 o) ports)) as [Hg|Hg]; [exact (Hd _ Hg Hn)|].
    vm_compute. reflexivity.
Defined.
