(* ===== verification/Notify.v ===== *)
(** * What the daemon tells systemd, and its workers' last words

    crates/fwknox-sandbox/src/notify.rs and panic.rs, and the order in which
    the loops of run.rs and privsep_run.rs call the former. The [sd_notify]
    crate is a parameter; the loops ignore what it returns. *)

From S2P Require Import Prelude RustStd Net Lru Proto Instances Packet Persist Replay Config RateLimit.
From S2P Require Import Firewall Capture Privsep Sandbox Daemon DaemonRun.

(** ** notify.rs *)

Class SdNotify := {
  sd_notify : list Notify → result str unit;
  sd_watchdog_enabled : option Duration;
}.

Section notify.
Context `{S : SdNotify}.

Definition ready : result SandboxError unit := map_err SbSdNotify (sd_notify [Ready]).
Definition watchdog : result SandboxError unit := map_err SbSdNotify (sd_notify [Watchdog]).
Definition stopping : result SandboxError unit := map_err SbSdNotify (sd_notify [Stopping]).
Definition watchdog_interval : option Duration := sd_watchdog_enabled.
End notify.

(** ** panic.rs *)

(** The line the hook writes before it aborts. *)
Definition panic_line (worker_name info : str) : str := worker_name ++ lit ": panicked: " ++ info ++ [10].

(** The tests of notify.rs: outside systemd there is no socket, and the crate
    returns without an error. *)
Definition no_systemd : SdNotify := {| sd_notify _ := Ok (); sd_watchdog_enabled := None |}.
Definition notify_calls_are_noops_outside_systemd : bool :=
  match @ready no_systemd, @watchdog no_systemd, @stopping no_systemd with Ok _, Ok _, Ok _ => true | _, _, _ => false end.
Definition watchdog_interval_is_none_outside_systemd : bool :=
  match @watchdog_interval no_systemd with None => true | Some _ => false end.
Example notify_tests_pass :
  notify_calls_are_noops_outside_systemd && watchdog_interval_is_none_outside_systemd = true.
Proof. reflexivity. Qed.

(** ** The order of the calls *)

(** The service protocol: ready, a heartbeat per turn, and the end. *)
Definition protocol (turns : nat) (ended : bool) : list Notify :=
  Ready :: replicate turns Watchdog ++ (if ended then [Stopping] else []).

Section order.
Context `{N : IpNetOps} `{R : Ring} `{M : Rmp SpaPayload} `{L : LruCache Nonce Z} `{HI : HashIter}
  `{LT : LruCache SourceKey TokenBucket} {B : Type} `{F : !FirewallBackend B}.
Implicit Types (config : DaemonConfig) (w : World B).

Definition silent config (notes : list Notify) : list Notify := if enable_systemd (daemon config) then notes else [].

Lemma notify_silent config n notes : notify config n (silent config notes) = silent config (notes ++ [n]).
Proof. unfold notify, silent. by destruct (enable_systemd _). Qed.

Lemma heartbeat k notes : (notes ++ replicate k Watchdog) ++ [Watchdog] = notes ++ replicate (S k) Watchdog.
Proof. by rewrite <- app_assoc, <- replicate_cons_app. Qed.

Lemma run_iter_notes config it (s : RunState (B := B)) :
  rs_notes (run_iter config it s) = notify config Watchdog (rs_notes s).
Proof. unfold run_iter. by repeat case_match. Qed.

(** A loop that runs [k] turns and then sees the flag or goes on. *)
Lemma run_loop_notes config iters (s s' : RunState (B := B)) b notes k :
  rs_notes s = silent config (notes ++ replicate k Watchdog) → run_loop config iters s = (s', b) →
  ∃ j, rs_notes s' = silent config (notes ++ replicate (k + j) Watchdog) ∧
    if b then ∃ it, iters !! j = Some it ∧ ri_shutdown it = true else j = length iters.
Proof.
  revert s k. induction iters as [|it iters IH]; intros s k Hn; cbn [run_loop].
  { intros [= <- <-]. exists 0%nat. by rewrite Nat.add_0_r. }
  destruct (ri_shutdown it) eqn:Hsd.
  { intros [= <- <-]. exists 0%nat. rewrite Nat.add_0_r. split; [done|]. by exists it. }
  intros E. destruct (IH (run_iter config it s) (S k)) as (j & Hj & Hb); [|done|].
  - by rewrite run_iter_notes, Hn, notify_silent, heartbeat.
  - exists (S j). rewrite <- Nat.add_succ_comm. split; [done|]. destruct b; [done|]. cbn. by rewrite Hb.
Qed.

(** The single process keeps to the service protocol. With systemd enabled it
    says that it is ready once the firewall is initialised, sends one heartbeat
    per turn of its loop, as many as there were turns before the one that saw
    the shutdown flag, and announces its end after the last of them and before
    anything is torn down; it says nothing when the firewall could not be
    initialised, or when systemd is not enabled. *)
Theorem run_notifies config iters faults w rl s st :
  run config iters faults w rl = (s, st) →
  (∃ e, st = Some (Err e) ∧ rs_notes s = []) ∨
  ∃ turns, rs_notes s = silent config (protocol turns (bool_decide (st ≠ None))) ∧
    match st with
    | None => turns = length iters
    | Some r => r = Ok () ∧ ∃ it, iters !! turns = Some it ∧ ri_shutdown it = true
    end.
Proof.
  unfold run. destruct (fw_init _) as [fw [[]|e]]; [intros Hr; right|intros [= <- <-]; left; by eexists].
  destruct (run_loop config iters _) as [s1 b] eqn:E.
  apply (run_loop_notes config iters _ _ _ [Ready] 0) in E as (j & Hj & Hb); [|unfold notify, silent; cbn; by destruct (enable_systemd _)].
  destruct b; injection Hr as <- <-; exists j; (split; [|done]).
  - cbn [rs_notes]. by rewrite Hj, notify_silent, <- app_assoc.
  - rewrite Hj. unfold protocol. by rewrite app_nil_r.
Qed.

Lemma parent_loop_notes config iters (s s' : ParentState (B := B)) b notes k :
  ps_notes s = silent config (notes ++ replicate k Watchdog) → parent_loop config iters s = (s', b) →
  ∃ j, (j ≤ length iters)%nat ∧ ps_notes s' = silent config (notes ++ replicate (k + j) Watchdog) ∧
    (b = false → j = length iters).
Proof.
  revert s k. induction iters as [|it iters IH]; intros s k Hn; cbn [parent_loop].
  { intros [= <- <-]. exists 0%nat. by rewrite Nat.add_0_r. }
  destruct (ps_triggered s || pi_shutdown it).
  { intros [= <- <-]. exists 0%nat. rewrite Nat.add_0_r. by split_and!; [lia|..]. }
  intros E. destruct (IH (parent_iter config it s) (S k)) as (j & Hle & Hj & Hb); [|done|].
  - unfold parent_iter. cbn [ps_notes]. by rewrite Hn, notify_silent, heartbeat.
  - exists (S j). rewrite <- Nat.add_succ_comm. cbn [length].
    split_and!; [lia|done|]. intros H. by rewrite (Hb H).
Qed.

(** So does the parent of the privilege-separated mode, once its handlers and
    its read timeout are set up; it announces the end before it waits for its
    workers. *)
Theorem parent_notifies config penv iters w s log st :
  run_parent_loop config penv iters w = (s, log, st) →
  (∃ e, st = Some (Err e) ∧ ps_notes s = []) ∨
  ∃ turns stopping, (turns ≤ length iters)%nat ∧ ps_notes s = silent config (protocol turns stopping) ∧
    (st ≠ None → stopping = true) ∧ (stopping = false → turns = length iters).
Proof.
  unfold run_parent_loop. destruct (pe_handlers penv) as [[]|e]; [|intros [= <- <- <-]; left; by eexists].
  destruct (pe_set_read_timeout penv) as [[]|e]; [intros Hr; right|intros [= <- <- <-]; left; by eexists].
  destruct (parent_loop config iters _) as [s1 b] eqn:E.
  apply (parent_loop_notes config iters _ _ _ [Ready] 0) in E as (j & Hle & Hj & Hb);
    [|unfold notify, silent; cbn; by destruct (enable_systemd _)].
  destruct b.
  - exists j, true. split_and!; [done| |done|done].
    destruct (pe_capture_end penv); [destruct (pe_crypto_end penv)|]; injection Hr as <- <- <-;
      cbn [ps_notes]; by rewrite Hj, notify_silent, <- app_assoc.
  - injection Hr as <- <- <-. exists j, false. split_and!; [done| |done|by intros _; apply Hb].
    rewrite Hj. unfold protocol. by rewrite app_nil_r.
Qed.
End order.

(** ** Witness *)

#[local] Existing Instance sample_rmp.
#[local] Existing Instance sorted_hash_iter.

(** A packet with systemd switched on; the loop goes on. *)
Lemma run_notifies_witness :
  let '(s, st) := run sample_config [sample_run_iter] no_faults sample_world small_limiter in
  (∃ e, st = Some (Err e) ∧ rs_notes s = []) ∨
  ∃ turns, rs_notes s = silent sample_config (protocol turns (bool_decide (st ≠ None))) ∧
    match st with
    | None => turns = length [sample_run_iter]
    | Some r => r = Ok () ∧ ∃ it, [sample_run_iter] !! turns = Some it ∧ ri_shutdown it = true
    end.
Proof.
  pose proof (run_notifies sample_config [sample_run_iter] no_faults sample_world small_limiter) as H.
  destruct (run sample_config [sample_run_iter] no_faults sample_world small_limiter) as [s st].
  apply H. reflexivity.
Defined.
