(* ===== verification/Fwknoxd.v ===== *)
(** * fwknoxd: start-up, the worker processes and the whole daemon

    Models the body of the forks in crates/fwknox-daemon/src/privsep_run.rs
    ([run] and [run_parent_after_capture_fork]) and [real_main] of
    crates/fwknox-daemon/src/bin/fwknoxd.rs, and composes them with the loops:
    what the workers do is a function of what reaches them, and the theorems
    follow a datagram from the socket to the firewall through all three
    processes. Closing inherited descriptors has no effect in the model: each
    process is given only the sockets it uses. *)

From S2P Require Import Prelude RustStd Net Lru Proto Instances Packet Persist Replay Config RateLimit.
From S2P Require Import Firewall Capture Privsep Sandbox Daemon DaemonRun.

(** ** privsep_run.rs: the children *)

(** How far a child got: still in its loop, exited with a code, aborted, or
    killed by a signal it does not handle. *)
Inductive child_status := ChildRunning | ChildExit (code : Z) | ChildAborted | ChildKilled.

(** What a child starts from: the outcome of installing its signal handlers,
    the process state it inherits, and the outcome of setting its timeout. *)
Record ChildEnv {P : Type} := {
  ch_handlers : result io_error unit;
  ch_process : P;
  ch_set_read_timeout : result io_error unit;
}.
Arguments ChildEnv : clear implicits.

Section children.
Context `{N : IpNetOps} `{R : Ring} `{M : Rmp SpaPayload} `{LT : LruCache SourceKey TokenBucket}
  `{RC : Rmp CaptureMsg} `{RY : Rmp CryptoMsg} {P : Type} `{S : !SandboxSys P}.

Definition capture_child (env : ChildEnv P) (rl : RateLimiter) (iters : list CaptureIter)
  : list CaptureMsg * child_status :=
  match ch_handlers env with
  | Err _ => ([], ChildExit 1)
  | Ok _ =>
      match apply_worker_sandbox (ch_process env) with
      | (_, Err _) => ([], ChildExit 1)
      | (_, Ok _) =>
          let '(_, sent, st) := run_capture_worker (ch_set_read_timeout env) rl iters in
          (sent, match st with
                 | None => ChildRunning
                 | Some (Err _) => ChildExit 1
                 | Some (Ok _) => ChildExit 0
                 end)
      end
  end.

(** The closure handed to [run_crypto_worker]; it cannot panic. *)
Definition crypto_validate (config : DaemonConfig) (clock : option Z) (msg : CaptureMsg)
  : option CryptoMsg := Some (validate_capture_msg msg config clock).

Definition crypto_child (config : DaemonConfig) (env : ChildEnv P) (iters : list CryptoIter)
  : list CryptoMsg * child_status :=
  match ch_handlers env with
  | Err _ => ([], ChildExit 1)
  | Ok _ =>
      match apply_worker_sandbox (ch_process env) with
      | (_, Err _) => ([], ChildExit 1)
      | (_, Ok _) =>
          let '(sent, st) :=
            run_crypto_worker (install_worker_panic_hook PanicUnwinds) (ch_set_read_timeout env)
              (crypto_validate config) iters in
          (sent, match st with
                 | None => ChildRunning
                 | Some (Returned (Err _)) => ChildExit 1
                 | Some (Returned (Ok _)) => ChildExit 0
                 | Some Aborted => ChildAborted
                 end)
      end
  end.
End children.

(** ** privsep_run.rs: the parent up to its loop *)

(** The outcomes of the two socket pairs and the two forks. *)
Record ForkEnv := {
  fe_pair1 : result io_error unit;
  fe_pair2 : result io_error unit;
  fe_fork1 : result Errno unit;
  fe_fork2 : result Errno unit;
}.

Section daemon.
Context `{N : IpNetOps} `{U : UnicodeTables} `{R : Ring} `{M : Rmp SpaPayload} `{L : LruCache Nonce Z} `{HI : HashIter}
  `{LT : LruCache SourceKey TokenBucket} `{HA : HashAlloc} {B : Type} `{F : !FirewallBackend B}
  {P : Type} `{S : !SandboxSys P}.

Definition fork_error (e : Errno) : DaemonError := DPrivsep (Syscall (lit "fork") e).

Definition run_parent_after_capture_fork (config : DaemonConfig) (fork2 : result Errno unit)
    (penv : ParentEnv) (iters : list ParentIter) (w : World B)
  : World B * option (result DaemonError unit) :=
  match fork2 with
  | Err e => (w, Some (Err (fork_error e)))
  | Ok _ => let '(s, _, st) := run_parent_loop config penv iters w in (ps_world s, st)
  end.

(** [privsep::run] as the parent sees it. *)
Definition privsep_run (config : DaemonConfig) (fenv : ForkEnv) (penv : ParentEnv)
    (iters : list ParentIter) (w : World B) : World B * option (result DaemonError unit) :=
  let fw := if flush_rules_at_init (daemon config) then (fw_flush (w_fw w)).1 else w_fw w in
  match fw_init fw with
  | (fw, Err e) => (with_fw w fw, Some (Err (DFirewall e)))
  | (fw, Ok _) =>
      let w := with_fw w fw in
      match make_socketpair (fe_pair1 fenv) with
      | Err e => (w, Some (Err (DPrivsep e)))
      | Ok _ =>
          match make_socketpair (fe_pair2 fenv) with
          | Err e => (w, Some (Err (DPrivsep e)))
          | Ok _ =>
              match fe_fork1 fenv with
              | Err e => (w, Some (Err (fork_error e)))
              | Ok _ => run_parent_after_capture_fork config (fe_fork2 fenv) penv iters w
              end
          end
      end
  end.

(** ** bin/fwknoxd.rs: [real_main] *)

Record MainEnv := {
  me_read : str → result str str;
  me_from_str : str → result str DaemonConfig;
  me_bind : result io_error unit;
  me_cache_fault : option IoError;
  me_is_root : bool;
  me_process : P;
  me_now : Instant;
  me_handlers : result io_error unit;
  me_forks : ForkEnv;
  me_parent : ParentEnv;
  me_parent_iters : list ParentIter;
  me_iters : list RunIter;
  me_exit_faults : WriteFaults;
}.

Inductive main_end :=
  | MainReturned (r : result DaemonError unit)
  | MainRunning
  | MainPanicked.

Definition main_of (st : option (result DaemonError unit)) : main_end :=
  match st with None => MainRunning | Some r => MainReturned r end.

(** The sandbox step, skipped when the configuration turns it off. *)
Definition sandbox_step (config : DaemonConfig) (is_root : bool) (p : P)
  : P * result DaemonError unit :=
  if enable_sandbox (daemon config) then
    let '(p, r) := apply_sandbox config is_root p in (p, map_err DSandbox r)
  else (p, Ok ()).

(** Steps 1 and 2: the configuration, the backend and the socket. *)
Definition main_config (env : MainEnv) (path : str) : result DaemonError DaemonConfig :=
  config ← map_err DConfig (load_daemon_config (me_read env) (me_from_str env) path);
  _ ← match firewall_backend (daemon config) with
      | Config.Nftables => Ok ()
      | Iptables =>
          Err (DFirewall (Unsupported (lit "iptables backend (Phase 3 ships only nftables)")))
      end;
  _ ← map_err DIo (me_bind env);
  Ok config.

(** Step 3, the cache: [None] when its construction panics. *)
Definition cache_step3 (env : MainEnv) (config : DaemonConfig) (fs : Fs)
  : option (result DaemonError (DaemonConfig * ReplayCache)) :=
  r ← open_replay (cache_path (replay config)) (max_entries (replay config)) (me_cache_fault env) fs;
  Some (replay ← map_err DReplay r; Ok (config, replay)).

Definition main_open (env : MainEnv) (path : str) (fs : Fs)
  : option (result DaemonError (DaemonConfig * ReplayCache)) :=
  match main_config env path with
  | Err e => Some (Err e)
  | Ok config => cache_step3 env config fs
  end.

(** [fw] is the backend as constructed, on the kernel the daemon finds. *)
Definition real_main (env : MainEnv) (path : str) (fs : Fs) (fw : B) : B * Fs * main_end :=
  match main_open env path fs with
  | None => (fw, fs, MainPanicked)
  | Some (Err e) => (fw, fs, MainReturned (Err e))
  | Some (Ok (config, replay)) =>
      match sandbox_step config (me_is_root env) (me_process env) with
      | (_, Err e) => (fw, fs, MainReturned (Err e))
      | (_, Ok _) =>
          match with_clock (rate_limit config) (me_now env) with
          | None => (fw, fs, MainPanicked)
          | Some limiter =>
              let w := {| w_replay := replay; w_fs := fs; w_fw := fw |} in
              if enable_privsep (daemon config) then
                let '(w, st) := privsep_run config (me_forks env) (me_parent env)
                                  (me_parent_iters env) w in
                (w_fw w, w_fs w, main_of st)
              else
                match me_handlers env with
                | Err e => (fw, fs, MainReturned (Err (DIo e)))
                | Ok _ =>
                    let '(s, st) := run config (me_iters env) (me_exit_faults env) w limiter in
                    (w_fw (rs_world s), w_fs (rs_world s), main_of st)
                end
          end
      end
  end.
End daemon.
Arguments MainEnv {_} _.

(** ** The workers *)

Section worker_properties.
Context `{N : IpNetOps} `{R : Ring} `{M : Rmp SpaPayload} `{LT : LruCache SourceKey TokenBucket}
  `{RC : Rmp CaptureMsg} `{RY : Rmp CryptoMsg} {P : Type} `{S : !SandboxSys P}.
Implicit Types (config : DaemonConfig) (env : ChildEnv P).

(** The kernel denied the process the whole file system and then took the
    filter with the worker's list of calls. *)
Definition sandboxed (p : P) : Prop :=
  ∃ p1 p2, ll_restrict_self [] p = (p1, Ok FullyEnforced) ∧
           seccomp_apply worker_syscall_list p1 = (p2, Ok ()).

Lemma worker_sandbox_cases p :
  sandboxed p ∨ ∃ p' e, apply_worker_sandbox p = (p', Err e).
Proof.
  destruct (apply_worker_sandbox p) as [p' [[]|e]] eqn:E; [left|by right; eexists _, _].
  destruct (worker_sandbox_ok _ _ E) as (p1 & ? & ?). by exists p1, p'.
Qed.

(** Every reply of the crypto worker is its validation of a message it
    received, at the clock of that moment. *)
Lemma crypto_loop_replies mode config iters r :
  r ∈ (crypto_loop mode (crypto_validate config) iters).1 →
  ∃ it m, it ∈ iters ∧ yi_recv it = Ok m ∧ r = validate_capture_msg m config (yi_clock it).
Proof.
  induction iters as [|it iters IH]; cbn [crypto_loop]; [by intros ?%elem_of_nil|].
  assert (r ∈ (crypto_loop mode (crypto_validate config) iters).1 →
    ∃ it0 m, it0 ∈ it :: iters ∧ yi_recv it0 = Ok m ∧ r = validate_capture_msg m config (yi_clock it0))
    as Hrest by (intros Hin; destruct (IH Hin) as (it0 & m & ? & ?); exists it0, m; set_solver).
  destruct (yi_shutdown it); [by intros ?%elem_of_nil|].
  destruct (yi_recv it) as [m|e] eqn:Hrv; cbn [crypto_validate].
  - destruct (send_msg _ _) as [d|e]; [|by intros ?%elem_of_nil].
    destruct (crypto_loop mode (crypto_validate config) iters) as [sent st]. cbn [fst] in *.
    rewrite elem_of_cons. intros [->|Hin]; [|auto]. exists it, m. set_solver.
  - destruct e as [| | |io| | |]; try by intros ?%elem_of_nil.
    destruct (is_tick io); [exact Hrest|by intros ?%elem_of_nil].
Qed.

Lemma crypto_child_replies config env iters r :
  r ∈ (crypto_child config env iters).1 →
  ∃ it m, it ∈ iters ∧ yi_recv it = Ok m ∧ r = validate_capture_msg m config (yi_clock it).
Proof.
  unfold crypto_child, run_crypto_worker.
  destruct (ch_handlers env) as [[]|]; [|by intros ?%elem_of_nil].
  destruct (apply_worker_sandbox _) as [p' [[]|]]; [|by intros ?%elem_of_nil].
  destruct (ch_set_read_timeout env) as [[]|]; [|by intros ?%elem_of_nil].
  pose proof (crypto_loop_replies (install_worker_panic_hook PanicUnwinds) config iters r) as H.
  by destruct (crypto_loop _ _ iters) as [sent st].
Qed.

(** Every message of the capture worker is a datagram it received, cut to
    its buffer. *)
Lemma capture_child_messages env rl iters m :
  m ∈ (capture_child env rl iters).1 → ∃ it, it ∈ iters ∧ forwards it m.
Proof.
  unfold capture_child, run_capture_worker.
  destruct (ch_handlers env) as [[]|]; [|by intros ?%elem_of_nil].
  destruct (apply_worker_sandbox _) as [p' [[]|]]; [|by intros ?%elem_of_nil].
  destruct (ch_set_read_timeout env) as [[]|]; [|by intros ?%elem_of_nil].
  destruct (capture_loop rl iters) as [[rl' sent] st] eqn:E. cbn [fst]. intros Hm.
  destruct (capture_forwards _ _ _ _ _ E) as (its & Hs & Hf).
  apply list_elem_of_lookup in Hm as [i Hi].
  destruct (Forall2_lookup_r _ _ _ _ _ Hf Hi) as (it & Hit & ?). exists it. split; [|done].
  eapply elem_of_submseteq; [by eapply list_elem_of_lookup_2|]. by apply sublist_submseteq.
Qed.

(** C39: no worker runs without its sandbox. Unless the kernel fully enforced
    the empty file-system policy and took the system-call filter, neither
    worker reads a packet: it sends nothing and exits with an error. *)
Theorem workers_sandboxed config env rl citers yiters :
  ¬ sandboxed (ch_process env) →
  capture_child env rl citers = ([], ChildExit 1) ∧
  crypto_child config env yiters = ([], ChildExit 1).
Proof.
  intros Hs. destruct (worker_sandbox_cases (ch_process env)) as [?|(p' & e & E)]; [done|].
  unfold capture_child, crypto_child. rewrite E. by destruct (ch_handlers env) as [[]|].
Qed.
End worker_properties.

(** ** The daemon *)

Section daemon_properties.
Context `{N : IpNetOps} `{U : UnicodeTables} `{R : Ring} `{M : Rmp SpaPayload}
  `{L : LruCache Nonce Z} `{LL : !LruLaws Nonce Z L} `{HL : HashIterLaws}
  `{LT : LruCache SourceKey TokenBucket} `{RC : Rmp CaptureMsg} `{RY : Rmp CryptoMsg} `{HA : HashAlloc}
  {B : Type} `{F : !FirewallBackend B} `{FL : !FirewallLaws B}
  {P : Type} `{S : !SandboxSys P}.
Implicit Types (config : DaemonConfig) (w : World B) (env : MainEnv P).

Lemma privsep_run_doors config fenv penv iters w w' st g :
  NoDup (stanza_name <$> access config) → Forall (from_validator config) iters →
  privsep_run config fenv penv iters w = (w', st) → g ∈ fw_doors (w_fw w') →
  g ∈ fw_doors (w_fw w) ∨ parent_justified config iters g.
Proof.
  intros Hnd Hv. unfold privsep_run.
  set (fw0 := if flush_rules_at_init (daemon config) then _ else _).
  assert (fw_doors fw0 ⊆ fw_doors (w_fw w)) as H0
    by (unfold fw0; destruct (flush_rules_at_init _); [apply fw_flush_doors|done]).
  pose proof (fw_init_doors fw0) as Hi. destruct (fw_init fw0) as [fw [[]|e]]; cbn [fst] in Hi.
  2: { intros [= <- <-]. cbn [with_fw w_fw]. set_solver. }
  assert (g ∈ fw_doors (w_fw (with_fw w fw)) →
    g ∈ fw_doors (w_fw w) ∨ parent_justified config iters g) as Hw by (cbn [with_fw w_fw]; set_solver).
  destruct (make_socketpair (fe_pair1 fenv)) as [?|e]; [|intros [= <- <-]; exact Hw].
  destruct (make_socketpair (fe_pair2 fenv)) as [?|e]; [|intros [= <- <-]; exact Hw].
  destruct (fe_fork1 fenv) as [[]|e]; [|intros [= <- <-]; exact Hw].
  unfold run_parent_after_capture_fork.
  destruct (fe_fork2 fenv) as [[]|e]; [|intros [= <- <-]; exact Hw].
  destruct (run_parent_loop config penv iters (with_fw w fw)) as [[s log] st1] eqn:E.
  intros [= <- <-] Hg. destruct (parent_run_doors _ _ _ _ _ _ _ g Hnd Hv E Hg); auto.
Qed.

(** A door a datagram on the socket has the right to. *)
Definition datagram_justified config (iters : list CaptureIter) (g : grant) : Prop :=
  ∃ it d ip clock s p src ports, it ∈ iters ∧ ci_recv it = Ok (d, ip) ∧
    authentic config clock {| cap_source_ip := ip; cap_data := take 1500 d |} s p ∧
    message p = Access src ports ∧ policy_allows s ip src ports ∧ g ∈ doors_of src ports.

(** End to end through three processes. When the crypto worker receives
    only messages the capture worker sent, and the parent only messages the
    crypto worker sent, every door open in the parent's firewall was open
    before or belongs to a datagram the capture worker read from the socket,
    whose first 1500 bytes authenticate under a stanza's key within the clock
    window and whose sender that stanza's policy allows. Any socket, fork,
    file or firewall call may fail on the way. *)
Theorem privsep_end_to_end config (cenv yenv : ChildEnv P) rl citers yiters fenv penv iters w w' st g :
  config_valid config →
  (∀ it m, it ∈ yiters → yi_recv it = Ok m → m ∈ (capture_child cenv rl citers).1) →
  (∀ it msg, it ∈ iters → pi_recv it = Ok msg → msg ∈ (crypto_child config yenv yiters).1) →
  privsep_run config fenv penv iters w = (w', st) → g ∈ fw_doors (w_fw w') →
  g ∈ fw_doors (w_fw w) ∨ datagram_justified config citers g.
Proof.
  intros (_ & Hnd & _) Hc Hy Hr Hg.
  assert (∀ it msg, it ∈ iters → pi_recv it = Ok msg →
    ∃ cit d ip clock, cit ∈ citers ∧ ci_recv cit = Ok (d, ip) ∧
      msg = validate_capture_msg (CapturePacket ip (take 1500 d)) config clock) as Hmsg.
  { intros it msg Hit Hrv.
    destruct (crypto_child_replies _ _ _ _ (Hy _ _ Hit Hrv)) as (yit & m & Hyit & Hm & ->).
    destruct (capture_child_messages _ _ _ _ (Hc _ _ Hyit Hm)) as (cit & Hcit & _ & d & ip & Hd & ->).
    by exists cit, d, ip, (yi_clock yit). }
  assert (Forall (from_validator config) iters) as Hf.
  { apply Forall_forall. intros it Hit msg Hrv.
    destruct (Hmsg _ _ Hit Hrv) as (cit & d & ip & clock & _ & _ & ->). by eexists _, _, _. }
  destruct (privsep_run_doors _ _ _ _ _ _ _ g Hnd Hf Hr Hg)
    as [?|(it & ip & data & clock & s & p & src & ports & Hit & Hrv & Ha & Hm & Hpol & Hgd)];
    [by left|right].
  destruct (Hmsg _ _ Hit Hrv) as (cit & d & ip' & clock' & Hcit & Hd & Heq).
  destruct (authentic_valid _ _ _ _ _ _ _ _ Hnd Ha Hm Hpol) as [name Hv]. rewrite Hv in Heq.
  destruct (validate_valid _ _ _ _ _ _ _ Hnd (eq_sym Heq)) as (s' & src' & ports' & _ & Ha' & Hm' & Hp').
  rewrite Hm in Hm'. injection Hm' as <- <-.
  by exists cit, d, ip', clock', s', p, src, ports.
Qed.

Lemma main_config_ok env path config :
  main_config env path = Ok config →
  load_daemon_config (me_read env) (me_from_str env) path = Ok config ∧
  firewall_backend (daemon config) = Config.Nftables.
Proof.
  unfold main_config. destruct (load_daemon_config (me_read env) (me_from_str env) path) as [c|]; [|done]. cbn [map_err mbind result_bind].
  destruct (firewall_backend _) eqn:Hb; [|done]. cbn [mbind result_bind].
  destruct (me_bind env); [|done]. cbn [map_err mbind result_bind]. by intros [= ->].
Qed.

Lemma main_open_ok env path fs config replay :
  main_open env path fs = Some (Ok (config, replay)) →
  load_daemon_config (me_read env) (me_from_str env) path = Ok config ∧
  firewall_backend (daemon config) = Config.Nftables.
Proof.
  unfold main_open, cache_step3. destruct (main_config env path) as [c|e] eqn:Hc; [|done].
  destruct (open_replay _ _ _ _) as [[r|e]|]; [|done|done]. intros [= -> _]. by apply main_config_ok in Hc.
Qed.

(** The tables the configuration asks for can be had: that of the replay
    cache, when it starts without a file, and those of the limiter. *)
Definition config_fits config (fs : Fs) : bool :=
  (bool_decide (is_Some (fs !! cache_path (replay config))) ||
   table_fits NonceTable (if max_entries (replay config) =? 0 then 1 else max_entries (replay config))) &&
  tables_fit (rate_limit config).

Lemma main_open_panics env path fs :
  main_open env path fs = None →
  ∃ config, load_daemon_config (me_read env) (me_from_str env) path = Ok config ∧ config_fits config fs = false.
Proof.
  unfold main_open, cache_step3. destruct (main_config env path) as [c|e] eqn:Hc; [|done].
  apply main_config_ok in Hc as [Hl _]. intros Hp. exists c. split; [done|]. revert Hp.
  unfold config_fits, open_replay, with_capacity. destruct (fs !! cache_path (replay c)); [done|].
  destruct (table_fits _ _); [done|]. intros _. by rewrite bool_decide_eq_false_2 by by intros [].
Qed.

Lemma load_daemon_config_valid read from_str path config :
  load_daemon_config read from_str path = Ok config → config_valid config.
Proof.
  unfold load_daemon_config. destruct (read path) as [text|]; [|done]. cbn [map_err mbind result_bind].
  destruct (from_str text) as [c|]; [|done]. cbn [map_err mbind result_bind].
  destruct (DaemonConfig_validate c) as [[]|] eqn:Hv; [|done]. intros [= <-]. by apply validate_iff.
Qed.

(** C4: the safety of the program as a whole. Whatever the files, the clock,
    the network and the kernel do, every door that is open when [real_main]
    ends, or while it still runs, was open before it started or belongs to a
    packet that authenticated, in the clock window and within policy, under
    a stanza of the configuration file that was loaded. In the
    privilege-separated mode, the default, the parent is taken alone here, and
    the messages it receives are assumed to be answers of the crypto worker's
    validation; that they are is shown of the three processes together
    ([Processes.system_doors_justified]). And [real_main] panics only on a
    configuration that asks for tables that cannot be allocated
    ([config_fits]), before it has touched the firewall or a file. *)
Theorem main_doors_justified env path fs fw fw' fs' st g :
  real_main env path fs fw = (fw', fs', st) →
  (∀ config, load_daemon_config (me_read env) (me_from_str env) path = Ok config →
     enable_privsep (daemon config) = true → Forall (from_validator config) (me_parent_iters env)) →
  (st = MainPanicked → fw' = fw ∧ fs' = fs ∧
     ∃ config, load_daemon_config (me_read env) (me_from_str env) path = Ok config ∧
       config_fits config fs = false) ∧
  (g ∈ fw_doors fw' → g ∈ fw_doors fw ∨
     ∃ config, load_daemon_config (me_read env) (me_from_str env) path = Ok config ∧
       if enable_privsep (daemon config) then parent_justified config (me_parent_iters env) g
       else justified config (me_iters env) g).
Proof.
  intros Hr Hv. unfold real_main in Hr.
  destruct (main_open env path fs) as [[[config replay]|e]|] eqn:Ho.
  2: { injection Hr as <- <- <-. split; [done|by left]. }
  2: { injection Hr as <- <- <-. apply main_open_panics in Ho. auto. }
  apply main_open_ok in Ho as [Ho _]. pose proof (load_daemon_config_valid _ _ _ _ Ho) as Hcv.
  pose proof Hcv as (_ & Hnd & _).
  destruct (sandbox_step config _ _) as [p [[]|e]]; [|injection Hr as <- <- <-; by split; [|left]].
  destruct (with_clock (rate_limit config) (me_now env)) as [rl|] eqn:Hrl.
  2: { injection Hr as <- <- <-. split; [|by left]. intros _. split_and!; [done..|]. exists config. split; [done|].
       assert (tables_fit (rate_limit config) = false) as Hf; [|unfold config_fits; by rewrite Hf, andb_false_r].
       apply (with_clock_panics (rate_limit config) (me_now env)); [|done]. by destruct Hcv as (_ & _ & _ & _ & _ & _ & ?). }
  destruct (enable_privsep (daemon config)) eqn:Hps.
  - destruct (privsep_run config _ _ _ _) as [w st1] eqn:E. injection Hr as <- <- <-.
    split; [by destruct st1|]. intros Hg.
    destruct (privsep_run_doors _ _ _ _ _ _ _ g Hnd (Hv _ Ho Hps) E Hg); [by left|right].
    exists config. by rewrite Hps.
  - destruct (me_handlers env) as [[]|e]; [|injection Hr as <- <- <-; by split; [|left]].
    destruct (run config _ _ _ rl) as [s st1] eqn:E. injection Hr as <- <- <-.
    split; [by destruct st1|]. intros Hg.
    destruct (run_doors _ _ _ _ _ _ _ g Hnd E Hg); [by left|right]. exists config. by rewrite Hps.
Qed.

(** C40: a daemon started as root with its sandbox enabled never serves a
    packet: whatever the configuration file says otherwise, [real_main]
    returns an error before it touches the firewall or the replay file,
    because the capability drop makes the privilege drop fail (or it has
    already panicked, because the table of the replay cache does not fit). *)
Theorem root_daemon_never_starts `{SL : !SandboxLaws P} env path fs fw config :
  load_daemon_config (me_read env) (me_from_str env) path = Ok config →
  enable_sandbox (daemon config) = true → me_is_root env = true →
  (∃ e, real_main env path fs fw = (fw, fs, MainReturned (Err e))) ∨
  (real_main env path fs fw = (fw, fs, MainPanicked) ∧ config_fits config fs = false).
Proof.
  intros Hl Hs Hroot. unfold real_main.
  destruct (main_open env path fs) as [[[config' replay]|e]|] eqn:Ho; [left|left; by eexists|right].
  2: { apply main_open_panics in Ho as (config' & Hl' & Hf). split; [done|]. congruence. }
  apply main_open_ok in Ho as [Ho _]. rewrite Hl in Ho. injection Ho as <-.
  unfold sandbox_step. rewrite Hs, Hroot. unfold apply_sandbox.
  destruct (sandbox_apply_no_setgid (daemon_sandbox_config config true)
    {| target_user := run_user (daemon config); target_group := run_group (daemon config) |}
    (me_process env)) as [e He].
  - done.
  - cbn. intros Hin%list_elem_of_singleton. discriminate Hin.
  - destruct (sandbox_apply _ _) as [p r]. cbn [snd] in He. subst r. by eexists.
Qed.
End daemon_properties.

(** ** Witnesses *)

#[local] Existing Instance sample_rmp.
#[local] Existing Instance sorted_hash_iter.
#[local] Existing Instance sorted_hash_iter_laws.

Definition accepting_rmp {A} : Rmp A := {| rmp_to_vec _ := Ok [0]; rmp_from_slice _ := Err [] |}.
#[local] Instance sample_capture_rmp : Rmp CaptureMsg := accepting_rmp.
#[local] Instance sample_crypto_rmp : Rmp CryptoMsg := accepting_rmp.

Definition sample_child : ChildEnv (list Z) :=
  {| ch_handlers := Ok (); ch_process := [CAP_NET_ADMIN]; ch_set_read_timeout := Ok () |}.
Definition sample_datagram : CaptureIter := {|
  ci_shutdown := false; ci_recv := Ok (stanza_wire, V4 [192; 168; 1; 5]);
  ci_reset_now := 0; ci_now := 7; ci_send := Ok () |}.
Definition sample_crypto_iter : CryptoIter := {|
  yi_shutdown := false; yi_recv := Ok (CapturePacket (V4 [192; 168; 1; 5]) stanza_wire);
  yi_clock := Some 1700000005; yi_send := Ok () |}.
Definition sample_forks : ForkEnv :=
  {| fe_pair1 := Ok (); fe_pair2 := Ok (); fe_fork1 := Ok (); fe_fork2 := Ok () |}.

(** A kernel that enforces the ruleset only in part. *)
Lemma workers_sandboxed_witness :
  @capture_child _ _ _ (process_on PartiallyEnforced) sample_child small_limiter [sample_datagram] =
    ([], ChildExit 1).
Proof.
  apply (@workers_sandboxed _ _ _ _ _ _ _ (process_on PartiallyEnforced) sample_config sample_child
    small_limiter [sample_datagram] [sample_crypto_iter]).
  intros (p1 & p2 & [= _ E] & _).
Defined.

Lemma privsep_end_to_end_witness :
  sample_door ∈ fw_doors (w_fw (privsep_run sample_config sample_forks sample_parent_env [request_iter]
                                  sample_world).1) ∧
  (sample_door ∈ fw_doors (w_fw sample_world) ∨
   datagram_justified sample_config [sample_datagram] sample_door).
Proof.
  assert (sample_door ∈ fw_doors (w_fw (privsep_run sample_config sample_forks sample_parent_env
    [request_iter] sample_world).1)) as Hg by (apply (bool_decide_unpack _); vm_compute; exact I).
  split; [exact Hg|].
  apply (privsep_end_to_end sample_config sample_child sample_child small_limiter
    [sample_datagram] [sample_crypto_iter] sample_forks sample_parent_env [request_iter] sample_world
    (privsep_run sample_config sample_forks sample_parent_env [request_iter] sample_world).1
    (privsep_run sample_config sample_forks sample_parent_env [request_iter] sample_world).2
    sample_door).
  - apply sample_config_ok.
  - intros it m ->%list_elem_of_singleton Hm.
    assert ((capture_child sample_child small_limiter [sample_datagram]).1 =
      [CapturePacket (V4 [192; 168; 1; 5]) stanza_wire]) as -> by (vm_compute; reflexivity).
    apply list_elem_of_singleton.
    exact (f_equal (λ r, match r with Ok m => m | Err _ => m end) (eq_sym Hm)).
  - intros it msg ->%list_elem_of_singleton Hm.
    assert ((crypto_child sample_config sample_child [sample_crypto_iter]).1 =
      [validate_capture_msg (CapturePacket (V4 [192; 168; 1; 5]) stanza_wire) sample_config
         (Some 1700000005)]) as -> by (vm_compute; reflexivity).
    apply list_elem_of_singleton.
    exact (f_equal (λ r, match r with Ok m => m | Err _ => msg end) (eq_sym Hm)).
  - apply surjective_pairing.
  - exact Hg.
Defined.

#[local] Existing Instance million_entries.

(** A start with the sample configuration; [root] says who starts it. *)
Definition sample_main (root : bool) : MainEnv (list Z) := {|
  me_read := λ _, Ok []; me_from_str := λ _, Ok sample_config; me_bind := Ok ();
  me_cache_fault := None; me_is_root := root; me_process := [CAP_SETGID; CAP_SETUID; CAP_NET_ADMIN];
  me_now := 0; me_handlers := Ok (); me_forks := sample_forks; me_parent := sample_parent_env;
  me_parent_iters := [request_iter]; me_iters := []; me_exit_faults := no_faults |}.

Lemma main_doors_justified_witness :
  sample_door ∈ fw_doors (real_main (sample_main false) (lit "f") ∅ ready_nft).1.1 ∧
  ∃ config, load_daemon_config (me_read (sample_main false)) (me_from_str (sample_main false)) (lit "f") = Ok config ∧
    parent_justified config [request_iter] sample_door.
Proof.
  assert (sample_door ∈ fw_doors (real_main (sample_main false) (lit "f") ∅ ready_nft).1.1) as Hg
    by (apply (bool_decide_unpack _); vm_compute; exact I).
  assert (load_daemon_config (me_read (sample_main false)) (me_from_str (sample_main false)) (lit "f")
          = Ok sample_config) as E by (vm_compute; reflexivity).
  split; [exact Hg|].
  destruct (proj2 (main_doors_justified (sample_main false) (lit "f") ∅ ready_nft
    (real_main (sample_main false) (lit "f") ∅ ready_nft).1.1
    (real_main (sample_main false) (lit "f") ∅ ready_nft).1.2
    (real_main (sample_main false) (lit "f") ∅ ready_nft).2 sample_door
    ltac:(rewrite <- surjective_pairing; apply surjective_pairing)
    ltac:(intros config Hl _; rewrite E in Hl; injection Hl as <-; constructor; [|constructor]; intros msg Hm;
      exists (V4 [192; 168; 1; 5]), stanza_wire, (Some 1700000005);
      exact (f_equal (λ r, match r with Ok m => m | Err _ => msg end) (eq_sym Hm)))) Hg) as [H|(config & Hl & H)].
  - exfalso. revert H. apply (bool_decide_unpack _). vm_compute. exact I.
  - exists config. split; [exact Hl|]. rewrite E in Hl. injection Hl as <-. exact H.
Defined.

(** The sample configuration has the default daemon section. *)
Lemma root_daemon_never_starts_witness :
  ∃ e, real_main (sample_main true) (lit "f") ∅ ready_nft = (ready_nft, ∅, MainReturned (Err e)).
Proof.
  destruct (root_daemon_never_starts (sample_main true) (lit "f") ∅ ready_nft sample_config) as [H|[_ H]].
  - vm_compute. reflexivity.
  - reflexivity.
  - reflexivity.
  - exact H.
  - vm_compute in H. discriminate H.
Defined.
