(* ===== verification/Processes.v ===== *)
(** * The three processes together

    In privilege-separated mode crates/fwknox-daemon/src/privsep_run.rs runs
    the loops of crates/fwknox-privsep/src/workers.rs and of the parent as
    three processes connected by two pairs of datagram sockets. Here they are
    one transition system, in which every interleaving of the processes is a
    run. A process can be overtaken between any two of its steps, which are:
    the look at its shutdown flag at the top of its loop; the receive; a
    [send], which may block; in the parent, the handling of a message it has
    received; and the wait for a worker. What lies between, such as the
    limiter or the validation of a packet, touches nothing that another
    process sees.

    Beside these moves of the processes there are signals and kills, which
    come from outside: [SIGTERM] and [SIGINT] set flags, a kill ends a worker
    wherever it is, as [SIGKILL] and the [SIGSYS] of the system call filter do.

    The sockets are those of unix(7): datagrams arrive whole and in order.
    Those not yet received are charged to the send buffer of their socket, and
    a [send] blocks while the buffer is used up, until the receiver has read
    or is gone. A signal does not end a blocked [send]: the handlers of
    signal-hook are installed with [SA_RESTART]. A receive always returns, for
    each loop sets a read timeout before it starts. *)

From stdpp Require Import relations.
From S2P Require Import Prelude RustStd Net Lru Proto Instances Packet Persist Replay Config RateLimit.
From S2P Require Import Firewall Capture Privsep Sandbox Daemon DaemonRun Fwknoxd.

(** ** The states of the processes *)

(** A worker is at the top of its loop, past the look at its flag and about to
    receive, in [send] inside the iteration [it], or has ended. *)
Inductive capture_proc `{L : LruCache SourceKey TokenBucket} :=
  | CaptureLoop (rl : RateLimiter)
  | CaptureRecv (rl : RateLimiter)
  | CaptureSend (rl : RateLimiter) (it : CaptureIter)
  | CaptureGone (st : child_status).

Inductive crypto_proc :=
  | CryptoLoop
  | CryptoRecv
  | CryptoSend (it : CryptoIter)
  | CryptoGone (st : child_status).

(** The parent is at the top of its loop, past the look at its flag, past the
    receive of the iteration [it], in [terminate_and_wait] for one of the
    workers, or has returned from [run_parent_loop]. *)
Inductive parent_proc `{L : LruCache Nonce Z} {B : Type} :=
  | ParentLoop (p : ParentState (B := B))
  | ParentRecv (p : ParentState (B := B))
  | ParentHandle (p : ParentState (B := B)) (it : ParentIter)
  | ParentWaitCapture (p : ParentState (B := B))
  | ParentWaitCrypto (p : ParentState (B := B))
  | ParentDone (p : ParentState (B := B)).

Section system.
Context `{N : IpNetOps} `{R : Ring} `{M : Rmp SpaPayload} `{L : LruCache Nonce Z} `{HI : HashIter}
  `{LT : LruCache SourceKey TokenBucket} `{RC : Rmp CaptureMsg} `{RY : Rmp CryptoMsg}
  {B : Type} `{F : !FirewallBackend B}.

(** [y_term] and [c_term] are the shutdown flags of the workers, [p_flag] the
    one of the parent. The last three fields are history: the datagrams the
    capture worker read, the messages it sent, and those the parent handled. *)
Record system := {
  capture : capture_proc; c_term : bool;
  link1 : list bytes;
  crypto : crypto_proc; y_term : bool;
  link2 : list bytes;
  parent : parent_proc (B := B); p_flag : bool;
  seen : list (bytes * IpAddr);
  forwarded : list CaptureMsg;
  handled : list CryptoMsg;
}.
Implicit Types s : system.

Definition crypto_gone s : bool := match crypto s with CryptoGone _ => true | _ => false end.
Definition capture_gone s : bool := match capture s with CaptureGone _ => true | _ => false end.
Definition parent_state s : ParentState :=
  match parent s with
  | ParentLoop p | ParentRecv p | ParentHandle p _ | ParentWaitCapture p | ParentWaitCrypto p | ParentDone p => p
  end.

Context (config : DaemonConfig).
(** What a datagram costs of the send buffer, the size of that buffer, and
    whether the parent could register its handler for [SIGCHLD]. *)
Context (cost : bytes → nat) (sndbuf : nat) (sigchld : bool).

Definition used (q : list bytes) : nat := sum_list_with cost q.

(** ** What a process does to the system *)

Definition capture_status (st : worker_status) : child_status :=
  match st with
  | None => ChildRunning
  | Some (Err _) => ChildExit 1
  | Some (Ok _) => ChildExit 0
  end.
Definition crypto_status (st : option worker_end) : child_status :=
  match st with
  | None => ChildRunning
  | Some (Returned (Err _)) => ChildExit 1
  | Some (Returned (Ok _)) => ChildExit 0
  | Some Aborted => ChildAborted
  end.

Definition capture_next (rl : RateLimiter) (st : worker_status) : capture_proc :=
  match st with None => CaptureLoop rl | Some _ => CaptureGone (capture_status st) end.
Definition crypto_next (st : option worker_end) : crypto_proc :=
  match st with None => CryptoLoop | Some _ => CryptoGone (crypto_status st) end.

Definition received (it : CaptureIter) : list (bytes * IpAddr) :=
  match ci_recv it with Ok r => [r] | Err _ => [] end.

(** The capture worker is in [c]; it read [rs] and sent the messages [ms] as
    the datagrams [ds]. The end of a worker sends [SIGCHLD] to the parent; its end
    and the delivery of the signal are one event here. *)
Definition after_capture s (c : capture_proc) rs ms ds : system := {|
  capture := c; c_term := c_term s; link1 := link1 s ++ ds;
  crypto := crypto s; y_term := y_term s; link2 := link2 s; parent := parent s;
  p_flag := p_flag s || (sigchld && match c with CaptureGone _ => true | _ => false end);
  seen := seen s ++ rs; forwarded := forwarded s ++ ms; handled := handled s |}.

(** The crypto worker is in [y]; [l1] remains of the first queue, and it sent
    the datagrams [ds]. *)
Definition after_crypto s (y : crypto_proc) l1 ds : system := {|
  capture := capture s; c_term := c_term s; link1 := l1;
  crypto := y; y_term := y_term s; link2 := link2 s ++ ds; parent := parent s;
  p_flag := p_flag s || (sigchld && match y with CryptoGone _ => true | _ => false end);
  seen := seen s; forwarded := forwarded s; handled := handled s |}.

(** The parent is in [p]; [l2] remains of the second queue, [c] and [y] say
    whether it signalled a worker, and it handled the messages [ms]. *)
Definition after_parent s (p : parent_proc) l2 (c y : bool) ms : system := {|
  capture := capture s; c_term := c_term s || c; link1 := link1 s;
  crypto := crypto s; y_term := y_term s || y; link2 := l2; parent := p; p_flag := p_flag s;
  seen := seen s; forwarded := forwarded s; handled := handled s ++ ms |}.

(** A termination signal reaches some of the processes, as when it is sent to
    their group; [c], [y] and [p] say which ones. *)
Definition signalled s (c y p : bool) : system := {|
  capture := capture s; c_term := c_term s || c; link1 := link1 s; crypto := crypto s;
  y_term := y_term s || y; link2 := link2 s; parent := parent s; p_flag := p_flag s || p;
  seen := seen s; forwarded := forwarded s; handled := handled s |}.

(** ** What an iteration sees of the system *)

(** A receive takes the first datagram of the queue, or fails with some error
    of the call: a timeout, an interruption, anything. *)
Definition takes {A : Type} `{RA : Rmp A} (q q' : list bytes) (r : result PrivsepError A) : Prop :=
  (∃ d sys, q = d :: q' ∧ ipc_delivers d sys ∧ r = recv_msg (Ok sys)) ∨
  (q = q' ∧ ∃ e, r = Err (PIo e)).

(** The iterations of a process that has found its flag unset. *)
Definition capture_input (it : CaptureIter) : Prop :=
  ci_shutdown it = false ∧ ci_send it = Ok () ∧
  ∀ d ip, ci_recv it = Ok (d, ip) → is_bytes d ∧ ip_wf ip.

Definition crypto_input s (it : CryptoIter) (l1 : list bytes) : Prop :=
  yi_shutdown it = false ∧ yi_send it = Ok () ∧ takes (link1 s) l1 (yi_recv it).

Definition parent_input s (it : ParentIter) (l2 : list bytes) : Prop :=
  pi_shutdown it = false ∧ takes (link2 s) l2 (pi_recv it).

(** The message the parent handles in an iteration, and the one it has
    received and not yet handled. *)
Definition handles (it : ParentIter) : list CryptoMsg :=
  match pi_recv it with Ok msg => [msg] | Err _ => [] end.
Definition in_hand s : list CryptoMsg :=
  match parent s with ParentHandle _ it => handles it | _ => [] end.

Definition refused (it : CaptureIter) (e : io_error) : CaptureIter := {|
  ci_shutdown := ci_shutdown it; ci_recv := ci_recv it; ci_reset_now := ci_reset_now it;
  ci_now := ci_now it; ci_send := Err e |}.

(** What the parent does between its loop and the first signal. *)
Definition stopping (p : ParentState (B := B)) : ParentState := {|
  ps_world := ps_world p; ps_tick := ps_tick p; ps_triggered := ps_triggered p;
  ps_notes := notify config Stopping (ps_notes p) |}.

(** The crypto worker as [crypto_child] runs it. *)
Definition crypto_turn (it : CryptoIter) : list CryptoMsg * option worker_end :=
  crypto_loop (install_worker_panic_hook PanicUnwinds) (crypto_validate config) [it].

(** ** The steps *)

(** What the processes do by themselves. *)
Inductive move : system → system → Prop :=
  (* the capture worker looks at its flag *)
  | move_capture_check s rl :
      capture s = CaptureLoop rl →
      move s (after_capture s (if c_term s then capture_next rl (Some (Ok ())) else CaptureRecv rl) [] [] [])
  (* it receives, and sends nothing in this iteration *)
  | move_capture s rl it rl' st :
      capture s = CaptureRecv rl → capture_input it → capture_loop rl [it] = (rl', [], st) →
      move s (after_capture s (capture_next rl' st) (received it) [] [])
  (* or reaches the call of send *)
  | move_capture_begin s rl it rl' msg :
      capture s = CaptureRecv rl → capture_input it → capture_loop rl [it] = (rl', [msg], None) →
      move s (after_capture s (CaptureSend rl it) (received it) [] [])
  (* the call returns *)
  | move_capture_sent s rl it rl' msg d :
      capture s = CaptureSend rl it → capture_loop rl [it] = (rl', [msg], None) →
      send_msg msg (Ok ()) = Ok d → (used (link1 s) < sndbuf)%nat → crypto_gone s = false →
      move s (after_capture s (CaptureLoop rl') [] [msg] [d])
  | move_capture_refused s rl it e rl' st :
      capture s = CaptureSend rl it → crypto_gone s = true →
      capture_loop rl [refused it e] = (rl', [], Some st) →
      move s (after_capture s (capture_next rl' (Some st)) [] [] [])
  (* the same for the crypto worker, whose receiver outlives it *)
  | move_crypto_check s :
      crypto s = CryptoLoop →
      move s (after_crypto s (if y_term s then crypto_next (Some (Returned (Ok ()))) else CryptoRecv) (link1 s) [])
  | move_crypto s it l1 st :
      crypto s = CryptoRecv → crypto_input s it l1 → crypto_turn it = ([], st) →
      move s (after_crypto s (crypto_next st) l1 [])
  | move_crypto_begin s it l1 reply :
      crypto s = CryptoRecv → crypto_input s it l1 → crypto_turn it = ([reply], None) →
      move s (after_crypto s (CryptoSend it) l1 [])
  | move_crypto_sent s it reply d :
      crypto s = CryptoSend it → crypto_turn it = ([reply], None) →
      send_msg reply (Ok ()) = Ok d → (used (link2 s) < sndbuf)%nat →
      move s (after_crypto s CryptoLoop (link1 s) [d])
  (* the parent looks at its flag; when the loop ends, it signals the first worker *)
  | move_parent_check s p stop :
      parent s = ParentLoop p → stop = ps_triggered p || p_flag s →
      move s (after_parent s (if stop then ParentWaitCapture (stopping p) else ParentRecv p) (link2 s) stop false [])
  (* it receives *)
  | move_parent_recv s p it l2 :
      parent s = ParentRecv p → parent_input s it l2 →
      move s (after_parent s (ParentHandle p it) l2 false false [])
  (* and does the rest of the iteration *)
  | move_parent_handle s p it :
      parent s = ParentHandle p it →
      move s (after_parent s (ParentLoop (parent_iter config it p)) (link2 s) false false (handles it))
  (* a wait is over *)
  | move_parent_captured s p :
      parent s = ParentWaitCapture p → capture_gone s = true →
      move s (after_parent s (ParentWaitCrypto p) (link2 s) false true [])
  | move_parent_done s p faults :
      parent s = ParentWaitCrypto p → crypto_gone s = true →
      move s (after_parent s (ParentDone {|
        ps_world := shutdown_steps config faults (ps_world p); ps_tick := ps_tick p;
        ps_triggered := ps_triggered p; ps_notes := ps_notes p |})
        (link2 s) false false []).

(** [SIGTERM] or [SIGINT], to one process or to several. *)
Inductive signal : system → system → Prop :=
  | signal_flags s c y p :
      (c && negb (c_term s)) || (y && negb (y_term s)) || (p && negb (p_flag s)) = true →
      signal s (signalled s c y p).

(** A worker is killed: it ends wherever it is. *)
Inductive kill : system → system → Prop :=
  | kill_capture s :
      capture_gone s = false → kill s (after_capture s (CaptureGone ChildKilled) [] [] [])
  | kill_crypto s :
      crypto_gone s = false → kill s (after_crypto s (CryptoGone ChildKilled) (link1 s) []).

Definition step s s' : Prop := move s s' ∨ signal s s' ∨ kill s s'.

(** The steps in which no worker is killed. *)
Definition unkilled s s' : Prop := move s s' ∨ signal s s'.

(** Both workers forked and about to enter their loops, and so is the parent,
    whose handlers are installed. *)
Definition started (w : World B) (rl : RateLimiter) : system := {|
  capture := CaptureLoop rl; c_term := false; link1 := [];
  crypto := CryptoLoop; y_term := false; link2 := [];
  parent := ParentLoop {| ps_world := w; ps_tick := 0; ps_triggered := false;
                          ps_notes := notify config Ready [] |};
  p_flag := false; seen := []; forwarded := []; handled := [] |}.
End system.

(** A datagram as the kernel delivers it. *)
Lemma whole_delivered dg : ipc_delivers dg (len dg, bool_decide (MAX_IPC_MSG < len dg), dg).
Proof.
  split_and!; [done|done|]. cbn [snd]. destruct (decide (length dg ≤ Z.to_nat MAX_IPC_MSG)%nat).
  - by rewrite Nat.min_l, !take_ge by lia.
  - by rewrite Nat.min_r by lia.
Qed.

(** ** One iteration of a worker *)

Section turns.
Context `{N : IpNetOps} `{R : Ring} `{M : Rmp SpaPayload}
  `{LT : LruCache SourceKey TokenBucket} `{RC : Rmp CaptureMsg} `{RY : Rmp CryptoMsg}.
Implicit Types (config : DaemonConfig).

Lemma capture_turn_cases rl it rl' sent st :
  capture_loop rl [it] = (rl', sent, st) →
  sent = [] ∨ ∃ d ip dg, sent = [CapturePacket ip (take 1500 d)] ∧ st = None ∧
    ci_shutdown it = false ∧ ci_recv it = Ok (d, ip) ∧
    send_msg (CapturePacket ip (take 1500 d)) (ci_send it) = Ok dg.
Proof.
  cbn [capture_loop]. destruct (ci_shutdown it); [intros [= <- <- <-]; by left|].
  destruct (ci_recv it) as [[d ip]|e]; [|destruct (is_tick e); intros [= <- <- <-]; by left].
  destruct (check rl ip _ _) as [[rl1 [|reason]] log]; [|intros [= <- <- <-]; by left].
  unfold recv_from. destruct (send_msg _ _) as [dg|e] eqn:Hs; intros [= <- <- <-]; [right|by left].
  by exists d, ip, dg.
Qed.

(** A refused [send] ends the worker. *)
Lemma capture_turn_refused rl it e rl' msg :
  capture_loop rl [it] = (rl', [msg], None) →
  ∃ st, capture_loop rl [refused it e] = (rl', [], Some st).
Proof.
  cbn [capture_loop refused ci_shutdown ci_recv ci_reset_now ci_now ci_send].
  destruct (ci_shutdown it); [done|]. destruct (ci_recv it) as [[d ip]|io]; [|by destruct (is_tick io)].
  destruct (check rl ip _ _) as [[rl1 [|reason]] log]; [|done].
  destruct (send_msg _ (ci_send it)) as [dg|io]; [|done]. intros [= <- _]. unfold send_msg.
  destruct (rmp_to_vec _) as [bs|?]; cbn [map_err mbind result_bind]; [|by eexists].
  destruct (guard_err _ _) as [?|?]; cbn [mbind result_bind]; by eexists.
Qed.

(** A message is answered or the worker ends, and an error that is not one of
    the call ends it too. *)
Lemma crypto_turn_cases config it sent st :
  crypto_turn config it = (sent, st) →
  (sent = [] ∧ (st = None → yi_shutdown it = false ∧ ∃ e, yi_recv it = Err (PIo e))) ∨
  ∃ m d, sent = [validate_capture_msg m config (yi_clock it)] ∧ st = None ∧
    yi_shutdown it = false ∧ yi_recv it = Ok m ∧
    send_msg (validate_capture_msg m config (yi_clock it)) (yi_send it) = Ok d.
Proof.
  unfold crypto_turn. cbn [crypto_loop crypto_validate install_worker_panic_hook].
  destruct (yi_shutdown it); [intros [= <- <-]; by left|].
  destruct (yi_recv it) as [m|e] eqn:Hr.
  - destruct (send_msg _ _) as [d|e] eqn:Hs; intros [= <- <-]; [right|by left]. by exists m, d.
  - destruct e as [| | |io| | |]; try by (intros [= <- <-]; left).
    destruct (is_tick io); intros [= <- <-]; left; [|done]. split; [done|]. intros _. eauto.
Qed.

Lemma crypto_turn_message config it m :
  yi_shutdown it = false → yi_recv it = Ok m →
  (∃ r, crypto_turn config it = ([r], None)) ∨ ∃ st, crypto_turn config it = ([], Some st).
Proof.
  intros Hsd Hr. unfold crypto_turn. cbn [crypto_loop crypto_validate]. rewrite Hsd, Hr.
  destruct (send_msg _ _); eauto.
Qed.
End turns.

(** ** Safety *)

(** No value of the MessagePack format is empty. *)
Class RmpNonempty (A : Type) `{Rmp A} := rmp_nonempty (a : A) v : rmp_to_vec a = Ok v → v ≠ [].

Section safety.
Context `{N : IpNetOps} `{R : Ring} `{M : Rmp SpaPayload} `{ML : !RmpLaws SpaPayload}
  `{L : LruCache Nonce Z} `{LL : !LruLaws Nonce Z L} `{HL : HashIterLaws}
  `{LT : LruCache SourceKey TokenBucket}
  `{RC : Rmp CaptureMsg} `{CL : !RmpLaws CaptureMsg} `{CN : !RmpNonempty CaptureMsg}
  `{RY : Rmp CryptoMsg} `{YL : !RmpLaws CryptoMsg} `{YN : !RmpNonempty CryptoMsg}
  {B : Type} `{F : !FirewallBackend B} `{FL : !FirewallLaws B}.
Context (config : DaemonConfig) (Hnd : NoDup (stanza_name <$> access config))
  (cost : bytes → nat) (sndbuf : nat) (sigchld : bool).
Implicit Types (s : system (B := B)) (m : CaptureMsg) (r : CryptoMsg) (w : World B).

Abbreviation move := (move (B := B) config cost sndbuf sigchld).
Abbreviation step := (step (B := B) config cost sndbuf sigchld).

(** [d] is how the message [a] travels. *)
Definition sent_as {A : Type} `{Rmp A} `{Portable A} (a : A) (d : bytes) : Prop :=
  portable a ∧ send_msg a (Ok ()) = Ok d.

Definition answers m r : Prop := ∃ clock, r = validate_capture_msg m config clock.

Definition read_by_capture s m : Prop :=
  portable m ∧ ∃ d ip, (d, ip) ∈ seen s ∧ m = CapturePacket ip (take 1500 d).

(** The message a datagram becomes, and the one in a blocked [send]. *)
Definition cut (x : bytes * IpAddr) : CaptureMsg := CapturePacket x.2 (take 1500 x.1).
Definition in_send (c : capture_proc) : list CaptureMsg :=
  match c with CaptureSend rl it => (capture_loop rl [it]).1.2 | _ => [] end.

(** The doors a packet from [ip] has the right to. *)
Definition packet_opens (clock : option Z) (ip : IpAddr) (data : bytes) (g : grant) : Prop :=
  ∃ stanza p src ports,
    authentic config clock {| cap_source_ip := ip; cap_data := data |} stanza p ∧
    message p = Access src ports ∧ policy_allows stanza ip src ports ∧ g ∈ doors_of src ports.

(** The messages of the capture worker, in order, are those whose answers the
    parent has handled, has in hand, or is going to receive, and those on the
    way to the crypto worker; one that was lost with the crypto worker comes
    between. *)
Definition in_order s : Prop :=
  ∃ taken lost rest queued pending,
    forwarded s = taken ++ lost ++ rest ∧ Forall2 sent_as rest (link1 s) ∧
    (crypto_gone s = false → lost = []) ∧
    Forall2 answers taken (handled s ++ in_hand s ++ queued ++ pending) ∧
    Forall2 sent_as queued (link2 s) ∧
    match crypto s with
    | CryptoSend it => ∃ r d, pending = [r] ∧ crypto_turn config it = ([r], None) ∧ sent_as r d
    | _ => pending = []
    end.

Record system_inv w s : Prop := {
  inv_capture rl it : capture s = CaptureSend rl it →
    ∃ rl' m d, capture_loop rl [it] = (rl', [m], None) ∧ sent_as m d ∧ read_by_capture s m;
  inv_forwarded : Forall (read_by_capture s) (forwarded s);
  inv_seen : forwarded s ++ in_send (capture s) `sublist_of` cut <$> seen s;
  inv_order : in_order s;
  inv_doors g : g ∈ fw_doors (w_fw (ps_world (parent_state s))) →
    g ∈ fw_doors (w_fw w) ∨
    ∃ d ip clock, (d, ip) ∈ seen s ∧ packet_opens clock ip (take 1500 d) g;
}.

Lemma answer_portable m r : portable m → answers m r → portable r.
Proof using ML.
  destruct m as [ip data]. intros [Hip _] [clock ->]. unfold validate_capture_msg.
  pose proof (match_packet_spec data (access config)) as Hm.
  destruct (match_packet data (access config)) as [name p| |name e]; [|done|done].
  destruct (find_stanza config name) as [st|e]; [|done].
  destruct (validate_against_clock p _ _ _) as [[]|e]; [|done].
  destruct (check_policy st ip _ _) as [[src ports]|reason]; [|done].
  destruct Hm as (s & Hs & <- & Hp). split; [done|]. by eapply parsed_portable.
Qed.

(** A receiver gets the first message that was sent. *)
Lemma takes_sent {A : Type} `{RA : Rmp A} `{PA : Portable A} `{AL : !RmpLaws A} `{AN : !RmpNonempty A}
    (ms : list A) q q' rv :
  Forall2 sent_as ms q → takes q q' rv →
  (q' = q ∧ ∃ e, rv = Err (PIo e)) ∨
  ∃ a ms', ms = a :: ms' ∧ portable a ∧ Forall2 sent_as ms' q' ∧ rv = Ok a.
Proof.
  intros Hf [(d & sys & -> & Hd & ->)|[-> ?]]; [right|by left].
  apply Forall2_cons_inv_r in Hf as (a & ms' & [Hp Hs] & Hf & ->).
  exists a, ms'. split_and!; try done. rewrite (send_recv a d sys Hp Hs Hd), bool_decide_eq_false_2; [done|].
  unfold send_msg in Hs. inv_ok. subst. by eapply rmp_nonempty.
Qed.

Lemma parent_iter_opens it (p : ParentState) ip data clock g :
  pi_recv it = Ok (validate_capture_msg (CapturePacket ip data) config clock) →
  g ∈ fw_doors (w_fw (ps_world (parent_iter config it p))) →
  g ∈ fw_doors (w_fw (ps_world p)) ∨ packet_opens clock ip data g.
Proof using Hnd LL HL FL.
  intros Hr. unfold parent_iter. cbn [ps_world]. rewrite prune_tick_fw, Hr.
  destruct (handle_crypto_msg_doors config (pi_env it) (ps_world p)
    (validate_capture_msg (CapturePacket ip data) config clock))
    as [->|(name & ip' & pl & src & ports & st & rule & h & Hv & Hm & _ & _ & _ & _ & _ & _ & _ & _ & ->)];
    [by left|].
  rewrite elem_of_union, elem_of_list_to_set. intros [?|Hg]; [by left|right].
  destruct (validate_valid _ _ _ _ _ _ _ Hnd Hv) as (st1 & src1 & ports1 & _ & Ha & Hm1 & Hpol).
  rewrite Hm in Hm1. injection Hm1 as <- <-. by exists st1, pl, src, ports.
Qed.

Lemma read_more s s' m :
  (∀ x, x ∈ seen s → x ∈ seen s') → read_by_capture s m → read_by_capture s' m.
Proof. intros Hs (Hp & d & ip & Hin & ->). split; [done|]. eauto. Qed.

Lemma after_capture_inv w s c rs ms ds :
  let s' := after_capture sigchld s c rs ms ds in
  system_inv w s → Forall2 sent_as ms ds → Forall (read_by_capture s') ms →
  forwarded s ++ ms ++ in_send c `sublist_of` (cut <$> seen s) ++ (cut <$> rs) →
  (∀ rl it, c = CaptureSend rl it → ∃ rl' m d,
     capture_loop rl [it] = (rl', [m], None) ∧ sent_as m d ∧ read_by_capture s' m) →
  system_inv w s'.
Proof.
  intros s' [Hc Hf Hsub Ho Hd] Hms Hrd Hsub' Hsend.
  assert (∀ x, x ∈ seen s → x ∈ seen s') as Hseen by (unfold s'; cbn; set_solver).
  constructor; [exact Hsend| |cbn; by rewrite fmap_app, <- app_assoc| |].
  - cbn. apply Forall_app. split; [|done]. eapply Forall_impl; [exact Hf|]. intros m. by apply read_more.
  - destruct Ho as (taken & lost & rest & queued & pending & Ef & H1 & Hl & Ha & H2 & Hy).
    exists taken, lost, (rest ++ ms), queued, pending. cbn. split_and!; try done.
    + by rewrite Ef, <- !app_assoc.
    + by apply Forall2_app.
  - intros g Hg. destruct (Hd g Hg) as [?|(d & ip & clock & Hin & ?)]; [by left|right].
    exists d, ip, clock. split; [by apply Hseen|done].
Qed.

Lemma after_crypto_inv w s y l1 ds :
  system_inv w s → in_order (after_crypto sigchld s y l1 ds) →
  system_inv w (after_crypto sigchld s y l1 ds).
Proof. intros [Hc Hf Hsub Ho Hd] Ho'. by constructor. Qed.

(** The crypto worker ends at the top of its loop, or goes on. *)
Lemma crypto_check_order s y :
  in_order s → crypto s = CryptoLoop → (∀ it, y ≠ CryptoSend it) →
  in_order (after_crypto sigchld s y (link1 s) []).
Proof.
  intros (taken & lost & rest & queued & pending & Ef & H1 & Hl & Ha & H2 & Hy) Ey Hn. rewrite Ey in Hy. subst pending.
  exists taken, lost, rest, queued, []. cbn. rewrite !app_nil_r in *. split_and!; try done.
  - intros _. apply Hl. unfold crypto_gone. by rewrite Ey.
  - destruct y as [| |it|st]; try done. by destruct (Hn it).
Qed.

(** It takes a message, or none. *)
Lemma crypto_order s it l1 sent st :
  in_order s → crypto s = CryptoRecv → crypto_input s it l1 → crypto_turn config it = (sent, st) →
  in_order (after_crypto sigchld s (match sent with [] => crypto_next st | _ => CryptoSend it end) l1 []).
Proof using ML CL CN.
  intros (taken & lost & rest & queued & pending & Ef & H1 & Hl & Ha & H2 & Hy) Ey (Hsd & Hsend & Hin) Ht.
  rewrite Ey in Hy. subst pending. unfold crypto_gone in Hl. rewrite Ey in Hl. specialize (Hl eq_refl). subst lost.
  rewrite app_nil_r in Ha. cbn [app] in Ef.
  assert (in_order (after_crypto sigchld s (crypto_next st) (link1 s) []) ∧
    ∀ m rest', rest = m :: rest' → Forall2 sent_as rest' l1 → is_Some st →
      in_order (after_crypto sigchld s (crypto_next st) l1 [])) as [Hkeep Hlose].
  { split.
    - exists taken, [], rest, queued, []. cbn. rewrite !app_nil_r. split_and!; try done. by destruct st.
    - intros m rest' -> Hr' [x ->]. exists taken, [m], rest', queued, []. cbn. rewrite !app_nil_r.
      by split_and!. }
  destruct (takes_sent _ _ _ _ H1 Hin) as [[-> [e He]]|(m' & rest' & -> & Hp & Hr' & Hrv)].
  - destruct (crypto_turn_cases _ _ _ _ Ht) as [[-> _]|(m & d & _ & _ & _ & Hm & _)]; [done|]. by rewrite He in Hm.
  - destruct (crypto_turn_cases _ _ _ _ Ht) as [[-> Hq]|(m & d & -> & -> & _ & Hm & Hsd')].
    { eapply Hlose; [done|done|]. destruct st; [by eexists|]. destruct (Hq eq_refl) as [_ [e He]]. by rewrite He in Hrv. }
    rewrite Hm in Hrv. injection Hrv as <-.
    assert (answers m (validate_capture_msg m config (yi_clock it))) as Han by (by eexists).
    exists (taken ++ [m]), [], rest', queued, [validate_capture_msg m config (yi_clock it)]. cbn.
    rewrite app_nil_r, Ef, <- app_assoc. split_and!; try done.
    + rewrite !app_assoc. apply Forall2_app; [by rewrite <- app_assoc|]. by constructor.
    + rewrite Hsend in Hsd'. exists (validate_capture_msg m config (yi_clock it)), d.
      split_and!; [done|done|]. split; [by eapply answer_portable|done].
Qed.

Lemma crypto_sent_order s it reply d :
  in_order s → crypto s = CryptoSend it → crypto_turn config it = ([reply], None) →
  send_msg reply (Ok ()) = Ok d → in_order (after_crypto sigchld s CryptoLoop (link1 s) [d]).
Proof.
  intros (taken & lost & rest & queued & pending & Ef & H1 & Hl & Ha & H2 & Hy) Ey Ht Hs.
  rewrite Ey in Hy. destruct Hy as (r & d' & -> & Ht' & [Hp Hs']). rewrite Ht in Ht'. injection Ht' as <-.
  exists taken, lost, rest, (queued ++ [reply]), []. cbn. rewrite app_nil_r. split_and!; try done.
  - intros _. apply Hl. unfold crypto_gone. by rewrite Ey.
  - apply Forall2_app; [done|]. constructor; [by split|constructor].
Qed.

(** Killed in [send], the crypto worker takes the message with it. *)
Lemma crypto_killed_order s st :
  in_order s → crypto_gone s = false → in_order (after_crypto sigchld s (CryptoGone st) (link1 s) []).
Proof.
  intros (taken & lost & rest & queued & pending & Ef & H1 & Hl & Ha & H2 & Hy) Hg. rewrite (Hl Hg) in Ef. cbn [app] in Ef.
  destruct (crypto s) as [| |it|st'] eqn:Ey; [subst pending..| |unfold crypto_gone in Hg; by rewrite Ey in Hg].
  1, 2: exists taken, [], rest, queued, []; cbn; rewrite !app_nil_r in *; by split_and!.
  destruct Hy as (r & d & -> & _). rewrite !app_assoc in Ha.
  apply Forall2_app_inv_r in Ha as (t1 & t2 & Ha & Ht2 & ->).
  apply Forall2_cons_inv_r in Ht2 as (m & t3 & _ & ->%Forall2_nil_inv_r & ->).
  exists t1, [m], rest, queued, []. cbn. rewrite !app_nil_r. split_and!; try done.
  - by rewrite Ef, <- app_assoc.
  - by rewrite app_assoc.
Qed.

(** The parent takes the first answer, or none. *)
Lemma parent_recv_order s p it l2 :
  in_order s → parent s = ParentRecv p → parent_input s it l2 →
  in_order (after_parent s (ParentHandle p it) l2 false false []).
Proof using YL YN.
  intros (taken & lost & rest & queued & pending & Ef & H1 & Hl & Ha & H2 & Hy) Ep [_ Hin].
  unfold in_hand in Ha. rewrite Ep in Ha. cbn [app] in Ha.
  destruct (takes_sent _ _ _ _ H2 Hin) as [[-> [e He]]|(r & queued' & -> & Hp & Hq & He)].
  - exists taken, lost, rest, queued, pending. cbn. unfold in_hand, handles. cbn. by rewrite He, app_nil_r.
  - exists taken, lost, rest, queued', pending. cbn. unfold in_hand, handles. cbn. by rewrite He, app_nil_r.
Qed.

(** What it has in hand is the answer to the first message it has not handled. *)
Lemma in_hand_answers s p it r :
  in_order s → parent s = ParentHandle p it → pi_recv it = Ok r →
  ∃ m, forwarded s !! length (handled s) = Some m ∧ answers m r.
Proof.
  intros (taken & lost & rest & queued & pending & Ef & _ & _ & Ha & _) Ep Hr.
  unfold in_hand, handles in Ha. rewrite Ep, Hr in Ha.
  apply Forall2_app_inv_r in Ha as (t1 & t2 & Ha1 & Ha2 & ->).
  apply Forall2_cons_inv_r in Ha2 as (m & t3 & Hm & _ & ->).
  exists m. split; [|done]. apply Forall2_length in Ha1.
  by rewrite Ef, <- app_assoc, lookup_app_r, <- Ha1, Nat.sub_diag by lia.
Qed.

(** Steps of the parent that only change its place. *)
Lemma parent_place_inv w s pp c y ms :
  system_inv w s → handled s ++ ms ++ in_hand (after_parent s pp (link2 s) c y ms) = handled s ++ in_hand s →
  (∀ g, g ∈ fw_doors (w_fw (ps_world (parent_state (after_parent s pp (link2 s) c y ms)))) →
     g ∈ fw_doors (w_fw (ps_world (parent_state s)))) →
  system_inv w (after_parent s pp (link2 s) c y ms).
Proof.
  intros [Hc Hf Hsub Ho Hd] Eh Hg. constructor; [exact Hc|exact Hf|exact Hsub| |by intros g ?; apply Hd, Hg].
  destruct Ho as (t & l & rs & q & pe & Ef & H1 & Hl & Ha & H2 & Hy). exists t, l, rs, q, pe. split_and!; try done.
  cbn [handled after_parent]. by rewrite <- app_assoc, (app_assoc ms), (app_assoc (handled s)), Eh, <- app_assoc.
Qed.

Lemma parent_handle_inv w s p it :
  system_inv w s → parent s = ParentHandle p it →
  system_inv w (after_parent s (ParentLoop (parent_iter config it p)) (link2 s) false false (handles it)).
Proof using Hnd LL HL FL.
  intros [Hc Hf Hsub Ho Hd] Ep. constructor; [exact Hc|exact Hf|exact Hsub| |].
  - destruct Ho as (t & l & rs & q & pe & Ef & H1 & Hl & Ha & H2 & Hy). exists t, l, rs, q, pe. split_and!; try done.
    cbn. unfold in_hand in Ha. rewrite Ep in Ha. by rewrite <- app_assoc.
  - cbn [seen parent_state parent after_parent]. unfold parent_state in Hd. rewrite Ep in Hd. intros g Hg.
    change (g ∈ fw_doors (w_fw (ps_world (parent_iter config it p)))) in Hg. destruct (pi_recv it) as [r|e] eqn:Hr.
    + destruct (in_hand_answers s p it r Ho Ep Hr) as (m & Hm & [clock ->]).
      rewrite Forall_forall in Hf. destruct (Hf m (list_elem_of_lookup_2 _ _ _ Hm)) as (_ & d & ip & Hin' & ->).
      destruct (parent_iter_opens it p ip (take 1500 d) clock g Hr Hg) as [?|?]; [by apply Hd|right].
      by exists d, ip, clock.
    + apply Hd. revert Hg. unfold parent_iter. cbn [ps_world]. by rewrite prune_tick_fw, Hr.
Qed.

Lemma capture_step_inv w s rl it rl' sent st :
  system_inv w s → capture s = CaptureRecv rl → capture_input it → capture_loop rl [it] = (rl', sent, st) →
  system_inv w (after_capture sigchld s (match sent with [] => capture_next rl' st | _ => CaptureSend rl it end)
                  (received it) [] []).
Proof.
  intros Hi Ec (Hsd & Hsend & Htyp) Hl. pose proof (inv_seen _ _ Hi) as Hsub. rewrite Ec in Hsub. cbn [in_send] in Hsub.
  rewrite app_nil_r in Hsub.
  destruct (capture_turn_cases _ _ _ _ _ Hl) as [->|(d & ip & dg & -> & -> & Hs0 & Hr & Hs)].
  - apply after_capture_inv; [done|constructor|constructor| |by destruct st].
    destruct st; cbn [capture_next in_send app]; rewrite !app_nil_r; by apply sublist_inserts_r.
  - assert (received it = [(d, ip)]) as Hrec by (unfold received; by rewrite Hr). rewrite Hrec.
    destruct (Htyp d ip Hr) as [Hb Hip]. rewrite Hsend in Hs.
    assert (portable (CapturePacket ip (take 1500 d))) as Hp by (split; [done|by apply Forall_take]).
    apply after_capture_inv; [done|constructor|constructor| |].
    + cbn [in_send app]. rewrite Hl. cbn [fst snd fmap list_fmap]. by apply sublist_app.
    + intros rl0 it0 [= <- <-]. exists rl', (CapturePacket ip (take 1500 d)), dg.
      split_and!; [done|by split|]. split; [done|]. exists d, ip. split; [|done]. cbn. set_solver.
Qed.

Lemma capture_sent_inv w s rl it rl' m d :
  system_inv w s → capture s = CaptureSend rl it → capture_loop rl [it] = (rl', [m], None) →
  send_msg m (Ok ()) = Ok d → system_inv w (after_capture sigchld s (CaptureLoop rl') [] [m] [d]).
Proof.
  intros Hi Ec Hl Hs. destruct (inv_capture _ _ Hi _ _ Ec) as (rl1 & m1 & d1 & Hl1 & [Hp _] & Hrd).
  rewrite Hl in Hl1. injection Hl1 as <- <-. pose proof (inv_seen _ _ Hi) as Hsub. rewrite Ec in Hsub.
  cbn [in_send] in Hsub. rewrite Hl in Hsub. cbn [fst snd] in Hsub.
  apply after_capture_inv; [done| | |cbn [in_send fmap list_fmap]; by rewrite !app_nil_r|done].
  - constructor; [by split|constructor].
  - constructor; [|constructor]. eapply read_more; [|exact Hrd]. intros x. cbn. by rewrite app_nil_r.
Qed.

(** The capture worker looks at its flag, is refused, or is killed. *)
Lemma capture_place_inv w s c :
  system_inv w s → (∀ rl it, c ≠ CaptureSend rl it) → system_inv w (after_capture sigchld s c [] [] []).
Proof.
  intros Hi Hc. apply after_capture_inv; [done|constructor|constructor| |].
  - assert (in_send c = []) as -> by (destruct c as [| |rl it|]; [done..|by destruct (Hc rl it)|done]).
    rewrite !app_nil_r. etrans; [|exact (inv_seen _ _ Hi)]. by apply sublist_inserts_r.
  - intros rl it E. by destruct (Hc rl it).
Qed.

Lemma move_inv w s s' : system_inv w s → move s s' → system_inv w s'.
Proof using Hnd LL HL FL ML CL CN YL YN.
  intros Hi Hs. destruct Hs as [s rl Ec|s rl it rl' st Ec Hin Hl|s rl it rl' msg Ec Hin Hl|s rl it rl' msg d Ec Hl Hs _ _
    |s rl it e rl' st Ec _ Hl|s Ey|s it l1 st Ey Hin Ht|s it l1 reply Ey Hin Ht|s it reply d Ey Ht Hs _
    |s p stop Ep Hstop|s p it l2 Ep Hin|s p it Ep|s p Ep _|s p faults Ep _].
  - apply capture_place_inv; [done|]. by destruct (c_term s).
  - by eapply (capture_step_inv _ _ _ _ _ []).
  - by eapply (capture_step_inv _ _ _ _ _ [msg]).
  - by eapply capture_sent_inv.
  - by apply capture_place_inv.
  - apply after_crypto_inv; [done|]. apply crypto_check_order; [apply (inv_order _ _ Hi)|done|]. by destruct (y_term s).
  - apply after_crypto_inv; [done|]. by eapply (crypto_order _ _ _ []); [apply (inv_order _ _ Hi)|..].
  - apply after_crypto_inv; [done|]. by eapply (crypto_order _ _ _ [reply]); [apply (inv_order _ _ Hi)|..].
  - apply after_crypto_inv; [done|]. by eapply crypto_sent_order; [apply (inv_order _ _ Hi)|..].
  - apply parent_place_inv; [done|unfold in_hand; rewrite Ep; by destruct stop|].
    unfold parent_state. rewrite Ep. by destruct stop.
  - destruct Hi as [Hc Hf Hsub Ho Hd]. constructor; [exact Hc|exact Hf|exact Hsub|by apply parent_recv_order|].
    unfold parent_state in *. by rewrite Ep in Hd.
  - by apply parent_handle_inv.
  - apply parent_place_inv; [done|unfold in_hand; by rewrite Ep|]. unfold parent_state. by rewrite Ep.
  - apply parent_place_inv; [done|unfold in_hand; by rewrite Ep|]. unfold parent_state. rewrite Ep. cbn.
    intros g. apply (shutdown_steps_doors config faults).
Qed.

Lemma step_inv w s s' : system_inv w s → step s s' → system_inv w s'.
Proof using Hnd LL HL FL ML CL CN YL YN.
  intros Hi [Hm|[Hs|Hk]]; [by eapply move_inv|destruct Hs as [s c y p _]|destruct Hk as [s Hg|s Hg]].
  - destruct Hi as [Hc Hf Hsub Ho Hd]. by constructor.
  - by apply capture_place_inv.
  - apply after_crypto_inv; [done|]. apply crypto_killed_order; [apply (inv_order _ _ Hi)|done].
Qed.

Lemma started_inv w rl : system_inv w (started config w rl).
Proof.
  constructor; [done|constructor|done| |by left].
  exists [], [], [], [], []. by split_and!.
Qed.

Lemma reachable_inv w rl s : rtc step (started config w rl) s → system_inv w s.
Proof using Hnd LL HL FL ML CL CN YL YN.
  intros Hr. apply (rtc_ind_r (R := step) (system_inv w) (started config w rl)); [apply started_inv| |done].
  intros s1 s2 _ Hs IH. by eapply step_inv.
Qed.

(** C5: soundness under every interleaving. However the kernel schedules the
    three processes, whenever signals arrive, and whichever calls fail, every
    door of the parent's firewall was open before or belongs to a datagram the
    capture worker read whose first 1500 bytes authenticate under a stanza's
    key within the clock window, from a sender and for ports the stanza
    allows. *)
Theorem system_doors_justified w rl s g :
  rtc step (started config w rl) s → g ∈ fw_doors (w_fw (ps_world (parent_state s))) →
  g ∈ fw_doors (w_fw w) ∨ ∃ d ip clock, (d, ip) ∈ seen s ∧ packet_opens clock ip (take 1500 d) g.
Proof using Hnd LL HL FL ML CL CN YL YN. intros Hr. by apply inv_doors, (reachable_inv w rl). Qed.

(** C12: order. Under every interleaving the parent handles the answers to a
    prefix of the messages the capture worker sent, each once and in the order
    they were sent, and those messages are datagrams it read, in the order of
    the socket: between socket and firewall no packet is duplicated,
    reordered, or answered by the answer to another. *)
Theorem system_in_order w rl s :
  rtc step (started config w rl) s →
  ∃ taken rest, forwarded s = taken ++ rest ∧ Forall2 answers taken (handled s) ∧
    forwarded s `sublist_of` cut <$> seen s.
Proof using Hnd LL HL FL ML CL CN YL YN.
  intros Hr. destruct (reachable_inv w rl s Hr) as [_ _ Hsub (taken & lost & rest & queued & pending & Ef & _ & _ & Ha & _) _].
  apply Forall2_app_inv_r in Ha as (t1 & t2 & Ha & _ & ->). exists t1, (t2 ++ lost ++ rest).
  split_and!; [by rewrite Ef, <- app_assoc|done|]. etrans; [|exact Hsub]. by apply sublist_inserts_r.
Qed.
End safety.
