(* ===== verification/ProcessShutdown.v ===== *)
(** * How the three processes end

    Shutdown of the system of Processes.v: where it can get stuck, when it is
    sure to complete, and what the death of a worker does. *)

From stdpp Require Import relations.
From S2P Require Import Prelude RustStd Net Lru Proto Instances Packet Persist Replay Config RateLimit.
From S2P Require Import Firewall Capture Privsep Sandbox Daemon DaemonRun Fwknoxd Processes.

Section shutdown.
Context `{N : IpNetOps} `{R : Ring} `{M : Rmp SpaPayload} `{L : LruCache Nonce Z} `{HI : HashIter}
  `{LT : LruCache SourceKey TokenBucket} `{RC : Rmp CaptureMsg} `{RY : Rmp CryptoMsg}
  {B : Type} `{F : !FirewallBackend B}.
Context (config : DaemonConfig) (cost : bytes → nat) (sndbuf : nat) (sigchld : bool).
Implicit Types (s : system (B := B)) (w : World B).

Abbreviation move := (move (B := B) config cost sndbuf sigchld).
Abbreviation step := (step (B := B) config cost sndbuf sigchld).
Abbreviation unkilled := (unkilled (B := B) config cost sndbuf sigchld).

Definition done s : Prop := ∃ p, parent s = ParentDone p.
(** The parent has left its loop. *)
Definition waiting s : Prop :=
  match parent s with ParentWaitCapture _ | ParentWaitCrypto _ | ParentDone _ => True | _ => False end.

(** A blocked [send] has a message that fits, a worker that was signalled has
    its flag set, the parent outlives its workers, and with a handler for
    [SIGCHLD] the end of a worker sets the flag of the parent. *)
Record live_inv s : Prop := {
  live_capture rl it : capture s = CaptureSend rl it →
    ∃ rl' m d, capture_loop rl [it] = (rl', [m], None) ∧ send_msg m (Ok ()) = Ok d;
  live_crypto it : crypto s = CryptoSend it →
    ∃ r d, crypto_turn config it = ([r], None) ∧ send_msg r (Ok ()) = Ok d;
  live_term1 : waiting s → c_term s = true;
  live_term2 p : parent s = ParentWaitCrypto p → y_term s = true ∧ capture_gone s = true;
  live_done : done s → capture_gone s = true ∧ crypto_gone s = true;
  live_dead : sigchld = true → capture_gone s || crypto_gone s = true → p_flag s = true;
}.

Lemma capture_begin_sends rl it rl' msg :
  capture_input it → capture_loop rl [it] = (rl', [msg], None) → ∃ d, send_msg msg (Ok ()) = Ok d.
Proof.
  intros (_ & Hs & _) Hl. destruct (capture_turn_cases _ _ _ _ _ Hl) as [?|(d & ip & dg & [= ->] & _ & _ & _ & H)]; [done|].
  rewrite Hs in H. by eexists.
Qed.

Lemma crypto_begin_sends s it l1 reply :
  crypto_input s it l1 → crypto_turn config it = ([reply], None) → ∃ d, send_msg reply (Ok ()) = Ok d.
Proof.
  intros (_ & Hs & _) Ht. destruct (crypto_turn_cases _ _ _ _ Ht) as [[? _]|(m & d & [= ->] & _ & _ & _ & H)]; [done|].
  rewrite Hs in H. by eexists.
Qed.

(** Steps of one process, as far as shutdown depends on them. *)
Lemma after_capture_live s c rs ms ds :
  live_inv s → capture_gone s = false →
  (∀ rl it, c = CaptureSend rl it →
     ∃ rl' m d, capture_loop rl [it] = (rl', [m], None) ∧ send_msg m (Ok ()) = Ok d) →
  live_inv (after_capture sigchld s c rs ms ds).
Proof.
  intros [Hc Hy H1 H2 H3 Hd] Hg Hsend. constructor; [exact Hsend|exact Hy|exact H1| | |].
  - intros p Hp. destruct (H2 p Hp) as [_ Hg']. congruence.
  - intros Hdone. destruct (H3 Hdone) as [Hg' _]. congruence.
  - intros Hs Hgone. cbn in Hgone |- *. rewrite Hs in *. apply orb_true_iff in Hgone as [Hgone|Hgone].
    + destruct c; [done..|apply orb_true_r].
    + rewrite Hd; [done|done|]. change (crypto_gone s = true) in Hgone. by rewrite Hgone, orb_true_r.
Qed.

Lemma after_crypto_live s y l1 ds :
  live_inv s → crypto_gone s = false →
  (∀ it, y = CryptoSend it → ∃ r d, crypto_turn config it = ([r], None) ∧ send_msg r (Ok ()) = Ok d) →
  live_inv (after_crypto sigchld s y l1 ds).
Proof.
  intros [Hc Hy H1 H2 H3 Hd] Hg Hsend. constructor; [exact Hc|exact Hsend|exact H1|exact H2| |].
  - intros Hdone. destruct (H3 Hdone) as [_ Hg']. congruence.
  - intros Hs Hgone. cbn in Hgone |- *. rewrite Hs in *. apply orb_true_iff in Hgone as [Hgone|Hgone].
    + rewrite Hd; [done|done|]. change (capture_gone s = true) in Hgone. by rewrite Hgone.
    + destruct y; [done..|apply orb_true_r].
Qed.

Lemma after_parent_live s pp l2 c y ms :
  live_inv s → (waiting s ∨ c = true ∨ ¬ waiting (after_parent s pp l2 c y ms)) →
  (∀ p, pp = ParentWaitCrypto p → y = true ∧ capture_gone s = true) →
  (∀ p, pp = ParentDone p → capture_gone s = true ∧ crypto_gone s = true) →
  live_inv (after_parent s pp l2 c y ms).
Proof.
  intros [Hc Hy H1 H2 H3 Hd] Hw H2' H3'. constructor; [exact Hc|exact Hy| | | |exact Hd].
  - cbn. intros Hw'. destruct Hw as [Hw|[->|Hn]]; [by rewrite H1|apply orb_true_r|done].
  - cbn. intros p Hp. destruct (H2' p Hp) as [-> Hg]. by rewrite orb_true_r.
  - intros [p Hp]. by apply (H3' p).
Qed.

Lemma move_live s s' : live_inv s → move s s' → live_inv s'.
Proof.
  intros Hi Hs. destruct Hs as [s rl Ec|s rl it rl' st Ec Hin Hl|s rl it rl' msg Ec Hin Hl|s rl it rl' msg d Ec Hl Hs _ _
    |s rl it e rl' st Ec _ Hl|s Ey|s it l1 st Ey Hin Ht|s it l1 reply Ey Hin Ht|s it reply d Ey Ht Hs _
    |s p stop Ep Hstop|s p it l2 Ep Hin|s p it Ep|s p Ep Hg|s p faults Ep Hg].
  1-5: apply after_capture_live; [done|unfold capture_gone; by rewrite Ec|].
  6-9: apply after_crypto_live; [done|unfold crypto_gone; by rewrite Ey|].
  10-14: apply after_parent_live; [done|..].
  all: try done; try (unfold waiting; rewrite Ep; cbn; tauto).
  - by destruct (c_term s).
  - by destruct st.
  - intros rl0 it0 [= <- <-]. destruct (capture_begin_sends _ _ _ _ Hin Hl) as [d Hs]. by exists rl', msg, d.
  - by destruct (y_term s).
  - by destruct st.
  - intros it0 [= <-]. destruct (crypto_begin_sends _ _ _ _ Hin Ht) as [d Hs]. by exists reply, d.
  - destruct stop; [by right; left|by right; right; intros []].
  - by destruct stop.
  - by destruct stop.
  - intros p0 _. split; [|done]. by destruct (live_term2 _ Hi p Ep).
Qed.

Lemma step_live s s' : live_inv s → step s s' → live_inv s'.
Proof.
  intros Hi [Hm|[Hs|Hk]]; [by eapply move_live|destruct Hs as [s c y p _]|destruct Hk as [s Hg|s Hg]].
  - destruct Hi as [Hc Hy H1 H2 H3 Hd]. constructor; [exact Hc|exact Hy| | |exact H3|].
    + intros Hw. cbn. by rewrite H1.
    + intros p0 Hp. cbn. by destruct (H2 p0 Hp) as [-> Hg].
    + intros Hsig Hg. cbn. by rewrite Hd.
  - by apply after_capture_live.
  - by apply after_crypto_live.
Qed.

Lemma reachable_live w rl s : rtc step (started config w rl) s → live_inv s.
Proof.
  intros Hr. apply (rtc_ind_r (R := step) live_inv (started config w rl)); [|by intros; eapply step_live|done].
  constructor; try done. by intros [p Hp].
Qed.

(** ** Who can move *)

Definition tick_error : io_error := {| io_kind := WouldBlock; io_text := [] |}.

(** How far a process whose flag is set is from its end. *)
Definition capture_rank (c : capture_proc) : nat :=
  match c with CaptureRecv _ => 3 | CaptureSend _ _ => 2 | CaptureLoop _ => 1 | CaptureGone _ => 0 end.
Definition crypto_rank (y : crypto_proc) : nat :=
  match y with CryptoRecv => 3 | CryptoSend _ => 2 | CryptoLoop => 1 | CryptoGone _ => 0 end.
Definition parent_rank (p : parent_proc (B := B)) : nat :=
  match p with
  | ParentRecv _ => 5 | ParentHandle _ _ => 4 | ParentLoop _ => 3
  | ParentWaitCapture _ => 2 | ParentWaitCrypto _ => 1 | ParentDone _ => 0
  end.

(** What stops a process: [send] on a full buffer, the wait for a worker. *)
Definition capture_blocked s : Prop :=
  (∃ rl it, capture s = CaptureSend rl it) ∧ (sndbuf ≤ used cost (link1 s))%nat ∧ crypto_gone s = false.
Definition crypto_blocked s : Prop :=
  (∃ it, crypto s = CryptoSend it) ∧ (sndbuf ≤ used cost (link2 s))%nat.
Definition parent_blocked s : Prop :=
  match parent s with
  | ParentWaitCapture _ => capture_gone s = false
  | ParentWaitCrypto _ => crypto_gone s = false
  | _ => False
  end.

Lemma capture_recv_tick s rl :
  capture s = CaptureRecv rl → move s (after_capture sigchld s (CaptureLoop rl) [] [] []).
Proof.
  intros Ec. set (it := {| ci_shutdown := false; ci_recv := Err tick_error; ci_reset_now := 0; ci_now := 0;
    ci_send := Ok () |}). by apply (move_capture _ _ _ _ s rl it rl None).
Qed.

Lemma crypto_recv_tick s : crypto s = CryptoRecv → move s (after_crypto sigchld s CryptoLoop (link1 s) []).
Proof.
  intros Ey. set (it := {| yi_shutdown := false; yi_recv := Err (PIo tick_error); yi_clock := None;
    yi_send := Ok () |}). apply (move_crypto _ _ _ _ s it (link1 s) None); [done| |done].
  split_and!; [done|done|]. right. split; [done|]. by eexists.
Qed.

(** A worker can move unless it is gone or blocked, and towards its end once
    its flag is set. *)
Lemma capture_can s :
  live_inv s → capture_gone s = true ∨ capture_blocked s ∨
  ∃ c rs ms ds, move s (after_capture sigchld s c rs ms ds) ∧
    (c_term s = true → (capture_rank c < capture_rank (capture s))%nat).
Proof.
  intros Hi. destruct (capture s) as [rl|rl|rl it|st] eqn:Ec; [right; right|right; right|right|left; unfold capture_gone; by rewrite Ec].
  - eexists _, _, _, _. split; [by eapply move_capture_check|]. intros ->. cbn. lia.
  - eexists _, _, _, _. split; [by apply capture_recv_tick|]. cbn. lia.
  - destruct (live_capture _ Hi _ _ Ec) as (rl' & m & d & Hl & Hs). destruct (crypto_gone s) eqn:Hg.
    + right. destruct (capture_turn_refused _ _ tick_error _ _ Hl) as [st Hl'].
      eexists _, _, _, _. split; [by eapply move_capture_refused|]. cbn. lia.
    + destruct (le_lt_dec sndbuf (used cost (link1 s))); [left; split_and!; [by eexists _, _|done|done]|right].
      eexists _, _, _, _. split; [by eapply move_capture_sent|]. cbn. lia.
Qed.

Lemma crypto_can s :
  live_inv s → crypto_gone s = true ∨ crypto_blocked s ∨
  ∃ y l1 ds, move s (after_crypto sigchld s y l1 ds) ∧
    (y_term s = true → (crypto_rank y < crypto_rank (crypto s))%nat).
Proof.
  intros Hi. destruct (crypto s) as [| |it|st] eqn:Ey; [right; right|right; right|right|left; unfold crypto_gone; by rewrite Ey].
  - eexists _, _, _. split; [by apply move_crypto_check|]. intros ->. cbn. lia.
  - eexists _, _, _. split; [by apply crypto_recv_tick|]. cbn. lia.
  - destruct (live_crypto _ Hi _ Ey) as (r & d & Ht & Hs).
    destruct (le_lt_dec sndbuf (used cost (link2 s))); [left; split; [by eexists|done]|right].
    eexists _, _, _. split; [by eapply move_crypto_sent|]. cbn. lia.
Qed.

Lemma parent_can s :
  done s ∨ parent_blocked s ∨
  ∃ pp l2 c y ms, move s (after_parent s pp l2 c y ms) ∧
    (p_flag s = true ∨ waiting s → (parent_rank pp < parent_rank (parent s))%nat).
Proof.
  unfold parent_blocked, waiting. destruct (parent s) as [p|p|p it|p|p|p] eqn:Ep; [right..|left; by eexists].
  - right. eexists _, _, _, _, _. split; [by eapply move_parent_check|].
    intros [->|[]]. rewrite orb_true_r. cbn. lia.
  - right. set (it := {| pi_shutdown := false; pi_recv := Err (PIo tick_error);
      pi_env := {| env_clock := None; env_replay_now := 0; env_faults := no_faults |};
      pi_reap := Ok StillAlive; pi_prune_now := 0; pi_prune_faults := no_faults |}).
    eexists _, _, _, _, _. split; [apply (move_parent_recv _ _ _ _ s p it (link2 s) Ep)|cbn; lia].
    split; [done|]. right. split; [done|]. by eexists.
  - right. eexists _, _, _, _, _. split; [by eapply move_parent_handle|]. cbn. lia.
  - destruct (capture_gone s) eqn:Hg; [right|by left]. eexists _, _, _, _, _. split; [by eapply move_parent_captured|]. cbn. lia.
  - destruct (crypto_gone s) eqn:Hg; [right|by left].
    eexists _, _, _, _, _. split; [by eapply (move_parent_done _ _ _ _ _ _ no_faults)|]. cbn. lia.
Qed.

(** A signal that arrives while a worker waits for input ends it with an error:
    with a read timeout set the call is not restarted, and an interruption is
    not one of the two errors the loops go on after. *)
Lemma interrupted_capture s rl e :
  capture s = CaptureRecv rl → io_kind e = Interrupted →
  move s (after_capture sigchld s (CaptureGone (ChildExit 1)) [] [] []).
Proof.
  intros Ec He. set (it := {| ci_shutdown := false; ci_recv := Err e; ci_reset_now := 0; ci_now := 0;
    ci_send := Ok () |}).
  apply (move_capture _ _ _ _ s rl it rl (Some (Err (PIo e)))); [done|by split_and!|].
  cbn. unfold is_tick. by rewrite He.
Qed.

Lemma interrupted_crypto s e :
  crypto s = CryptoRecv → io_kind e = Interrupted →
  move s (after_crypto sigchld s (CryptoGone (ChildExit 1)) (link1 s) []).
Proof.
  intros Ey He. set (it := {| yi_shutdown := false; yi_recv := Err (PIo e); yi_clock := None;
    yi_send := Ok () |}).
  apply (move_crypto _ _ _ _ s it (link1 s) (Some (Returned (Err (PIo e))))); [done| |].
  - split_and!; [done|done|]. right. split; [done|]. by eexists.
  - unfold crypto_turn. cbn. unfold is_tick. by rewrite He.
Qed.

(** ** Where the system can get stuck *)

(** The parent waits for a worker and reads no more, while both workers are
    blocked on full queues, or the crypto worker is and the other one is gone. *)
Definition deadlocked s : Prop :=
  crypto_blocked s ∧
  match parent s with
  | ParentWaitCapture _ => capture_blocked s
  | ParentWaitCrypto _ => True
  | _ => False
  end.

Lemma stuck_deadlocked s : live_inv s → nf move s → done s ∨ deadlocked s.
Proof.
  intros Hi Hnf. destruct (parent_can s) as [?|[Hb|(pp & l2 & c & y & ms & Hs & _)]]; [by left|right|by destruct Hnf; eexists].
  assert (crypto_gone s = false → crypto_blocked s) as Hy.
  { intros Hg. destruct (crypto_can s Hi) as [?|[?|(? & ? & ? & Hs & _)]]; [congruence|done|by destruct Hnf; eexists]. }
  unfold parent_blocked in Hb. unfold deadlocked. destruct (parent s) as [p|p|p it|p|p|p]; try done.
  - destruct (capture_can s Hi) as [?|[Hc|(? & ? & ? & ? & Hs & _)]]; [congruence| |by destruct Hnf; eexists].
    split; [|done]. apply Hy, Hc.
  - by split; [apply Hy|].
Qed.

(** In such a state no process moves. *)
Lemma deadlocked_stuck s : live_inv s → deadlocked s → nf move s.
Proof.
  intros Hi [[(it & Ey) H2] Hp] [s' Hs].
  assert (crypto_gone s = false) as Hg by (unfold crypto_gone; by rewrite Ey).
  destruct (parent s) as [p|p|p it'|p|p|p] eqn:Ep; try done.
  - destruct Hp as ((rl & it' & Ec) & H1 & _).
    assert (capture_gone s = false) as Hg1 by (unfold capture_gone; by rewrite Ec).
    destruct Hs; congruence || lia.
  - destruct (live_term2 _ Hi p Ep) as [_ Hg1]. unfold capture_gone in Hg1.
    destruct (capture s) as [| | |st] eqn:Ec; try done. destruct Hs; congruence || lia.
Qed.

Lemma done_stuck s : live_inv s → done s → nf move s.
Proof.
  intros Hi Hd [s' Hs]. destruct (live_done _ Hi Hd) as [Hg1 Hg2]. destruct Hd as [p Ep].
  unfold capture_gone, crypto_gone in *.
  destruct (capture s) as [| | |st] eqn:Ec; try done. destruct (crypto s) as [| | |st'] eqn:Ey; try done.
  destruct Hs; congruence.
Qed.

(** C14: the only way to hang. The three processes cannot move any more, of
    themselves, exactly when the parent has returned, or when it waits for its
    workers while they are blocked in [send] on queues that nobody reads
    ([deadlocked]). In particular nothing gets stuck before shutdown: signals
    and kills, which come from outside, do not count as moves. *)
Theorem stuck_only_in_shutdown w rl s :
  rtc step (started config w rl) s → nf move s ↔ done s ∨ deadlocked s.
Proof.
  intros Hr. pose proof (reachable_live _ _ _ Hr) as Hi. split; [by apply stuck_deadlocked|].
  intros [?|?]; [by apply done_stuck|by apply deadlocked_stuck].
Qed.

(** Signals do not help either, when they have all come. *)
Lemma flags_stuck s : nf move s → c_term s && y_term s && p_flag s = true → nf unkilled s.
Proof.
  intros Hnf [[Hf1 Hf2]%andb_true_iff Hf]%andb_true_iff [s' [Hm|Hs]]; [by apply Hnf; eexists|].
  destruct Hs as [s c y p Hs]. by rewrite Hf, Hf1, Hf2, !andb_false_r in Hs.
Qed.

(** ** The end of a process that was told to stop *)

(** From here on the process at [place] makes only moves that lower its rank,
    and it can make one unless it has ended or is [blocked]. *)
Definition winds_down {X : Type} (place : system → X) (rank : X → nat) (flag : system → bool)
    (blocked : system → Prop) s : Prop :=
  (∀ s', step s s' → flag s' = true ∧ (place s' = place s ∨ rank (place s') < rank (place s))%nat) ∧
  (rank (place s) = 0%nat ∨ blocked s ∨ ∃ s', move s s' ∧ (rank (place s') < rank (place s))%nat).

Lemma capture_winds_down s :
  live_inv s → c_term s = true → winds_down capture capture_rank c_term capture_blocked s.
Proof.
  intros Hi Ht. split.
  - intros s' [Hs|[Hs|Hk]]; [|destruct Hs; cbn; rewrite Ht; auto|].
    + destruct Hs as [s rl Ec|s rl it rl' [r|] Ec|s rl it rl' msg Ec|s rl it rl' msg d Ec|s rl it e rl' st Ec| | | | | | | | |];
        cbn; rewrite ?Ec, ?Ht; cbn; split; auto; right; lia.
    + destruct Hk as [s Hg|s Hg]; cbn; [|by auto]. split; [done|right].
      unfold capture_gone in Hg. destruct (capture s); [cbn; lia..|done].
  - destruct (capture_can s Hi) as [Hg|[?|(c & rs & ms & ds & Hs & Hlt)]]; [left|by auto|].
    + unfold capture_gone in Hg. by destruct (capture s).
    + right; right. eexists. split; [exact Hs|]. by apply Hlt.
Qed.

Lemma crypto_winds_down s :
  live_inv s → y_term s = true → winds_down crypto crypto_rank y_term crypto_blocked s.
Proof.
  intros Hi Ht. split.
  - intros s' [Hs|[Hs|Hk]]; [|destruct Hs; cbn; rewrite Ht; auto|].
    + destruct Hs as [| | | | |s Ey|s it l1 [r|] Ey|s it l1 reply Ey|s it reply d Ey| | | | |];
        cbn; rewrite ?Ey, ?Ht; cbn; split; auto; right; lia.
    + destruct Hk as [s Hg|s Hg]; cbn; [by auto|]. split; [done|right].
      unfold crypto_gone in Hg. destruct (crypto s); [cbn; lia..|done].
  - destruct (crypto_can s Hi) as [Hg|[?|(y & l1 & ds & Hs & Hlt)]]; [left|by auto|].
    + unfold crypto_gone in Hg. by destruct (crypto s).
    + right; right. eexists. split; [exact Hs|]. by apply Hlt.
Qed.

Lemma parent_winds_down s : p_flag s = true → winds_down parent parent_rank p_flag parent_blocked s.
Proof.
  intros Hf. split.
  - intros s' [Hs|[Hs|Hk]]; [|destruct Hs; cbn; rewrite Hf; auto|destruct Hk; cbn; rewrite Hf; auto].
    destruct Hs as [| | | | | | | | |s p stop Ep ->|s p it l2 Ep|s p it Ep|s p Ep|s p faults Ep];
      cbn; rewrite ?Ep, ?Hf, ?orb_true_r; cbn; split; auto; right; lia.
  - destruct (parent_can s) as [[p Ep]|[?|(pp & l2 & c & y & ms & Hs & Hlt)]]; [left; by rewrite Ep|by auto|].
    right; right. eexists. split; [exact Hs|]. apply Hlt. by left.
Qed.

(** C31: a process that was told to stop ends, unless it is blocked. Once the
    flag of a worker is set, every move it still makes brings it nearer to its
    end: it receives and sends at most once more, in three moves at most, in
    whatever order the processes run. And it can make such a move unless it is
    gone or blocked in [send] on a full socket whose receiver lives. Likewise
    the parent, whose flag a signal or the end of a worker sets: it finishes
    the iteration it is in and returns, unless it waits for a worker that has
    not ended. *)
Theorem signalled_processes_end w rl s :
  rtc step (started config w rl) s →
  (c_term s = true → winds_down capture capture_rank c_term capture_blocked s) ∧
  (y_term s = true → winds_down crypto crypto_rank y_term crypto_blocked s) ∧
  (p_flag s = true → winds_down parent parent_rank p_flag parent_blocked s).
Proof.
  intros Hi%reachable_live. split_and!.
  - by apply capture_winds_down.
  - by apply crypto_winds_down.
  - apply parent_winds_down.
Qed.

(** ** A dead worker *)

Context `{LL : !LruLaws Nonce Z L} `{HL : !HashIterLaws HI} `{FL : !FirewallLaws B}.

(** The doors a message asks for. *)
Definition asked (msg : CryptoMsg) : gset grant :=
  match msg with
  | ValidRequest _ _ p =>
      match message p with Access src ports => list_to_set (doors_of src ports) | _ => ∅ end
  | _ => ∅
  end.

Definition doors_now s : gset grant := fw_doors (w_fw (ps_world (parent_state s))).

(** Between the look at the flag and the end of the iteration. *)
Definition in_iteration s : Prop :=
  match parent s with ParentRecv _ | ParentHandle _ _ => True | _ => False end.

Lemma parent_iter_asked it (p : ParentState) :
  fw_doors (w_fw (ps_world (parent_iter config it p))) ⊆
  fw_doors (w_fw (ps_world p)) ∪ ⋃ (asked <$> handles it).
Proof.
  unfold parent_iter, handles. cbn [ps_world]. rewrite prune_tick_fw.
  destruct (pi_recv it) as [msg|e]; [|set_solver].
  destruct (handle_crypto_msg_doors config (pi_env it) (ps_world p) msg)
    as [->|(name & ip & pl & src & ports & st & rule & h & -> & Hm & _ & _ & _ & _ & _ & _ & _ & _ & ->)]; [set_solver|].
  cbn. rewrite Hm. set_solver.
Qed.

(** With its flag set, the parent finishes its iteration and begins no other. *)
Lemma flagged_move s s' :
  p_flag s = true → move s s' →
  (handled s' = handled s ∧ doors_now s' ⊆ doors_now s ∧ (in_iteration s' → in_iteration s)) ∨
  (in_iteration s ∧ ¬ in_iteration s' ∧
   ∃ ms, (length ms ≤ 1)%nat ∧ handled s' = handled s ++ ms ∧ doors_now s' ⊆ doors_now s ∪ ⋃ (asked <$> ms)).
Proof.
  intros Hf Hs. unfold doors_now, in_iteration.
  destruct Hs as [| | | | | | | | |s p stop Ep ->|s p it l2 Ep|s p it Ep|s p Ep|s p faults Ep]; [by left..| | | | |].
  - left. unfold parent_state. cbn. rewrite Hf, orb_true_r, Ep, app_nil_r. done.
  - left. unfold parent_state. cbn. by rewrite Ep, app_nil_r.
  - right. unfold parent_state. cbn [parent handled after_parent]. rewrite Ep. split_and!; [done|by intros []|].
    exists (handles it). split_and!; [unfold handles; destruct (pi_recv it); cbn; lia|done|apply parent_iter_asked].
  - left. unfold parent_state. cbn. by rewrite Ep, app_nil_r.
  - left. unfold parent_state. cbn [parent handled after_parent ps_world]. rewrite Ep, app_nil_r.
    split_and!; [done|apply shutdown_steps_doors|done].
Qed.

Lemma flagged_step s s' :
  p_flag s = true → step s s' →
  p_flag s' = true ∧
  ((handled s' = handled s ∧ doors_now s' ⊆ doors_now s ∧ (in_iteration s' → in_iteration s)) ∨
   (in_iteration s ∧ ¬ in_iteration s' ∧
    ∃ ms, (length ms ≤ 1)%nat ∧ handled s' = handled s ++ ms ∧ doors_now s' ⊆ doors_now s ∪ ⋃ (asked <$> ms))).
Proof.
  intros Hf Hs. split; [by destruct (parent_winds_down s Hf) as [Hw _]; destruct (Hw s' Hs)|].
  destruct Hs as [?|[Hs|Hk]]; [by apply flagged_move|by destruct Hs; left|by destruct Hk; left].
Qed.

Lemma flagged_idle s s' :
  p_flag s = true → ¬ in_iteration s → rtc step s s' → handled s' = handled s ∧ doors_now s' ⊆ doors_now s.
Proof.
  intros Hf Hn Hs. induction Hs as [s|s s1 s2 Hs _ IH]; [done|].
  destruct (flagged_step _ _ Hf Hs) as [Hf1 [(Hh & Hd & Hi)|(? & _)]]; [|done].
  destruct IH as [Hh2 Hd2]; [done|tauto|]. split; [congruence|by etrans].
Qed.

Lemma flagged_run s s' :
  p_flag s = true → rtc step s s' →
  ∃ ms, (length ms ≤ 1)%nat ∧ handled s' = handled s ++ ms ∧ doors_now s' ⊆ doors_now s ∪ ⋃ (asked <$> ms).
Proof.
  intros Hf Hs. induction Hs as [s|s s1 s2 Hs Hrest IH].
  { exists []. rewrite app_nil_r. split_and!; [cbn; lia|done|set_solver]. }
  destruct (flagged_step _ _ Hf Hs) as [Hf1 [(Hh & Hd & _)|(_ & Hn & ms & Hlen & Hh & Hd)]].
  - destruct (IH Hf1) as (ms & Hlen & Hh2 & Hd2). exists ms. rewrite Hh2, Hh. split_and!; [done|done|set_solver].
  - destruct (flagged_idle _ _ Hf1 Hn Hrest) as [Hh2 Hd2]. exists ms. rewrite Hh2, Hh. split_and!; [done|done|set_solver].
Qed.

(** C17: the parent fails closed when a worker dies. With the handler for
    SIGCHLD registered, once a worker has ended, for whatever reason and at
    whatever moment, killed in the middle of a [send] or not, the parent begins
    no further iteration of its loop. When it was inside one, that is, past
    the look at its flag, it finishes it: it handles at most one more message,
    and only the doors this message asks for can be opened. When it was not,
    it handles none and opens no door. *)
Theorem dead_worker_fails_closed w rl s s' :
  sigchld = true → rtc step (started config w rl) s → capture_gone s || crypto_gone s = true →
  rtc step s s' →
  (∃ ms, (length ms ≤ 1)%nat ∧ handled s' = handled s ++ ms ∧
     doors_now s' ⊆ doors_now s ∪ ⋃ (asked <$> ms)) ∧
  (¬ in_iteration s → handled s' = handled s ∧ doors_now s' ⊆ doors_now s).
Proof.
  intros Hc Hr Hg Hs. pose proof (live_dead _ (reachable_live _ _ _ Hr) Hc Hg) as Hf.
  split; [by apply flagged_run|]. intros Hn. by apply flagged_idle.
Qed.
(** ** When shutdown completes *)

(** No message of the workers costs more than [most]. *)
Context (most : nat) (Hmost : ∀ d, len d ≤ MAX_IPC_MSG → (1 ≤ cost d ≤ most)%nat).

(** The messages that are still to pass through the queues, with the one the
    capture worker may still read when it is past the look at its flag. *)
Definition backlog s : nat :=
  length (link1 s) + match capture s with CaptureRecv _ | CaptureSend _ _ => 1 | _ => 0 end +
  (length (link2 s) + match crypto s with CryptoSend _ => 1 | _ => 0 end).

Record roomy s : Prop := {
  roomy_live : live_inv s;
  roomy_waiting : waiting s;
  roomy_backlog : (backlog s * most ≤ sndbuf)%nat;
  roomy_small : Forall (λ d, len d ≤ MAX_IPC_MSG) (link1 s ++ link2 s);
}.

Lemma used_most q : Forall (λ d, len d ≤ MAX_IPC_MSG) q → (used cost q ≤ length q * most)%nat.
Proof using Hmost.
  induction 1 as [|dg q Hd _ IH]; cbn; [lia|]. unfold used in IH. pose proof (Hmost dg Hd). lia.
Qed.

Lemma sent_small {A : Type} `{RA : Rmp A} (a : A) dg : send_msg a (Ok ()) = Ok dg → len dg ≤ MAX_IPC_MSG.
Proof. unfold send_msg. intros Hs. inv_ok. bool_prop. subst. lia. Qed.

Lemma takes_shorter {A : Type} `{RA : Rmp A} q q' (r : result PrivsepError A) :
  takes q q' r → (length q' ≤ length q)%nat ∧ (∀ a, r = Ok a → length q = S (length q')).
Proof. intros [(d & sys & -> & _ & ->)|[-> [e ->]]]; cbn; split; [lia|done|lia|done]. Qed.

Lemma move_waiting s s' : waiting s → move s s' → waiting s'.
Proof. unfold waiting. intros Hw Hs. destruct Hs; try exact Hw; try done; by rewrite H in Hw. Qed.

Lemma step_waiting s s' : waiting s → step s s' → waiting s'.
Proof. intros Hw [?|[Hs|Hk]]; [by eapply move_waiting|by destruct Hs|by destruct Hk]. Qed.

Lemma takes_fewer {A : Type} `{RA : Rmp A} q q' (rv : result PrivsepError A) d : takes q q' rv → d ∈ q' → d ∈ q.
Proof. intros [(d' & sys & -> & _)|[-> _]]; [|done]. intros. by apply elem_of_cons; right. Qed.

Lemma move_backlog s s' : live_inv s → waiting s → move s s' → (backlog s' ≤ backlog s)%nat.
Proof.
  intros Hi Hw Hs. pose proof (live_term1 _ Hi Hw) as Ht. unfold backlog, waiting in *.
  destruct Hs as [s rl Ec|s rl it rl' st Ec Hin Hl|s rl it rl' msg Ec Hin Hl|s rl it rl' msg d Ec Hl Hs _ _
    |s rl it e rl' st Ec _ Hl|s Ey|s it l1 st Ey (_ & _ & Hin) Hturn|s it l1 reply Ey (_ & _ & Hin) Hturn
    |s it reply d Ey Hturn Hs _|s p stop Ep Hstop|s p it l2 Ep Hin|s p it Ep|s p Ep Hg|s p faults Ep _];
    cbn [capture crypto link1 link2 after_capture after_crypto after_parent] in *;
    rewrite ?Ec, ?Ey, ?Ep, ?Ht, ?length_app in *; cbn [length capture_next]; try done; try lia.
  - destruct st; cbn [capture_next]; lia.
  - destruct (y_term s); cbn [crypto_next]; lia.
  - apply takes_shorter in Hin as [Hle _]. destruct st; cbn [crypto_next]; lia.
  - destruct (crypto_turn_cases _ _ _ _ Hturn) as [[? _]|(m & d & _ & _ & _ & Hm & _)]; [done|].
    apply takes_shorter in Hin as [_ Hlen]. rewrite (Hlen _ Hm). lia.
Qed.

Lemma step_backlog s s' : live_inv s → waiting s → step s s' → (backlog s' ≤ backlog s)%nat.
Proof.
  intros Hi Hw [?|[Hs|Hk]]; [by apply move_backlog|by destruct Hs|]. unfold backlog.
  destruct Hk; cbn; rewrite ?length_app, ?app_nil_r; cbn; lia.
Qed.

Lemma move_small s s' :
  move s s' → Forall (λ d, len d ≤ MAX_IPC_MSG) (link1 s ++ link2 s) →
  Forall (λ d, len d ≤ MAX_IPC_MSG) (link1 s' ++ link2 s').
Proof.
  intros Hs. rewrite !Forall_app, !Forall_forall. intros [H1 H2].
  destruct Hs as [s rl Ec|s rl it rl' st Ec Hin Hl|s rl it rl' msg Ec Hin Hl|s rl it rl' msg d Ec Hl Hs _ _
    |s rl it e rl' st Ec _ Hl|s Ey|s it l1 st Ey (_ & _ & Hin) Hturn|s it l1 reply Ey (_ & _ & Hin) Hturn
    |s it reply d Ey Hturn Hs _|s p stop Ep Hstop|s p it l2 Ep [_ Hin]|s p it Ep|s p Ep Hg|s p faults Ep _];
    cbn [link1 link2 after_capture after_crypto after_parent]; rewrite ?app_nil_r; try done.
  - split; [|done]. intros d' [?| ->%list_elem_of_singleton]%elem_of_app; [auto|exact (sent_small _ _ Hs)].
  - split; [|done]. intros d' Hd. apply H1. exact (takes_fewer _ _ _ _ Hin Hd).
  - split; [|done]. intros d' Hd. apply H1. exact (takes_fewer _ _ _ _ Hin Hd).
  - split; [done|]. intros d' [?| ->%list_elem_of_singleton]%elem_of_app; [auto|exact (sent_small _ _ Hs)].
  - split; [done|]. intros d' Hd. apply H2. exact (takes_fewer _ _ _ _ Hin Hd).
Qed.

Lemma step_small s s' :
  step s s' → Forall (λ d, len d ≤ MAX_IPC_MSG) (link1 s ++ link2 s) →
  Forall (λ d, len d ≤ MAX_IPC_MSG) (link1 s' ++ link2 s').
Proof.
  intros [?|[Hs|Hk]]; [by apply move_small|by destruct Hs|]. destruct Hk; cbn; by rewrite app_nil_r.
Qed.

Lemma reachable_small w rl s :
  rtc step (started config w rl) s → Forall (λ d, len d ≤ MAX_IPC_MSG) (link1 s ++ link2 s).
Proof.
  intros Hr. apply (rtc_ind_r (R := step) (λ s, Forall (λ d, len d ≤ MAX_IPC_MSG) (link1 s ++ link2 s))
    (started config w rl)); [constructor| |done]. intros s1 s2 _ Hs. by apply step_small.
Qed.

Lemma step_roomy s s' : roomy s → step s s' → roomy s'.
Proof.
  intros [Hi Hw Hb Hsm] Hs. pose proof (step_backlog s s' Hi Hw Hs).
  split; [by eapply step_live|by eapply step_waiting|nia|by eapply step_small].
Qed.

Lemma roomy_room s : roomy s → ¬ capture_blocked s ∧ ¬ crypto_blocked s.
Proof using Hmost.
  intros [_ _ Hb [H1 H2]%Forall_app]. apply used_most in H1, H2. unfold backlog in Hb.
  assert (1 ≤ most)%nat by (pose proof (Hmost [] ltac:(done)); lia).
  split; [intros ((rl & it & Ec) & Hf & _); rewrite Ec in Hb|intros ((it & Ey) & Hf); rewrite Ey in Hb]; nia.
Qed.

(** How far the processes are from their ends. *)
Definition remaining s : nat :=
  parent_rank (parent s) + capture_rank (capture s) + crypto_rank (crypto s).

Lemma roomy_progress s : roomy s → done s ∨ ∃ s', move s s' ∧ (remaining s' < remaining s)%nat.
Proof using Hmost.
  intros Hr. destruct (roomy_room s Hr) as [Hroom1 Hroom2]. destruct Hr as [Hi Hw _ _]. unfold remaining.
  destruct (parent_can s) as [?|[Hb|(pp & l2 & c & y & ms & Hs & Hlt)]]; [by left|right|right].
  - unfold parent_blocked in Hb. destruct (parent s) as [p|p|p it|p|p|p] eqn:Ep; try done.
    + destruct (capture_can s Hi) as [?|[?|(c & rs & ms & ds & Hs & Hlt)]]; [congruence|done|].
      eexists. split; [exact Hs|]. cbn [parent capture crypto after_capture after_crypto]. rewrite Ep. specialize (Hlt (live_term1 _ Hi Hw)). lia.
    + destruct (crypto_can s Hi) as [?|[?|(y & l1 & ds & Hs & Hlt)]]; [congruence|done|].
      eexists. split; [exact Hs|]. cbn [parent capture crypto after_capture after_crypto]. rewrite Ep. destruct (live_term2 _ Hi p Ep) as [Ht _]. specialize (Hlt Ht). lia.
  - eexists. split; [exact Hs|]. specialize (Hlt (or_intror Hw)). cbn [parent capture crypto after_parent]. lia.
Qed.

Lemma roomy_completes s : roomy s → ∃ s', rtc move s s' ∧ done s'.
Proof using Hmost.
  induction s as [s IH] using (induction_ltof1 _ remaining). intros Hr.
  destruct (roomy_progress s Hr) as [?|(s1 & Hs & Hlt)]; [by exists s|].
  destruct (IH s1 Hlt (step_roomy _ _ Hr (or_introl Hs))) as (s2 & Hrtc & Hd). exists s2. split; [by eapply rtc_l|done].
Qed.

(** C15: shutdown completes when the buffers can take what is under way. Once
    the parent has left its loop, if the messages still on the way fit into
    one send buffer, then whatever happens next the daemon can finish: from every
    state that follows, the processes by themselves, with no further signal,
    have a way to the end of [run_parent_loop], and so there is no state in
    which they wait for each other. *)
Theorem shutdown_completes w rl s s' :
  rtc step (started config w rl) s → waiting s → (backlog s * most ≤ sndbuf)%nat → rtc step s s' →
  ∃ s'', rtc move s' s'' ∧ done s''.
Proof using Hmost.
  intros Hr Hw Hb Hs. apply roomy_completes.
  assert (roomy s) as H0 by (split; [by eapply reachable_live|done|done|by eapply reachable_small]). clear Hr Hw Hb.
  induction Hs as [|s s1 s2 Hs _ IH]; [done|]. apply IH. by eapply step_roomy.
Qed.
End shutdown.
