(* ===== verification/ProcessRuns.v ===== *)
(** * Runs of the three processes

    Particular runs of the system of Processes.v. A packet that goes all the
    way, and a burst of packets after which the termination signal hangs the
    daemon: the parent stops reading its socket before it waits for workers
    that may be blocked in [send]. *)

From stdpp Require Import relations.
From S2P Require Import Prelude RustStd Net Lru Proto Instances Packet Persist Replay Config RateLimit.
From S2P Require Import Firewall Capture Privsep Sandbox Daemon DaemonRun Fwknoxd Processes ProcessShutdown.

Section hang.
Context `{N : IpNetOps} `{R : Ring} `{M : Rmp SpaPayload} `{L : LruCache Nonce Z} `{HI : HashIter}
  `{LT : LruCache SourceKey TokenBucket}
  `{RC : Rmp CaptureMsg} `{CL : !RmpLaws CaptureMsg} `{CN : !RmpNonempty CaptureMsg}
  `{RY : Rmp CryptoMsg} {B : Type} `{F : !FirewallBackend B}.
Context (config : DaemonConfig) (cost : bytes → nat) (sndbuf : nat) (sigchld : bool).
(** A datagram, the message it becomes, and its answer, whatever it says. *)
Context (d : bytes) (ip : IpAddr) (clock : option Z) (dm dr : bytes).
Context (Htyp : is_bytes d ∧ ip_wf ip).
Context (Hm : send_msg (cut (d, ip)) (Ok ()) = Ok dm).
Context (Hr : send_msg (validate_capture_msg (cut (d, ip)) config clock) (Ok ()) = Ok dr).
Context (Hcost : (1 ≤ cost dm ∧ 1 ≤ cost dr)%nat).
Implicit Types (s : system (B := B)) (rl : RateLimiter) (y : crypto_proc).

Abbreviation move := (move (B := B) config cost sndbuf sigchld).
Abbreviation unkilled := (unkilled (B := B) config cost sndbuf sigchld).
Abbreviation step := (step (B := B) config cost sndbuf sigchld).

Lemma unkilled_run s s' : rtc move s s' → rtc unkilled s s'.
Proof using Type. apply rtc_subrel. by left. Qed.

Lemma step_run s s' : rtc unkilled s s' → rtc step s s'.
Proof using Type. apply rtc_subrel. intros s1 s2 [?|?]; [by left|by right; left]. Qed.

(** The number of equal datagrams that uses up a send buffer. *)
Definition fill (dg : bytes) : nat := (sndbuf + cost dg - 1) / cost dg.

Lemma used_replicate j dg : used cost (replicate j dg) = (j * cost dg)%nat.
Proof. induction j as [|j IH]; [done|]. cbn. unfold used in IH. by rewrite IH. Qed.

Lemma fill_room dg j : (1 ≤ cost dg)%nat → (j < fill dg)%nat → (used cost (replicate j dg) < sndbuf)%nat.
Proof.
  intros Hc Hj. rewrite used_replicate. unfold fill in Hj.
  pose proof (Nat.div_mod (sndbuf + cost dg - 1) (cost dg) ltac:(lia)). nia.
Qed.

Lemma fill_full dg : (1 ≤ cost dg)%nat → (sndbuf ≤ used cost (replicate (fill dg) dg))%nat.
Proof.
  intros Hc. rewrite used_replicate. unfold fill.
  pose proof (Nat.div_mod (sndbuf + cost dg - 1) (cost dg) ltac:(lia)).
  pose proof (Nat.mod_upper_bound (sndbuf + cost dg - 1) (cost dg) ltac:(lia)). nia.
Qed.

Lemma fill_pos dg : (0 < sndbuf)%nat → (1 ≤ cost dg)%nat → (0 < fill dg)%nat.
Proof. intros Hs Hc. apply Nat.div_str_pos. lia. Qed.

(** The limiter lets the source through [n] times. *)
Fixpoint lets_pass (n : nat) rl : bool :=
  match n with
  | O => true
  | S n => match check rl ip 0 0 with (rl', Pass, _) => lets_pass n rl' | _ => false end
  end.

(** [j] messages and [k] answers are queued, and nobody was signalled. *)
Record stage s (c : capture_proc) (j : nat) y (k : nat) (p : ParentState) : Prop := {
  stage_capture : capture s = c ∧ c_term s = false;
  stage_link1 : link1 s = replicate j dm;
  stage_crypto : crypto s = y ∧ y_term s = false;
  stage_link2 : link2 s = replicate k dr;
  stage_parent : parent s = ParentLoop p ∧ ps_triggered p = false;
  stage_flag : p_flag s = false ∧ handled s = [];
}.

Definition arrival : CaptureIter := {|
  ci_shutdown := false; ci_recv := Ok (d, ip); ci_reset_now := 0; ci_now := 0; ci_send := Ok () |}.
Definition taking : CryptoIter := {|
  yi_shutdown := false; yi_recv := Ok (cut (d, ip)); yi_clock := clock; yi_send := Ok () |}.

Definition handing (env : PacketEnv) : ParentIter := {|
  pi_shutdown := false; pi_recv := Ok (validate_capture_msg (cut (d, ip)) config clock); pi_env := env;
  pi_reap := Ok StillAlive; pi_prune_now := 0; pi_prune_faults := no_faults |}.

Lemma arrival_turn rl rl' log :
  check rl ip 0 0 = (rl', Pass, log) → capture_loop rl [arrival] = (rl', [cut (d, ip)], None).
Proof using Hm.
  intros Hc. cbn [capture_loop arrival ci_shutdown ci_recv ci_reset_now ci_now ci_send]. rewrite Hc.
  change (CapturePacket ip (recv_from d)) with (cut (d, ip)). by rewrite Hm.
Qed.

Lemma taking_turn : crypto_turn config taking = ([validate_capture_msg (cut (d, ip)) config clock], None).
Proof using Hr.
  unfold crypto_turn. cbn [crypto_loop crypto_validate taking yi_shutdown yi_recv yi_clock yi_send].
  by rewrite Hr.
Qed.

(** The parent as it enters its loop. *)
Definition entering (w : World B) : ParentState :=
  {| ps_world := w; ps_tick := 0; ps_triggered := false; ps_notes := notify config Ready [] |}.

Lemma stage_started w rl : stage (started config w rl) (CaptureLoop rl) 0 CryptoLoop 0 (entering w).
Proof. by constructor. Qed.

Lemma stage_begin n s rl j y k p :
  stage s (CaptureLoop rl) j y k p → lets_pass (S n) rl = true →
  ∃ s' rl', rtc move s s' ∧ stage s' (CaptureSend rl arrival) j y k p ∧
    capture_loop rl [arrival] = (rl', [cut (d, ip)], None) ∧ lets_pass n rl' = true.
Proof using Hm Htyp.
  intros [[Ec Et] E1 Ey E2 Ep Ef] Hn. cbn [lets_pass] in Hn.
  destruct (check rl ip 0 0) as [[rl' [|reason]] log] eqn:Hc; [|done]. pose proof (arrival_turn _ _ _ Hc) as Hl.
  pose proof (move_capture_check config cost sndbuf sigchld s rl Ec) as H1. rewrite Et in H1.
  eexists _, rl'. split; [eapply rtc_l; [exact H1|]; apply rtc_once; eapply (move_capture_begin _ _ _ _ _ rl arrival)|];
    [done| |exact Hl|].
  - split_and!; [done|done|]. by intros ?? [= <- <-].
  - split; [|done]. constructor; cbn; rewrite ?app_nil_r, ?andb_false_r, ?orb_false_r; done.
Qed.

Lemma stage_sent s rl rl' j y k p :
  stage s (CaptureSend rl arrival) j y k p → capture_loop rl [arrival] = (rl', [cut (d, ip)], None) →
  (j < fill dm)%nat → (∀ st, y ≠ CryptoGone st) →
  ∃ s', move s s' ∧ stage s' (CaptureLoop rl') (S j) y k p.
Proof using Hm Hcost.
  intros [[Ec Et] E1 [Ey Ez] E2 Ep Ef] Hl Hj Hy.
  eexists. split; [eapply (move_capture_sent _ _ _ _ s rl arrival)|]; [done|done|done| | |].
  - rewrite E1. apply fill_room; [apply Hcost|done].
  - unfold crypto_gone. rewrite Ey. destruct y as [| | |st]; [done..|by destruct (Hy st)].
  - constructor; cbn; rewrite ?andb_false_r, ?orb_false_r; try done.
    by rewrite E1, <- replicate_cons_app.
Qed.

Lemma stage_take s c j k p :
  stage s c (S j) CryptoLoop k p → ∃ s', rtc move s s' ∧ stage s' c j (CryptoSend taking) k p.
Proof using CL CN Hm Hr Htyp Hcost.
  intros [Ec E1 [Ey Ez] E2 Ep Ef].
  assert (portable (cut (d, ip))) as Hp by (split; [apply Htyp|apply Forall_take, Htyp]).
  set (sys := (len dm, bool_decide (MAX_IPC_MSG < len dm), dm)).
  assert (takes (link1 s) (replicate j dm) (recv_msg (A := CaptureMsg) (Ok sys))) as Ht.
  { left. exists dm, sys. split_and!; [by rewrite E1|apply whole_delivered|done]. }
  assert (Forall2 sent_as (replicate (S j) (cut (d, ip))) (link1 s)) as Hs.
  { rewrite E1. apply Forall2_replicate. by split. }
  destruct (takes_sent _ _ _ _ Hs Ht) as [[Hl _]|(a & ms & [= <- _] & _ & _ & Hrv)].
  { apply (f_equal length) in Hl. rewrite E1, !length_replicate in Hl. lia. }
  pose proof (move_crypto_check config cost sndbuf sigchld s Ey) as Hc. rewrite Ez in Hc.
  eexists. split; [eapply rtc_l; [exact Hc|]; apply rtc_once;
    eapply (move_crypto_begin _ _ _ _ _ taking (replicate j dm)); [done| |apply taking_turn]|].
  - split_and!; [done|done|]. unfold taking. cbn [yi_recv]. by rewrite <- Hrv.
  - constructor; cbn; rewrite ?app_nil_r, ?andb_false_r, ?orb_false_r; done.
Qed.

Lemma stage_answered s c j k p :
  stage s c j (CryptoSend taking) k p → (k < fill dr)%nat → ∃ s', move s s' ∧ stage s' c j CryptoLoop (S k) p.
Proof using Hr Hcost.
  intros [Ec E1 [Ey Ez] E2 Ep Ef] Hk.
  eexists. split; [eapply (move_crypto_sent _ _ _ _ s taking); [done|apply taking_turn|done|]|].
  - rewrite E2. apply fill_room; [apply Hcost|done].
  - constructor; cbn; rewrite ?andb_false_r, ?orb_false_r; try done. by rewrite E2, <- replicate_cons_app.
Qed.

(** One more message on the way to the crypto worker. *)
Lemma stage_forward n s rl j y k p :
  stage s (CaptureLoop rl) j y k p → lets_pass (S n) rl = true → (j < fill dm)%nat → (∀ st, y ≠ CryptoGone st) →
  ∃ s' rl', rtc move s s' ∧ stage s' (CaptureLoop rl') (S j) y k p ∧ lets_pass n rl' = true.
Proof using Hm Htyp Hcost.
  intros Hs Hn Hj Hy. destruct (stage_begin n s rl j y k p Hs Hn) as (s1 & rl' & H1 & Hs1 & Hl & Hn').
  destruct (stage_sent s1 rl rl' j y k p Hs1 Hl Hj Hy) as (s2 & H2 & Hs2).
  exists s2, rl'. split_and!; [by eapply rtc_r|done|done].
Qed.

Lemma stage_fill2 k n s rl p :
  (k ≤ fill dr)%nat → (0 < fill dm)%nat → stage s (CaptureLoop rl) 0 CryptoLoop 0 p → lets_pass (k + n) rl = true →
  ∃ s' rl', rtc move s s' ∧ stage s' (CaptureLoop rl') 0 CryptoLoop k p ∧ lets_pass n rl' = true.
Proof using CL CN Hm Hr Htyp Hcost.
  intros Hk Hq Hs. revert n. induction k as [|k IH]; intros n Hn; [by exists s, rl|].
  destruct (IH ltac:(lia) (S n)) as (s1 & rl1 & H1 & Hs1 & Hn1); [by rewrite <- plus_n_Sm|].
  destruct (stage_forward n s1 rl1 0 CryptoLoop k p Hs1 Hn1 ltac:(lia)) as (s2 & rl2 & H2 & Hs2 & Hn2); [done|].
  destruct (stage_take s2 _ 0 k p Hs2) as (s3 & H3 & Hs3). destruct (stage_answered s3 _ 0 k p Hs3 Hk) as (s4 & H4 & Hs4).
  exists s4, rl2. split_and!; [|done|done]. etrans; [exact H1|]. etrans; [exact H2|]. by eapply rtc_r.
Qed.

Lemma stage_fill1 j n s rl k p :
  (j ≤ fill dm)%nat → stage s (CaptureLoop rl) 0 (CryptoSend taking) k p → lets_pass (j + n) rl = true →
  ∃ s' rl', rtc move s s' ∧ stage s' (CaptureLoop rl') j (CryptoSend taking) k p ∧ lets_pass n rl' = true.
Proof using Hm Htyp Hcost.
  intros Hj Hs. revert n. induction j as [|j IH]; intros n Hn; [by exists s, rl|].
  destruct (IH ltac:(lia) (S n)) as (s1 & rl1 & H1 & Hs1 & Hn1); [by rewrite <- plus_n_Sm|].
  destruct (stage_forward n s1 rl1 j _ k p Hs1 Hn1 ltac:(lia)) as (s2 & rl2 & H2 & Hs2 & Hn2); [done|].
  exists s2, rl2. split_and!; [by etrans|done|done].
Qed.

(** A packet the limiter lets through reaches the parent. *)
Lemma packet_in_hand `{YL : !RmpLaws CryptoMsg} `{YN : !RmpNonempty CryptoMsg} (w : World B) rl env :
  (0 < sndbuf)%nat → lets_pass 1 rl = true →
  portable (validate_capture_msg (cut (d, ip)) config clock) →
  ∃ s, rtc move (started config w rl) s ∧ handled s = [] ∧ parent s = ParentHandle (entering w) (handing env) ∧
    crypto_gone s = false.
Proof using CL CN Hm Hr Htyp Hcost.
  intros Hq Hn Hp.
  destruct (stage_fill2 1 0 (started config w rl) rl _ (fill_pos dr Hq (proj2 Hcost)) (fill_pos dm Hq (proj1 Hcost))
    (stage_started w rl) Hn) as (s1 & rl1 & H1 & [_ _ [Ey _] E2 [Ep Et] [Ef Eh]] & _).
  pose proof (move_parent_check config cost sndbuf sigchld s1 _ _ Ep eq_refl) as Hc. rewrite Ef, Et in Hc.
  match type of Hc with move _ ?s2 => assert (parent_input s2 (handing env) []) as Hin end.
  { split; [done|]. left. eexists dr, _. split_and!; [exact E2|apply whole_delivered|].
    rewrite (send_recv _ _ _ Hp Hr (whole_delivered dr)), bool_decide_eq_false_2; [done|].
    revert Hr. unfold send_msg. intros Hs. inv_ok. subst. by eapply rmp_nonempty. }
  eexists. split_and!.
  - etrans; [exact H1|]. eapply rtc_l; [exact Hc|]. apply rtc_once.
    by eapply (move_parent_recv _ _ _ _ _ _ (handing env) []).
  - cbn. by rewrite Eh.
  - done.
  - unfold crypto_gone. cbn. by rewrite Ey.
Qed.

(** And is handled. *)
Lemma packet_delivered `{YL : !RmpLaws CryptoMsg} `{YN : !RmpNonempty CryptoMsg} (w : World B) rl env :
  (0 < sndbuf)%nat → lets_pass 1 rl = true →
  portable (validate_capture_msg (cut (d, ip)) config clock) →
  ∃ s, rtc move (started config w rl) s ∧ handled s = [validate_capture_msg (cut (d, ip)) config clock] ∧
    parent s = ParentLoop (parent_iter config (handing env) (entering w)).
Proof using CL CN Hm Hr Htyp Hcost.
  intros Hq Hn Hp. destruct (packet_in_hand w rl env Hq Hn Hp) as (s & Hs & Eh & Ep & _).
  eexists. split_and!; [eapply rtc_r; [exact Hs|by eapply move_parent_handle]|cbn; by rewrite Eh|done].
Qed.

(** Both buffers full, both workers in [send]. *)
Lemma stage_flooded s rl p :
  (0 < fill dm)%nat → stage s (CaptureLoop rl) 0 CryptoLoop 0 p → lets_pass (fill dm + fill dr + 2) rl = true →
  ∃ s' rl', rtc move s s' ∧ stage s' (CaptureSend rl' arrival) (fill dm) (CryptoSend taking) (fill dr) p.
Proof using CL CN Hm Hr Htyp Hcost.
  intros Hq Hs Hn.
  destruct (stage_fill2 (fill dr) (S (fill dm + 1)) s rl p ltac:(lia) Hq Hs) as (s1 & rl1 & H1 & Hs1 & Hn1).
  { by replace (fill dr + S (fill dm + 1))%nat with (fill dm + fill dr + 2)%nat by lia. }
  destruct (stage_forward (fill dm + 1) s1 rl1 0 CryptoLoop _ p Hs1 Hn1 Hq) as (s2 & rl2 & H2 & Hs2 & Hn2); [done|].
  destruct (stage_take s2 _ 0 _ p Hs2) as (s3 & H3 & Hs3).
  destruct (stage_fill1 (fill dm) 1 s3 rl2 _ p ltac:(lia) Hs3 Hn2) as (s4 & rl4 & H4 & Hs4 & Hn4).
  destruct (stage_begin 0 s4 rl4 _ _ _ p Hs4 Hn4) as (s5 & rl5 & H5 & Hs5 & _).
  exists s5, rl4. split; [|done]. etrans; [exact H1|]. etrans; [exact H2|]. etrans; [exact H3|]. by etrans.
Qed.

Lemma flooded_hangs (w : World B) rl :
  (0 < sndbuf)%nat → lets_pass (fill dm + fill dr + 2) rl = true →
  ∃ s, rtc unkilled (started config w rl) s ∧ nf unkilled s ∧ c_term s && y_term s && p_flag s = true ∧ ¬ done s.
Proof using CL CN Hm Hr Htyp Hcost.
  intros Hq Hn. destruct (stage_flooded (started config w rl) rl _ (fill_pos dm Hq (proj1 Hcost)) (stage_started w rl) Hn)
    as (s1 & rl1 & H1%unkilled_run & [[Ec Et] E1 [Ey Ez] E2 [Ep Etr] [Ef _]]).
  assert (signal s1 (signalled s1 true true true)) as H2 by (constructor; by rewrite Et).
  pose proof (move_parent_check config cost sndbuf sigchld (signalled s1 true true true) _ _ Ep eq_refl) as H3.
  cbn [p_flag signalled] in H3. rewrite !orb_true_r in H3.
  match type of H3 with move _ ?x => set (s2 := x) in H3 end.
  assert (rtc unkilled (started config w rl) s2) as Hrun.
  { etrans; [exact H1|]. eapply rtc_l; [by right|]. apply rtc_once. by left. }
  exists s2. split_and!; [done| |cbn; by rewrite !orb_true_r|by intros [p' ?]].
  apply flags_stuck; [|cbn; by rewrite !orb_true_r].
  apply deadlocked_stuck; [by eapply reachable_live, step_run|].
  split; [split; [by eexists|cbn; rewrite E2; apply fill_full, Hcost]|].
  split_and!; [by eexists _, _|cbn; rewrite E1; apply fill_full, Hcost|]. unfold crypto_gone. cbn. by rewrite Ey.
Qed.

(** C16: a shutdown can hang. Whatever the size of the send buffers, if the
    limiter lets a burst through that fills both and two packets more, of any
    content, even one that no key matches, then a termination signal, even
    when it goes to all three processes, can find both workers blocked in
    [send]: the parent stops reading before it waits for them, and from there
    no process ever moves again, whatever signal it gets, unless a worker is
    killed. *)
Theorem shutdown_can_hang (w : World B) rl :
  (0 < sndbuf)%nat → lets_pass (fill dm + fill dr + 2) rl = true →
  ∃ s, rtc unkilled (started config w rl) s ∧ nf unkilled s ∧ c_term s && y_term s && p_flag s = true ∧ ¬ done s.
Proof using CL CN Hm Hr Htyp Hcost. apply flooded_hangs. Qed.
End hang.

(** ** Witnesses *)

#[local] Existing Instance sample_rmp.
#[local] Existing Instance sample_rmp_laws.
#[local] Existing Instance sorted_hash_iter.
#[local] Existing Instance sorted_hash_iter_laws.

(** The sample packet through the sample codecs. *)
Definition sample_source : IpAddr := V4 [192; 168; 1; 5].
Definition knock_msg : CaptureMsg := cut (stanza_wire, sample_source).
Definition knock_wire_rmp : Rmp WireCaptureMsg := table_rmp [serialize_capture knock_msg].
#[local] Instance knock_rmp : Rmp CaptureMsg := @capture_msg_rmp _ knock_wire_rmp.
#[local] Existing Instance sample_crypto_codec.
#[local] Existing Instance sample_crypto_codec_laws.

#[local] Instance knock_rmp_laws : RmpLaws CaptureMsg.
Proof.
  apply (@capture_msg_rmp_laws _ knock_wire_rmp), table_rmp_laws.
  repeat constructor; vm_compute; discriminate.
Qed.

Lemma table_nonempty {A : Type} `{EqDecision A} (samples : list A) : @RmpNonempty A (table_rmp samples).
Proof. intros a v. cbn. unfold table_to_vec. destruct (list_find _ _) as [[i x]|]; [by intros [= <-]|done]. Qed.
#[local] Instance knock_nonempty : RmpNonempty CaptureMsg.
Proof. intros a v. apply (table_nonempty [serialize_capture knock_msg] (serialize_capture a)). Qed.
#[local] Instance crypto_nonempty : RmpNonempty CryptoMsg.
Proof. intros a v. apply (table_nonempty _ (serialize_crypto a)). Qed.

Definition one_each (d : bytes) : nat := 1.
Abbreviation sample_move := (move (B := Nft.NftablesBackend (gset grant)) sample_config one_each 1 true).
Abbreviation sample_unkilled := (unkilled (B := Nft.NftablesBackend (gset grant)) sample_config one_each 1 true).
Abbreviation sample_step := (step (B := Nft.NftablesBackend (gset grant)) sample_config one_each 1 true).
Abbreviation sample_start := (started sample_config sample_world small_limiter).

Lemma knock_typed : is_bytes stanza_wire ∧ ip_wf sample_source.
Proof. split; [apply (bool_decide_unpack _); vm_compute; exact I|]. repeat constructor; vm_compute; discriminate. Qed.
Lemma knock_sent : send_msg knock_msg (Ok ()) = Ok [0].
Proof. vm_compute. reflexivity. Qed.
Lemma knock_answered : send_msg (validate_capture_msg knock_msg sample_config (Some 1700000005)) (Ok ()) = Ok [0].
Proof. vm_compute. reflexivity. Qed.
Lemma knock_passes : lets_pass sample_source 4 small_limiter = true.
Proof. vm_compute. reflexivity. Qed.

Lemma sample_delivered :
  ∃ s, rtc sample_step sample_start s ∧
    handled s = [validate_capture_msg knock_msg sample_config (Some 1700000005)] ∧
    sample_door ∈ fw_doors (w_fw (ps_world (parent_state s))).
Proof.
  destruct (packet_delivered sample_config one_each 1 true stanza_wire sample_source (Some 1700000005) [0] [0]
    knock_typed knock_sent knock_answered (conj (le_n 1) (le_n 1)) sample_world small_limiter sample_env)
    as (s & Hr & Hh & Ep).
  - lia.
  - vm_compute. reflexivity.
  - assert (validate_capture_msg (cut (stanza_wire, sample_source)) sample_config (Some 1700000005) =
      ValidRequest (lit "ssh") sample_source sample_payload) as -> by (vm_compute; reflexivity).
    split; [apply knock_typed|apply sample_portable].
  - exists s. split_and!; [by apply step_run, unkilled_run|exact Hh|]. unfold parent_state. rewrite Ep.
    apply (bool_decide_unpack _). vm_compute. exact I.
Qed.

Lemma system_doors_justified_witness :
  ∃ s, rtc sample_step sample_start s ∧ sample_door ∈ fw_doors (w_fw (ps_world (parent_state s))) ∧
    (sample_door ∈ fw_doors (w_fw sample_world) ∨
     ∃ d ip clock, (d, ip) ∈ seen s ∧ packet_opens sample_config clock ip (take 1500 d) sample_door).
Proof.
  destruct sample_delivered as (s & Hr & _ & Hg). exists s. split; [exact Hr|]. split; [exact Hg|].
  exact (system_doors_justified sample_config (proj1 (proj2 sample_config_ok)) one_each 1 true
    sample_world small_limiter s sample_door Hr Hg).
Defined.

Lemma system_in_order_witness :
  ∃ s taken rest, forwarded s = taken ++ rest ∧ Forall2 (answers sample_config) taken (handled s) ∧
    forwarded s `sublist_of` cut <$> seen s ∧
    handled s = [validate_capture_msg knock_msg sample_config (Some 1700000005)] ∧
    rtc sample_step sample_start s.
Proof.
  destruct sample_delivered as (s & Hr & Hh & _).
  destruct (system_in_order sample_config (proj1 (proj2 sample_config_ok)) one_each 1 true
    sample_world small_limiter s Hr) as (taken & rest & Hf & Ha & Hsub).
  exists s, taken, rest. exact (conj Hf (conj Ha (conj Hsub (conj Hh Hr)))).
Defined.

Lemma shutdown_can_hang_witness :
  ∃ s, rtc sample_unkilled sample_start s ∧ nf sample_unkilled s ∧ c_term s && y_term s && p_flag s = true ∧ ¬ done s.
Proof.
  apply (shutdown_can_hang sample_config one_each 1 true stanza_wire sample_source (Some 1700000005) [0] [0]
    knock_typed knock_sent knock_answered (conj (le_n 1) (le_n 1)) sample_world small_limiter (le_n 1) knock_passes).
Defined.

Lemma sample_stuck : ∃ s, rtc sample_step sample_start s ∧ nf sample_move s ∧ ¬ done s.
Proof.
  destruct (flooded_hangs sample_config one_each 1 true stanza_wire sample_source (Some 1700000005) [0] [0]
    knock_typed knock_sent knock_answered (conj (le_n 1) (le_n 1)) sample_world small_limiter (le_n 1) knock_passes)
    as (s & Hr & Hnf & _ & Hd).
  exists s. split_and!; [by apply step_run| |done]. intros [s' Hs]. apply Hnf. exists s'. by left.
Qed.

Lemma stuck_only_in_shutdown_witness :
  (∃ s, rtc sample_step sample_start s ∧ nf sample_move s ∧ deadlocked one_each 1 s) ∧ ¬ nf sample_move sample_start.
Proof.
  split.
  - destruct sample_stuck as (s & Hr & Hnf & Hd). exists s. split; [exact Hr|]. split; [exact Hnf|].
    destruct (proj1 (stuck_only_in_shutdown sample_config one_each 1 true sample_world small_limiter s Hr) Hnf) as [H|H].
    + destruct (Hd H).
    + exact H.
  - intros Hnf. destruct (proj1 (stuck_only_in_shutdown sample_config one_each 1 true sample_world small_limiter
      _ (rtc_refl _ _)) Hnf) as [[p H]|[_ H]]; [discriminate H|exact H].
Defined.

(** The parent is told to stop before any packet came. *)
Lemma sample_stopped : ∃ s, rtc sample_step sample_start s ∧ waiting s ∧ backlog s = 0%nat.
Proof.
  eexists. split_and!.
  - eapply rtc_l; [right; left; by apply (signal_flags _ false false true)|]. apply rtc_once. left.
    by eapply move_parent_check.
  - done.
  - done.
Qed.

Lemma shutdown_completes_witness :
  ∃ s, rtc sample_step sample_start s ∧ waiting s ∧ ∃ s', rtc sample_move s s' ∧ done s'.
Proof.
  destruct sample_stopped as (s & Hr & Hw & Hb). exists s. split; [exact Hr|]. split; [exact Hw|].
  apply (shutdown_completes sample_config one_each 1 true 1 (λ d _, conj (le_n 1) (le_n 1))
    sample_world small_limiter s s Hr Hw).
  - rewrite Hb. lia.
  - apply rtc_refl.
Defined.

(** The capture worker is told to stop in the middle of an iteration. *)
Lemma sample_told :
  ∃ s, rtc sample_step sample_start s ∧ c_term s = true ∧ capture_rank (capture s) = 3%nat.
Proof.
  eexists. split_and!.
  - eapply rtc_l; [left; by eapply move_capture_check|]. apply rtc_once. right; left. by apply (signal_flags _ true false false).
  - done.
  - done.
Qed.

Lemma signalled_processes_end_witness :
  ∃ s, rtc sample_step sample_start s ∧ c_term s = true ∧ capture_rank (capture s) = 3%nat ∧
    winds_down sample_config one_each 1 true capture capture_rank c_term (capture_blocked one_each 1) s.
Proof.
  destruct sample_told as (s & Hr & Ht & Hk). exists s. split; [exact Hr|]. split; [exact Ht|]. split; [exact Hk|].
  exact (proj1 (signalled_processes_end sample_config one_each 1 true sample_world small_limiter s Hr) Ht).
Defined.

(** The crypto worker is killed when the parent has the answer in hand: the
    door is opened, and the loop ends. *)
Lemma sample_dead :
  ∃ s s', rtc sample_step sample_start s ∧ capture_gone s || crypto_gone s = true ∧ handled s = [] ∧
    (sample_door ∉ doors_now s) ∧ rtc sample_step s s' ∧ sample_door ∈ doors_now s'.
Proof.
  destruct (packet_in_hand sample_config one_each 1 true stanza_wire sample_source (Some 1700000005) [0] [0]
    knock_typed knock_sent knock_answered (conj (le_n 1) (le_n 1)) sample_world small_limiter sample_env)
    as (s & Hr & Hh & Ep & Hg).
  - lia.
  - vm_compute. reflexivity.
  - assert (validate_capture_msg (cut (stanza_wire, sample_source)) sample_config (Some 1700000005) =
      ValidRequest (lit "ssh") sample_source sample_payload) as -> by (vm_compute; reflexivity).
    split; [apply knock_typed|apply sample_portable].
  - set (s1 := after_crypto true s (CryptoGone ChildKilled) (link1 s) []).
    assert (parent s1 = ParentHandle (entering sample_config sample_world)
      (handing sample_config stanza_wire sample_source (Some 1700000005) sample_env)) as Ep1 by exact Ep.
    eexists s1, _. split_and!.
    + eapply rtc_r; [by apply step_run, unkilled_run|]. right; right. by apply kill_crypto.
    + apply orb_true_r.
    + exact Hh.
    + unfold doors_now, parent_state. rewrite Ep1. apply (bool_decide_unpack _). vm_compute. exact I.
    + apply rtc_once. left. by eapply move_parent_handle.
    + unfold doors_now, parent_state. cbn [parent after_parent]. apply (bool_decide_unpack _). vm_compute. exact I.
Qed.

Lemma dead_worker_fails_closed_witness :
  ∃ s s', rtc sample_step s s' ∧ (sample_door ∉ doors_now s) ∧ sample_door ∈ doors_now s' ∧
    ∃ ms, (length ms ≤ 1)%nat ∧ handled s' = handled s ++ ms ∧ doors_now s' ⊆ doors_now s ∪ ⋃ (asked <$> ms).
Proof.
  destruct sample_dead as (s & s' & Hr & Hg & _ & Hn & Hs & Hd). exists s, s'. split; [exact Hs|]. split; [exact Hn|].
  split; [exact Hd|].
  exact (proj1 (dead_worker_fails_closed sample_config one_each 1 true sample_world small_limiter s s' eq_refl Hr Hg Hs)).
Defined.
