(* ===== verification/ProcessRefine.v ===== *)
(** * The three processes are one daemon

    The system of Processes.v is compared with the sequential daemon of
    Daemon.v, which handles one packet after the other and prunes in between:
    every interleaving has the effect of a run of that daemon on the packets
    the parent has dealt with, in order. And nothing that is on its way can be
    lost while the processes run. *)

From stdpp Require Import relations.
From S2P Require Import Prelude RustStd Net Lru Proto Instances Packet Persist Replay Config RateLimit.
From S2P Require Import Firewall Capture Privsep Sandbox Daemon DaemonRun Expiry Fwknoxd Processes ProcessShutdown ProcessRuns.

Definition pkt_of (m : CaptureMsg) : CapturedPacket :=
  let '(CapturePacket ip data) := m in {| cap_source_ip := ip; cap_data := data |}.

(** The packets of a run of the sequential daemon. *)
Definition packets (ops : list daemon_op) : list CapturedPacket :=
  omap (λ op, match op with OpPacket captured _ => Some captured | _ => None end) ops.

(** A packet and its answer as the sequential daemon sees them: one that was
    rejected is as if it had not come. *)
Definition kept (x : CaptureMsg * CryptoMsg) : option CapturedPacket :=
  match x.2 with CryptoRejected _ _ => None | _ => Some (pkt_of x.1) end.

Section refine.
Context `{N : IpNetOps} `{U : UnicodeTables} `{R : Ring} `{M : Rmp SpaPayload} `{ML : !RmpLaws SpaPayload}
  `{L : LruCache Nonce Z} `{LL : !LruLaws Nonce Z L} `{HL : HashIterLaws}
  `{LT : LruCache SourceKey TokenBucket}
  `{RC : Rmp CaptureMsg} `{CL : !RmpLaws CaptureMsg} `{CN : !RmpNonempty CaptureMsg}
  `{RY : Rmp CryptoMsg} `{YL : !RmpLaws CryptoMsg} `{YN : !RmpNonempty CryptoMsg}
  {B : Type} `{F : !FirewallBackend B} `{FL : !FirewallLaws B}.
Context (config : DaemonConfig) (Hvalid : config_valid config)
  (cost : bytes → nat) (sndbuf : nat) (sigchld : bool).
Implicit Types (s : system (B := B)) (w : World B) (ops : list daemon_op).

Abbreviation move := (move (B := B) config cost sndbuf sigchld).
Abbreviation step := (step (B := B) config cost sndbuf sigchld).

(** ** One iteration of the parent *)

Lemma handle_as_packet m clock env w :
  let r := validate_capture_msg m config clock in
  ∃ ops, handle_crypto_msg r config env w = daemon_run config w ops ∧ packets ops = omap kept [(m, r)].
Proof using LL HL Hvalid.
  destruct m as [ip data]. set (env' := {| env_clock := clock; env_replay_now := env_replay_now env;
    env_faults := env_faults env |}). cbv zeta.
  pose proof (privsep_agrees config env' w ip data Hvalid) as Ha. cbv zeta in Ha.
  change (env_clock env') with clock in Ha.
  destruct (process_packet _ config env' w) as [w1 res] eqn:E.
  destruct (validate_capture_msg (CapturePacket ip data) config clock) as [name ip' p|ip' reason|ip'].
  - exists [OpPacket {| cap_source_ip := ip; cap_data := data |} env']. split; [|done].
    cbn [daemon_run foldl daemon_exec]. rewrite E. exact Ha.
  - exists []. by split; [apply Ha|].
  - exists [OpPacket {| cap_source_ip := ip; cap_data := data |} env']. split; [|done].
    cbn [daemon_run foldl daemon_exec]. rewrite E. by destruct Ha as (_ & -> & _).
Qed.

Lemma prune_as_op tick now faults w :
  ∃ ops, prune_tick config tick now faults w = daemon_run config w ops ∧ packets ops = [].
Proof.
  unfold prune_tick. destruct (_ =? 0); [|by exists []].
  by exists [OpPruneCache (max_age (replay config)) now faults].
Qed.

Lemma daemon_run_app w ops ops' :
  daemon_run config w (ops ++ ops') = daemon_run config (daemon_run config w ops) ops'.
Proof. apply foldl_app. Qed.

Lemma packets_app ops ops' : packets (ops ++ ops') = packets ops ++ packets ops'.
Proof. apply omap_app. Qed.

(** ** The simulation *)

(** The state [s] of the three processes is that of the sequential daemon
    after [ops]; at the end the parent has also shut the daemon down. *)
Record simulates w s ops : Prop := {
  sim_packets : packets ops = omap kept (zip (forwarded s) (handled s));
  sim_world :
    match parent s with
    | ParentDone p => ∃ faults, ps_world p = shutdown_steps config faults (daemon_run config w ops)
    | ParentLoop p | ParentRecv p | ParentHandle p _ | ParentWaitCapture p | ParentWaitCrypto p =>
        ps_world p = daemon_run config w ops
    end;
}.

Lemma handled_le s : in_order config s → (length (handled s) ≤ length (forwarded s))%nat.
Proof.
  intros (taken & lost & rest & queued & pending & -> & _ & _ & Ha & _). apply Forall2_length in Ha.
  rewrite !length_app in *. lia.
Qed.

Lemma zip_more {X Y : Type} (xs xs' : list X) (ys : list Y) :
  (length ys ≤ length xs)%nat → zip (xs ++ xs') ys = zip xs ys.
Proof.
  revert ys. induction xs as [|x xs IH]; intros [|y ys] Hle; cbn in *; [by destruct xs'|lia|done|].
  f_equal. apply IH. lia.
Qed.

Lemma zip_snoc {X Y : Type} (xs : list X) (ys : list Y) x y :
  xs !! length ys = Some x → zip xs (ys ++ [y]) = zip xs ys ++ [(x, y)].
Proof.
  revert xs. induction ys as [|y' ys IH]; intros [|x' xs] Hx; cbn in *; [done| |done|].
  - injection Hx as ->. by destruct xs.
  - f_equal. by apply IH.
Qed.

(** The workers and signals do not touch the state of the daemon. *)
Lemma sim_stutter w s s' ops ms :
  in_order config s → simulates w s ops → parent s' = parent s → handled s' = handled s →
  forwarded s' = forwarded s ++ ms → simulates w s' ops.
Proof.
  intros Ho [Hp Hw] Ep Eh Ef. split; [|by rewrite Ep]. rewrite Ef, Eh, zip_more; [done|by apply handled_le].
Qed.

(** The parent handles the message it has in hand. *)
Lemma sim_handle w s ops p it :
  in_order config s → simulates w s ops → parent s = ParentHandle p it →
  ∃ new, simulates w (after_parent s (ParentLoop (parent_iter config it p)) (link2 s) false false (handles it))
    (ops ++ new).
Proof using LL HL Hvalid.
  intros Ho [Hp Hw] Ep. rewrite Ep in Hw. unfold handles.
  destruct (prune_as_op (wrap_u64 (ps_tick p + 1)) (pi_prune_now it) (pi_prune_faults it)
    (match pi_recv it with
     | Ok msg => handle_crypto_msg msg config (pi_env it) (ps_world p)
     | Err _ => ps_world p
     end)) as (o2 & E2 & Ho2).
  destruct (pi_recv it) as [r|e] eqn:Hr.
  - destruct (in_hand_answers config s p it r Ho Ep Hr) as (m & Hm & [clock ->]).
    destruct (handle_as_packet m clock (pi_env it) (daemon_run config w ops)) as (o1 & E1 & Ho1).
    exists (o1 ++ o2). rewrite Hw, E1 in E2. split.
    + cbn [forwarded handled after_parent].
      by rewrite !packets_app, Ho1, Ho2, app_nil_r, Hp, (zip_snoc _ _ _ _ Hm), omap_app.
    + cbn [parent after_parent]. unfold parent_iter. cbn [ps_world]. by rewrite Hr, Hw, E1, E2, !daemon_run_app.
  - exists o2. rewrite Hw in E2. split; [cbn [forwarded handled after_parent]; by rewrite packets_app, Ho2, !app_nil_r|].
    cbn [parent after_parent]. unfold parent_iter. cbn [ps_world]. by rewrite Hr, Hw, E2, daemon_run_app.
Qed.

Lemma sim_move w s s' ops :
  system_inv config w s → simulates w s ops → move s s' → ∃ new, simulates w s' (ops ++ new).
Proof using LL HL Hvalid.
  intros Hi Hs Hstep. pose proof (inv_order _ _ _ Hi) as Ho.
  destruct Hstep as [s rl Ec|s rl it rl' st Ec Hin Hl|s rl it rl' msg Ec Hin Hl|s rl it rl' msg d Ec Hl Hd _ _
    |s rl it e rl' st Ec _ Hl|s Ey|s it l1 st Ey Hin Ht|s it l1 reply Ey Hin Ht|s it reply d Ey Ht Hd _
    |s p stop Ep Hstop|s p it l2 Ep Hin|s p it Ep|s p Ep _|s p faults Ep _].
  12: by eapply sim_handle.
  all: exists []; rewrite app_nil_r.
  1-5: by eapply sim_stutter.
  1-4: by eapply (sim_stutter w s _ ops []); [done..|cbn; by rewrite app_nil_r].
  all: destruct Hs as [Hp Hw]; rewrite Ep in Hw; split; [cbn; by rewrite app_nil_r|].
  - by destruct stop.
  - done.
  - done.
  - cbn. rewrite Hw. by eexists.
Qed.

(** Signals and kills do not touch the state of the daemon either. *)
Lemma sim_step w s s' ops :
  system_inv config w s → simulates w s ops → step s s' → ∃ new, simulates w s' (ops ++ new).
Proof using LL HL Hvalid.
  intros Hi Hs [?|[H|H]]; [by eapply sim_move|..]; exists []; rewrite app_nil_r; pose proof (inv_order _ _ _ Hi) as Ho.
  all: destruct H; by eapply (sim_stutter w s _ ops []); [done..|cbn; by rewrite ?app_nil_r].
Qed.

Lemma reachable_sim w rl s : rtc step (started config w rl) s → ∃ ops, simulates w s ops.
Proof using LL HL FL Hvalid ML CL CN YL YN.
  pose proof Hvalid as (_ & Hnd & _). intros Hr.
  cut (system_inv config w s ∧ ∃ ops, simulates w s ops); [tauto|].
  apply (rtc_ind_r (R := step) (λ s, system_inv config w s ∧ ∃ ops, simulates w s ops) (started config w rl)).
  - split; [by apply started_inv|]. by exists [].
  - intros s1 s2 _ Hs [Hi [ops Ho]]. split; [by eapply step_inv|]. destruct (sim_step _ _ _ _ Hi Ho Hs); eauto.
  - done.
Qed.

Lemma kept_sublist ms rs : omap kept (zip ms rs) `sublist_of` pkt_of <$> ms.
Proof.
  revert rs. induction ms as [|m ms IH]; intros [|r rs]; cbn; [done|done|apply sublist_nil_l|].
  destruct (kept (m, r)) eqn:E; [|by apply sublist_cons].
  unfold kept in E. cbn [fst snd] in E. destruct r; simplify_eq; by apply sublist_skip.
Qed.

(** C6: the three processes refine the sequential daemon. Whatever the order
    in which they run, the replay cache, the files and the firewall of the
    parent are, at every moment, those of a daemon that handled packets one by
    one with [process_packet] and pruned now and then (and, once the parent
    has returned, ran the steps of shutdown): exactly the packets the parent
    has dealt with and did not see rejected, in order, which are datagrams the
    capture worker read, in the order of the socket. *)
Theorem system_refines_daemon w rl s :
  rtc step (started config w rl) s →
  ∃ ops, simulates w s ops ∧ packets ops `sublist_of` pkt_of <$> (cut <$> seen s).
Proof using LL HL FL Hvalid ML CL CN YL YN.
  intros Hr. destruct (reachable_sim w rl s Hr) as [ops Hs]. exists ops. split; [done|].
  pose proof Hvalid as (_ & Hnd & _).
  rewrite (sim_packets _ _ _ Hs). etrans; [apply kept_sublist|]. apply fmap_sublist.
  etrans; [|exact (inv_seen _ _ _ (reachable_inv config Hnd cost sndbuf sigchld w rl s Hr))].
  by apply sublist_inserts_r.
Qed.

(** C9: the time a door has left, in the three processes. With timeouts of a
    second or more and clocks that do not run backwards, at every moment of
    every interleaving, and after shutdown, a door the daemon opened closes at
    most [max_fw_timeout] from then: every other element of the kernel's set
    was there at the start, with the same deadline. *)
Theorem system_doors_expire `{T : !TimedFirewall B} `{C : !FirewallClock B} w rl s g d :
  whole_timeouts config → rtc step (started config w rl) s →
  world_deadlines (ps_world (parent_state s)) !! g = Some d →
  world_deadlines w !! g = Some d ∨
  ∃ e, d = At e ∧ e ≤ world_now (ps_world (parent_state s)) + max_fw_timeout (daemon config).
Proof using LL HL FL Hvalid ML CL CN YL YN.
  pose proof Hvalid as (_ & Hnd & _). intros Hw Hr. destruct (reachable_sim w rl s Hr) as (ops & _ & Hs).
  pose proof (daemon_run_left config w ops Hnd Hw) as Hl. revert g d. change (time_left config w (ps_world (parent_state s))).
  unfold parent_state. destruct (parent s) as [p|p|p it|p|p|p]; [by rewrite Hs..|].
  destruct Hs as [faults ->]. by apply shutdown_left.
Qed.

(** ** Nothing is lost *)

(** The crypto worker and the parent have not ended or been told to. *)
Definition running s : Prop :=
  p_flag s = false ∧ y_term s = false ∧ crypto_gone s = false ∧
  ∃ p, ps_triggered p = false ∧
    (parent s = ParentLoop p ∨ parent s = ParentRecv p ∨
     ∃ it, parent s = ParentHandle p it ∧ try_reap_any_child (pi_reap it) = Ok None).

(** The answer to a message fits a datagram. *)
Definition answerable (m : CaptureMsg) : Prop :=
  ∃ clock d, send_msg (validate_capture_msg m config clock) (Ok ()) = Ok d.

(** What is between the capture worker and the end of an iteration of the
    parent, in moves at most. *)
Definition on_the_way s : nat :=
  8 * length (link1 s) + match crypto s with CryptoSend _ => 6 | CryptoRecv => 0 | _ => 1 end +
  4 * length (link2 s) + match parent s with ParentHandle _ _ => 2 | ParentRecv _ => 0 | _ => 1 end.

Definition idle_at s : Prop :=
  link1 s = [] ∧ link2 s = [] ∧ in_hand s = [] ∧ ∀ it, crypto s ≠ CryptoSend it.

Definition drains s : Prop :=
  ∃ s', move s s' ∧ running s' ∧ forwarded s' = forwarded s ∧ (on_the_way s' < on_the_way s)%nat.

Lemma parent_drains s : running s → (link2 s ≠ [] ∨ ∀ p, parent s ≠ ParentRecv p) → drains s.
Proof.
  intros (Hf & Hy & Hg & p & Ht & Hp) Hmore. destruct Hp as [Ep|[Ep|(it & Ep & Hreap)]].
  - pose proof (move_parent_check config cost sndbuf sigchld s p _ Ep eq_refl) as Hs. rewrite Ht, Hf in Hs.
    eexists. split_and!; [exact Hs| |done|].
    + split_and!; cbn; [done|by rewrite orb_false_r|done|]. exists p. by auto.
    + unfold on_the_way. cbn. rewrite Ep. lia.
  - destruct (link2 s) as [|d q] eqn:E2; [by destruct Hmore as [?|Hn]; [|destruct (Hn p)]|].
    set (sys := (len d, bool_decide (MAX_IPC_MSG < len d), d)).
    set (it := {| pi_shutdown := false; pi_recv := recv_msg (A := CryptoMsg) (Ok sys);
      pi_env := {| env_clock := None; env_replay_now := 0; env_faults := no_faults |};
      pi_reap := Ok StillAlive; pi_prune_now := 0; pi_prune_faults := no_faults |}).
    eexists. split_and!.
    + apply (move_parent_recv _ _ _ _ s p it q Ep). split; [done|]. left. exists d, sys.
      split_and!; [done|apply whole_delivered|done].
    + split_and!; cbn; [done|by rewrite orb_false_r|done|]. exists p. split; [done|]. right; right. by exists it.
    + done.
    + unfold on_the_way. cbn. rewrite E2, Ep. cbn. lia.
  - eexists. split_and!; [by eapply move_parent_handle| |done|].
    + split_and!; cbn [p_flag y_term parent after_parent]; [done|by rewrite orb_false_r|done|].
      eexists. split; [|by left]. unfold parent_iter. cbn [ps_triggered]. by rewrite Hreap.
    + unfold on_the_way. cbn. rewrite Ep. lia.
Qed.

Lemma crypto_drains s :
  (0 < sndbuf)%nat → in_order config s → running s → link2 s = [] →
  (link1 s ≠ [] ∨ crypto s ≠ CryptoRecv) → Forall answerable (forwarded s) → drains s.
Proof using CL CN.
  intros Hq Ho (Hf & Hy & Hg & Hp) E2 Hmore Hfit.
  destruct Ho as (taken & lost & rest & queued & pending & Ef & H1 & _ & _ & _ & Hc).
  destruct (crypto s) as [| |it|st] eqn:Ey; [| | |unfold crypto_gone in Hg; by rewrite Ey in Hg].
  - pose proof (move_crypto_check config cost sndbuf sigchld s Ey) as Hs. rewrite Hy in Hs.
    eexists. split_and!; [exact Hs| |done|].
    + split_and!; cbn; [by rewrite Hf, andb_false_r|done|done|done].
    + unfold on_the_way. cbn. rewrite Ey, app_nil_r. lia.
  - destruct (link1 s) as [|d q] eqn:E1; [by destruct Hmore|].
    set (sys := (len d, bool_decide (MAX_IPC_MSG < len d), d)).
    assert (takes (link1 s) q (recv_msg (A := CaptureMsg) (Ok sys))) as Ht.
    { left. exists d, sys. split_and!; [done|apply whole_delivered|done]. }
    rewrite <- E1 in H1.
    destruct (takes_sent _ _ _ _ H1 Ht) as [[E _]|(m & rest' & -> & _ & _ & Hrv)].
    { rewrite E1 in E. apply (f_equal length) in E. cbn in E. lia. }
    rewrite Ef, !Forall_app, Forall_cons in Hfit. destruct Hfit as (_ & _ & (clock & dr & Hs) & _).
    set (it := {| yi_shutdown := false; yi_recv := Ok m; yi_clock := clock; yi_send := Ok () |}).
    eexists. split_and!.
    + eapply (move_crypto_begin _ _ _ _ s it q (validate_capture_msg m config clock)); [done| |].
      * split_and!; [done|done|]. cbn. by rewrite <- Hrv.
      * unfold crypto_turn. cbn [crypto_loop yi_shutdown yi_recv yi_clock yi_send it crypto_validate]. by rewrite Hs.
    + split_and!; cbn; [by rewrite Hf, andb_false_r|done|done|done].
    + done.
    + unfold on_the_way. cbn. rewrite Ey, E1, app_nil_r. cbn. lia.
  - destruct Hc as (r & d & _ & Ht & [_ Hs]). eexists. split_and!.
    + eapply (move_crypto_sent _ _ _ _ s it r d); [done|done|done|]. by rewrite E2.
    + split_and!; cbn; [by rewrite Hf, andb_false_r|done|done|done].
    + done.
    + unfold on_the_way. cbn. rewrite Ey, E2. cbn. lia.
Qed.

(** A running system can drain further, or has nothing on the way. *)
Lemma drains_or_idle s :
  (0 < sndbuf)%nat → in_order config s → running s → Forall answerable (forwarded s) → drains s ∨ idle_at s.
Proof using CL CN.
  intros Hq Ho Hrun Hfit.
  destruct (decide (link2 s = [])) as [E2|E2]; [|left; apply parent_drains; by auto].
  destruct (parent s) as [p|p|p it|p|p|p] eqn:Ep; try (left; apply parent_drains; [done|]; by right; intros p0; rewrite Ep).
  destruct (decide (link1 s = [])) as [E1|E1]; [|left; apply crypto_drains; by auto].
  destruct (crypto s) as [| |it|st] eqn:Ey; try (left; apply crypto_drains; [done..| |done]; right; by rewrite Ey).
  right. split_and!; [done|done|unfold in_hand; by rewrite Ep|]. intros it. by rewrite Ey.
Qed.

Lemma way_drains w rl s :
  (0 < sndbuf)%nat → rtc step (started config w rl) s → running s → Forall answerable (forwarded s) →
  ∃ s', rtc move s s' ∧ running s' ∧ forwarded s' = forwarded s ∧ idle_at s' ∧ rtc step (started config w rl) s'.
Proof using LL HL FL Hvalid ML CL CN YL YN.
  intros Hq. pose proof Hvalid as (_ & Hnd & _).
  induction s as [s IH] using (induction_ltof1 _ on_the_way). intros Hr Hrun Hfit.
  pose proof (inv_order _ _ _ (reachable_inv config Hnd cost sndbuf sigchld w rl s Hr)) as Ho.
  destruct (drains_or_idle s Hq Ho Hrun Hfit) as [(s1 & Hs1 & Hrun1 & Ef1 & Hlt)|Hidle].
  - destruct (IH s1 Hlt) as (s2 & Hs2 & Hrun2 & Ef2 & Hidle & Hr2); [by eapply rtc_r; [|left]|done|by rewrite Ef1|].
    exists s2. split_and!; [by eapply rtc_l|done|by rewrite Ef2|done|done].
  - exists s. by split_and!.
Qed.


(** ** From the client to the firewall *)

(** C7: the whole way of a knock. Take a packet the client built from a payload
    whose user name passes [validate_structure], under the key of a stanza that
    no earlier stanza's key claims, in the clock window, with a nonce that is not in
    the cache, for an address and ports the stanza allows to its sender. If the
    firewall accepts the rule, the limiter lets the sender through, and the two
    messages can be encoded and fit the sockets, then the processes by
    themselves can get from their start, with a cache file that can be
    written, to a state in which the doors of the request are open and the
    parent is still in its loop. *)
Theorem knock_opens_doors `{!RingLaws R} w rl stanza p n wire ip src ports clock dm dr :
  portable p → len n = NONCE_LEN → build_packet p (master_key_base64 stanza) (Some n) = Ok wire →
  validate_structure p = Ok () → first_key wire (access config) stanza →
  validate_against_clock p (now_unix clock) (max_age_of (max_spa_packet_age (daemon config)))
    DEFAULT_MAX_SKEW_SECS = Ok () →
  (nonce p ∉ cache_keys (w_replay w)) → message p = Access src ports → policy_allows stanza ip src ports →
  (∀ r, rule_source_ip r = src → rule_ports r = ports → ∃ fw h, fw_open_access (w_fw w) r = (fw, Ok h)) →
  is_bytes wire → ip_wf ip → lets_pass ip 1 rl = true →
  send_msg (CapturePacket ip wire) (Ok ()) = Ok dm →
  send_msg (ValidRequest (stanza_name stanza) ip p) (Ok ()) = Ok dr →
  (0 < sndbuf)%nat → (1 ≤ cost dm ∧ 1 ≤ cost dr)%nat →
  ∃ s, rtc move (started config w rl) s ∧ (∃ ps, parent s = ParentLoop ps) ∧
    ∀ g, g ∈ doors_of src ports → g ∈ fw_doors (w_fw (ps_world (parent_state s))).
Proof using LL HL FL Hvalid ML CL CN YL YN.
  intros Hp Hn Hb Hv Hk Hc Hfresh Hm Hpol Hfw Hbytes Hip Hrl Hdm Hdr Hq Hcost.
  pose proof Hvalid as (_ & Hnd & _).
  set (env := {| env_clock := clock; env_replay_now := 0; env_faults := no_faults |}).
  destruct (built_installs config env w stanza p n wire ip src ports) as (w' & h & r & Hpp & Hrs & Hrp & Ho); try done.
  assert (cut (wire, ip) = CapturePacket ip wire) as Ecut.
  { unfold cut. cbn [fst snd]. rewrite take_ge; [done|]. pose proof (built_short _ _ _ _ Hb). unfold len, MAX_PACKET_LEN in *. lia. }
  assert (parse_packet wire (master_key_base64 stanza) = Ok p) as Hparse
    by (rewrite (parse_built p _ n wire) by done; by rewrite Hv).
  assert (validate_capture_msg (cut (wire, ip)) config clock = ValidRequest (stanza_name stanza) ip p) as Hval.
  { rewrite Ecut. unfold validate_capture_msg. rewrite (match_packet_first _ _ _ _ Hk Hparse).
    rewrite find_stanza_in by (done || by eapply first_key_in). rewrite Hc.
    by rewrite (proj2 (check_policy_ok stanza ip (message p) _ src ports)). }
  assert (send_msg (cut (wire, ip)) (Ok ()) = Ok dm) as Hdm' by by rewrite Ecut.
  assert (send_msg (validate_capture_msg (cut (wire, ip)) config clock) (Ok ()) = Ok dr) as Hdr' by by rewrite Hval.
  assert (portable (validate_capture_msg (cut (wire, ip)) config clock)) as Hport by by rewrite Hval.
  destruct (packet_delivered config cost sndbuf sigchld wire ip clock dm dr (conj Hbytes Hip) Hdm' Hdr' Hcost
    w rl env Hq Hrl Hport) as (s & Hr & _ & Ep).
  exists s. split_and!; [done|by eexists|]. intros g Hg. unfold parent_state. rewrite Ep.
  unfold parent_iter, handing, entering. cbn [ps_world pi_recv pi_env]. rewrite prune_tick_fw.
  pose proof (privsep_agrees config env w ip wire Hvalid) as Ha. cbv zeta in Ha.
  change (env_clock env) with clock in Ha. rewrite <- Ecut in Ha. rewrite Hval in Ha |- *.
  rewrite Hpp in Ha. rewrite Ha, (fw_open_ok _ _ _ _ Ho), elem_of_union, elem_of_list_to_set. right.
  unfold rule_grants. by rewrite Hrs, Hrp.
Qed.
End refine.

(** ** Witnesses *)

#[local] Existing Instance sample_rmp.
#[local] Existing Instance sample_rmp_laws.
#[local] Existing Instance sorted_hash_iter.
#[local] Existing Instance sorted_hash_iter_laws.
#[local] Existing Instance knock_rmp.
#[local] Existing Instance knock_rmp_laws.
#[local] Existing Instance knock_nonempty.
#[local] Existing Instance sample_crypto_codec.
#[local] Existing Instance sample_crypto_codec_laws.
#[local] Existing Instance crypto_nonempty.

Lemma system_refines_daemon_witness :
  ∃ s ops, rtc sample_step sample_start s ∧
    handled s = [validate_capture_msg knock_msg sample_config (Some 1700000005)] ∧
    simulates sample_config sample_world s ops ∧ packets ops `sublist_of` pkt_of <$> (cut <$> seen s).
Proof.
  destruct sample_delivered as (s & Hr & Hh & _).
  destruct (system_refines_daemon sample_config sample_config_ok one_each 1 true sample_world small_limiter s Hr)
    as (ops & Hs & Hp).
  exists s, ops. exact (conj Hr (conj Hh (conj Hs Hp))).
Defined.

(** The sample packet arrives and is sent to the crypto worker. *)
Definition knock_arrives : CaptureIter := {|
  ci_shutdown := false; ci_recv := Ok (stanza_wire, sample_source); ci_reset_now := 0; ci_now := 0; ci_send := Ok () |}.

Lemma knock_turn :
  capture_loop small_limiter [knock_arrives] = ((capture_loop small_limiter [knock_arrives]).1.1, [knock_msg], None).
Proof.
  rewrite (surjective_pairing (capture_loop small_limiter [knock_arrives])) at 1.
  rewrite (surjective_pairing (capture_loop small_limiter [knock_arrives]).1) at 1.
  repeat apply f_equal2; vm_compute; reflexivity.
Qed.

Lemma sample_queued :
  ∃ s, rtc sample_step sample_start s ∧ running s ∧ forwarded s = [knock_msg] ∧ handled s = [].
Proof.
  eexists. split_and!.
  - apply step_run, unkilled_run. eapply rtc_l; [by eapply move_capture_check|].
    eapply rtc_l; [eapply (move_capture_begin _ _ _ _ _ _ knock_arrives); [done| |apply knock_turn]|].
    + split_and!; [done|done|]. intros d ip [= <- <-]. apply knock_typed.
    + apply rtc_once. eapply (move_capture_sent _ _ _ _ _ _ knock_arrives);
        [done|apply knock_turn|apply knock_sent|cbn; lia|done].
  - split_and!; [done..|]. eexists. split; [|by left]. done.
  - done.
  - done.
Qed.


Lemma knock_opens_doors_witness :
  ∃ s, rtc sample_move sample_start s ∧ (∃ ps, parent s = ParentLoop ps) ∧
    ∀ g, g ∈ doors_of sample_source [PortProto_new Tcp 22] →
      g ∈ fw_doors (w_fw (ps_world (parent_state s))).
Proof.
  apply (knock_opens_doors sample_config sample_config_ok one_each 1 true sample_world small_limiter
    sample_stanza sample_payload sample_nonce stanza_wire sample_source sample_source [PortProto_new Tcp 22]
    (Some 1700000005) [0] [0]).
  - apply sample_portable.
  - reflexivity.
  - vm_compute. reflexivity.
  - vm_compute. reflexivity.
  - exists [], []. split; [reflexivity|constructor].
  - vm_compute. reflexivity.
  - apply (bool_decide_unpack _). vm_compute. exact I.
  - reflexivity.
  - split; [intros _; reflexivity|]. split.
    + eexists. split; [apply list_elem_of_here|reflexivity].
    + intros pp Hpp. exact Hpp.
  - intros r Hip Hpp. change (w_fw sample_world) with ready_nft. eexists _, _. apply sample_opens. exact Hip.
  - apply knock_typed.
  - apply knock_typed.
  - vm_compute. reflexivity.
  - vm_compute. reflexivity.
  - vm_compute. reflexivity.
  - exact (le_n 1).
  - exact (conj (le_n 1) (le_n 1)).
Defined.

#[local] Existing Instance ticking_kernel.
#[local] Existing Instance ticking_kernel_timed.
#[local] Existing Instance ticking_kernel_laws.
#[local] Existing Instance ticking_kernel_clock.

Lemma system_doors_expire_witness :
  ∃ s, rtc (step sample_config one_each 1 true) (started sample_config timed_world small_limiter) s ∧
    world_deadlines (ps_world (parent_state s)) !! sample_door = Some (At (36 * NANOS)) ∧
    (world_deadlines timed_world !! sample_door = Some (At (36 * NANOS)) ∨
     ∃ e, At (36 * NANOS) = At e ∧
       e ≤ world_now (ps_world (parent_state s)) + max_fw_timeout (daemon sample_config)).
Proof.
  destruct (packet_delivered sample_config one_each 1 true stanza_wire sample_source (Some 1700000005) [0] [0]
    knock_typed knock_sent knock_answered (conj (le_n 1) (le_n 1)) timed_world small_limiter sample_env)
    as (s & Hr & _ & Ep).
  - exact (le_n 1).
  - vm_compute. reflexivity.
  - assert (validate_capture_msg (cut (stanza_wire, sample_source)) sample_config (Some 1700000005) =
      ValidRequest (lit "ssh") sample_source sample_payload) as -> by (vm_compute; reflexivity).
    split; [apply knock_typed|apply sample_portable].
  - assert (world_deadlines (ps_world (parent_state s)) !! sample_door = Some (At (36 * NANOS))) as Hd.
    { unfold parent_state. rewrite Ep. vm_compute. reflexivity. }
    apply unkilled_run, step_run in Hr. exists s. split; [exact Hr|]. split; [exact Hd|].
    exact (system_doors_expire sample_config sample_config_ok one_each 1 true timed_world small_limiter s
      sample_door (At (36 * NANOS)) sample_whole Hr Hd).
Defined.
