(* ===== verification/Modes.v ===== *)
(** * The two modes of the daemon

    [enable_privsep] chooses between the single-process loop of
    crates/fwknox-daemon/src/run.rs and the three processes of
    privsep_run.rs. This file compares whole runs: the same datagrams, at the
    same times, met by the same clock, rate limiter and disk. The single
    process reads them through [UdpCapture] of crates/fwknox-capture/src/udp.rs,
    the other mode through the loops of the capture and the crypto worker. *)

From S2P Require Import Prelude RustStd Net Lru Proto Instances Packet Persist Replay Config RateLimit.
From S2P Require Import Firewall Capture Privsep Daemon DaemonRun Fwknoxd.

(** ** One turn, seen by both modes *)

(** What the world offers in one turn: whether the shutdown flag is set, the
    datagram on the UDP socket and its source or the error of the call, the
    clocks, the faults of the disk, and what reaping finds. *)
Record turn := {
  t_shutdown : bool;
  t_arrival : result io_error (bytes * IpAddr);
  t_reset_now : Instant;
  t_now : Instant;
  t_env : PacketEnv;
  t_prune_now : Z;
  t_prune_faults : WriteFaults;
  t_reap : result Errno WaitStatus;
}.

(** The source address as the kernel writes it, and what [recvmsg] with
    [MSG_TRUNC] answers. *)
Definition sockaddr_of (ip : IpAddr) : sockaddr_storage * Z :=
  match ip with
  | V4 o => ({| ss_family := AF_INET; sin_addr := o; sin6_addr := [] |}, SIZEOF_SOCKADDR_IN)
  | V6 o => ({| ss_family := AF_INET6; sin_addr := []; sin6_addr := o |}, SIZEOF_SOCKADDR_IN6)
  end.
Definition udp_answer (a : result io_error (bytes * IpAddr)) : result io_error recvmsg_out :=
  match a with
  | Ok (d, ip) =>
      Ok {| rm_n := len d; rm_trunc := bool_decide (MAX_DATAGRAM_LEN < len d);
            rm_name := (sockaddr_of ip).1; rm_namelen := (sockaddr_of ip).2; rm_buf := take 1500 d |}
  | Err e => Err e
  end.

Lemma udp_answer_delivers d ip : ∃ m, udp_answer (Ok (d, ip)) = Ok m ∧ delivers d ip m.
Proof.
  eexists. split; [done|]. split_and!; [done|done| |by destruct ip]. cbn [rm_buf]. rewrite take_take.
  destruct (le_lt_dec (length d) 1500); [by rewrite !take_ge by lia|]. f_equal. lia.
Qed.

Section modes.
Context `{N : IpNetOps} `{U : UnicodeTables} `{R : Ring} `{M : Rmp SpaPayload} `{L : LruCache Nonce Z}
  `{LL : !LruLaws Nonce Z L} `{HL : HashIterLaws} `{LT : LruCache SourceKey TokenBucket}
  `{RC : Rmp CaptureMsg} `{RY : Rmp CryptoMsg}
  {B : Type} `{F : !FirewallBackend B} `{FL : !FirewallLaws B}.
Implicit Types (config : DaemonConfig) (w : World B) (rl : RateLimiter) (t : turn) (cap : UdpCapture).

(** The iterations of the single process, which reads through [UdpCapture]. *)
Definition single_iter t (recv : result CaptureError (option CapturedPacket)) : RunIter := {|
  ri_shutdown := t_shutdown t; ri_recv := recv; ri_reset_now := t_reset_now t; ri_now := t_now t;
  ri_env := t_env t; ri_prune_now := t_prune_now t; ri_prune_faults := t_prune_faults t |}.

Fixpoint single_turns cap (ts : list turn) : list RunIter :=
  match ts with
  | [] => []
  | t :: ts =>
      let '(cap, recv) := cb_recv_timeout cap LOOP_TICK (Ok (), udp_answer (t_arrival t)) in
      single_iter t recv :: single_turns cap ts
  end.

(** The iterations of the parent, which receives what the loops of the two
    workers make of the datagram. *)
Definition capture_iter t : CaptureIter := {|
  ci_shutdown := t_shutdown t; ci_recv := t_arrival t; ci_reset_now := t_reset_now t; ci_now := t_now t;
  ci_send := Ok () |}.
Definition crypto_iter t (m : CaptureMsg) : CryptoIter := {|
  yi_shutdown := false; yi_recv := Ok m; yi_clock := env_clock (t_env t); yi_send := Ok () |}.

Definition no_message : PrivsepError := PIo {| io_kind := WouldBlock; io_text := [] |}.
Definition answer config t (sent : list CaptureMsg) : result PrivsepError CryptoMsg :=
  match sent with
  | [m] =>
      match crypto_loop (install_worker_panic_hook PanicUnwinds) (crypto_validate config) [crypto_iter t m] with
      | ([r], _) => Ok r
      | _ => Err no_message
      end
  | _ => Err no_message
  end.

Definition privsep_iter t (recv : result PrivsepError CryptoMsg) : ParentIter := {|
  pi_shutdown := t_shutdown t; pi_recv := recv; pi_env := t_env t; pi_reap := t_reap t;
  pi_prune_now := t_prune_now t; pi_prune_faults := t_prune_faults t |}.

Fixpoint privsep_turns config rl (ts : list turn) : list ParentIter :=
  match ts with
  | [] => []
  | t :: ts =>
      let '(rl, sent, _) := capture_loop rl [capture_iter t] in
      privsep_iter t (answer config t sent) :: privsep_turns config rl ts
  end.

(** A turn in which the modes do not differ: the datagram has at most 1500
    bytes, its messages can be encoded and fit the sockets, and it does not
    authenticate only to be rejected; or the receive ran into its timeout. No
    worker dies. *)
Definition ordinary config t : Prop :=
  (∀ pid, try_reap_any_child (t_reap t) ≠ Ok (Some pid)) ∧
  match t_arrival t with
  | Ok (d, ip) =>
      let r := validate_capture_msg (CapturePacket ip d) config (env_clock (t_env t)) in
      len d ≤ MAX_DATAGRAM_LEN ∧ (∃ dm, send_msg (CapturePacket ip d) (Ok ()) = Ok dm) ∧
      (∃ dr, send_msg r (Ok ()) = Ok dr) ∧ ∀ ip' reason, r ≠ CryptoRejected ip' reason
  | Err e => is_tick e = true
  end.

(** ** The comparison *)

(** The parts of the two states that correspond. *)
Definition same_state (s : RunState (B := B)) (ps : ParentState (B := B)) : Prop :=
  ps_world ps = rs_world s ∧ ps_tick ps = rs_tick s ∧ ps_notes ps = rs_notes s ∧ ps_triggered ps = false.

Lemma same_packet config env w pkt :
  config_valid config →
  let msg := validate_capture_msg (CapturePacket (cap_source_ip pkt) (cap_data pkt)) config (env_clock env) in
  (∀ ip reason, msg ≠ CryptoRejected ip reason) →
  handle_crypto_msg msg config env w = (handle_packet pkt config env w).1.
Proof.
  intros Hc msg Hr. rewrite handle_packet_world. destruct pkt as [ip data]. cbn [cap_source_ip cap_data] in *.
  pose proof (privsep_agrees config env w ip data Hc) as Ha. fold msg in Ha. cbv zeta in Ha.
  destruct (process_packet _ config env w) as [w1 r]. cbn [fst].
  destruct msg as [|ip' reason|]; [done|by destruct (Hr ip' reason)|by destruct Ha as (-> & -> & _)].
Qed.

(** What the two ways from the socket give in an ordinary turn. *)
Lemma single_recv config cap t :
  ordinary config t →
  (cb_recv_timeout cap LOOP_TICK (Ok (), udp_answer (t_arrival t))).2 =
  match t_arrival t with
  | Ok (d, ip) => Ok (Some {| cap_source_ip := ip; cap_data := d |})
  | Err _ => Ok None
  end.
Proof.
  intros [_ Ho]. cbn [cb_recv_timeout UdpCapture_backend fst snd].
  destruct (t_arrival t) as [[d ip]|e].
  - destruct Ho as (Hlen & _). destruct (udp_answer_delivers d ip) as (m & -> & Hd).
    pose proof (recv_whole_or_nothing (uc_last_timeout cap) LOOP_TICK d ip m Hd) as Hr.
    rewrite (bool_decide_eq_true_2 _ Hlen) in Hr.
    by destruct (recv_timeout _ _ _ _) as [[cached b] r].
  - cbn [udp_answer]. unfold recv_timeout. cbn [recvmsg_with_trunc mbind result_bind]. rewrite Ho.
    by destruct (bool_decide _).
Qed.

Lemma privsep_recv config rl t :
  ordinary config t → t_shutdown t = false →
  capture_loop rl [capture_iter t] =
  match t_arrival t with
  | Ok (d, ip) =>
      let '(rl', decision, _) := check rl ip (t_reset_now t) (t_now t) in
      (rl', match decision with Pass => [CapturePacket ip d] | Drop _ => [] end, None)
  | Err _ => (rl, [], None)
  end.
Proof.
  intros [_ Ho] Hs. cbn [capture_loop capture_iter ci_shutdown ci_recv ci_reset_now ci_now ci_send]. rewrite Hs.
  destruct (t_arrival t) as [[d ip]|e]; [|by rewrite Ho].
  destruct (check rl ip _ _) as [[rl' []] log]; [|done]. destruct Ho as (Hlen & [dm Hdm] & _).
  assert (recv_from d = d) as -> by (unfold recv_from, MAX_DATAGRAM_LEN, len in *; apply take_ge; lia).
  by rewrite Hdm.
Qed.

Lemma answer_verdict config t d ip :
  ordinary config t → t_arrival t = Ok (d, ip) →
  answer config t [CapturePacket ip d] = Ok (validate_capture_msg (CapturePacket ip d) config (env_clock (t_env t))).
Proof.
  intros [_ Ho] Ha. rewrite Ha in Ho. destruct Ho as (_ & _ & [dr Hdr] & _). cbv zeta in Hdr.
  unfold answer. cbn [crypto_loop crypto_iter yi_shutdown yi_recv yi_clock yi_send crypto_validate]. by rewrite Hdr.
Qed.

Lemma turn_step config cap rl t (s : RunState (B := B)) ps :
  config_valid config → ordinary config t → t_shutdown t = false → rs_limiter s = rl → same_state s ps →
  let recv := (cb_recv_timeout cap LOOP_TICK (Ok (), udp_answer (t_arrival t))).2 in
  let '(rl', sent, _) := capture_loop rl [capture_iter t] in
  let s' := run_iter config (single_iter t recv) s in
  same_state s' (parent_iter config (privsep_iter t (answer config t sent)) ps) ∧ rs_limiter s' = rl'.
Proof.
  intros Hc Ho Hsd <- (Hw & Ht & Hn & Hg). cbv zeta.
  rewrite (single_recv config cap t Ho), (privsep_recv config (rs_limiter s) t Ho Hsd).
  assert (match try_reap_any_child (t_reap t) with Ok (Some _) => true | _ => ps_triggered ps end = false) as Hr
    by (rewrite Hg; destruct Ho as [Hreap _]; by destruct (try_reap_any_child (t_reap t)) as [[r|]|] eqn:E; [destruct (Hreap r)|..]).
  unfold run_iter, parent_iter, same_state. cbn [privsep_iter single_iter pi_recv pi_env pi_reap pi_prune_now pi_prune_faults
    ri_recv ri_reset_now ri_now ri_env ri_prune_now ri_prune_faults].
  rewrite Hr, Ht, Hn, Hw. destruct (t_arrival t) as [[d ip]|e] eqn:Ea; [|done]. cbn [cap_source_ip].
  destruct (check _ _ _ _) as [[rl1 []] log]; [|done]. rewrite (answer_verdict config t d ip Ho Ea).
  destruct Ho as [_ Ho]. rewrite Ea in Ho. destruct Ho as (_ & _ & _ & Hrej).
  pose proof (same_packet config (t_env t) (rs_world s) {| cap_source_ip := ip; cap_data := d |} Hc Hrej) as Hp.
  cbn [cap_source_ip cap_data] in Hp. by rewrite Hp.
Qed.

Lemma same_loops config ts cap rl (s : RunState (B := B)) ps :
  config_valid config → Forall (ordinary config) ts → rs_limiter s = rl → same_state s ps →
  let r := run_loop config (single_turns cap ts) s in
  let p := parent_loop config (privsep_turns config rl ts) ps in
  same_state r.1 p.1 ∧ r.2 = p.2.
Proof.
  intros Hc Ho. revert cap rl s ps. induction Ho as [|t ts Ht _ IH]; intros cap rl s ps Hl Hs; cbv zeta.
  { split; [done|]. cbn. by destruct Hs as (_ & _ & _ & ->). }
  pose proof (turn_step config cap rl t s ps Hc Ht) as Hstep. cbv zeta in Hstep. cbn [single_turns privsep_turns].
  destruct (cb_recv_timeout cap LOOP_TICK _) as [cap' recv]. cbn [snd] in Hstep.
  destruct (capture_loop rl [capture_iter t]) as [[rl' sent] st].
  cbn [run_loop parent_loop single_iter ri_shutdown privsep_iter pi_shutdown].
  pose proof Hs as (_ & _ & _ & ->). cbn [orb]. destruct (t_shutdown t); [done|].
  destruct Hstep as [Hs' Hl']; [done|done|done|]. by apply IH.
Qed.


(** The bound on the datagrams is needed: a longer one never reaches the
    limiter of the single process, and is charged and cut by the worker. *)
Lemma oversized_differs config cap rl t d ip :
  t_arrival t = Ok (d, ip) → t_shutdown t = false → MAX_DATAGRAM_LEN < len d →
  (cb_recv_timeout cap LOOP_TICK (Ok (), udp_answer (t_arrival t))).2 = Ok None ∧
  ((capture_loop rl [capture_iter t]).1.1 = (check rl ip (t_reset_now t) (t_now t)).1.1).
Proof.
  intros Ha Hs Hlen. rewrite Ha. split.
  - destruct (udp_answer_delivers d ip) as (m & -> & Hd). cbn [cb_recv_timeout UdpCapture_backend fst snd].
    pose proof (recv_whole_or_nothing (uc_last_timeout cap) LOOP_TICK d ip m Hd) as Hr.
    rewrite bool_decide_eq_false_2 in Hr by lia. by destruct (recv_timeout _ _ _ _) as [[cached b] r].
  - cbn [capture_loop capture_iter ci_shutdown ci_recv ci_reset_now ci_now ci_send]. rewrite Hs, Ha.
    destruct (check rl ip _ _) as [[rl' []] log]; [|done]. by destruct (send_msg _ _).
Qed.
End modes.

(** ** Witness *)

#[local] Existing Instance sample_rmp.
#[local] Existing Instance sorted_hash_iter.
#[local] Existing Instance sorted_hash_iter_laws.
#[local] Existing Instance sample_crypto_codec.

(** A codec for the sample packet; the packet, then the shutdown flag. *)
Definition turn_msg : CaptureMsg := CapturePacket (V4 [192; 168; 1; 5]) stanza_wire.
#[local] Instance turn_rmp : Rmp CaptureMsg := @capture_msg_rmp _ (table_rmp [serialize_capture turn_msg]).

Definition packet_turn : turn := {|
  t_shutdown := false; t_arrival := Ok (stanza_wire, V4 [192; 168; 1; 5]); t_reset_now := 0; t_now := 7;
  t_env := sample_env; t_prune_now := 0; t_prune_faults := no_faults; t_reap := Ok StillAlive |}.
Definition stop_turn : turn := {|
  t_shutdown := true; t_arrival := Err {| io_kind := WouldBlock; io_text := [] |}; t_reset_now := 0; t_now := 7;
  t_env := sample_env; t_prune_now := 0; t_prune_faults := no_faults; t_reap := Ok StillAlive |}.
Definition sample_udp : UdpCapture := from_socket (SockV4 [0; 0; 0; 0] 62201).

