(* ===== verification/Shutdown.v ===== *)
(** * Shutdown: the flag, the signals, and the end of the loops

    Models crates/fwknox-daemon/src/shutdown.rs, with the flag an
    [Arc<AtomicBool>] as a cell of a shared store, so that clones and signal
    handlers reach the same flag, and the handlers as the documented effect of
    signal_hook's [flag::register]: a delivered signal sets the flags
    registered for it.  The loops of run.rs, privsep_run.rs and workers.rs are
    then run on endless input: after a termination signal each of them ends,
    at its next look at the flag. *)

From S2P Require Import Prelude RustStd Net Lru Proto Instances Serde Packet Persist Replay Config RateLimit.
From S2P Require Import Firewall Capture Privsep Sandbox Daemon DaemonRun Fwknoxd.

(** ** shutdown.rs *)

Definition SIGINT : Z := 2.
Definition SIGTERM : Z := 15.
Definition SIGCHLD : Z := 17.

(** The flags that exist, and which flags each signal sets. *)
Record SignalState := { cells : list bool; handlers : list (Z * nat) }.

(** [ShutdownSignal]: a reference to its flag; a clone is the same reference. *)
Record ShutdownSignal := { flag : nat }.

Definition ShutdownSignal_new (st : SignalState) : SignalState * ShutdownSignal :=
  ({| cells := cells st ++ [false]; handlers := handlers st |}, {| flag := length (cells st) |}).

Definition is_shutdown (st : SignalState) (s : ShutdownSignal) : bool := default false (cells st !! flag s).

Definition set_cell (st : SignalState) (i : nat) : SignalState :=
  {| cells := <[i := true]> (cells st); handlers := handlers st |}.

Definition trigger (st : SignalState) (s : ShutdownSignal) : SignalState := set_cell st (flag s).

Definition flag_arc (s : ShutdownSignal) : nat := flag s.

(** [signal_hook::flag::register]; [r] is whether it succeeded. *)
Definition register (st : SignalState) (signal : Z) (i : nat) (r : result io_error unit)
  : SignalState * result io_error unit :=
  match r with
  | Ok _ => ({| cells := cells st; handlers := (signal, i) :: handlers st |}, Ok ())
  | Err e => (st, Err e)
  end.

(** The second registration is not tried when the first fails; a failure of
    the second leaves the first in place. *)
Definition install_handlers (st : SignalState) (s : ShutdownSignal) (r_term r_int : result io_error unit)
  : SignalState * result io_error unit :=
  match register st SIGTERM (flag_arc s) r_term with
  | (st, Err e) => (st, Err e)
  | (st, Ok _) => register st SIGINT (flag_arc s) r_int
  end.

(** Delivery of a signal. *)
Definition deliver (st : SignalState) (signal : Z) : SignalState :=
  foldl (λ st h, if h.1 =? signal then set_cell st h.2 else st) st (handlers st).

(** ** The flag *)

Section flag_lemmas.
Implicit Types (st : SignalState) (s : ShutdownSignal).

Lemma set_cell_handlers st i : handlers (set_cell st i) = handlers st.
Proof. done. Qed.

Lemma is_shutdown_set st i s :
  is_shutdown (set_cell st i) s =
    (bool_decide (i = flag s) && bool_decide (i < length (cells st))%nat) || is_shutdown st s.
Proof.
  unfold is_shutdown, set_cell; cbn [cells]. destruct (decide (i = flag s)) as [->|Hne].
  - rewrite (bool_decide_eq_true_2 (flag s = flag s)) by done. cbn [andb].
    destruct (decide (flag s < length (cells st))%nat) as [Hlt|Hge].
    + rewrite list_lookup_insert_eq by done. by rewrite bool_decide_eq_true_2.
    + rewrite bool_decide_eq_false_2 by done. rewrite !lookup_ge_None_2 by (rewrite ?length_insert; lia). done.
  - rewrite bool_decide_eq_false_2 by done. by rewrite list_lookup_insert_ne.
Qed.

Definition deliver_one (signal : Z) st (h : Z * nat) : SignalState :=
  if h.1 =? signal then set_cell st h.2 else st.

(** What delivery does: it sets the flags registered for the signal and no
    other, and never clears one. *)
Lemma deliver_spec st signal s :
  (flag s < length (cells st))%nat →
  is_shutdown (deliver st signal) s =
    bool_decide ((signal, flag s) ∈ handlers st) || is_shutdown st s.
Proof.
  intros Hf. unfold deliver. change (λ st h, _) with (deliver_one signal).
  assert (∀ hs st0, (flag s < length (cells st0))%nat →
    is_shutdown (foldl (deliver_one signal) st0 hs) s = bool_decide ((signal, flag s) ∈ hs) || is_shutdown st0 s)
    as H; [|by apply H].
  induction hs as [|[sg i] hs IH]; intros st0 Hf0; [done|]. cbn [foldl].
  assert (flag s < length (cells (deliver_one signal st0 (sg, i))))%nat as Hf1.
  { unfold deliver_one. cbn [fst snd]. destruct (sg =? signal); [|done]. cbn. by rewrite length_insert. }
  rewrite IH by done. unfold deliver_one. cbn [fst snd].
  destruct (Z.eqb_spec sg signal) as [->|Hne].
  - rewrite is_shutdown_set.
    destruct (decide (i = flag s)) as [->|Hi].
    + rewrite (bool_decide_eq_true_2 (flag s = flag s)), (bool_decide_eq_true_2 (_ < _)%nat) by done.
      rewrite (bool_decide_eq_true_2 ((signal, flag s) ∈ (signal, flag s) :: hs)) by set_solver.
      cbn. by rewrite orb_true_r.
    + rewrite (bool_decide_eq_false_2 (i = flag s)) by done. cbn [andb orb]. f_equal.
      apply bool_decide_ext. set_solver.
  - f_equal. apply bool_decide_ext. set_solver.
Qed.

Lemma deliver_keeps st signal :
  handlers (deliver st signal) = handlers st ∧ length (cells (deliver st signal)) = length (cells st).
Proof.
  unfold deliver. change (λ st h, _) with (deliver_one signal).
  assert (∀ hs st0, handlers (foldl (deliver_one signal) st0 hs) = handlers st0 ∧
    length (cells (foldl (deliver_one signal) st0 hs)) = length (cells st0)) as H; [|apply H].
  induction hs as [|h hs IH]; intros st0; [done|]. cbn [foldl].
  destruct (IH (deliver_one signal st0 h)) as [-> ->]. unfold deliver_one.
  destruct (h.1 =? signal); [|done]. cbn. by rewrite length_insert.
Qed.

Definition deliver_all st (signals : list Z) : SignalState := foldl deliver st signals.

Lemma deliver_all_iff st signals s :
  (flag s < length (cells st))%nat →
  is_shutdown (deliver_all st signals) s = true ↔
  (∃ sg, sg ∈ signals ∧ (sg, flag s) ∈ handlers st) ∨ is_shutdown st s = true.
Proof.
  revert st. induction signals as [|sg signals IH]; intros st Hf; cbn [deliver_all foldl].
  - split; [by right|]. intros [(sg&Hin&_)|?]; [set_solver|done].
  - destruct (deliver_keeps st sg) as [Hh Hl]. change (foldl deliver (deliver st sg) signals) with (deliver_all (deliver st sg) signals).
    rewrite IH, Hh, deliver_spec, orb_true_iff, bool_decide_eq_true by lia. set_solver.
Qed.

(** Installing the handlers registers both signals. *)
Lemma installed_handlers st s st' :
  install_handlers st s (Ok ()) (Ok ()) = (st', Ok ()) →
  (SIGTERM, flag s) ∈ handlers st' ∧ (SIGINT, flag s) ∈ handlers st' ∧ cells st' = cells st.
Proof. intros [= <-]. cbn. split_and!; [set_solver|set_solver|done]. Qed.
End flag_lemmas.

(** ** Endless input *)

(** Signals delivered while the loop is in its [k]-th iteration; the [k]-th
    look at the flag comes before it. *)
Definition delivered (sig : nat → list Z) (k : nat) : list Z := concat (sig <$> seq 0 k).

Definition poll (st : SignalState) (s : ShutdownSignal) (sig : nat → list Z) (k : nat) : bool :=
  is_shutdown (deliver_all st (delivered sig k)) s.

(** The first [n] iterations of an endless script. *)
Definition script {A} (f : nat → A) (n : nat) : list A := f <$> seq 0 n.

Lemma script_split {A} (f : nat → A) k n :
  (k < n)%nat → script f n = script f k ++ f k :: (f <$> seq (S k) (n - S k)).
Proof.
  intros Hk. unfold script. replace n with (k + S (n - S k))%nat at 1 by lia.
  by rewrite seq_app, fmap_app.
Qed.

Lemma script_S {A} (f : nat → A) k : script f (S k) = script f k ++ [f k].
Proof. by rewrite (script_split f k (S k)), Nat.sub_diag by lia. Qed.

Lemma Forall_script {A} (P : A → Prop) (f : nat → A) k :
  (∀ i, (i < k)%nat → P (f i)) → Forall P (script f k).
Proof.
  intros Hf. unfold script. apply Forall_fmap, Forall_forall. intros i Hi%elem_of_seq. apply Hf. lia.
Qed.

(** A termination signal in iteration [j] is seen at the latest before
    iteration [j + 1]: there is a first look that sees the flag set. *)
Lemma first_poll st s sig j :
  (flag s < length (cells st))%nat → (SIGTERM, flag s) ∈ handlers st → (SIGINT, flag s) ∈ handlers st →
  SIGTERM ∈ sig j ∨ SIGINT ∈ sig j →
  ∃ k, (k ≤ S j)%nat ∧ poll st s sig k = true ∧ ∀ i, (i < k)%nat → poll st s sig i = false.
Proof.
  intros Hf Ht Hi Hj.
  assert (poll st s sig (S j) = true) as Hp.
  { apply deliver_all_iff; [done|]. left.
    assert (∀ x, x ∈ sig j → x ∈ delivered sig (S j)) as Hd.
    { intros x Hx. unfold delivered. apply list_elem_of_In, in_concat. exists (sig j).
      split; [|by apply list_elem_of_In]. apply list_elem_of_In, list_elem_of_fmap. exists j.
      split; [done|]. apply elem_of_seq. lia. }
    destruct Hj as [Hj|Hj]; eauto. }
  assert (∀ m, (∀ i, (i < m)%nat → poll st s sig i = false) ∨
    ∃ k, (k < m)%nat ∧ poll st s sig k = true ∧ ∀ i, (i < k)%nat → poll st s sig i = false) as Hfirst.
  { induction m as [|m [IH|(k&?&?&?)]]; [left; lia| |right; exists k; split_and!; [lia|done..]].
    destruct (poll st s sig m) eqn:E; [right; exists m; by split_and!; [lia|..]|left].
    intros i Him. destruct (decide (i = m)) as [->|]; [done|]. apply IH. lia. }
  destruct (Hfirst (S j)) as [Hno|(k&?&?&?)]; [exists (S j)|exists k]; (split; [lia|by split]).
Qed.

(** ** The loops end *)

Section loops.
Context `{N : IpNetOps} `{R : Ring} `{M : Rmp SpaPayload} `{L : LruCache Nonce Z} `{HI : HashIter}
  `{LT : LruCache SourceKey TokenBucket} `{RC : Rmp CaptureMsg} `{RY : Rmp CryptoMsg}
  {B : Type} `{F : !FirewallBackend B}.
Implicit Types (config : DaemonConfig) (w : World B) (rl : RateLimiter).

(** The iterations with what the look at the flag returned. *)
Definition run_polled (it : RunIter) (b : bool) : RunIter := {|
  ri_shutdown := b; ri_recv := ri_recv it; ri_reset_now := ri_reset_now it; ri_now := ri_now it;
  ri_env := ri_env it; ri_prune_now := ri_prune_now it; ri_prune_faults := ri_prune_faults it |}.
Definition parent_polled (it : ParentIter) (b : bool) : ParentIter := {|
  pi_shutdown := b; pi_recv := pi_recv it; pi_env := pi_env it; pi_reap := pi_reap it;
  pi_prune_now := pi_prune_now it; pi_prune_faults := pi_prune_faults it |}.
Definition capture_polled (it : CaptureIter) (b : bool) : CaptureIter := {|
  ci_shutdown := b; ci_recv := ci_recv it; ci_reset_now := ci_reset_now it; ci_now := ci_now it;
  ci_send := ci_send it |}.
Definition crypto_polled (it : CryptoIter) (b : bool) : CryptoIter := {|
  yi_shutdown := b; yi_recv := yi_recv it; yi_clock := yi_clock it; yi_send := yi_send it |}.

Lemma run_loop_stops config pre it post (s : RunState) :
  Forall (λ it, ri_shutdown it = false) pre → ri_shutdown it = true →
  run_loop config (pre ++ it :: post) s = (foldl (λ s it, run_iter config it s) s pre, true).
Proof.
  intros Hpre Hit. revert s. induction Hpre as [|x pre Hx _ IH]; intros s; cbn [app run_loop foldl].
  - by rewrite Hit.
  - by rewrite Hx, IH.
Qed.

Lemma parent_loop_stops config pre it post (s : ParentState) :
  pi_shutdown it = true →
  parent_loop config (pre ++ it :: post) s = parent_loop config (pre ++ [it]) s ∧
  (parent_loop config (pre ++ [it]) s).2 = true.
Proof.
  intros Hit. revert s. induction pre as [|x pre IH]; intros s; cbn [app parent_loop].
  - by rewrite Hit, orb_true_r.
  - destruct (_ || _); [done|apply IH].
Qed.

Lemma capture_loop_stops pre it post rl :
  ci_shutdown it = true →
  capture_loop rl (pre ++ it :: post) = capture_loop rl (pre ++ [it]) ∧
  (capture_loop rl (pre ++ [it])).2 ≠ None.
Proof.
  intros Hit. revert rl. induction pre as [|x pre IH]; intros rl; cbn [app capture_loop]; [by rewrite Hit|].
  destruct (ci_shutdown x); [done|]. destruct (ci_recv x) as [[d ip]|e]; [|destruct (is_tick e); [apply IH|done]].
  destruct (check rl ip _ _) as [[rl' []] log]; [|apply IH]. destruct (send_msg _ _); [|done].
  destruct (IH rl') as [-> Hn]. by destruct (capture_loop rl' (pre ++ [it])) as [[? ?] ?].
Qed.

Lemma crypto_loop_stops mode validate pre it post :
  yi_shutdown it = true →
  crypto_loop mode validate (pre ++ it :: post) = crypto_loop mode validate (pre ++ [it]) ∧
  (crypto_loop mode validate (pre ++ [it])).2 ≠ None.
Proof.
  intros Hit. induction pre as [|x pre IH]; cbn [app crypto_loop]; [by rewrite Hit|].
  destruct (yi_shutdown x); [done|].
  destruct (yi_recv x) as [m|e]; [|destruct e as [| | |io| | |]; try done; by destruct (is_tick io)].
  destruct (validate _ m); [|by destruct mode]. destruct (send_msg _ _); [|done].
  destruct IH as [-> Hn]. by destruct (crypto_loop mode validate (pre ++ [it])) as [? ?].
Qed.

Context (st : SignalState) (s : ShutdownSignal) (sig : nat → list Z).

(** C30: the daemon terminates on request. On any endless input, once SIGTERM
    or SIGINT arrives while the single-process loop is in iteration [j], the
    loop runs at most [j + 1] iterations: however much more input there is,
    [run] returns, with the same final state. *)
Theorem run_terminates st' config (f : nat → RunIter) faults w rl j :
  (flag s < length (cells st))%nat → install_handlers st s (Ok ()) (Ok ()) = (st', Ok ()) →
  SIGTERM ∈ sig j ∨ SIGINT ∈ sig j →
  ∃ k, (k ≤ S j)%nat ∧ ∀ n, (k < n)%nat →
    let iters n := script (λ i, run_polled (f i) (poll st' s sig i)) n in
    run config (iters n) faults w rl = run config (iters (S k)) faults w rl ∧
    (run config (iters n) faults w rl).2 ≠ None.
Proof.
  intros Hf Hi Hj. destruct (installed_handlers _ _ _ Hi) as (Ht&Hn&Hc).
  destruct (first_poll st' s sig j) as (k&Hk&Hp&Hlow); [by rewrite Hc|done|done|done|].
  exists k. split; [done|]. intros n Hlt. cbv zeta. set (g := λ i, run_polled (f i) (poll st' s sig i)).
  assert (Forall (λ it, ri_shutdown it = false) (script g k)) as Hpre by (apply Forall_script; apply Hlow).
  assert (∀ m s0, (k < m)%nat → run_loop config (script g m) s0 =
    (foldl (λ s it, run_iter config it s) s0 (script g k), true)) as Hloop.
  { intros m s0 Hm. rewrite (script_split g k m Hm). by apply run_loop_stops. }
  unfold run. cbv zeta. destruct (fw_init _) as [fw [[]|e]]; [|done].
  rewrite !Hloop by lia. done.
Qed.

(** The loops of the privilege-separated mode, as long as every call in them
    returns. On any endless input, once its termination signal arrived in
    iteration [j], the parent's loop, the capture worker and the crypto worker
    each end after at most [j + 1] iterations, with the same result however
    much more input there is; the parent then returns when its waits do. That
    a [send] or a wait may not return is the subject of ProcessShutdown.v. *)
Lemma privsep_loops_stop st' config (fp : nat → ParentIter) (fc : nat → CaptureIter)
    (fy : nat → CryptoIter) penv w rl mode validate j :
  (flag s < length (cells st))%nat → install_handlers st s (Ok ()) (Ok ()) = (st', Ok ()) →
  SIGTERM ∈ sig j ∨ SIGINT ∈ sig j →
  ∃ k, (k ≤ S j)%nat ∧ ∀ n, (k < n)%nat →
    let polled {A} (p : A → bool → A) (f : nat → A) n := script (λ i, p (f i) (poll st' s sig i)) n in
    let parent n := run_parent_loop config penv (polled parent_polled fp n) w in
    let capture n := run_capture_worker (Ok ()) rl (polled capture_polled fc n) in
    let crypto n := run_crypto_worker mode (Ok ()) validate (polled crypto_polled fy n) in
    (parent n = parent (S k) ∧
     (is_Some (pe_capture_end penv) → is_Some (pe_crypto_end penv) → (parent n).2 ≠ None)) ∧
    (capture n = capture (S k) ∧ (capture n).2 ≠ None) ∧
    (crypto n = crypto (S k) ∧ (crypto n).2 ≠ None).
Proof.
  intros Hf Hi Hj. destruct (installed_handlers _ _ _ Hi) as (Ht&Hn&Hc).
  destruct (first_poll st' s sig j) as (k&Hk&Hp&_); [by rewrite Hc|done|done|done|].
  exists k. split; [done|]. intros n Hlt. cbv zeta.
  assert (∀ {A} (g : nat → A), script g n = script g k ++ g k :: (g <$> seq (S k) (n - S k)) ∧
    script g (S k) = script g k ++ [g k]) as Hs.
  { intros A g. split; [by apply script_split|apply script_S]. }
  split; [|split].
  - set (g := λ i, parent_polled (fp i) (poll st' s sig i)). destruct (Hs _ g) as [-> ->].
    unfold run_parent_loop. cbv zeta. destruct (pe_handlers penv); [|done]. destruct (pe_set_read_timeout penv); [|done].
    match goal with |- context [parent_loop config (?pre ++ ?it :: ?post) ?s0] =>
      destruct (parent_loop_stops config pre it post s0 Hp) as [-> Hb];
      destruct (parent_loop config (pre ++ [it]) s0) as [? []] end; [|done].
    split; [done|]. by intros [? ->] [? ->].
  - set (g := λ i, capture_polled (fc i) (poll st' s sig i)). destruct (Hs _ g) as [-> ->].
    unfold run_capture_worker. destruct (capture_loop_stops (script g k) (g k) (g <$> seq (S k) (n - S k)) rl Hp) as [-> Hb].
    done.
  - set (g := λ i, crypto_polled (fy i) (poll st' s sig i)). destruct (Hs _ g) as [-> ->].
    unfold run_crypto_worker.
    destruct (crypto_loop_stops mode validate (script g k) (g k) (g <$> seq (S k) (n - S k)) Hp) as [-> Hb]. done.
Qed.
End loops.

(** ** Control of the worker processes *)

(** fork.rs: a worker's handle, and the system calls its methods make. *)
Record ForkedWorker := { worker_pid : Z; worker_name : str }.

Inductive ProcCall := Kill (pid signal : Z) | WaitFor (pid : Z) | WaitNoHang (pid : Z).

Definition signal_terminate_calls (fw : ForkedWorker) : list ProcCall := [Kill (worker_pid fw) SIGTERM].
Definition wait_calls (fw : ForkedWorker) : list ProcCall := [WaitFor (worker_pid fw)].
(** The wait is made whether or not the signal could be sent. *)
Definition terminate_and_wait_calls (fw : ForkedWorker) : list ProcCall :=
  signal_terminate_calls fw ++ wait_calls fw.
(** [Drop]: both outcomes are ignored. *)
Definition drop_calls (fw : ForkedWorker) : list ProcCall :=
  [Kill (worker_pid fw) SIGTERM; WaitNoHang (worker_pid fw)].

Section processes.
Context `{N : IpNetOps} `{R : Ring} `{M : Rmp SpaPayload} `{L : LruCache Nonce Z} `{HI : HashIter}
  {B : Type} `{F : !FirewallBackend B}.
Implicit Types (config : DaemonConfig) (w : World B) (capture crypto : ForkedWorker).

(** The calls of [run_parent_loop], those of the eager reaping left out. *)
Definition parent_loop_calls config (penv : ParentEnv) (iters : list ParentIter) w capture crypto
  : list ProcCall :=
  match pe_handlers penv with
  | Err _ => []
  | Ok _ =>
      match pe_set_read_timeout penv with
      | Err _ => []
      | Ok _ =>
          let s := {| ps_world := w; ps_tick := 0; ps_triggered := false; ps_notes := notify config Ready [] |} in
          if (parent_loop config iters s).2
          then terminate_and_wait_calls capture ++
               match pe_capture_end penv with Some _ => terminate_and_wait_calls crypto | None => [] end
          else []
      end
  end.

(** When [run_parent_after_capture_fork] returns, the handles it owns are
    dropped, the one of the crypto worker first. *)
Definition after_fork_calls config (fork2 : result Errno unit) (penv : ParentEnv) (iters : list ParentIter)
    w capture crypto : list ProcCall :=
  match fork2 with
  | Err _ => drop_calls capture
  | Ok _ =>
      parent_loop_calls config penv iters w capture crypto ++
      match (run_parent_loop config penv iters w).2 with
      | Some _ => drop_calls crypto ++ drop_calls capture
      | None => []
      end
  end.

(** No worker outlives the parent's loop unsignalled. Whichever way the
    parent leaves after the first fork, on an error of the second fork or of
    the setup of its loop or after shutdown, every worker it forked has been
    sent SIGTERM. *)
Theorem workers_always_signalled config fork2 penv iters w capture crypto r :
  (run_parent_after_capture_fork config fork2 penv iters w).2 = Some r →
  Kill (worker_pid capture) SIGTERM ∈ after_fork_calls config fork2 penv iters w capture crypto ∧
  (∀ u, fork2 = Ok u →
     Kill (worker_pid crypto) SIGTERM ∈ after_fork_calls config fork2 penv iters w capture crypto).
Proof.
  unfold run_parent_after_capture_fork, after_fork_calls. destruct fork2 as [u|e]; [|intros _; split; [set_solver|done]].
  destruct (run_parent_loop config penv iters w) as [[s log] st]. cbn [snd]. intros ->. unfold drop_calls. split; set_solver.
Qed.

(** After an orderly shutdown each worker's pid is signalled once more, after
    it has been reaped and may belong to another process: the handles are
    dropped on every path, not only on errors. *)
Lemma reaped_pid_signalled config penv iters w capture crypto s log r u :
  pe_handlers penv = Ok u → pe_set_read_timeout penv = Ok u →
  run_parent_loop config penv iters w = (s, log, Some r) →
  ∃ pre mid post, after_fork_calls config (Ok ()) penv iters w capture crypto =
    pre ++ WaitFor (worker_pid capture) :: mid ++ Kill (worker_pid capture) SIGTERM :: post.
Proof.
  intros Hh Ht Hr. unfold after_fork_calls, parent_loop_calls. rewrite Hr, Hh, Ht. cbv zeta. cbn [snd].
  revert Hr. unfold run_parent_loop. cbv zeta. rewrite Hh, Ht.
  destruct (parent_loop _ _ _) as [s1 []]; [|done]. destruct (pe_capture_end penv); [|done]. intros _. cbn [snd].
  exists [Kill (worker_pid capture) SIGTERM],
    [Kill (worker_pid crypto) SIGTERM; WaitFor (worker_pid crypto); Kill (worker_pid crypto) SIGTERM;
     WaitNoHang (worker_pid crypto)], [WaitNoHang (worker_pid capture)].
  done.
Qed.
End processes.

(** ** Witnesses *)

#[local] Existing Instance sample_rmp.
#[local] Existing Instance sorted_hash_iter.
#[local] Existing Instance sample_capture_rmp.
#[local] Existing Instance sample_crypto_rmp.

Definition no_signals : SignalState := {| cells := [false]; handlers := [] |}.
Definition main_signal : ShutdownSignal := {| flag := 0 |}.
Definition handlers_installed : SignalState := (install_handlers no_signals main_signal (Ok ()) (Ok ())).1.
(** SIGTERM in the third iteration. *)
Definition term_in_third (k : nat) : list Z := if (k =? 2)%nat then [SIGTERM] else [].

Lemma run_terminates_witness :
  (run sample_config
     (script (λ i, run_polled sample_run_iter (poll handlers_installed main_signal term_in_third i)) 10)
     no_faults sample_world small_limiter).2 ≠ None.
Proof.
  destruct (run_terminates no_signals main_signal term_in_third handlers_installed sample_config
    (λ _, sample_run_iter) no_faults sample_world small_limiter 2) as (k & Hk & H);
    [vm_compute; lia|reflexivity|left; apply list_elem_of_here|].
  destruct (H 10%nat) as [_ Hn]; [lia|]. exact Hn.
Defined.

(** The second fork fails: the capture worker is told to stop. *)
Lemma workers_always_signalled_witness :
  let capture := {| worker_pid := 41; worker_name := lit "capture" |} in
  let crypto := {| worker_pid := 42; worker_name := lit "crypto" |} in
  Kill 41 SIGTERM ∈
    after_fork_calls sample_config (Err {| errno_code := 11; errno_text := [] |}) sample_parent_env [] sample_world
      capture crypto.
Proof.
  intros capture crypto.
  apply (workers_always_signalled sample_config (Err {| errno_code := 11; errno_text := [] |}) sample_parent_env []
    sample_world capture crypto (Err (fork_error {| errno_code := 11; errno_text := [] |}))).
  reflexivity.
Defined.
