(* ===== verification/Client.v ===== *)
(** * fwknox-client: from the command line to a packet

    Models crates/fwknox-client/src/{cli,error,keygen,packet,send}.rs and the
    binary's bin/fwknox.rs. The environment variables, the clock, the random
    generator, name resolution and the socket calls are inputs; the command
    line is the parsed [Cli] record. *)

From S2P Require Import Prelude RustStd Net Proto Instances Packet Config Capture NetText Serde.

(** ** cli.rs, error.rs *)

Record Cli := {
  cli_name : option str;
  cli_destination : option str;
  cli_port : option Z;
  cli_access : option str;
  cli_source_ip : option str;
  cli_username : option str;
  cli_timeout : option Z;
  cli_master_key_base64 : option str;
  cli_config : option str;
  cli_test : bool;
  cli_generate_key : bool;
  cli_verbose : Z;
}.

Inductive ClientError :=
  | ClientConfigError (e : ConfigError)
  | ClientProto (e : ProtoError)
  | ClientIo (e : io_error)
  | MissingArgument (what : str)
  | InvalidArgument (field reason : str)
  | UnknownServer (name : str).

Section client.
Context `{B : Base64} `{U : UnicodeTables} `{R : Ring} `{M : Rmp SpaPayload}.

(** ** keygen.rs

    [rng] is what [SystemRandom::fill] left in the buffer, if it succeeded. *)

Definition csprng_failed : ClientError :=
  InvalidArgument (lit "csprng") (lit "system random number generator failed").

Definition generate_master_key (rng : option bytes) : result ClientError bytes :=
  ok_or csprng_failed rng.
Definition generate_master_key_base64 (rng : option bytes) : result ClientError str :=
  k ← generate_master_key rng; Ok (b64_encode k).

(** ** packet.rs *)

Definition decode_master_key (b64 : str) : result ClientError bytes :=
  bs ← map_err (InvalidArgument (lit "master-key-base64")) (b64_decode b64);
  _ ← guard_err (negb (len bs =? 32))
        (InvalidArgument (lit "master-key-base64")
           (lit "expected 32 bytes, got " ++ dec (len bs)));
  Ok bs.

Definition resolve_master_key (cli : Cli) (server : option ServerEntry) : result ClientError bytes :=
  match cli_master_key_base64 cli with
  | Some b64 => decode_master_key b64
  | None =>
      match server with
      | Some s => Ok (server_master_key s)
      | None => Err (MissingArgument (lit "master_key (-k or via -n / --name)"))
      end
  end.

Fixpoint parse_access_tokens (tokens : list str) : result ClientError (list PortProto) :=
  match tokens with
  | [] => Ok []
  | token :: tokens =>
      let token := trim token in
      if bool_decide (token = []) then parse_access_tokens tokens
      else
        pp ← map_err (λ e, InvalidArgument (lit "access") (show_ConfigError e)) (parse_port_proto token);
        out ← parse_access_tokens tokens;
        Ok (pp :: out)
  end.

Definition parse_access_string (s : str) : result ClientError (list PortProto) :=
  out ← parse_access_tokens (split_char 44 s);
  _ ← guard_err (bool_decide (out = [])) (InvalidArgument (lit "access") (lit "empty list"));
  Ok out.

Definition resolve_ports (cli : Cli) (server : option ServerEntry)
  : result ClientError (list PortProto) :=
  match cli_access cli with
  | Some s => parse_access_string s
  | None =>
      match server with
      | Some s => Ok (server_access s)
      | None => Err (MissingArgument (lit "access (-A or via -n / --name)"))
      end
  end.

Definition parse_ip_arg (field s : str) : result ClientError IpAddr :=
  ok_or (InvalidArgument field show_AddrParseError) (parse_ip s).

Definition loopback : IpAddr := V4 [127; 0; 0; 1].

Definition resolve_source_ip (cli : Cli) (server : option ServerEntry) : result ClientError IpAddr :=
  match cli_source_ip cli with
  | Some s => parse_ip_arg (lit "source-ip") s
  | None =>
      match server with
      | Some s =>
          if negb (bool_decide (server_source_ip s = lit "auto"))
          then parse_ip_arg (lit "server.source_ip") (server_source_ip s)
          else Ok loopback
      | None => Ok loopback
      end
  end.

(** [user_var] is [$USER]. *)
Definition resolve_username (cli : Cli) (user_var : option str) : str :=
  match cli_username cli with
  | Some u => u
  | None => default (lit "fwknox") user_var
  end.

Definition current_unix (clock : option Z) : Z := wrap_i64 (default 0 clock).

Definition random_nonce (rng : option bytes) : result ClientError bytes := ok_or csprng_failed rng.

(** [u32::try_from(t).ok()]. *)
Definition to_u32 (t : Z) : option Z := if t <=? u32_max then Some t else None.

Definition resolve_timeout (cli : Cli) (server : option ServerEntry) : option Z :=
  match cli_timeout cli ≫= to_u32 with
  | Some t => Some t
  | None => (server ≫= server_fw_timeout) ≫= λ d, to_u32 (as_secs d)
  end.

Record ClientEnv := {
  ce_user : option str;
  ce_clock : option Z;
  ce_payload_rng : option bytes;
  ce_packet_rng : option bytes;
}.

Definition build_spa_packet (cli : Cli) (server : option ServerEntry) (env : ClientEnv)
  : result ClientError bytes :=
  master_key ← resolve_master_key cli server;
  ports ← resolve_ports cli server;
  source_ip ← resolve_source_ip cli server;
  nonce ← random_nonce (ce_payload_rng env);
  let payload := {|
    nonce := nonce;
    timestamp := current_unix (ce_clock env);
    username := resolve_username cli (ce_user env);
    message := Access source_ip ports;
    client_timeout := resolve_timeout cli server |} in
  map_err ClientProto (build_packet payload master_key (ce_packet_rng env)).

(** ** send.rs

    [bind], [lookup] and [send] are the outcomes of the calls. *)

Definition resolve (lookup : result io_error (list SocketAddr)) : result ClientError SocketAddr :=
  addrs ← map_err ClientIo lookup;
  ok_or (InvalidArgument (lit "destination") (lit "host did not resolve to any address")) (head addrs).

(** The datagram that left, with its target. *)
Definition send_udp_packet (packet : bytes) (bind : result io_error unit)
    (lookup : result io_error (list SocketAddr)) (send : SocketAddr → result io_error unit)
  : result ClientError (SocketAddr * bytes) :=
  _ ← map_err ClientIo bind;
  target ← resolve lookup;
  _ ← map_err ClientIo (send target);
  Ok (target, packet).

(** ** bin/fwknox.rs *)

Definition default_client_config_path (home : option str) : str :=
  match home with
  | Some h =>
      (* [PathBuf::push] adds a separator unless the path ends in one. *)
      if bool_decide (h = []) || bool_decide (last h = Some 47) then h ++ lit ".config/fwknox/fwknox.toml"
      else h ++ lit "/.config/fwknox/fwknox.toml"
  | None => lit "fwknox.toml"
  end.

Definition load_server_entry (cli : Cli) (home : option str)
    (load : str → result ConfigError ClientConfig) : result ClientError (option ServerEntry) :=
  match cli_name cli with
  | None => Ok None
  | Some name =>
      cfg ← map_err ClientConfigError (load (default (default_client_config_path home) (cli_config cli)));
      s ← ok_or (UnknownServer name) (find_server cfg name);
      Ok (Some s)
  end.

Definition resolve_destination (cli : Cli) (server : option ServerEntry) : result ClientError str :=
  match cli_destination cli with
  | Some d => Ok d
  | None =>
      match server with
      | Some s => Ok (destination s)
      | None => Err (MissingArgument (lit "destination (-D or via -n / --name)"))
      end
  end.

Definition resolve_port (cli : Cli) (server : option ServerEntry) : Z :=
  match cli_port cli with
  | Some p => p
  | None => match server with Some s => server_port s | None => 62201 end
  end.

(** What a successful run of the client does. *)
Inductive ClientOutcome :=
  | PrintedKey (key : str)
  | PrintedPacket (text : str)
  | Sent (target : SocketAddr) (packet : bytes).

Record ClientWorld := {
  cw_home : option str;
  cw_load : str → result ConfigError ClientConfig;
  cw_key_rng : option bytes;
  cw_env : ClientEnv;
  cw_bind : result io_error unit;
  cw_lookup : str → Z → result io_error (list SocketAddr);
  cw_send : SocketAddr → result io_error unit;
}.

Definition client_main (cli : Cli) (cw : ClientWorld) : result ClientError ClientOutcome :=
  if cli_generate_key cli then
    key ← generate_master_key_base64 (cw_key_rng cw); Ok (PrintedKey key)
  else
    server ← load_server_entry cli (cw_home cw) (cw_load cw);
    dest ← resolve_destination cli server;
    let port := resolve_port cli server in
    wire ← build_spa_packet cli server (cw_env cw);
    if cli_test cli then Ok (PrintedPacket (b64_encode wire))
    else
      '(target, packet) ← send_udp_packet wire (cw_bind cw) (cw_lookup cw dest port) (cw_send cw);
      Ok (Sent target packet).
End client.

(** ** Properties *)

Section properties.
Context `{B : Base64} `{U : UnicodeTables} `{R : Ring} `{RL : !RingLaws R}
  `{M : Rmp SpaPayload} `{ML : !RmpLaws SpaPayload}.

(** The ranges of the Rust types of what the client reads. *)
Definition cli_typed (cli : Cli) : Prop := match cli_timeout cli with Some t => 0 ≤ t | None => True end.
Definition server_typed (s : ServerEntry) : Prop :=
  ports_typed (server_access s) ∧ match server_fw_timeout s with Some d => 0 ≤ d | None => True end.
Definition server_opt_typed (server : option ServerEntry) : Prop :=
  match server with Some s => server_typed s | None => True end.

Lemma parse_access_tokens_typed tokens pps : parse_access_tokens tokens = Ok pps → ports_typed pps.
Proof.
  revert pps. induction tokens as [|t tokens IH]; intros pps; cbn [parse_access_tokens]; [by intros [= <-]; constructor|].
  cbv zeta. destruct (bool_decide _); [apply IH|]. intros Hp. inv_ok. subst. constructor; [|by apply IH].
  match goal with H : parse_port_proto _ = Ok _ |- _ => apply parse_port_proto_typed in H end.
  unfold is_u16. lia.
Qed.

Lemma resolved_typed cli server ports src :
  cli_typed cli → server_opt_typed server →
  resolve_ports cli server = Ok ports → resolve_source_ip cli server = Ok src →
  ip_wf src ∧ ports_typed ports ∧
  match resolve_timeout cli server with Some t => is_u32 t | None => True end.
Proof.
  intros Hc Hs Hp Hi. split_and!.
  - revert Hi. unfold resolve_source_ip, parse_ip_arg.
    assert (ip_wf loopback) by (split; [done|]; apply (bool_decide_unpack _); vm_compute; exact I).
    repeat case_match; rewrite ?ok_or_ok; try (intros ?%parse_ip_wf; done); by intros [= <-].
  - revert Hp. unfold resolve_ports, parse_access_string. repeat case_match; [|intros [= <-]; apply Hs|done].
    intros Hp. inv_ok. subst. by eapply parse_access_tokens_typed.
  - assert (∀ x t, 0 ≤ x → to_u32 x = Some t → is_u32 t) as Hu.
    { intros x t Hx. unfold to_u32, is_u32. destruct (Z.leb_spec x u32_max); [|done]. intros [= <-]. lia. }
    unfold resolve_timeout, cli_typed in *. destruct (cli_timeout cli ≫= to_u32) as [t|] eqn:E.
    + destruct (cli_timeout cli) as [x|]; [|done]. by eapply Hu.
    + destruct server as [s|]; [|done]. cbn [mbind option_bind]. destruct Hs as [_ Hs].
      destruct (server_fw_timeout s) as [d|]; [|done]. cbn [mbind option_bind].
      destruct (to_u32 (as_secs d)) as [t|] eqn:Et; [|done]. eapply Hu; [|exact Et]. by apply Z.div_pos.
Qed.

(** The client and the server agree on the wire. A packet the client
    built from its command line and server entry parses under the key it
    resolved to the access request it resolved, with the clock's time and
    the fresh nonce, provided the user name is one the protocol admits. *)
Theorem client_packet_parses cli server env wire mk ports src n16 n12 :
  cli_typed cli → server_opt_typed server → length n16 = 16%nat → is_bytes n16 →
  ce_payload_rng env = Some n16 → ce_packet_rng env = Some n12 → len n12 = NONCE_LEN →
  resolve_master_key cli server = Ok mk → resolve_ports cli server = Ok ports →
  resolve_source_ip cli server = Ok src →
  build_spa_packet cli server env = Ok wire →
  let p := {| nonce := n16; timestamp := current_unix (ce_clock env);
              username := resolve_username cli (ce_user env); message := Access src ports;
              client_timeout := resolve_timeout cli server |} in
  validate_structure p = Ok () → parse_packet wire mk = Ok p.
Proof.
  intros Hct Hst Hn16 Hb16 Hr1 Hr2 Hl Hk Hp Hs Hb p Hv. unfold build_spa_packet in Hb.
  rewrite Hk, Hp, Hs, Hr1, Hr2 in Hb. cbn [mbind result_bind ok_or random_nonce] in Hb.
  apply map_err_ok in Hb.
  assert (portable p) as Hport.
  { destruct (resolved_typed cli server ports src Hct Hst Hp Hs) as (?&?&?).
    split; [by split|]. split; [apply wrap_i64_range|]. by split. }
  rewrite (parse_built p mk n12 wire Hport Hl Hb). by rewrite Hv.
Qed.

(** The printed form of a pair holds neither white space nor a comma. *)
Lemma show_PortProto_chars pp :
  0 ≤ port pp → Forall (λ c, is_whitespace c = false ∧ c ≠ 44) (show_PortProto pp).
Proof.
  intros Hp. unfold show_PortProto. apply Forall_app; split.
  { destruct (proto pp); vm_compute; repeat constructor; discriminate. }
  apply Forall_app; split; [vm_compute; repeat constructor; discriminate|].
  eapply Forall_impl; [by apply dec_digits|]. intros c Hc. split; [by apply digit_not_ws|].
  intros ->. done.
Qed.

Lemma parse_access_tokens_show pps :
  Forall (λ pp, 1 ≤ port pp ≤ u16_max) pps →
  parse_access_tokens (show_PortProto <$> pps) = Ok pps.
Proof.
  induction 1 as [|pp pps Hp _ IH]; [done|]. cbn [fmap list_fmap parse_access_tokens].
  assert (trim (show_PortProto pp) = show_PortProto pp) as ->.
  { apply trim_nonws. eapply Forall_impl; [apply show_PortProto_chars; lia|]. by intros c []. }
  rewrite bool_decide_eq_false_2 by (unfold show_PortProto; by destruct (proto pp)).
  rewrite parse_show_port_proto by done. cbn [map_err mbind result_bind]. by rewrite IH.
Qed.

(** A printed list of ports read back from the command line is the list,
    for every non-empty list of nonzero ports. *)
Theorem access_string_roundtrip pps :
  pps ≠ [] → Forall (λ pp, 1 ≤ port pp ≤ u16_max) pps →
  parse_access_string (str_join (lit ",") (show_PortProto <$> pps)) = Ok pps.
Proof.
  intros Hne Hp. unfold parse_access_string. change (lit ",") with [44].
  rewrite split_char_join.
  - rewrite parse_access_tokens_show by done. cbn [mbind result_bind].
    by rewrite bool_decide_eq_false_2.
  - by destruct pps.
  - apply Forall_fmap. eapply Forall_impl; [exact Hp|]. intros pp Hpp Hin.
    cbv beta in Hpp. pose proof (show_PortProto_chars pp ltac:(lia)) as Hc. rewrite Forall_forall in Hc.
    apply Hc in Hin as [_ Hin]. by apply Hin.
Qed.

(** Precedence. A flag on the command line always wins over the server
    entry, and with neither the client asks for loopback, the daemon's
    default port, and refuses to go on without a key, ports or a
    destination. *)
Theorem client_resolution cli server :
  (∀ s, cli_source_ip cli = Some s →
     resolve_source_ip cli server = ok_or (InvalidArgument (lit "source-ip") show_AddrParseError) (parse_ip s)) ∧
  (∀ p, cli_port cli = Some p → resolve_port cli server = p) ∧
  (∀ d, cli_destination cli = Some d → resolve_destination cli server = Ok d) ∧
  (∀ t, cli_timeout cli = Some t → t ≤ u32_max → resolve_timeout cli server = Some t) ∧
  (∀ t s, cli_timeout cli = Some t → u32_max < t → server = Some s → server_fw_timeout s = None →
     resolve_timeout cli server = None) ∧
  (server = None → cli_master_key_base64 cli = None → cli_access cli = None →
     cli_source_ip cli = None → cli_port cli = None → cli_destination cli = None →
     (∃ w, resolve_master_key cli server = Err (MissingArgument w)) ∧
     (∃ w, resolve_ports cli server = Err (MissingArgument w)) ∧
     (∃ w, resolve_destination cli server = Err (MissingArgument w)) ∧
     resolve_source_ip cli server = Ok loopback ∧ resolve_port cli server = 62201).
Proof.
  split_and!.
  - intros s Hs. unfold resolve_source_ip. by rewrite Hs.
  - intros p Hp. unfold resolve_port. by rewrite Hp.
  - intros d Hd. unfold resolve_destination. by rewrite Hd.
  - intros t Ht Hle. unfold resolve_timeout, to_u32. rewrite Ht. cbn [mbind option_bind].
    by rewrite (proj2 (Z.leb_le _ _)).
  - intros t s Ht Hgt -> Hs. unfold resolve_timeout, to_u32. rewrite Ht. cbn [mbind option_bind].
    rewrite (proj2 (Z.leb_gt _ _)) by done. by rewrite Hs.
  - intros -> Hk Ha Hs Hp Hd. unfold resolve_master_key, resolve_ports, resolve_destination,
      resolve_source_ip, resolve_port. rewrite Hk, Ha, Hs, Hp, Hd.
    split_and!; [by eexists|by eexists|by eexists|done|done].
Qed.
End properties.

(** ** Witnesses *)

#[local] Existing Instance sample_rmp.
#[local] Existing Instance sample_rmp_laws.
(** Bytes written as themselves. *)
#[local] Instance plain_base64 : Base64 := { b64_encode bs := bs; b64_decode s := Ok s }.

Definition sample_cli : Cli := {|
  cli_name := None; cli_destination := Some (lit "192.0.2.1"); cli_port := None;
  cli_access := Some (lit "tcp/22"); cli_source_ip := Some (lit "192.168.1.5");
  cli_username := Some (lit "alice"); cli_timeout := Some 60;
  cli_master_key_base64 := Some sample_key; cli_config := None; cli_test := false;
  cli_generate_key := false; cli_verbose := 0 |}.
Definition sample_client_env : ClientEnv := {|
  ce_user := None; ce_clock := Some 1700000000; ce_payload_rng := Some (replicate 16 171);
  ce_packet_rng := Some sample_nonce |}.

Lemma client_packet_parses_witness : parse_packet sample_wire sample_key = Ok sample_payload.
Proof.
  apply (client_packet_parses sample_cli None sample_client_env sample_wire sample_key
    [PortProto_new Tcp 22] (V4 [192; 168; 1; 5]) (replicate 16 171) sample_nonce);
    [vm_compute; discriminate|exact I|reflexivity|apply (bool_decide_unpack _); vm_compute; exact I|..];
    vm_compute; reflexivity.
Defined.

Lemma access_string_roundtrip_witness :
  parse_access_string (lit "tcp/22,udp/53") = Ok [PortProto_new Tcp 22; PortProto_new Udp 53].
Proof.
  apply (access_string_roundtrip [PortProto_new Tcp 22; PortProto_new Udp 53]); [discriminate|].
  repeat constructor; vm_compute; discriminate.
Defined.

Lemma client_resolution_witness : resolve_timeout sample_cli None = Some 60.
Proof.
  destruct (client_resolution sample_cli None) as (_ & _ & _ & Ht & _).
  apply Ht; [reflexivity|vm_compute; discriminate].
Defined.
