(* ===== verification/Binaries.v ===== *)
(** * The three binaries

    Models the entry points of crates/fwknox-daemon/src/bin/fwknoxd.rs and
    bin/fwknoxd-mock.rs and of crates/fwknox-client/src/bin/fwknox.rs: the
    command line of the daemon (cli.rs), the log filter, the exit codes, and
    the start-up of the mock binary next to that of the real one. The parsed
    command line is an input, [RUST_LOG] too. *)

From S2P Require Import Prelude RustStd Net Lru Proto Instances Packet Persist Replay Config RateLimit.
From S2P Require Import Firewall Capture Privsep Sandbox Daemon DaemonRun Fwknoxd Client.

(** ** cli.rs *)

Module DaemonCli.
Record Cli := { config : str; verbose : Z }.

(** [-c] and the count of [-v], with their defaults. *)
Definition default_config : str := lit "/etc/fwknox/fwknoxd.toml".
Definition from_args (c : option str) (vs : Z) : Cli :=
  {| config := default default_config c; verbose := vs |}.
End DaemonCli.

(** ** The log filter *)

(** [tracing_subscriber::EnvFilter]: what a directive string means is its
    own. *)
Class EnvFilterOps := {
  EnvFilter : Type;
  EnvFilter_new : str → EnvFilter;
}.

Section tracing.
Context `{T : EnvFilterOps}.

Definition verbosity (verbose : Z) : str :=
  if verbose =? 0 then lit "info" else if verbose =? 1 then lit "debug" else lit "trace".

(** [rust_log] is [EnvFilter::try_from_default_env()], when it parses. *)
Definition fwknoxd_filter (verbose : Z) (rust_log : option EnvFilter) : EnvFilter :=
  let level := verbosity verbose in
  default (EnvFilter_new (lit "fwknox=" ++ level ++ lit ",fwknoxd=" ++ level)) rust_log.
Definition mock_filter (verbose : Z) (rust_log : option EnvFilter) : EnvFilter :=
  let level := verbosity verbose in
  default (EnvFilter_new (lit "fwknox=" ++ level ++ lit ",fwknoxd_mock=" ++ level)) rust_log.
Definition client_filter (verbose : Z) (rust_log : option EnvFilter) : EnvFilter :=
  default (EnvFilter_new (lit "fwknox=" ++ verbosity verbose)) rust_log.
End tracing.

(** ** main *)

Inductive ExitCode := SUCCESS | FAILURE.

(** How a binary ends, with the filter it logged through. A release build
    aborts on a panic. *)
Inductive process_end :=
  | Exited (code : ExitCode)
  | StillRunning
  | AbortedByPanic.

Definition exit_of (st : main_end) : process_end :=
  match st with
  | MainReturned (Ok _) => Exited SUCCESS
  | MainReturned (Err _) => Exited FAILURE
  | MainRunning => StillRunning
  | MainPanicked => AbortedByPanic
  end.

Section mains.
Context `{T : EnvFilterOps} `{N : IpNetOps} `{U : UnicodeTables} `{R : Ring} `{M : Rmp SpaPayload}
  `{L : LruCache Nonce Z} `{HI : HashIter} `{LT : LruCache SourceKey TokenBucket} `{HA : HashAlloc}
  {B : Type} `{F : !FirewallBackend B} {P : Type} `{S : !SandboxSys P}.

(** [main] of fwknoxd. *)
Definition fwknoxd_main (cli : DaemonCli.Cli) (rust_log : option EnvFilter) (env : MainEnv P)
    (fs : Fs) (fw : B) : EnvFilter * (B * Fs * process_end) :=
  let filter := fwknoxd_filter (DaemonCli.verbose cli) rust_log in
  let '(fw, fs, st) := real_main env (DaemonCli.config cli) fs fw in
  (filter, (fw, fs, exit_of st)).

(** [real_main] of fwknoxd-mock: no choice of a backend and no sandbox. *)
Definition mock_open (env : MainEnv P) (path : str) (fs : Fs)
  : option (result DaemonError (DaemonConfig * ReplayCache)) :=
  match (config ← map_err DConfig (load_daemon_config (me_read env) (me_from_str env) path);
         _ ← map_err DIo (me_bind env);
         Ok config) with
  | Err e => Some (Err e)
  | Ok config => cache_step3 env config fs
  end.

Definition mock_real_main (env : MainEnv P) (path : str) (fs : Fs)
  : Mock.MockState * Fs * main_end :=
  let fw := Mock.mock_new in
  match mock_open env path fs with
  | None => (fw, fs, MainPanicked)
  | Some (Err e) => (fw, fs, MainReturned (Err e))
  | Some (Ok (config, replay)) =>
      match with_clock (rate_limit config) (me_now env) with
      | None => (fw, fs, MainPanicked)
      | Some limiter =>
          let w := {| w_replay := replay; w_fs := fs; w_fw := fw |} in
          if enable_privsep (daemon config) then
            let '(w, st) := privsep_run config (me_forks env) (me_parent env)
                              (me_parent_iters env) w in
            (w_fw w, w_fs w, main_of st)
          else
            match me_handlers env with
            | Err e => (fw, fs, MainReturned (Err (DIo e)))
            | Ok _ =>
                let '(s, st) := run config (me_iters env) (me_exit_faults env) w limiter in
                (w_fw (rs_world s), w_fs (rs_world s), main_of st)
            end
      end
  end.

Definition mock_main (cli : DaemonCli.Cli) (rust_log : option EnvFilter) (env : MainEnv P) (fs : Fs)
  : EnvFilter * (Mock.MockState * Fs * process_end) :=
  let filter := mock_filter (DaemonCli.verbose cli) rust_log in
  let '(fw, fs, st) := mock_real_main env (DaemonCli.config cli) fs in
  (filter, (fw, fs, exit_of st)).
End mains.

(** [main] of the client. *)
Definition fwknox_main `{T : EnvFilterOps} `{B : Base64} `{U : UnicodeTables} `{R : Ring}
    `{M : Rmp SpaPayload} (cli : Cli) (rust_log : option EnvFilter) (cw : ClientWorld)
  : EnvFilter * ExitCode * option ClientOutcome :=
  let filter := client_filter (cli_verbose cli) rust_log in
  match client_main cli cw with
  | Ok out => (filter, SUCCESS, Some out)
  | Err _ => (filter, FAILURE, None)
  end.

(** ** Configurations the loops cannot tell apart *)

Section config_equiv.
Context `{N : IpNetOps}.

(** Everything but the four fields only start-up reads: the backend, the
    sandbox switch, the user and the group. *)
Definition without_startup (c : DaemonConfig) : DaemonConfig := {|
  daemon := {|
    listen_addr := listen_addr (daemon c);
    listen_port := listen_port (daemon c);
    firewall_backend := Config.Nftables;
    run_user := [];
    run_group := [];
    max_spa_packet_age := max_spa_packet_age (daemon c);
    flush_rules_at_init := flush_rules_at_init (daemon c);
    flush_rules_at_exit := flush_rules_at_exit (daemon c);
    default_fw_timeout := default_fw_timeout (daemon c);
    max_fw_timeout := max_fw_timeout (daemon c);
    enable_systemd := enable_systemd (daemon c);
    enable_sandbox := false;
    enable_privsep := enable_privsep (daemon c);
    landlock_enabled := false;
  |};
  replay := replay c;
  rate_limit := rate_limit c;
  access := access c;
|}.

Record same_running (c1 c2 : DaemonConfig) : Prop := {
  same_view : without_startup c1 = without_startup c2;
}.
#[global] Instance config_equiv : Equiv DaemonConfig := same_running.
#[global] Instance config_equivalence : Equivalence (≡@{DaemonConfig}).
Proof. split; [by constructor|intros ?? [?]|intros ??? [?] [?]]; constructor; congruence. Qed.

Lemma without_startup_equiv c : without_startup c ≡ c.
Proof. by constructor. Qed.

(** A function respects the relation when it computes the same from the
    reduced configuration. *)
Lemma proper_view {A} (f : DaemonConfig → A) :
  (∀ c, f (without_startup c) = f c) → Proper ((≡) ==> (=)) f.
Proof. intros Hf c1 c2 [E]. rewrite <- (Hf c1), <- (Hf c2). by rewrite E. Qed.

#[global] Instance access_proper : Proper ((≡) ==> (=)) access.
Proof. by apply proper_view. Qed.
#[global] Instance replay_proper : Proper ((≡) ==> (=)) replay.
Proof. by apply proper_view. Qed.
#[global] Instance rate_limit_proper : Proper ((≡) ==> (=)) rate_limit.
Proof. by apply proper_view. Qed.
#[global] Instance validate_proper `{U : UnicodeTables} : Proper ((≡) ==> (=)) DaemonConfig_validate.
Proof. by apply proper_view. Qed.
End config_equiv.

Section loops_proper.
Context `{N : IpNetOps} `{U : UnicodeTables} `{R : Ring} `{M : Rmp SpaPayload} `{L : LruCache Nonce Z}
  `{HI : HashIter} `{LT : LruCache SourceKey TokenBucket} `{HA : HashAlloc} {B : Type} `{F : !FirewallBackend B}.

#[global] Instance run_iter_proper : Proper ((≡) ==> (=) ==> (=) ==> (=)) (run_iter (B := B)).
Proof. intros c1 c2 E ?? <- ?? <-. revert c1 c2 E. by apply proper_view. Qed.
#[global] Instance parent_iter_proper : Proper ((≡) ==> (=) ==> (=) ==> (=)) (parent_iter (B := B)).
Proof. intros c1 c2 E ?? <- ?? <-. revert c1 c2 E. by apply proper_view. Qed.

#[global] Instance run_loop_proper : Proper ((≡) ==> (=) ==> (=) ==> (=)) (run_loop (B := B)).
Proof.
  intros c1 c2 E iters ? <- s ? <-. revert s.
  induction iters as [|it iters IH]; intros s; cbn [run_loop]; [done|].
  destruct (ri_shutdown it); [done|]. by rewrite IH, E.
Qed.
#[global] Instance parent_loop_proper : Proper ((≡) ==> (=) ==> (=) ==> (=)) (parent_loop (B := B)).
Proof.
  intros c1 c2 E iters ? <- s ? <-. revert s.
  induction iters as [|it iters IH]; intros s; cbn [parent_loop]; [done|].
  destruct (ps_triggered s || pi_shutdown it); [done|]. by rewrite IH, E.
Qed.

Lemma notify_view c : notify (without_startup c) = notify c.
Proof. done. Qed.
Lemma shutdown_steps_view c : shutdown_steps (B := B) (without_startup c) = shutdown_steps c.
Proof. done. Qed.

#[global] Instance run_proper : Proper ((≡) ==> (=) ==> (=) ==> (=) ==> (=) ==> (=)) (run (B := B)).
Proof.
  intros c1 c2 E iters ? <- faults ? <- w ? <- rl ? <-. revert c1 c2 E. apply proper_view. intros c.
  unfold run. change (flush_rules_at_init (daemon (without_startup c)))
    with (flush_rules_at_init (daemon c)).
  destruct (fw_init _) as [fw [[]|e]]; [|done].
  by rewrite notify_view, shutdown_steps_view, (without_startup_equiv c).
Qed.
End loops_proper.

Section mock_agrees.
Context `{T : EnvFilterOps} `{N : IpNetOps} `{U : UnicodeTables} `{R : Ring} `{M : Rmp SpaPayload}
  `{L : LruCache Nonce Z} `{HI : HashIter} `{LT : LruCache SourceKey TokenBucket} `{HA : HashAlloc}
  {P : Type} `{S : !SandboxSys P}.
Implicit Types (env : MainEnv P).

Lemma run_parent_loop_view {B : Type} `{F : !FirewallBackend B} c penv iters (w : World B) :
  run_parent_loop (without_startup c) penv iters w = run_parent_loop c penv iters w.
Proof.
  unfold run_parent_loop. destruct (pe_handlers penv); [|done].
  destruct (pe_set_read_timeout penv); [|done].
  by rewrite notify_view, shutdown_steps_view, (without_startup_equiv c).
Qed.

Lemma privsep_run_view {B : Type} `{F : !FirewallBackend B} c fenv penv iters (w : World B) :
  privsep_run (without_startup c) fenv penv iters w = privsep_run c fenv penv iters w.
Proof.
  unfold privsep_run, run_parent_after_capture_fork.
  change (flush_rules_at_init (daemon (without_startup c))) with (flush_rules_at_init (daemon c)).
  destruct (fw_init _) as [fw [[]|e]]; [|done].
  destruct (make_socketpair (fe_pair1 fenv)); [|done]. destruct (make_socketpair (fe_pair2 fenv)); [|done].
  destruct (fe_fork1 fenv); [|done]. destruct (fe_fork2 fenv); [|done]. by rewrite run_parent_loop_view.
Qed.

(** The environment in which the parsed file has the nftables backend and
    the sandbox off. *)
Definition startup_removed env : MainEnv P := {|
  me_read := me_read env;
  me_from_str := λ text, without_startup <$> me_from_str env text;
  me_bind := me_bind env;
  me_cache_fault := me_cache_fault env;
  me_is_root := me_is_root env;
  me_process := me_process env;
  me_now := me_now env;
  me_handlers := me_handlers env;
  me_forks := me_forks env;
  me_parent := me_parent env;
  me_parent_iters := me_parent_iters env;
  me_iters := me_iters env;
  me_exit_faults := me_exit_faults env;
|}.

Lemma load_without_startup read from_str path :
  load_daemon_config read (λ text, without_startup <$> from_str text) path =
  without_startup <$> load_daemon_config read from_str path.
Proof.
  unfold load_daemon_config. destruct (read path) as [text|]; [|done]. cbn.
  destruct (from_str text) as [c|]; [|done]. cbn.
  rewrite (without_startup_equiv c). by destruct (DaemonConfig_validate c).
Qed.

Lemma main_open_view env path fs :
  main_open (startup_removed env) path fs = option_map (λ r : result DaemonError (DaemonConfig * ReplayCache), prod_map without_startup id <$> r)
    (mock_open env path fs).
Proof.
  unfold main_open, main_config, mock_open, cache_step3. cbn [me_read me_from_str startup_removed]. rewrite load_without_startup.
  destruct (load_daemon_config _ _ _) as [c|e]; [|done]. cbn.
  destruct (me_bind env); [|done]. cbn. by destruct (open_replay _ _ _ _) as [[]|].
Qed.

(** C34: [fwknoxd-mock] is [fwknoxd] on the in-memory backend, but for
    start-up. On every file, environment and schedule of events it leaves the
    same rules, the same files and the same exit status as the real binary
    would on the mock backend when reading the same file with the nftables
    backend selected and the sandbox off; those settings of the file are
    ignored. *)
Theorem mock_main_agrees cli rust_log env fs :
  (mock_main cli rust_log env fs).2 =
  (fwknoxd_main cli rust_log (startup_removed env) fs Mock.mock_new).2.
Proof.
  unfold mock_main, fwknoxd_main, mock_real_main, real_main. rewrite main_open_view.
  destruct (mock_open env _ fs) as [[[c rc]|e]|]; [|done|done].
  cbn [option_map]. change (prod_map without_startup id <$> Ok (c, rc)) with (@Ok DaemonError _ (without_startup c, rc)).
  cbv beta iota.
  change (sandbox_step (without_startup c) _ _) with (me_process env, @Ok DaemonError () ()).
  change (rate_limit (without_startup c)) with (rate_limit c).
  destruct (with_clock _ _) as [rl|]; [|done].
  change (enable_privsep (daemon (without_startup c))) with (enable_privsep (daemon c)).
  cbv beta iota. destruct (enable_privsep (daemon c)).
  - rewrite privsep_run_view. by destruct (privsep_run c _ _ _ _).
  - destruct (me_handlers env) eqn:Eh; cbn [me_handlers startup_removed]; rewrite Eh; [|done].
    rewrite (without_startup_equiv c). by destruct (run c _ _ _ _).
Qed.
End mock_agrees.

(** ** Exit codes *)

Section exits.
Context `{T : EnvFilterOps} `{N : IpNetOps} `{U : UnicodeTables} `{R : Ring} `{M : Rmp SpaPayload}
  `{L : LruCache Nonce Z} `{HI : HashIter} `{LT : LruCache SourceKey TokenBucket} `{HA : HashAlloc}
  {B : Type} `{F : !FirewallBackend B} {P : Type} `{S : !SandboxSys P}.
Implicit Types (env : MainEnv P) (config : DaemonConfig).

(** What ends the parent's loop: the flag, or a worker that died. *)
Definition parent_stop (it : ParentIter) : Prop :=
  pi_shutdown it = true ∨ ∃ r, try_reap_any_child (pi_reap it) = Ok (Some r).

Lemma run_loop_broke config iters (s s' : RunState (B := B)) :
  run_loop config iters s = (s', true) → Exists (λ it, ri_shutdown it = true) iters.
Proof.
  revert s. induction iters as [|it iters IH]; intros s; cbn [run_loop]; [done|].
  destruct (ri_shutdown it) eqn:E; [by left|]. right. eauto.
Qed.

Lemma parent_loop_broke config iters (s s' : ParentState (B := B)) :
  parent_loop config iters s = (s', true) → ps_triggered s = true ∨ Exists parent_stop iters.
Proof.
  revert s. induction iters as [|it iters IH]; intros s; cbn [parent_loop].
  { intros [= -> ->]. by left. }
  destruct (ps_triggered s) eqn:Et; [by left|]. destruct (pi_shutdown it) eqn:Es; cbn [orb].
  { intros _. right. left. by left. }
  intros H. right. destruct (IH _ H) as [Ht|?]; [left; right|by right].
  cbn [parent_iter ps_triggered] in Ht. rewrite Et in Ht.
  destruct (try_reap_any_child (pi_reap it)) as [[r|]|]; try done. by exists r.
Qed.

Lemma run_success config iters faults w rl s :
  run (B := B) config iters faults w rl = (s, Some (Ok ())) → Exists (λ it, ri_shutdown it = true) iters.
Proof.
  unfold run. destruct (fw_init _) as [fw [[]|e]]; [|by intros [= _]].
  destruct (run_loop _ _ _) as [s1 []] eqn:E; [|by intros [= _]]. intros _. by eapply run_loop_broke.
Qed.

Lemma privsep_success config fenv penv iters (w w' : World B) :
  privsep_run config fenv penv iters w = (w', Some (Ok ())) → Exists parent_stop iters.
Proof.
  unfold privsep_run, run_parent_after_capture_fork, run_parent_loop.
  destruct (fw_init _) as [fw [[]|e]]; [|by intros [= _]].
  destruct (make_socketpair (fe_pair1 fenv)); [|by intros [= _]].
  destruct (make_socketpair (fe_pair2 fenv)); [|by intros [= _]].
  destruct (fe_fork1 fenv); [|by intros [= _]]. destruct (fe_fork2 fenv); [|by intros [= _]].
  destruct (pe_handlers penv); [|by intros [= _]]. destruct (pe_set_read_timeout penv); [|by intros [= _]].
  destruct (parent_loop _ _ _) as [s1 []] eqn:E; [|by intros [= _]]. intros _.
  by destruct (parent_loop_broke _ _ _ _ E).
Qed.

Lemma main_of_success st : main_of st = MainReturned (Ok ()) → st = Some (Ok ()).
Proof. destruct st as [r|]; [|done]. cbn. congruence. Qed.

Lemma exit_of_success st : exit_of st = Exited SUCCESS → st = MainReturned (Ok ()).
Proof. by destruct st as [[[]|]| |]. Qed.

(** The exit code tells the truth. fwknoxd exits with success only when
    the file held a valid configuration with the nftables backend, the
    sandbox was applied or switched off, and its loop ended because the
    shutdown flag was set or, with workers, because one of them had died.
    No error of start-up, of the firewall or of the forks passes for
    success. *)
Theorem fwknoxd_success cli rust_log env fs (fw : B) fw' fs' :
  (fwknoxd_main cli rust_log env fs fw).2 = (fw', fs', Exited SUCCESS) →
  ∃ config, load_daemon_config (me_read env) (me_from_str env) (DaemonCli.config cli) = Ok config ∧
    config_valid config ∧ firewall_backend (daemon config) = Config.Nftables ∧
    (sandbox_step config (me_is_root env) (me_process env)).2 = Ok () ∧
    if enable_privsep (daemon config) then Exists parent_stop (me_parent_iters env)
    else Exists (λ it, ri_shutdown it = true) (me_iters env).
Proof.
  unfold fwknoxd_main, real_main.
  destruct (main_open env (DaemonCli.config cli) fs) as [[[config rc]|e]|] eqn:Ho; [|by intros [= _]..].
  destruct (main_open_ok _ _ _ _ _ Ho) as [Hl Hb]. pose proof (load_daemon_config_valid _ _ _ _ Hl) as Hv.
  destruct (sandbox_step _ _ _) as [p [[]|e]] eqn:Hs; [|by intros [= _]].
  destruct (with_clock _ _) as [rl|]; [|by intros [= _]].
  intros H. exists config. rewrite Hs. split; [done|]. split; [done|]. split; [done|]. split; [done|].
  destruct (enable_privsep (daemon config)).
  - destruct (privsep_run config _ _ _ _) as [w st] eqn:E. injection H as _ _ H.
    apply exit_of_success, main_of_success in H as ->. by eapply privsep_success.
  - destruct (me_handlers env); [|by injection H].
    destruct (run config _ _ _ _) as [s st] eqn:E. injection H as _ _ H.
    apply exit_of_success, main_of_success in H as ->. by eapply run_success.
Qed.
End exits.

(** ** Witnesses *)

#[local] Existing Instance sample_rmp.
#[local] Existing Instance sorted_hash_iter.
#[local] Existing Instance million_entries.
#[local] Instance text_filter : EnvFilterOps := {| EnvFilter := str; EnvFilter_new := λ s, s |}.

Example filters :
  mock_filter 1 None = lit "fwknox=debug,fwknoxd_mock=debug" ∧
  fwknoxd_filter 0 None = lit "fwknox=info,fwknoxd=info" ∧
  client_filter 7 None = lit "fwknox=trace" ∧ fwknoxd_filter 2 (Some (lit "off")) = lit "off".
Proof. repeat split. Qed.

(** One request, then a turn in which the flag is set. *)
Definition stop_iter : ParentIter := {|
  pi_shutdown := true; pi_recv := pi_recv request_iter; pi_env := pi_env request_iter;
  pi_reap := pi_reap request_iter; pi_prune_now := pi_prune_now request_iter;
  pi_prune_faults := pi_prune_faults request_iter |}.
Definition stopping_main : MainEnv (list Z) := {|
  me_read := λ _, Ok []; me_from_str := λ _, Ok sample_config; me_bind := Ok ();
  me_cache_fault := None; me_is_root := false; me_process := [CAP_NET_ADMIN];
  me_now := 0; me_handlers := Ok (); me_forks := sample_forks; me_parent := sample_parent_env;
  me_parent_iters := [request_iter; stop_iter]; me_iters := []; me_exit_faults := no_faults |}.
Definition sample_args : DaemonCli.Cli := DaemonCli.from_args None 0.

Lemma fwknoxd_success_witness : Exists parent_stop [request_iter; stop_iter].
Proof.
  pose (r := (fwknoxd_main sample_args None stopping_main ∅ ready_nft).2).
  assert (r.2 = Exited SUCCESS) as H by (vm_compute; reflexivity).
  destruct (fwknoxd_success sample_args None stopping_main ∅ ready_nft r.1.1 r.1.2)
    as (config & Hl & _ & _ & _ & Hs).
  - change (r = (r.1.1, r.1.2, Exited SUCCESS)). rewrite <- H, <- surjective_pairing. apply surjective_pairing.
  - assert (config = sample_config) as -> by
      exact (f_equal (λ x, match x with Ok c => c | Err _ => config end) (eq_sym Hl)).
    exact Hs.
Defined.
