(* ===== verification/Testing.v ===== *)
(** * Running the repository's tests on the model

    The unit tests of the crates are programs over the same operations the
    model translates. This file has the little monad they are translated
    into: a test threads the state it shares with the code (a limiter and its
    clock, a file system), and stops at the first assertion that fails. The
    files [RateLimitTests], [ConfigTests], [ProtoTests], [StoreTests],
    [DaemonTests] and [IntegrationTests] hold the tests, each checked by evaluation: a definition of
    the model that disagreed with the code would fail the test the code
    passes. Third-party code is instantiated by the concrete functions of
    [Lru] and [Instances], the ciphers by [keyed_ring] below. *)

From S2P Require Import Prelude RustStd Net Proto Instances.

(** [None] is a failed assertion or a panic. *)
Definition test (S A : Type) : Type := S → option (A * S).

#[global] Instance test_ret S : MRet (test S) := λ A a s, Some (a, s).
#[global] Instance test_bind S : MBind (test S) := λ A B f m s, '(a, s) ← m s; f a s.

Section operations.
Context {S : Type}.

Definition gets {A} (f : S → A) : test S A := λ s, Some (f s, s).
Definition update {A} (f : S → S * A) : test S A := λ s, let '(s, a) := f s in Some (a, s).
Definition panic {A} : test S A := λ _, None.

(** [assert!], [assert_eq!], [unwrap] and [unwrap_err]. *)
Definition assert (b : bool) : test S unit := if b then mret () else panic.
Definition assert_eq {A} `{EqDecision A} (a b : A) : test S unit := assert (bool_decide (a = b)).
Definition assert_ne {A} `{EqDecision A} (a b : A) : test S unit := assert (negb (bool_decide (a = b))).
Definition unwrap {A} (o : option A) : test S A := match o with Some a => mret a | None => panic end.
Definition unwrap_ok {E A} (r : result E A) : test S A :=
  match r with Ok a => mret a | Err _ => panic end.
Definition unwrap_err {E A} (r : result E A) : test S E :=
  match r with Ok _ => panic | Err e => mret e end.

(** A [for] loop over the values it iterates. *)
Fixpoint for_each {X} (xs : list X) (body : X → test S unit) : test S unit :=
  match xs with
  | [] => mret ()
  | x :: xs => body x ≫= λ _, for_each xs body
  end.

(** A [for] loop with a local accumulator. *)
Fixpoint for_fold {X A} (xs : list X) (a : A) (body : A → X → test S A) : test S A :=
  match xs with
  | [] => mret a
  | x :: xs => body a x ≫= λ a, for_fold xs a body
  end.
End operations.

Definition test_passes {S A} (t : test S A) (s : S) : bool := bool_decide (is_Some (t s)).

(** [lo..hi]. *)
Definition range (lo hi : Z) : list Z := (λ k, lo + Z.of_nat k) <$> seq 0 (Z.to_nat (hi - lo)).

(** [s.parse().unwrap()] on an address. *)
Definition parse_or_any (s : str) : IpAddr := default (V4 []) (parse_ip s).
Definition ip (s : String.string) : IpAddr := parse_or_any (lit s).
Arguments ip s%_string_scope.

Definition is_ok {E A} (r : result E A) : bool := match r with Ok _ => true | Err _ => false end.
Definition is_err {E A} (r : result E A) : bool := negb (is_ok r).

(** Ciphers for the tests: no secrecy, but every byte of the key and the
    checksum of the rest show in every result, so that a wrong key is told
    from the right one. *)
Definition mix (key : bytes) (c : Z) : bytes := (λ b, (b + c) mod 256) <$> key.
Definition keyed_tag (n : nat) (key msg : bytes) : bytes :=
  take n (mix key (checksum msg) ++ replicate n (checksum msg)).
Definition keyed_seal (k n a p : bytes) : option bytes :=
  if (len k =? 32) && (len n =? 12) then Some (p ++ keyed_tag 16 k (n ++ a ++ p)) else None.
Definition keyed_ring : Ring := {|
  ring_hmac_sign := keyed_tag 32;
  ring_hmac_verify k m t := bool_decide (t = keyed_tag 32 k m);
  ring_hkdf salt ikm info n := Some (keyed_tag (Z.to_nat n) ikm (salt ++ info));
  ring_seal := keyed_seal;
  ring_open k n a c :=
    let p := take (length c - 16) c in
    if decide (keyed_seal k n a p = Some c) then Some p else None |}.
