(* ===== verification/RateLimitTests.v ===== *)
(** * The tests of fwknox-ratelimit

    The test modules of crates/fwknox-ratelimit/src/{bucket,key,stats,clock,
    limiter}.rs, translated test by test and evaluated. Left out are the test
    that sleeps on the system clock, the one that only checks traits, and the
    four floods of more than a thousand sources, which [RateBound] covers for
    floods of any size. *)

From S2P Require Import Prelude RustStd Net Lru F64 Config RateLimit Testing.

#[global] Instance BucketDecision_eq_dec : EqDecision BucketDecision.
Proof. solve_decision. Defined.
#[global] Instance DropReason_eq_dec : EqDecision DropReason.
Proof. solve_decision. Defined.
#[global] Instance Decision_eq_dec : EqDecision Decision.
Proof. solve_decision. Defined.
#[global] Instance StatsSnapshot_eq_dec : EqDecision StatsSnapshot.
Proof. solve_decision. Defined.

(** ** bucket.rs *)

Module BucketTests.

(** [assert_eq!] on floats, and [<]. *)
Definition f64_eq (a b : f64) : bool := f64_ge a b && f64_ge b a.
Definition f64_lt (a b : f64) : bool := negb (f64_ge a b).

(** The test state is the bucket. *)
Definition do_consume (now : Instant) : test TokenBucket BucketDecision := update (λ b, consume b now).
Definition do_refill (now : Instant) : test TokenBucket unit := update (λ b, (refill b now, ())).

Definition fresh_bucket_starts_full : bool :=
  test_passes (b ← gets id; assert (f64_eq (tokens b) (f64_of_u64 20))) (TokenBucket_new 10 20 0).

Definition consume_decrements_tokens : bool :=
  test_passes (
    d ← do_consume 0; _ ← assert_eq d BucketPass;
    b ← gets id; assert (f64_eq (tokens b) (f64_of_u64 19))) (TokenBucket_new 10 20 0).

Definition consume_drops_when_empty : bool :=
  test_passes (
    d ← do_consume 0; _ ← assert_eq d BucketPass;
    d ← do_consume 0; _ ← assert_eq d BucketPass;
    d ← do_consume 0; assert_eq d BucketDrop) (TokenBucket_new 10 2 0).

(** [abs() < 1e-9], with [1e-9] written as a quotient. *)
Definition refill_restores_tokens_proportional_to_elapsed_time : bool :=
  test_passes (
    _ ← for_each (range 0 10) (λ _, d ← do_consume 0; assert_eq d BucketPass);
    d ← do_consume 0; _ ← assert_eq d BucketDrop;
    _ ← do_refill (from_millis 500);
    b ← gets id;
    let eps := f64_div (f64_of_u64 1) (f64_of_u64 1000000000) in
    let five := f64_of_u64 5 in
    assert (f64_lt (f64_sub (tokens b) five) eps && f64_lt (f64_sub five (tokens b)) eps))
    (TokenBucket_new 10 10 0).

Definition refill_caps_at_capacity : bool :=
  test_passes (
    _ ← do_refill (from_secs 3600);
    b ← gets id; assert (f64_eq (tokens b) (f64_of_u64 10))) (TokenBucket_new 10 10 0).

Definition consume_after_full_refill_passes : bool :=
  test_passes (
    _ ← for_each (range 0 5) (λ _, _ ← do_consume 0; mret ());
    d ← do_consume 0; _ ← assert_eq d BucketDrop;
    d ← do_consume (from_secs 1); assert_eq d BucketPass) (TokenBucket_new 10 5 0).

Definition non_monotonic_clock_does_not_crash : bool :=
  test_passes (
    _ ← do_consume 0; _ ← do_refill 0;
    b ← gets id; assert (f64_lt (tokens b) (f64_of_u64 10))) (TokenBucket_new 10 10 0).

Definition fractional_refill_accumulates_correctly_over_many_calls : bool :=
  test_passes (
    passes ← for_fold (range 0 100) 0 (λ passes i,
      d ← do_consume (from_millis (i * 10));
      mret (if bool_decide (d = BucketPass) then passes + 1 else passes));
    assert ((19 <=? passes) && (passes <=? 20))) (TokenBucket_new 10 10 0).

Example bucket_tests_pass :
  forallb id
    [fresh_bucket_starts_full; consume_decrements_tokens; consume_drops_when_empty;
     refill_restores_tokens_proportional_to_elapsed_time; refill_caps_at_capacity;
     consume_after_full_refill_passes; non_monotonic_clock_does_not_crash;
     fractional_refill_accumulates_correctly_over_many_calls] = true.
Proof. vm_compute. reflexivity. Qed.
End BucketTests.

(** ** key.rs *)

Module KeyTests.
Definition key (s : String.string) (prefix_len : Z) : SourceKey := from_ip (ip s) prefix_len.
Arguments key s%_string_scope prefix_len.
Definition same (a b : SourceKey) : bool := bool_decide (a = b).

Definition ipv4_full_address_keys_exactly : bool :=
  same (key "10.0.0.1" 64) (key "10.0.0.1" 64) && negb (same (key "10.0.0.1" 64) (key "10.0.0.2" 64)).
Definition ipv4_ignores_ipv6_prefix_len_parameter : bool :=
  same (key "10.0.0.1" 1) (key "10.0.0.1" 128).
Definition ipv4_and_ipv6_with_same_bytes_are_distinct : bool :=
  negb (same (key "0.0.0.0" 64) (key "::" 64)).
Definition ipv6_slash_64_collapses_addresses_in_same_subnet : bool :=
  let a := key "2001:db8::1" 64 in
  let b := key "2001:db8::abcd:1234" 64 in
  let c := key "2001:db8::ffff:ffff:ffff:ffff" 64 in
  same a b && same b c.
Definition ipv6_slash_64_separates_addresses_in_different_subnets : bool :=
  negb (same (key "2001:db8::1" 64) (key "2001:db8:0:1::1" 64)).
Definition ipv6_slash_128_keeps_addresses_distinct : bool :=
  negb (same (key "2001:db8::1" 128) (key "2001:db8::2" 128)).
Definition ipv6_slash_48_masks_more_aggressively : bool :=
  same (key "2001:db8:0:1::1" 48) (key "2001:db8:0:2::1" 48).
Definition ipv6_odd_prefix_length_masks_correctly : bool :=
  let a := key "2001:db8::8000:0:0:0" 65 in
  let b := key "2001:db8::C000:0:0:0" 65 in
  let c := key "2001:db8::" 65 in
  same a b && negb (same a c).

Example key_tests_pass :
  forallb id
    [ipv4_full_address_keys_exactly; ipv4_ignores_ipv6_prefix_len_parameter;
     ipv4_and_ipv6_with_same_bytes_are_distinct; ipv6_slash_64_collapses_addresses_in_same_subnet;
     ipv6_slash_64_separates_addresses_in_different_subnets; ipv6_slash_128_keeps_addresses_distinct;
     ipv6_slash_48_masks_more_aggressively; ipv6_odd_prefix_length_masks_correctly] = true.
Proof. vm_compute. reflexivity. Qed.
End KeyTests.

(** ** stats.rs *)

Module StatsTests.
Definition snapshot_default : StatsSnapshot := snapshot Stats_default.
Definition counts (s : StatsSnapshot) : Z * Z * Z * Z * Z :=
  (snap_allowed s, snap_dropped_per_source s, snap_dropped_global s, snap_promotions s, snap_evictions s).

Definition stats_start_at_zero : bool := bool_decide (counts (snapshot Stats_default) = (0, 0, 0, 0, 0)).
Definition incr_allowed_increments_allowed_only : bool :=
  bool_decide (counts (snapshot (incr_allowed (incr_allowed Stats_default))) = (2, 0, 0, 0, 0)).
Definition all_counters_independent : bool :=
  let s := incr_allowed Stats_default in
  let s := incr_dropped_per_source (incr_dropped_per_source s) in
  let s := incr_dropped_global (incr_dropped_global (incr_dropped_global s)) in
  let s := incr_evictions (incr_promotions s) in
  bool_decide (counts (snapshot s) = (1, 2, 3, 1, 1)).
Definition snapshot_is_a_snapshot_not_a_reset : bool :=
  test_passes (
    _ ← update (λ s, (incr_allowed s, ()));
    snap1 ← gets snapshot; snap2 ← gets snapshot;
    _ ← assert_eq snap1 snap2; assert_eq (snap_allowed snap1) 1) Stats_default.

Example stats_tests_pass :
  forallb id [stats_start_at_zero; incr_allowed_increments_allowed_only; all_counters_independent;
              snapshot_is_a_snapshot_not_a_reset] = true.
Proof. vm_compute. reflexivity. Qed.
End StatsTests.

(** ** clock.rs *)

Module ClockTests.
Definition do_advance (delta : Duration) : test MockClock unit :=
  λ c, match advance c delta with (c, true) => Some ((), c) | (_, false) => None end.
Definition do_now : test MockClock Instant := t ← gets clock_now; unwrap t.

Definition mock_clock_returns_fixed_time_without_advance : bool :=
  test_passes (t0 ← do_now; t1 ← do_now; assert_eq t0 t1) (MockClock_new 12345).
Definition mock_clock_advances_by_exact_delta : bool :=
  test_passes (
    t0 ← do_now; _ ← do_advance (from_secs 5);
    t1 ← do_now; assert_eq (duration_since t1 t0) (from_secs 5)) (MockClock_new 12345).
Definition mock_clock_multiple_advances_accumulate : bool :=
  test_passes (
    t0 ← do_now;
    _ ← do_advance (from_millis 100); _ ← do_advance (from_millis 200); _ ← do_advance (from_millis 300);
    t1 ← do_now; assert_eq (duration_since t1 t0) (from_millis 600)) (MockClock_new 12345).

Example clock_tests_pass :
  forallb id [mock_clock_returns_fixed_time_without_advance; mock_clock_advances_by_exact_delta;
              mock_clock_multiple_advances_accumulate] = true.
Proof. vm_compute. reflexivity. Qed.
End ClockTests.

(** ** limiter.rs *)

Module LimiterTests.

Definition default_config : RateLimitSection := RateLimitSection_default.

(** The fields the tests change. *)
Definition set_enabled (c : RateLimitSection) (b : bool) : RateLimitSection := {|
  enabled := b; per_source_rate_per_sec := per_source_rate_per_sec c;
  per_source_burst := per_source_burst c; tracked_sources_capacity := tracked_sources_capacity c;
  global_rate_per_sec := global_rate_per_sec c; global_burst := global_burst c;
  promotion_threshold := promotion_threshold c; ipv6_prefix_len := ipv6_prefix_len c |}.
Definition set_promotion (c : RateLimitSection) (capacity threshold : Z) : RateLimitSection := {|
  enabled := enabled c; per_source_rate_per_sec := per_source_rate_per_sec c;
  per_source_burst := per_source_burst c; tracked_sources_capacity := capacity;
  global_rate_per_sec := global_rate_per_sec c; global_burst := global_burst c;
  promotion_threshold := threshold; ipv6_prefix_len := ipv6_prefix_len c |}.
Definition set_global_rate (c : RateLimitSection) (rate burst : Z) : RateLimitSection := {|
  enabled := enabled c; per_source_rate_per_sec := per_source_rate_per_sec c;
  per_source_burst := per_source_burst c; tracked_sources_capacity := tracked_sources_capacity c;
  global_rate_per_sec := rate; global_burst := burst;
  promotion_threshold := promotion_threshold c; ipv6_prefix_len := ipv6_prefix_len c |}.

Definition disabled_config : RateLimitSection := set_enabled default_config false.
Definition tiny_tracked_config : RateLimitSection := set_promotion default_config 3 1.

(** The limiter and the clock it shares with the test. *)
Record Bench := { limiter : RateLimiter; clock : MockClock }.

(** [limiter.check(ip)], which reads the shared clock. *)
Definition do_check (src : IpAddr) : test Bench Decision := λ w,
  now ← clock_now (clock w);
  let '(rl, d, _) := check (limiter w) src now now in
  Some (d, {| limiter := rl; clock := clock w |}).

Definition do_advance (delta : Duration) : test Bench unit := λ w,
  match advance (clock w) delta with
  | (c, true) => Some ((), {| limiter := limiter w; clock := c |})
  | (_, false) => None
  end.

Definition do_stats : test Bench StatsSnapshot := gets (λ w, stats (limiter w)).

(** The contents of the lock, for the tests that look inside. *)
Definition inner_state : test Bench Inner :=
  m ← gets (λ w, rl_inner (limiter w)); m ← unwrap m;
  if poisoned m then panic else mret (guarded m).

(** A source put into the tracked map without promotion. *)
Definition insert_tracked_for_test (src_ip : IpAddr) : test Bench unit := λ w,
  m ← rl_inner (limiter w);
  now ← clock_now (clock w);
  let config := rl_config (limiter w) in
  let key := from_ip src_ip (ipv6_prefix_len config) in
  let bucket := TokenBucket_new (per_source_rate_per_sec config) (per_source_burst config) now in
  let inner := set_tracked (guarded m) (lru_push (tracked (guarded m)) key bucket).2 in
  Some ((), {| limiter := {| rl_config := config;
                             rl_inner := Some {| poisoned := poisoned m; guarded := inner |};
                             rl_stats := rl_stats (limiter w) |};
               clock := clock w |}).

(** The thread that panics with the lock held, leaving the contents alone. *)
Definition poison : test Bench unit :=
  update (λ w, (match rl_inner (limiter w) with
                | Some m => {| limiter := panic_holding (limiter w) (guarded m); clock := clock w |}
                | None => w
                end, ())).

#[local] Existing Instance million_entries.

(** [with_clock] on a fresh mock clock, then the body. *)
Definition bench (config : RateLimitSection) (body : test Bench unit) : bool :=
  let c := MockClock_new 77 in
  match clock_now c ≫= with_clock config with
  | Some rl => test_passes body {| limiter := rl; clock := c |}
  | None => false
  end.

Definition expect (src : IpAddr) (d : Decision) : test Bench unit :=
  r ← do_check src; assert_eq r d.
Definition repeat_check (n : Z) (src : IpAddr) (d : Decision) : test Bench unit :=
  for_each (range 0 n) (λ _, expect src d).

(** [format!("{prefix}{}.{}", i / 256, i % 256).parse().unwrap()]. *)
Definition format_ip (prefix : str) (i : Z) : IpAddr :=
  parse_or_any (prefix ++ dec (i / 256) ++ lit "." ++ dec (i mod 256)).

Definition disabled_mode_always_passes : bool :=
  match from_config disabled_config {| os_now := 5 |} with
  | None => false
  | Some rl =>
      test_passes (
        _ ← repeat_check 100 (ip "1.2.3.4") Pass;
        snap ← do_stats;
        _ ← assert_eq (snap_allowed snap) 100;
        _ ← assert_eq (snap_dropped_per_source snap) 0;
        assert_eq (snap_dropped_global snap) 0) {| limiter := rl; clock := MockClock_new 5 |}
  end.

Definition disabled_mode_has_no_inner_state : bool :=
  match from_config disabled_config {| os_now := 5 |} with
  | Some rl => bool_decide (¬ is_Some (rl_inner rl))
  | None => false
  end.

Definition enabled_mode_constructs_with_inner_state : bool :=
  bench default_config (i ← gets (λ w, rl_inner (limiter w)); assert (bool_decide (is_Some i))).

Definition stats_snapshot_starts_at_zero : bool :=
  bench default_config (snap ← do_stats; assert_eq snap StatsTests.snapshot_default).

Definition tracked_source_passes_up_to_burst : bool :=
  bench default_config (
    let src := ip "10.0.0.1" in
    _ ← insert_tracked_for_test src;
    _ ← repeat_check 20 src Pass;
    _ ← expect src (Drop PerSourceExhausted);
    snap ← do_stats;
    _ ← assert_eq (snap_allowed snap) 20;
    _ ← assert_eq (snap_dropped_per_source snap) 1;
    assert_eq (snap_dropped_global snap) 0).

Definition tracked_source_refills_over_time : bool :=
  bench default_config (
    let src := ip "10.0.0.1" in
    _ ← insert_tracked_for_test src;
    _ ← for_each (range 0 20) (λ _, _ ← do_check src; mret ());
    _ ← expect src (Drop PerSourceExhausted);
    _ ← do_advance (from_secs 1);
    _ ← repeat_check 10 src Pass;
    expect src (Drop PerSourceExhausted)).

Definition global_bucket_absorbs_first_contact_packets : bool :=
  bench default_config (
    _ ← for_each (range 0 100) (λ i, expect (format_ip (lit "10.0.") i) Pass);
    snap ← do_stats;
    _ ← assert_eq (snap_allowed snap) 100;
    _ ← assert_eq (snap_dropped_global snap) 0;
    assert_eq (snap_promotions snap) 0).

Definition successful_global_bucket_consumptions_promote_at_threshold : bool :=
  bench default_config (
    let threshold := promotion_threshold default_config in
    _ ← repeat_check threshold (ip "10.0.0.1") Pass;
    snap ← do_stats;
    _ ← assert_eq (snap_promotions snap) 1;
    assert_eq (snap_allowed snap) threshold).

Definition tracked_lru_evicts_least_recently_used_when_full : bool :=
  bench tiny_tracked_config (
    _ ← expect (ip "10.0.0.1") Pass;
    _ ← expect (ip "10.0.0.2") Pass;
    _ ← expect (ip "10.0.0.3") Pass;
    snap ← do_stats;
    _ ← assert_eq (snap_promotions snap) 3; _ ← assert_eq (snap_evictions snap) 0;
    _ ← expect (ip "10.0.0.4") Pass;
    snap ← do_stats;
    _ ← assert_eq (snap_promotions snap) 4; assert_eq (snap_evictions snap) 1).

Definition lru_refresh_keeps_hot_sources_warm : bool :=
  bench tiny_tracked_config (
    let a := ip "10.0.0.1" in let b := ip "10.0.0.2" in
    let c := ip "10.0.0.3" in let d := ip "10.0.0.4" in
    _ ← do_check a; _ ← do_check b; _ ← do_check c;
    _ ← do_check a;
    _ ← do_check d;
    stats_before ← do_stats;
    _ ← do_check b;
    stats_after ← do_stats;
    assert_eq (snap_promotions stats_after) (snap_promotions stats_before + 1)).

(** Passes, per-source drops and global drops of a run of checks. *)
Definition tally (srcs : list IpAddr) : test Bench (Z * Z * Z) :=
  for_fold srcs (0, 0, 0) (λ '(passes, per_source, global) src,
    d ← do_check src;
    mret (match d with
          | Pass => (passes + 1, per_source, global)
          | Drop PerSourceExhausted => (passes, per_source + 1, global)
          | Drop GlobalExhausted => (passes, per_source, global + 1)
          end)).

Definition fresh_source_end_to_end_25_pass_75_drop : bool :=
  bench default_config (
    counts ← tally ((λ _, ip "10.0.0.1") <$> range 0 100);
    _ ← assert_eq counts (25, 75, 0);
    snap ← do_stats;
    assert_eq (StatsTests.counts snap) (25, 75, 0, 1, 0)).

Definition ipv6_slash_64_collapses_distinct_addresses_to_one_source : bool :=
  bench default_config (
    '(passes, per_source, global) ←
      tally ((λ i, parse_or_any (lit "2001:db8::" ++ hex (i mod 64))) <$> range 0 100);
    _ ← assert_eq passes 25; _ ← assert_eq (per_source + global) 75;
    snap ← do_stats; assert_eq (snap_promotions snap) 1).

Definition ipv4_distinct_sources_keep_independent_buckets : bool :=
  bench default_config (
    let a := ip "10.0.0.1" in let b := ip "10.0.0.2" in
    _ ← repeat_check 25 a Pass; _ ← expect a (Drop PerSourceExhausted);
    _ ← repeat_check 25 b Pass; expect b (Drop PerSourceExhausted)).

Definition poisoned_mutex_is_recovered : bool :=
  bench default_config (_ ← poison; _ ← do_check (ip "10.0.0.1"); _ ← do_check (ip "10.0.0.2"); mret ()).

Definition poisoned_mutex_recovery_resets_in_memory_state : bool :=
  bench default_config (
    let partial := ip "10.0.0.2" in
    _ ← repeat_check (promotion_threshold default_config) (ip "10.0.0.1") Pass;
    _ ← expect partial Pass;
    i ← inner_state;
    _ ← assert (negb (lru_len (tracked i) =? 0)); _ ← assert (negb (candidates_len i =? 0));
    _ ← poison;
    _ ← do_check (ip "10.0.0.3");
    i ← inner_state;
    _ ← assert (lru_len (tracked i) =? 0);
    _ ← assert (bool_decide (candidates i !! from_ip partial (ipv6_prefix_len default_config) = None));
    _ ← assert (bool_decide (last_global_drop_warn i = None));
    _ ← do_check (ip "10.0.0.4"); mret ()).

Definition honest_source_reaches_promotion_despite_eviction_pressure : bool :=
  bench (set_global_rate (set_promotion default_config 4 3) 10000 10000) (
    let honest := ip "10.9.9.9" in
    _ ← expect honest Pass;
    _ ← for_each (range 0 100) (λ i, expect (format_ip (lit "10.8.") i) Pass);
    _ ← expect honest Pass;
    _ ← expect honest Pass;
    snap ← do_stats; assert (1 <=? snap_promotions snap)).

Example limiter_tests_pass :
  forallb id
    [disabled_mode_always_passes; disabled_mode_has_no_inner_state;
     enabled_mode_constructs_with_inner_state; stats_snapshot_starts_at_zero;
     tracked_source_passes_up_to_burst; tracked_source_refills_over_time;
     global_bucket_absorbs_first_contact_packets;
     successful_global_bucket_consumptions_promote_at_threshold;
     tracked_lru_evicts_least_recently_used_when_full; lru_refresh_keeps_hot_sources_warm;
     fresh_source_end_to_end_25_pass_75_drop;
     ipv6_slash_64_collapses_distinct_addresses_to_one_source;
     ipv4_distinct_sources_keep_independent_buckets; poisoned_mutex_is_recovered;
     poisoned_mutex_recovery_resets_in_memory_state;
     honest_source_reaches_promotion_despite_eviction_pressure] = true.
Proof. vm_compute. reflexivity. Qed.

End LimiterTests.
