(* ===== verification/ConfigTests.v ===== *)
(** * The tests of fwknox-config

    The test modules of crates/fwknox-config/src/{shared,daemon,client,load}.rs
    translated test by test and evaluated. A document of a test is given as
    the value its text parses to. *)

From S2P Require Import Prelude RustStd Net Proto Config ConfigFile Testing.

#[local] Existing Instance verbatim_base64.
#[local] Existing Instance whole_seconds.

#[global] Instance FirewallBackendKind_eq_dec : EqDecision FirewallBackendKind.
Proof. solve_decision. Defined.
#[global] Instance ClientTransport_eq_dec : EqDecision ClientTransport.
Proof. solve_decision. Defined.

(** [err.to_string().contains(..)] for both kinds of errors. *)
Definition mentions (e : ConfigError) (s : String.string) : bool := str_contains (show_ConfigError e) (lit s).
Arguments mentions e s%_string_scope.
Definition de_mentions (e : DeError) (s : String.string) : bool :=
  match e with
  | UnknownField k => str_contains (lit "unknown field " ++ k) (lit s)
  | Custom m => str_contains m (lit s)
  | _ => false
  end.
Arguments de_mentions e s%_string_scope.

(** The tests share no state. *)
Abbreviation check t := (test_passes (S := ()) t ()) (only parsing).

(** ** shared.rs *)

Module SharedTests.
Definition parses_to (s : String.string) (pp : PortProto) : bool :=
  match parse_port_proto (lit s) with Ok p => bool_decide (p = pp) | Err _ => false end.
Arguments parses_to s%_string_scope pp.
Definition parse_tcp_port : bool := parses_to "tcp/22" (PortProto_new Tcp 22).
Definition parse_udp_port : bool := parses_to "udp/53" (PortProto_new Udp 53).
Definition rejects_unknown_protocol : bool := is_err (parse_port_proto (lit "sctp/22")).
Definition rejects_zero_port : bool := is_err (parse_port_proto (lit "tcp/0")).
Definition rejects_missing_slash : bool := is_err (parse_port_proto (lit "tcp22")).

Definition source_spec_any : bool :=
  check (
    s ← unwrap_ok (SourceSpec_from_str (lit "any"));
    _ ← assert (SourceSpec_matches s (ip "1.2.3.4"));
    assert (SourceSpec_matches s (ip "::1"))).
Definition source_spec_single : bool :=
  check (
    s ← unwrap_ok (SourceSpec_from_str (lit "10.0.0.1"));
    _ ← assert (SourceSpec_matches s (ip "10.0.0.1"));
    assert (negb (SourceSpec_matches s (ip "10.0.0.2")))).

Definition base64_key_roundtrip_via_toml : bool :=
  check (
    let k := replicate 32 0xab in
    back ← unwrap_ok (de_key (VStr (Base64Key_serialize k)));
    assert_eq (Base64Key_as_bytes back) (Base64Key_as_bytes k)).
Definition base64_key_rejects_wrong_length : bool :=
  is_err (de_key (VStr (b64_encode (replicate 16 0)))).
Definition base64_key_debug_does_not_leak : bool :=
  let s := Base64Key_debug (replicate 32 0xab) in
  negb (str_contains s (lit "ab")) && str_contains s (lit "redacted").

Example shared_tests_pass :
  forallb id [parse_tcp_port; parse_udp_port; rejects_unknown_protocol; rejects_zero_port;
              rejects_missing_slash; source_spec_any; source_spec_single;
              base64_key_roundtrip_via_toml; base64_key_rejects_wrong_length;
              base64_key_debug_does_not_leak] = true.
Proof. vm_compute. reflexivity. Qed.
End SharedTests.

(** ** daemon.rs *)

Module DaemonConfigTests.

(** The parts of the documents of the tests. *)
Definition key_text : str := b64_encode (replicate 32 0x11).
Definition access_doc (name : str) (ports : list str) (more : list (str * Value)) : Value :=
  VTable ([(lit "name", VStr name); (lit "source", VArr [VStr (lit "any")]);
           (lit "open_ports", VArr (VStr <$> ports)); (lit "master_key_base64", VStr key_text)] ++ more).
Definition config_doc (daemon : list (str * Value)) (rest : list (str * Value)) (access : list Value) : Value :=
  VTable ([(lit "daemon", VTable daemon); (lit "replay", VTable [])] ++ rest ++ [(lit "access", VArr access)]).
Definition one (name : String.string) : list Value := [access_doc (lit name) [lit "tcp/22"] []].
Arguments one name%_string_scope.

Definition minimal_config_toml : Value := config_doc [] [] (one "test").
Definition config_with_rate_limit_override (entries : list (str * Value)) : Value :=
  config_doc [] [(lit "rate_limit", VTable entries)] (one "t").
Definition valid_config : test () DaemonConfig := unwrap_ok (de_daemon_config minimal_config_toml).

(** The document parses, and validation refuses it with a message. *)
Definition refused (doc : Value) (words : String.string) : bool :=
  check (cfg ← unwrap_ok (de_daemon_config doc);
         e ← unwrap_err (DaemonConfig_validate cfg); assert (mentions e words)).
Arguments refused doc words%_string_scope.
(** The document does not parse. *)
Definition unreadable (doc : Value) (words : String.string) : bool :=
  check (e ← unwrap_err (de_daemon_config doc); assert (de_mentions e words)).
Arguments unreadable doc words%_string_scope.

Definition parses_minimal_config_with_defaults : bool :=
  check (
    cfg ← unwrap_ok (de_daemon_config minimal_config_toml);
    _ ← assert_eq (listen_port (daemon cfg)) 62201;
    _ ← assert_eq (firewall_backend (daemon cfg)) Nftables;
    _ ← assert_eq (len (access cfg)) 1;
    _ ← assert_eq (stanza_name <$> access cfg) [lit "test"];
    unwrap_ok (DaemonConfig_validate cfg)).

Definition rejects_empty_access_list : bool :=
  check (
    cfg ← unwrap_ok (de_daemon_config (VTable [(lit "daemon", VTable []); (lit "replay", VTable [])]));
    e ← unwrap_err (DaemonConfig_validate cfg);
    match e with Invalid _ => mret () | _ => panic end).

Definition rejects_duplicate_access_names : bool :=
  refused (config_doc [] [] [access_doc (lit "dup") [lit "tcp/22"] [];
                             access_doc (lit "dup") [lit "tcp/23"] []]) "duplicate".

Definition rejects_nat_without_destination : bool :=
  refused (config_doc [] [] [access_doc (lit "n") [lit "tcp/22"] [(lit "enable_nat", VBool true)]])
    "nat_destination".

Definition find_by_master_key_works : bool :=
  check (
    cfg ← valid_config;
    stanza ← unwrap (find_by_master_key cfg (replicate 32 0x11));
    _ ← assert_eq (stanza_name stanza) (lit "test");
    assert (match find_by_master_key cfg (replicate 32 0x99) with None => true | Some _ => false end)).

Definition require_source_match_default_is_true : bool :=
  check (cfg ← valid_config; assert (forallb require_source_match (access cfg))).

Definition sandbox_fields_can_be_disabled_via_toml : bool :=
  check (
    cfg ← unwrap_ok (de_daemon_config
      (config_doc [(lit "enable_sandbox", VBool false); (lit "landlock_enabled", VBool false)] []
                  (one "t")));
    _ ← assert (negb (enable_sandbox (daemon cfg))); assert (negb (landlock_enabled (daemon cfg)))).

Definition enable_sandbox_defaults_to_true_landlock_defaults_to_false : bool :=
  check (cfg ← valid_config;
         _ ← assert (enable_sandbox (daemon cfg)); assert (negb (landlock_enabled (daemon cfg)))).

Definition enable_privsep_defaults_to_true : bool :=
  check (cfg ← valid_config; assert (enable_privsep (daemon cfg))).

Definition default_config_has_rate_limit_section_with_defaults : bool :=
  check (
    cfg ← valid_config;
    let r := rate_limit cfg in
    _ ← assert (enabled r);
    assert_eq [per_source_rate_per_sec r; per_source_burst r; tracked_sources_capacity r;
               global_rate_per_sec r; global_burst r; promotion_threshold r; ipv6_prefix_len r]
              [10; 20; 1024; 500; 1000; 5; 64]).

Definition partial_rate_limit_section_fills_missing_fields : bool :=
  check (
    cfg ← unwrap_ok (de_daemon_config
      (config_with_rate_limit_override [(lit "per_source_rate_per_sec", VInt 50)]));
    _ ← assert_eq (per_source_rate_per_sec (rate_limit cfg)) 50;
    _ ← assert_eq (per_source_burst (rate_limit cfg)) 20;
    assert (enabled (rate_limit cfg))).

Definition rate_limit_section_rejects_unknown_fields : bool :=
  unreadable (config_with_rate_limit_override [(lit "unknown_field", VBool true)]) "unknown".

Definition rate_limit_can_be_disabled_via_toml : bool :=
  check (
    cfg ← unwrap_ok (de_daemon_config (config_with_rate_limit_override [(lit "enabled", VBool false)]));
    _ ← assert (negb (enabled (rate_limit cfg)));
    unwrap_ok (DaemonConfig_validate cfg)).

Definition enable_privsep_can_be_disabled_via_toml : bool :=
  check (
    cfg ← unwrap_ok (de_daemon_config (config_doc [(lit "enable_privsep", VBool false)] [] (one "t")));
    assert (negb (enable_privsep (daemon cfg)))).

Definition rate_limit_rejects_burst_less_than_rate : bool :=
  refused (config_with_rate_limit_override
    [(lit "per_source_rate_per_sec", VInt 10); (lit "per_source_burst", VInt 5)]) "per_source_burst".
Definition rate_limit_rejects_global_burst_less_than_global_rate : bool :=
  refused (config_with_rate_limit_override
    [(lit "global_rate_per_sec", VInt 500); (lit "global_burst", VInt 100)]) "global_burst".
Definition rate_limit_rejects_zero_tracked_capacity : bool :=
  refused (config_with_rate_limit_override [(lit "tracked_sources_capacity", VInt 0)])
    "tracked_sources_capacity".
Definition rate_limit_rejects_ipv6_prefix_zero : bool :=
  refused (config_with_rate_limit_override [(lit "ipv6_prefix_len", VInt 0)]) "ipv6_prefix_len".
Definition rate_limit_rejects_ipv6_prefix_over_128 : bool :=
  refused (config_with_rate_limit_override [(lit "ipv6_prefix_len", VInt 129)]) "ipv6_prefix_len".
Definition rate_limit_rejects_promotion_threshold_zero : bool :=
  refused (config_with_rate_limit_override [(lit "promotion_threshold", VInt 0)]) "promotion_threshold".
Definition rate_limit_rejects_zero_rates_while_enabled : bool :=
  refused (config_with_rate_limit_override [(lit "per_source_rate_per_sec", VInt 0)])
    "per_source_rate_per_sec".

(** A stanza with its lists replaced. *)
Definition sized_doc (name : String.string) (sources ports : list str) : Value :=
  config_doc [] []
    [VTable [(lit "name", VStr (lit name)); (lit "source", VArr (VStr <$> sources));
             (lit "open_ports", VArr (VStr <$> ports)); (lit "master_key_base64", VStr key_text)]].
Arguments sized_doc name%_string_scope sources ports.

Definition oversize_source_list_is_rejected : bool :=
  unreadable (sized_doc "big" (fill (MAX_SOURCES_PER_STANZA + 1) (lit "any")) [lit "tcp/22"]) "source list".
Definition source_list_at_max_is_accepted : bool :=
  check (
    cfg ← unwrap_ok (de_daemon_config
      (sized_doc "at-max" (fill MAX_SOURCES_PER_STANZA (lit "any")) [lit "tcp/22"]));
    assert_eq ((λ s, len (source s)) <$> access cfg) [MAX_SOURCES_PER_STANZA]).
Definition oversize_ports_list_is_rejected : bool :=
  unreadable (sized_doc "big" [lit "any"] (fill (MAX_PORTS_PER_STANZA + 1) (lit "tcp/22")))
    "open_ports list".
Definition oversize_access_list_is_rejected : bool :=
  unreadable (config_doc [] []
    ((λ i, access_doc (lit "s" ++ dec i) [lit "tcp/22"] []) <$> range 0 (MAX_ACCESS_STANZAS + 1)))
    "access list".

(** The tests that change one field of a valid configuration. *)
Definition set_timeouts (c : DaemonConfig) (age fw max : Duration) : DaemonConfig := {|
  daemon := {|
    listen_addr := listen_addr (daemon c); listen_port := listen_port (daemon c);
    firewall_backend := firewall_backend (daemon c);
    run_user := run_user (daemon c); run_group := run_group (daemon c);
    max_spa_packet_age := age;
    flush_rules_at_init := flush_rules_at_init (daemon c);
    flush_rules_at_exit := flush_rules_at_exit (daemon c);
    default_fw_timeout := fw; max_fw_timeout := max;
    enable_systemd := enable_systemd (daemon c); enable_sandbox := enable_sandbox (daemon c);
    enable_privsep := enable_privsep (daemon c); landlock_enabled := landlock_enabled (daemon c) |};
  replay := replay c; rate_limit := rate_limit c; access := access c |}.
Definition set_replay (c : DaemonConfig) (path : str) (age : Duration) : DaemonConfig := {|
  daemon := daemon c;
  replay := {| cache_path := path; max_age := age; max_entries := max_entries (replay c) |};
  rate_limit := rate_limit c; access := access c |}.

Definition invalid_after (change : DaemonConfig → DaemonConfig) (words : list str) : bool :=
  check (
    cfg ← valid_config;
    e ← unwrap_err (DaemonConfig_validate (change cfg));
    assert (forallb (str_contains (show_ConfigError e)) words)).

Definition zero_default_fw_timeout_is_rejected : bool :=
  invalid_after (λ c, set_timeouts c (max_spa_packet_age (daemon c)) 0 (max_fw_timeout (daemon c)))
    [lit "default_fw_timeout"].
Definition zero_max_fw_timeout_is_rejected : bool :=
  invalid_after (λ c, set_timeouts c (max_spa_packet_age (daemon c)) (default_fw_timeout (daemon c)) 0)
    [lit "max_fw_timeout"].
Definition zero_max_spa_packet_age_is_rejected : bool :=
  invalid_after (λ c, set_timeouts c 0 (default_fw_timeout (daemon c)) (max_fw_timeout (daemon c)))
    [lit "max_spa_packet_age"].
Definition zero_replay_max_age_is_rejected : bool :=
  invalid_after (λ c, set_replay c (cache_path (replay c)) 0) [lit "replay.max_age"].
Definition absurdly_long_timeout_is_rejected : bool :=
  invalid_after (λ c, set_timeouts c (max_spa_packet_age (daemon c)) (default_fw_timeout (daemon c))
                        (from_secs (86400 * 8))) [lit "7 days"].
Definition absurdly_long_default_fw_timeout_is_rejected : bool :=
  invalid_after (λ c, set_timeouts c (max_spa_packet_age (daemon c)) (from_secs (86400 * 8))
                        (from_secs (86400 * 8))) [lit "7 days"].
Definition relative_cache_path_rejected : bool :=
  invalid_after (λ c, set_replay c (lit "relative/cache") (max_age (replay c)))
    [lit "cache_path"; lit "absolute"].
Definition cache_path_with_parent_dir_rejected : bool :=
  invalid_after (λ c, set_replay c (lit "/var/lib/fwknox/../evil/replay.cache") (max_age (replay c)))
    [lit "cache_path"; lit ".."].
Definition absolute_cache_path_without_parent_dir_accepted : bool :=
  check (
    cfg ← valid_config;
    unwrap_ok (DaemonConfig_validate
      (set_replay cfg (lit "/var/lib/fwknox/replay.cache") (max_age (replay cfg))))).

Definition rate_limit_accepts_ipv6_prefix_at_boundary : bool :=
  check (for_each [1; 128] (λ n,
    cfg ← unwrap_ok (de_daemon_config
      (config_with_rate_limit_override [(lit "ipv6_prefix_len", VInt n)]));
    unwrap_ok (DaemonConfig_validate cfg))).

Example daemon_config_tests_pass :
  forallb id
    [parses_minimal_config_with_defaults; rejects_empty_access_list; rejects_duplicate_access_names;
     rejects_nat_without_destination; find_by_master_key_works; require_source_match_default_is_true;
     sandbox_fields_can_be_disabled_via_toml;
     enable_sandbox_defaults_to_true_landlock_defaults_to_false; enable_privsep_defaults_to_true;
     default_config_has_rate_limit_section_with_defaults;
     partial_rate_limit_section_fills_missing_fields; rate_limit_section_rejects_unknown_fields;
     rate_limit_can_be_disabled_via_toml; enable_privsep_can_be_disabled_via_toml;
     rate_limit_rejects_burst_less_than_rate; rate_limit_rejects_global_burst_less_than_global_rate;
     rate_limit_rejects_zero_tracked_capacity; rate_limit_rejects_ipv6_prefix_zero;
     rate_limit_rejects_ipv6_prefix_over_128; rate_limit_rejects_promotion_threshold_zero;
     rate_limit_rejects_zero_rates_while_enabled; zero_default_fw_timeout_is_rejected;
     zero_max_fw_timeout_is_rejected; zero_max_spa_packet_age_is_rejected;
     zero_replay_max_age_is_rejected; absurdly_long_timeout_is_rejected;
     absurdly_long_default_fw_timeout_is_rejected; relative_cache_path_rejected;
     cache_path_with_parent_dir_rejected; absolute_cache_path_without_parent_dir_accepted;
     rate_limit_accepts_ipv6_prefix_at_boundary] = true.
Proof. vm_compute. reflexivity. Qed.

(** The lists at and beyond their limits. *)
Example daemon_limits_tests_pass :
  forallb id [oversize_source_list_is_rejected; source_list_at_max_is_accepted;
              oversize_ports_list_is_rejected; oversize_access_list_is_rejected] = true.
Proof. vm_compute. reflexivity. Qed.
End DaemonConfigTests.

(** ** client.rs *)

Module ClientConfigTests.
Import DaemonConfigTests.

Definition server_doc (name destination : String.string) (more : list (str * Value)) : Value :=
  VTable ([(lit "name", VStr (lit name)); (lit "destination", VStr (lit destination));
           (lit "access", VArr [VStr (lit "tcp/22")]); (lit "master_key_base64", VStr key_text)] ++ more).
Arguments server_doc (name destination)%_string_scope more.
Definition servers_doc (servers : list Value) : Value := VTable [(lit "server", VArr servers)].

Definition sample_toml : Value :=
  VTable [(lit "defaults", VTable [(lit "transport", VStr (lit "udp"))]);
          (lit "server", VArr [server_doc "home" "my.server.com" [(lit "fw_timeout", VStr (lit "30s"))]])].

Definition refused (doc : Value) (words : String.string) : bool :=
  check (cfg ← unwrap_ok (de_client_config doc);
         e ← unwrap_err (ClientConfig_validate cfg); assert (mentions e words)).
Arguments refused doc words%_string_scope.

Definition parses_sample_client_config : bool :=
  check (
    cfg ← unwrap_ok (de_client_config sample_toml);
    _ ← assert_eq (transport (defaults cfg)) TransportUdp;
    _ ← assert_eq (len (servers cfg)) 1;
    _ ← assert_eq (server_port <$> servers cfg) [62201];
    _ ← assert_eq (server_fw_timeout <$> servers cfg) [Some (from_secs 30)];
    unwrap_ok (ClientConfig_validate cfg)).
Definition find_server_by_name : bool :=
  check (
    cfg ← unwrap_ok (de_client_config sample_toml);
    _ ← unwrap (find_server cfg (lit "home"));
    match find_server cfg (lit "nonexistent") with None => mret () | Some _ => panic end).
Definition rejects_duplicate_server_names : bool :=
  refused (servers_doc [server_doc "dup" "a" []; server_doc "dup" "b" []]) "duplicate".
Definition defaults_section_optional : bool :=
  check (
    cfg ← unwrap_ok (de_client_config (servers_doc [server_doc "x" "x" []]));
    assert_eq (transport (defaults cfg)) TransportUdp).
Definition unknown_defaults_field_is_rejected : bool :=
  check (
    e ← unwrap_err (de_client_config
      (VTable [(lit "defaults", VTable [(lit "bogus_flag", VBool true)]);
               (lit "server", VArr [server_doc "x" "x" []])]));
    assert (de_mentions e "bogus_flag" || de_mentions e "unknown field")).
Definition empty_destination_rejected : bool := refused (servers_doc [server_doc "x" "" []]) "destination".
Definition whitespace_destination_rejected : bool :=
  refused (servers_doc [server_doc "x" "   " []]) "destination".
Definition zero_port_rejected : bool :=
  refused (servers_doc [server_doc "x" "my.server.com" [(lit "port", VInt 0)]]) "port".
Definition unknown_server_field_is_rejected : bool :=
  check (
    e ← unwrap_err (de_client_config (servers_doc [server_doc "x" "x" [(lit "typo_field", VInt 42)]]));
    assert (de_mentions e "typo_field" || de_mentions e "unknown field")).

Example client_config_tests_pass :
  forallb id [parses_sample_client_config; find_server_by_name; rejects_duplicate_server_names;
              defaults_section_optional; unknown_defaults_field_is_rejected;
              empty_destination_rejected; whitespace_destination_rejected; zero_port_rejected;
              unknown_server_field_is_rejected] = true.
Proof. vm_compute. reflexivity. Qed.
End ClientConfigTests.

(** ** load.rs *)

Module LoadTests.
Import DaemonConfigTests ClientConfigTests.

(** A disk with one readable file, holding a document. *)
Definition disk (path : str) (p : str) : result str str :=
  if bool_decide (p = path) then Ok [] else Err (lit "No such file or directory").
Definition not_toml : Toml := {| toml_parse _ := Err (lit "expected newline"); toml_error _ := [] |}.

Definition loads_daemon_config_from_disk : bool :=
  check (
    cfg ← unwrap_ok (load_daemon_config (disk (lit "fwknoxd.toml"))
             (@daemon_from_str _ _ _ _ (constant_toml minimal_config_toml)) (lit "fwknoxd.toml"));
    assert_eq (len (access cfg)) 1).
Definition missing_file_returns_io_error : bool :=
  check (
    e ← unwrap_err (load_daemon_config (disk (lit "fwknoxd.toml"))
          (@daemon_from_str _ _ _ _ (constant_toml minimal_config_toml)) (lit "/nonexistent/file.toml"));
    match e with ConfigIo _ _ => mret () | _ => panic end).
Definition invalid_toml_returns_parse_error : bool :=
  check (
    e ← unwrap_err (load_daemon_config (disk (lit "bad.toml")) (@daemon_from_str _ _ _ _ not_toml)
          (lit "bad.toml"));
    match e with ConfigToml _ _ => mret () | _ => panic end).
Definition loads_client_config_from_disk : bool :=
  check (
    cfg ← unwrap_ok (load_client_config (disk (lit "fwknox.toml"))
             (@client_from_str _ _ _ (constant_toml (servers_doc [server_doc "x" "x.com" []])))
             (lit "fwknox.toml"));
    assert_eq (len (servers cfg)) 1).

Example load_tests_pass :
  forallb id [loads_daemon_config_from_disk; missing_file_returns_io_error;
              invalid_toml_returns_parse_error; loads_client_config_from_disk] = true.
Proof. vm_compute. reflexivity. Qed.
End LoadTests.
