(* ===== verification/ProtoTests.v ===== *)
(** * The tests of fwknox-proto

    The test modules of crates/fwknox-proto/src/{error,types,header,payload,
    packet,validate,aead,hmac,kdf}.rs, translated test by test and evaluated.
    The codec is a table of the payloads the tests use. Left out are the
    randomness of a nonce, the test of a derive for [Zeroize], and the run over
    1500 lengths of junk, which [Packet] covers for every input. *)

From S2P Require Import Prelude RustStd Net Proto Instances NetText Serde Packet Testing.

#[local] Existing Instance keyed_ring.

Abbreviation check t := (test_passes (S := ()) t ()) (only parsing).

(** [matches!(err, ..)] on the kind of an error. *)
Definition is_too_short (e : ProtoError) : bool := match e with PacketTooShort _ _ => true | _ => false end.
Definition is_too_long (e : ProtoError) : bool := match e with PacketTooLong _ _ => true | _ => false end.
Definition is_invalid_field (e : ProtoError) : bool := match e with InvalidField _ => true | _ => false end.
Definition is_hmac_failed (e : ProtoError) : bool := match e with HmacFailed => true | _ => false end.
Definition is_aead_failed (e : ProtoError) : bool := match e with AeadFailed => true | _ => false end.

(** [bytes[i] = f(bytes[i])], which panics out of range. *)
Definition set_byte (i : Z) (f : Z → Z) (bs : bytes) : test () bytes :=
  b ← unwrap (bs !! Z.to_nat i); mret (<[Z.to_nat i := f b]> bs).

(** ** error.rs and types.rs *)

Module TypesTests.
Definition display_includes_byte_counts : bool :=
  let s := show_ProtoError (PacketTooShort 10 64) in str_contains s (lit "10") && str_contains s (lit "64").
Definition display_includes_version : bool :=
  str_contains (show_ProtoError (UnsupportedVersion 0xff)) (lit "0xff").

Definition protocol_display : bool :=
  bool_decide (show_Protocol Tcp = lit "tcp") && bool_decide (show_Protocol Udp = lit "udp").
Definition portproto_display : bool := bool_decide (show_PortProto (PortProto_new Tcp 22) = lit "tcp/22").

(** The codec under a message writes what [serialize_message] gives it. *)
Definition message_roundtrip (m : SpaMessage) : bool :=
  check (back ← unwrap_ok (deserialize_message (serialize_message m)); assert_eq m back).
Definition nat_dest : SocketAddr := default (SocketAddr_new (V4 []) 0) (parse_sock (lit "192.168.1.100:8443")).
Definition spa_message_access_serializes : bool :=
  message_roundtrip (Access (ip "192.168.1.5") [PortProto_new Tcp 22]).
Definition spa_message_nat_roundtrip : bool :=
  message_roundtrip (Nat (ip "10.0.0.1") [PortProto_new Tcp 443] nat_dest).
Definition spa_message_command_roundtrip : bool :=
  message_roundtrip (Command (ip "10.0.0.1") (lit "/bin/true")).

Example types_tests_pass :
  forallb id [display_includes_byte_counts; display_includes_version; protocol_display;
              portproto_display; spa_message_access_serializes; spa_message_nat_roundtrip;
              spa_message_command_roundtrip] = true.
Proof. vm_compute. reflexivity. Qed.
End TypesTests.

(** ** header.rs *)

Module HeaderTests.
Definition header_encode_decode_roundtrip : bool :=
  check (
    let flags := Flags_set (Flags_set Flags_new FLAG_NAT) FLAG_CLIENT_TIMEOUT in
    let h := Header_new flags 184 in
    let bytes := Header_encode h in
    _ ← assert_eq (bytes !! 0%nat) (Some PROTO_VERSION);
    _ ← assert_eq (bytes !! 1%nat) (Some (Z.lor FLAG_NAT FLAG_CLIENT_TIMEOUT));
    b2 ← unwrap (bytes !! 2%nat); b3 ← unwrap (bytes !! 3%nat);
    _ ← assert_eq (u16_from_be_bytes b2 b3) 184;
    decoded ← unwrap_ok (Header_decode bytes);
    assert_eq h decoded).
Definition rejects_short_header : bool :=
  check (e ← unwrap_err (Header_decode [1; 0; 0]); assert (is_too_short e)).
Definition rejects_unknown_version : bool :=
  check (e ← unwrap_err (Header_decode [0xff; 0; 0; 0x10]);
         match e with UnsupportedVersion v => assert_eq v 0xff | _ => panic end).
Definition rejects_reserved_flag_bits : bool :=
  check (e ← unwrap_err (Header_decode [1; 0xf0; 0; 0x10]);
         match e with ReservedFlag b => assert_eq b 0xf0 | _ => panic end).
Definition flags_contains_works : bool :=
  let f := Flags_set Flags_new FLAG_NAT in
  Flags_contains f FLAG_NAT && negb (Flags_contains f FLAG_COMMAND).

Example header_tests_pass :
  forallb id [header_encode_decode_roundtrip; rejects_short_header; rejects_unknown_version;
              rejects_reserved_flag_bits; flags_contains_works] = true.
Proof. vm_compute. reflexivity. Qed.
End HeaderTests.

(** ** payload.rs *)

Module PayloadTests.
Definition sample_payload : SpaPayload := {|
  nonce := replicate 16 0xab; timestamp := 1700000000; username := lit "alice";
  message := Access (ip "192.168.1.5") [PortProto_new Tcp 22]; client_timeout := Some 60 |}.
Definition with_username (u : str) : SpaPayload := {|
  nonce := nonce sample_payload; timestamp := timestamp sample_payload; username := u;
  message := message sample_payload; client_timeout := client_timeout sample_payload |}.
Definition long_name : SpaPayload := with_username (fill (MAX_USERNAME_LEN + 1) 97).
Definition bell_name : SpaPayload := with_username (lit "alice" ++ [7]).

Definition payload_table : Rmp WirePayload :=
  table_rmp (serialize_payload <$> [sample_payload; long_name; bell_name]).
#[local] Instance payload_codec : Rmp SpaPayload := @payload_rmp _ payload_table.

Definition roundtrip_encode_decode : bool :=
  check (
    bytes ← unwrap_ok (SpaPayload_encode sample_payload);
    decoded ← unwrap_ok (SpaPayload_decode bytes);
    assert_eq sample_payload decoded).
Definition rejects_long_username : bool :=
  check (
    bytes ← unwrap_ok (rmp_to_vec long_name);
    e ← unwrap_err (SpaPayload_decode bytes);
    match e with InvalidField w => assert_eq w (lit "username too long") | _ => panic end).
Definition rejects_username_with_control_bytes : bool :=
  check (
    bytes ← unwrap_ok (rmp_to_vec bell_name);
    e ← unwrap_err (SpaPayload_decode bytes); assert (is_invalid_field e)).
Definition rejects_garbage_bytes : bool :=
  check (e ← unwrap_err (SpaPayload_decode [0xff; 0xfe; 0xfd]);
         match e with PayloadDecode _ => mret () | _ => panic end).

Example payload_tests_pass :
  forallb id [roundtrip_encode_decode; rejects_long_username; rejects_username_with_control_bytes;
              rejects_garbage_bytes] = true.
Proof. vm_compute. reflexivity. Qed.
End PayloadTests.

(** ** packet.rs *)

Module PacketTests.
Definition sample_payload : SpaPayload := {|
  nonce := replicate 16 0xcd; timestamp := 1700000000; username := lit "alice";
  message := Access (ip "192.168.1.5") [PortProto_new Tcp 22]; client_timeout := Some 60 |}.
Definition nat_payload : SpaPayload := {|
  nonce := replicate 16 0xcd; timestamp := 1700000000; username := lit "alice";
  message := Nat (ip "10.0.0.1") [PortProto_new Tcp 443] TypesTests.nat_dest; client_timeout := None |}.

Definition packet_table : Rmp WirePayload := table_rmp (serialize_payload <$> [sample_payload; nat_payload]).
#[local] Instance packet_codec : Rmp SpaPayload := @payload_rmp _ packet_table.

Definition key42 : bytes := replicate 32 0x42.
(** [build_packet(..).unwrap()] with some nonce of the generator. *)
Definition build (p : SpaPayload) (key : bytes) : test () bytes :=
  unwrap_ok (build_packet p key (Some (replicate 12 5))).

(** The tests recompute the HMAC after they changed the packet. *)
Definition resign (wire : bytes) : test () bytes :=
  keys ← unwrap_ok (DerivedKeys_derive key42);
  let signed := take (Z.to_nat (len wire - HMAC_LEN)) wire in
  mret (signed ++ hmac_sign (SubKey_as_bytes (hmac keys)) signed).

Definition build_then_parse_roundtrip : bool :=
  check (
    wire ← build sample_payload key42;
    back ← unwrap_ok (parse_packet wire key42); assert_eq sample_payload back).
Definition build_sets_correct_flags_for_nat : bool :=
  check (
    wire ← build nat_payload key42;
    header ← unwrap_ok (Header_decode (take (Z.to_nat HEADER_LEN) wire));
    _ ← assert (Flags_contains (flags header) FLAG_NAT);
    assert (negb (Flags_contains (flags header) FLAG_CLIENT_TIMEOUT))).
Definition parse_with_wrong_key_fails_on_hmac : bool :=
  check (
    wire ← build sample_payload key42;
    e ← unwrap_err (parse_packet wire (replicate 32 0)); assert (is_hmac_failed e)).
Definition parse_rejects_truncated_packet : bool :=
  check (
    wire ← build sample_payload key42;
    e ← unwrap_err (parse_packet (take (length wire - 1) wire) key42); assert (is_hmac_failed e)).
Definition parse_rejects_tampered_header_via_aad : bool :=
  check (
    wire ← build sample_payload key42;
    wire ← set_byte 1 (λ b, Z.lxor b FLAG_COMMAND) wire;
    wire ← resign wire;
    e ← unwrap_err (parse_packet wire key42); assert (is_aead_failed e)).
Definition parse_rejects_tampered_ciphertext_at_hmac : bool :=
  check (
    wire ← build sample_payload key42;
    wire ← set_byte (HEADER_LEN + NONCE_LEN) (λ b, Z.lxor b 0x80) wire;
    e ← unwrap_err (parse_packet wire key42); assert (is_hmac_failed e)).
Definition parse_rejects_oversize_packet : bool :=
  check (
    wire ← set_byte 0 (λ _, 1) (fill (MAX_PACKET_LEN + 1) 0);
    e ← unwrap_err (parse_packet wire key42); assert (is_too_long e)).
Definition parse_rejects_short_packet : bool :=
  check (e ← unwrap_err (parse_packet (replicate 10 0) key42); assert (is_too_short e)).
Definition build_rejects_short_master_key : bool :=
  check (e ← unwrap_err (build_packet sample_payload (replicate 16 0) (Some (replicate 12 5)));
         assert (is_invalid_field e)).
Definition parse_rejects_short_master_key : bool :=
  check (
    wire ← build sample_payload key42;
    e ← unwrap_err (parse_packet wire (replicate 16 0)); assert (is_invalid_field e)).
Definition nat_payload_roundtrip : bool :=
  check (
    let key := replicate 32 0x99 in
    wire ← build nat_payload key;
    back ← unwrap_ok (parse_packet wire key); assert_eq nat_payload back).
Definition parse_rejects_declared_payload_larger_than_wire : bool :=
  check (
    wire ← build sample_payload key42;
    wire ← set_byte 2 (λ _, 0xff) wire;
    wire ← set_byte 3 (λ _, 0xff) wire;
    wire ← resign wire;
    e ← unwrap_err (parse_packet wire key42);
    assert (is_invalid_field e || is_too_short e || is_too_long e)).
Definition parse_rejects_asymmetric_flag_in_symmetric_phase1 : bool :=
  check (
    wire ← build sample_payload key42;
    wire ← set_byte 1 (λ b, Z.lor b FLAG_ASYMMETRIC) wire;
    wire ← resign wire;
    e ← unwrap_err (parse_packet wire key42); assert (is_aead_failed e)).

Example packet_tests_pass :
  forallb id
    [build_then_parse_roundtrip; build_sets_correct_flags_for_nat; parse_with_wrong_key_fails_on_hmac;
     parse_rejects_truncated_packet; parse_rejects_tampered_header_via_aad;
     parse_rejects_tampered_ciphertext_at_hmac; parse_rejects_oversize_packet;
     parse_rejects_short_packet; build_rejects_short_master_key; parse_rejects_short_master_key;
     nat_payload_roundtrip; parse_rejects_declared_payload_larger_than_wire;
     parse_rejects_asymmetric_flag_in_symmetric_phase1] = true.
Proof. vm_compute. reflexivity. Qed.
End PacketTests.

(** ** validate.rs *)

Module ValidateTests.
Definition payload_at (ts : Z) : SpaPayload := {|
  nonce := replicate 16 0; timestamp := ts; username := lit "u";
  message := Access (ip "10.0.0.1") [PortProto_new Tcp 22]; client_timeout := None |}.
Definition validate (ts now : Z) : result ProtoError unit :=
  validate_against_clock (payload_at ts) now DEFAULT_MAX_AGE_SECS DEFAULT_MAX_SKEW_SECS.

Definition accepts_fresh_packet : bool := is_ok (validate 1000000 1000001).
Definition accepts_packet_within_skew_window : bool := is_ok (validate 1000010 1000000).
Definition rejects_old_packet : bool :=
  check (
    e ← unwrap_err (validate 1000000 (1000000 + DEFAULT_MAX_AGE_SECS + 1));
    match e with
    | PacketTooOld age_secs max_secs =>
        _ ← assert_eq age_secs (DEFAULT_MAX_AGE_SECS + 1); assert_eq max_secs DEFAULT_MAX_AGE_SECS
    | _ => panic
    end).
Definition rejects_packet_too_far_in_future : bool :=
  check (
    e ← unwrap_err (validate 2000000 (2000000 - DEFAULT_MAX_SKEW_SECS - 1));
    match e with PacketInFuture _ => mret () | _ => panic end).

Example validate_tests_pass :
  forallb id [accepts_fresh_packet; accepts_packet_within_skew_window; rejects_old_packet;
              rejects_packet_too_far_in_future] = true.
Proof. vm_compute. reflexivity. Qed.
End ValidateTests.

(** ** aead.rs, hmac.rs and kdf.rs: lengths, round trips and refusals *)

Module CryptoTests.
Definition key11 : bytes := replicate 32 0x11.

Definition seal_then_open_roundtrip : bool :=
  check (
    let nonce := fill NONCE_LEN 0x22 in
    let aad := lit "header bytes" in
    let pt := lit "top secret message" in
    ct ← unwrap_ok (aead_seal key11 nonce aad pt);
    _ ← assert_eq (len ct) (len pt + TAG_LEN);
    pt2 ← unwrap_ok (aead_open key11 nonce aad ct);
    assert_eq pt2 pt).
Definition open_with_wrong_key_fails : bool :=
  check (
    let nonce := fill NONCE_LEN 0 in
    ct ← unwrap_ok (aead_seal key11 nonce [] (lit "hello"));
    e ← unwrap_err (aead_open (replicate 32 0x22) nonce [] ct); assert (is_aead_failed e)).
Definition open_with_wrong_nonce_fails : bool :=
  check (
    ct ← unwrap_ok (aead_seal key11 (fill NONCE_LEN 0) [] (lit "hello"));
    e ← unwrap_err (aead_open key11 (fill NONCE_LEN 1) [] ct); assert (is_aead_failed e)).
Definition open_with_wrong_aad_fails : bool :=
  check (
    let nonce := fill NONCE_LEN 0 in
    ct ← unwrap_ok (aead_seal key11 nonce (lit "hdr1") (lit "hello"));
    e ← unwrap_err (aead_open key11 nonce (lit "hdr2") ct); assert (is_aead_failed e)).
Definition open_with_tampered_ciphertext_fails : bool :=
  check (
    let nonce := fill NONCE_LEN 0 in
    ct ← unwrap_ok (aead_seal key11 nonce [] (lit "hello"));
    ct ← set_byte 0 (λ b, Z.lxor b 0x80) ct;
    e ← unwrap_err (aead_open key11 nonce [] ct); assert (is_aead_failed e)).
Definition rejects_wrong_key_length : bool :=
  check (e ← unwrap_err (aead_seal (replicate 16 0) (fill NONCE_LEN 0) [] (lit "x"));
         assert (is_aead_failed e)).
Definition open_rejects_short_input : bool :=
  check (e ← unwrap_err (aead_open key11 (fill NONCE_LEN 0) [] (replicate 8 0)); assert (is_aead_failed e)).

Definition sign_then_verify_succeeds : bool :=
  let key := replicate 32 0x42 in
  let msg := lit "hello fwknox" in is_ok (hmac_verify key msg (hmac_sign key msg)).
Definition verify_with_wrong_key_fails : bool :=
  check (
    e ← unwrap_err (hmac_verify (replicate 32 1) (lit "x") (hmac_sign (replicate 32 0x42) (lit "x")));
    assert (is_hmac_failed e)).
Definition verify_with_tampered_message_fails : bool :=
  let key := replicate 32 0x42 in
  check (e ← unwrap_err (hmac_verify key (lit "hellp") (hmac_sign key (lit "hello")));
         assert (is_hmac_failed e)).
Definition verify_rejects_short_tag : bool :=
  check (e ← unwrap_err (hmac_verify (replicate 32 0x42) (lit "x") (replicate 16 0));
         assert (is_hmac_failed e)).

Definition derives_two_distinct_subkeys : bool :=
  check (
    keys ← unwrap_ok (DerivedKeys_derive (replicate 32 0x42));
    _ ← assert_eq (len (SubKey_as_bytes (enc keys))) SUBKEY_LEN;
    _ ← assert_eq (len (SubKey_as_bytes (hmac keys))) SUBKEY_LEN;
    assert_ne (SubKey_as_bytes (enc keys)) (SubKey_as_bytes (hmac keys))).
Definition deterministic_for_same_master : bool :=
  check (
    a ← unwrap_ok (DerivedKeys_derive key11); b ← unwrap_ok (DerivedKeys_derive key11);
    _ ← assert_eq (SubKey_as_bytes (enc a)) (SubKey_as_bytes (enc b));
    assert_eq (SubKey_as_bytes (hmac a)) (SubKey_as_bytes (hmac b))).
Definition different_masters_give_different_keys : bool :=
  check (
    a ← unwrap_ok (DerivedKeys_derive (replicate 32 0));
    b ← unwrap_ok (DerivedKeys_derive (replicate 32 0xff));
    _ ← assert_ne (SubKey_as_bytes (enc a)) (SubKey_as_bytes (enc b));
    assert_ne (SubKey_as_bytes (hmac a)) (SubKey_as_bytes (hmac b))).
Definition debug_does_not_leak_bytes : bool :=
  let s := SubKey_debug (replicate 32 0xab) in
  negb (str_contains s (lit "ab")) && str_contains s (lit "redacted").

Example crypto_tests_pass :
  forallb id [seal_then_open_roundtrip; open_with_wrong_key_fails; open_with_wrong_nonce_fails;
              open_with_wrong_aad_fails; open_with_tampered_ciphertext_fails;
              rejects_wrong_key_length; open_rejects_short_input; sign_then_verify_succeeds;
              verify_with_wrong_key_fails;
              verify_with_tampered_message_fails; verify_rejects_short_tag;
              derives_two_distinct_subkeys;
              deterministic_for_same_master; different_masters_give_different_keys; debug_does_not_leak_bytes] = true.
Proof. vm_compute. reflexivity. Qed.
End CryptoTests.
