(* ===== verification/StoreTests.v ===== *)
(** * The tests of fwknox-replay and fwknox-firewall

    The test modules of crates/fwknox-replay/src/{persist,cache}.rs and
    crates/fwknox-firewall/src/{mock,nftables}.rs, translated test by test and
    evaluated. The two tests that search the JSON text of a ruleset look at the
    ruleset itself. *)

From S2P Require Import Prelude RustStd Net Lru Proto Persist Replay Config Firewall Testing.

#[local] Existing Instance million_entries.

#[local] Existing Instance sorted_hash_iter.

(** ** persist.rs *)

Module PersistTests.
Definition do_write (path : str) (entries : gmap Nonce Z) : test Fs (result ReplayError unit) :=
  update (λ fs, write_cache_file path entries no_faults fs).
Definition do_read (path : str) : test Fs (result ReplayError (gmap Nonce Z)) :=
  gets (λ fs, read_cache_file path None fs).
(** [fs::write]. *)
Definition put_file (path : str) (body : bytes) : test Fs unit := update (λ fs, (<[path := body]> fs, ())).
Abbreviation on_disk t := (test_passes (S := Fs) t ∅) (only parsing).

Definition nonce_hex_roundtrip : bool :=
  let n := replicate 16 0xab in
  let s := encode_nonce_hex n in (len s =? 32) && bool_decide (parse_nonce_hex s = Some n).
Definition parse_rejects_short_hex : bool := bool_decide (parse_nonce_hex (lit "abcd") = None).
Definition parse_rejects_non_hex : bool := bool_decide (parse_nonce_hex (replicate 32 122) = None).

Definition write_then_read_roundtrip : bool :=
  on_disk (
    let entries : gmap Nonce Z := {[ replicate 16 0xaa := 1700000000; replicate 16 0xbb := 1700000010 ]} in
    r ← do_write (lit "/d/replay.cache") entries; _ ← unwrap_ok r;
    r ← do_read (lit "/d/replay.cache"); loaded ← unwrap_ok r;
    assert_eq loaded entries).
Definition read_missing_file_returns_empty_map : bool :=
  on_disk (r ← do_read (lit "/d/does-not-exist.cache"); loaded ← unwrap_ok r; assert_eq loaded ∅).
Definition read_rejects_malformed_line : bool :=
  on_disk (
    _ ← put_file (lit "/d/bad.cache") (lit "not enough fields" ++ [10]);
    r ← do_read (lit "/d/bad.cache"); e ← unwrap_err r;
    match e with ReplayInvalidFormat _ _ => mret () | _ => panic end).
Definition write_cache_file_syncs_before_rename : bool :=
  on_disk (
    let entries : gmap Nonce Z := {[ replicate 16 0xde := 42 ]} in
    r ← do_write (lit "/d/synced.cache") entries; _ ← unwrap_ok r;
    r ← do_read (lit "/d/synced.cache"); reloaded ← unwrap_ok r;
    assert_eq reloaded entries).
Definition ignores_comments_and_blank_lines : bool :=
  on_disk (
    let body := lit "# header" ++ [10; 10] ++ replicate 32 97 ++ lit " 1234" ++ [10] ++
                lit "# mid comment" ++ [10] ++ replicate 32 98 ++ lit " 5678" ++ [10] in
    _ ← put_file (lit "/d/c.cache") body;
    r ← do_read (lit "/d/c.cache"); loaded ← unwrap_ok r;
    assert_eq (size loaded) 2%nat).

Example persist_tests_pass :
  forallb id [nonce_hex_roundtrip; parse_rejects_short_hex; parse_rejects_non_hex;
              write_then_read_roundtrip; read_missing_file_returns_empty_map;
              read_rejects_malformed_line; write_cache_file_syncs_before_rename;
              ignores_comments_and_blank_lines] = true.
Proof. vm_compute. reflexivity. Qed.
End PersistTests.

(** ** cache.rs *)

Module CacheTests.
(** The cache and the disk; the clock stands at one second of 2023. *)
Record Bench := { cache : ReplayCache; disk : Fs }.
Definition NOW : Z := 1700000000.

Definition insert_with (faults : WriteFaults) (n : Nonce) : test Bench (result ReplayError bool) :=
  update (λ b, let '(c, fs, r) := check_and_insert (cache b) n NOW faults (disk b) in
               ({| cache := c; disk := fs |}, r)).
Definition insert (n : Nonce) : test Bench bool := r ← insert_with no_faults n; unwrap_ok r.
Definition prune (age : Duration) : test Bench Z :=
  r ← update (λ b, let '(c, fs, r) := prune_older_than (cache b) age NOW no_faults (disk b) in
                   ({| cache := c; disk := fs |}, r));
  unwrap_ok r.
Definition length_is (n : Z) : test Bench unit := c ← gets cache; assert_eq (cache_len c) n.
Definition load (path : str) : test Bench ReplayCache :=
  r ← gets (λ b, load_from_file path None (disk b)); unwrap_ok r.
Definition set_cache (c : ReplayCache) : test Bench unit :=
  update (λ b, ({| cache := c; disk := disk b |}, ())).
(** The entries rewritten through the lock with the time zero. *)
Definition backdate : test Bench unit :=
  c ← gets cache;
  set_cache {| inner := foldl (λ l n, lru_put l n 0) (inner c) (fst <$> lru_iter (inner c));
               persist_path := persist_path c |}.
Abbreviation starting c t := (test_passes (S := Bench) t {| cache := c; disk := ∅ |}) (only parsing).

Definition fresh_nonce_is_accepted : bool :=
  starting ReplayCache_new (r ← insert (replicate 16 1); _ ← assert r; length_is 1).
Definition replay_is_rejected : bool :=
  starting ReplayCache_new (
    let n := replicate 16 2 in
    r ← insert n; _ ← assert r; r ← insert n; _ ← assert (negb r); length_is 1).
Definition distinct_nonces_independent : bool :=
  starting ReplayCache_new (
    _ ← for_each [0; 1; 2] (λ b, r ← insert (replicate 16 b); assert r); length_is 3).
Definition capacity_cap_evicts_oldest : bool :=
  match with_capacity 3 with
  | Some c =>
      starting c (
        _ ← for_each [0; 1; 2] (λ b, r ← insert (replicate 16 b); assert r); _ ← length_is 3;
        r ← insert (replicate 16 3); _ ← assert r; _ ← length_is 3;
        r ← insert (replicate 16 0); _ ← assert r; length_is 3)
  | None => false
  end.
Definition prune_with_generous_max_age_keeps_everything : bool :=
  starting ReplayCache_new (
    _ ← insert (replicate 16 1); _ ← insert (replicate 16 2);
    pruned ← prune (from_secs 3600); _ ← assert_eq pruned 0; length_is 2).
Definition prune_with_synthetic_old_entries_evicts : bool :=
  starting ReplayCache_new (
    _ ← insert (replicate 16 3); _ ← backdate;
    pruned ← prune (from_secs 60); _ ← assert_eq pruned 1;
    c ← gets cache; assert (is_empty c)).
Definition empty_cache_is_empty : bool :=
  starting ReplayCache_new (
    c ← gets cache; _ ← assert (is_empty c);
    _ ← insert (replicate 16 0); c ← gets cache; assert (negb (is_empty c))).
Definition cache_persists_across_load_and_save : bool :=
  starting ReplayCache_new (
    _ ← insert (replicate 16 0x11); _ ← insert (replicate 16 0x22);
    r ← update (λ b, let '(fs, r) := save_to_file (cache b) (lit "/d/c.cache") no_faults (disk b) in
                     ({| cache := cache b; disk := fs |}, r));
    _ ← unwrap_ok r;
    loaded ← load (lit "/d/c.cache"); _ ← set_cache loaded; _ ← length_is 2;
    r ← insert (replicate 16 0x11); assert (negb r)).
(** The directory cannot be created because its parent is a file. *)
Definition blocked : WriteFaults := {|
  create_dir_fault := Some (lit "Not a directory"); tempfile_fault := None; write_fault := None;
  sync_fault := None; rename_fault := None |}.
Definition persist_failure_rolls_back_in_memory_entry : bool :=
  starting (set_persist_path ReplayCache_new (lit "/d/not-a-dir/child.cache")) (
    r ← insert_with blocked (replicate 16 0x77); _ ← assert (is_err r); length_is 0).
Definition prune_persists_evictions_to_disk : bool :=
  starting (set_persist_path ReplayCache_new (lit "/d/prune.cache")) (
    _ ← insert (replicate 16 1); _ ← backdate;
    n ← prune (from_secs 60); _ ← assert_eq n 1;
    reloaded ← load (lit "/d/prune.cache"); assert_eq (cache_len reloaded) 0).
Definition auto_save_persists_after_insert : bool :=
  starting (set_persist_path ReplayCache_new (lit "/d/auto.cache")) (
    _ ← insert (replicate 16 0x33);
    fs ← gets disk; _ ← assert (bool_decide (is_Some (fs !! lit "/d/auto.cache")));
    reloaded ← load (lit "/d/auto.cache"); _ ← set_cache reloaded; _ ← length_is 1;
    r ← insert (replicate 16 0x33); assert (negb r)).

Example cache_tests_pass :
  forallb id [fresh_nonce_is_accepted; replay_is_rejected; distinct_nonces_independent;
              capacity_cap_evicts_oldest; prune_with_generous_max_age_keeps_everything;
              prune_with_synthetic_old_entries_evicts; empty_cache_is_empty;
              cache_persists_across_load_and_save; persist_failure_rolls_back_in_memory_entry;
              prune_persists_evictions_to_disk; auto_save_persists_after_insert] = true.
Proof. vm_compute. reflexivity. Qed.
End CacheTests.

(** ** mock.rs *)

Definition is_not_found (e : FirewallError) : bool := match e with RuleNotFound _ => true | _ => false end.
Definition is_inconsistent (e : FirewallError) : bool :=
  match e with InconsistentState _ => true | _ => false end.
Definition is_backend (e : FirewallError) : bool := match e with Backend _ => true | _ => false end.

(** The operations of a backend as test steps. *)
Section backend_steps.
Context {B : Type} `{F : !FirewallBackend B}.
Definition do_init : test B (result FirewallError unit) := update fw_init.
Definition do_open (r : AccessRule) : test B (result FirewallError RuleHandle) :=
  update (λ b, fw_open_access b r).
Definition do_remove (h : RuleHandle) : test B (result FirewallError unit) :=
  update (λ b, fw_remove_rule b h).
Definition do_flush : test B (result FirewallError unit) := update fw_flush.
End backend_steps.

Module MockTests.
Import Mock.
Definition rule : AccessRule := {|
  rule_source_ip := ip "192.168.1.5"; rule_ports := [PortProto_new Tcp 22];
  rule_timeout := from_secs 30; rule_comment := lit "test" |}.
Abbreviation fresh t := (test_passes (S := MockState) t mock_new) (only parsing).

Definition open_then_remove_roundtrip : bool :=
  fresh (
    r ← do_init; _ ← unwrap_ok r;
    r ← do_open rule; handle ← unwrap_ok r;
    s ← gets installed_rules; _ ← assert_eq (size s) 1%nat;
    r ← do_remove handle; _ ← unwrap_ok r;
    s ← gets installed_rules; assert_eq (size s) 0%nat).
Definition open_before_init_fails : bool :=
  fresh (r ← do_open rule; e ← unwrap_err r; assert (is_inconsistent e)).
Definition double_remove_fails_with_not_found : bool :=
  fresh (
    r ← do_init; _ ← unwrap_ok r;
    r ← do_open rule; handle ← unwrap_ok r;
    r ← do_remove handle; _ ← unwrap_ok r;
    r ← do_remove handle; e ← unwrap_err r; assert (is_not_found e)).
Definition flush_clears_rules_and_initialized_flag : bool :=
  fresh (
    r ← do_init; _ ← unwrap_ok r;
    r ← do_open rule; _ ← unwrap_ok r;
    i ← gets is_initialized; _ ← assert i;
    r ← do_flush; _ ← unwrap_ok r;
    i ← gets is_initialized; _ ← assert (negb i);
    s ← gets installed_rules; assert_eq (size s) 0%nat).
Definition removing_unknown_rule_returns_rulenotfound : bool :=
  fresh (
    r ← do_init; _ ← unwrap_ok r;
    r ← do_remove (RuleHandle_new (lit "mock-never-installed")); e ← unwrap_err r;
    assert (is_not_found e)).
Definition handles_are_unique : bool :=
  fresh (
    r ← do_init; _ ← unwrap_ok r;
    r ← do_open rule; h1 ← unwrap_ok r;
    r ← do_open rule; h2 ← unwrap_ok r; assert_ne h1 h2).

Example mock_tests_pass :
  forallb id [open_then_remove_roundtrip; open_before_init_fails; double_remove_fails_with_not_found;
              flush_clears_rules_and_initialized_flag; removing_unknown_rule_returns_rulenotfound;
              handles_are_unique] = true.
Proof. vm_compute. reflexivity. Qed.
End MockTests.

(** ** nftables.rs *)

Module NftablesTests.
(** The applier of the tests: it records every ruleset and fails on demand. *)
Record RecordingApplier := { calls : list (list NfObject); fail_with : option str }.
Record CallSummary := { adds : list str; deletes : list str }.

Definition object_kind (o : NfListObject) : str :=
  match o with
  | NfTable _ _ => lit "table"
  | NfChain _ _ _ _ _ _ _ => lit "chain"
  | NfSet _ _ _ _ _ _ => lit "set"
  | NfRule _ _ _ _ => lit "rule"
  | NfElement _ _ _ _ => lit "element"
  | NfOther => lit "other"
  end.
Definition summary (rs : list NfObject) : CallSummary := {|
  adds := omap (λ o, match o with CmdAdd x => Some (object_kind x) | _ => None end) rs;
  deletes := omap (λ o, match o with CmdDelete x => Some (object_kind x) | _ => None end) rs |}.

Definition record_apply (rs : list NfObject) (k : RecordingApplier)
  : RecordingApplier * result FirewallError unit :=
  ({| calls := calls k ++ [rs]; fail_with := fail_with k |},
   match fail_with k with Some msg => Err (Backend msg) | None => Ok () end).
#[local] Instance recording : RulesetApplier RecordingApplier := {|
  ra_apply := record_apply;
  ra_get_current _ := Err (Unsupported (lit "get_current not implemented for this applier")) |}.
#[local] Instance recorded_backend : FirewallBackend (Nft.NftablesBackend RecordingApplier) :=
  Nft.nft_backend.

Definition make_backend : Nft.NftablesBackend RecordingApplier :=
  Nft.with_applier {| calls := []; fail_with := None |}.
Definition rule : AccessRule := {|
  rule_source_ip := ip "192.168.1.5"; rule_ports := [PortProto_new Tcp 22; PortProto_new Udp 53];
  rule_timeout := from_secs 30; rule_comment := lit "test" |}.

Abbreviation bench t := (test_passes (S := Nft.NftablesBackend RecordingApplier) t make_backend) (only parsing).
Definition snapshot_calls : test (Nft.NftablesBackend RecordingApplier) (list (list NfObject)) :=
  gets (λ b, calls (Nft.kernel b)).
Definition snapshot_summaries : test (Nft.NftablesBackend RecordingApplier) (list CallSummary) :=
  cs ← snapshot_calls; mret (summary <$> cs).
Definition fail_next (msg : str) : test (Nft.NftablesBackend RecordingApplier) unit :=
  update (λ b, ({| Nft.initialized := Nft.initialized b;
                   Nft.kernel := {| calls := calls (Nft.kernel b); fail_with := Some msg |} |}, ())).
Definition ready : test (Nft.NftablesBackend RecordingApplier) unit := r ← do_init; unwrap_ok r.
Definition opened : test (Nft.NftablesBackend RecordingApplier) RuleHandle := r ← do_open rule; unwrap_ok r.

Definition init_submits_one_batch_with_table_set_chain_rule : bool :=
  bench (
    _ ← ready; ss ← snapshot_summaries;
    _ ← assert_eq (adds <$> ss) [[lit "table"; lit "set"; lit "chain"; lit "rule"]];
    assert_eq (deletes <$> ss) [[]]).

(** Names and flags in place of the JSON text. *)
Definition init_ruleset_json_mentions_table_and_set_names : bool :=
  bench (
    _ ← ready; cs ← snapshot_calls;
    _ ← assert_eq (length cs) 1%nat;
    assert (existsb (λ o, match o with
                          | CmdAdd (NfSet _ table name _ flags _) =>
                              bool_decide (table = lit "fwknox") &&
                              bool_decide (name = lit "fwknox_allow_v4") &&
                              bool_decide (lit "timeout" ∈ flags)
                          | _ => false
                          end) (concat cs))).

Definition open_access_submits_one_element_per_port_in_a_single_batch : bool :=
  bench (
    _ ← ready; handle ← opened; ss ← snapshot_summaries;
    _ ← assert_eq (length ss) 2%nat;
    s ← unwrap (ss !! 1%nat);
    _ ← assert_eq (adds s) [lit "element"; lit "element"]; _ ← assert_eq (deletes s) [];
    assert_eq (as_str handle) (lit "192.168.1.5/tcp/22,192.168.1.5/udp/53")).

Definition open_access_element_json_includes_per_element_timeout : bool :=
  bench (
    _ ← ready; _ ← opened; cs ← snapshot_calls; batch ← unwrap (cs !! 1%nat);
    assert (existsb (λ o, match o with
                          | CmdAdd (NfElement _ _ _
                              [ExprElem (ExprConcat [ExprString a; ExprString p; _]) (Some t)]) =>
                              bool_decide (a = lit "192.168.1.5") && bool_decide (p = lit "tcp") && (t =? 30)
                          | _ => false
                          end) batch)).

Definition open_access_before_init_returns_inconsistent_state : bool :=
  bench (r ← do_open rule; e ← unwrap_err r; assert (is_inconsistent e)).

Definition ipv6_access_returns_unsupported : bool :=
  bench (
    _ ← ready;
    r ← do_open {| rule_source_ip := ip "2001:db8::1"; rule_ports := rule_ports rule;
                   rule_timeout := rule_timeout rule; rule_comment := rule_comment rule |};
    e ← unwrap_err r; match e with Unsupported _ => mret () | _ => panic end).

Definition remove_rule_submits_delete_per_handle_segment : bool :=
  bench (
    _ ← ready; handle ← opened; r ← do_remove handle; _ ← unwrap_ok r;
    ss ← snapshot_summaries; _ ← assert_eq (length ss) 3%nat;
    s ← unwrap (ss !! 2%nat);
    _ ← assert_eq (adds s) []; assert_eq (deletes s) [lit "element"; lit "element"]).

Definition remove_rule_rejects_malformed_handle : bool :=
  bench (
    _ ← ready; r ← do_remove (RuleHandle_new (lit "not/well/formed/extra")); e ← unwrap_err r;
    assert (is_not_found e)).

Definition flush_submits_table_delete_and_clears_initialized : bool :=
  bench (
    _ ← ready; r ← do_flush; _ ← unwrap_ok r;
    ss ← snapshot_summaries; _ ← assert_eq (length ss) 2%nat;
    s ← unwrap (ss !! 1%nat); assert_eq (deletes s) [lit "table"]).

Definition flush_swallows_backend_errors : bool :=
  bench (_ ← fail_next (lit "nft delete table failed: not found"); r ← do_flush; unwrap_ok r).
Definition init_propagates_backend_errors : bool :=
  bench (_ ← fail_next (lit "permission denied"); r ← do_init; e ← unwrap_err r; assert (is_backend e)).
Definition remove_rule_translates_enoent_to_rulenotfound : bool :=
  bench (
    _ ← ready; handle ← opened;
    _ ← fail_next (lit "nft failed while applying ruleset: stderr=Error: Could not process rule: No such file or directory");
    r ← do_remove handle; e ← unwrap_err r; assert (is_not_found e)).
Definition remove_rule_propagates_non_enoent_backend_errors : bool :=
  bench (
    _ ← ready; handle ← opened; _ ← fail_next (lit "permission denied");
    r ← do_remove handle; e ← unwrap_err r; assert (is_backend e)).

Definition stderr_matcher_recognises_nft_enoent_phrasings : bool :=
  forallb stderr_indicates_missing_element
    [lit "Error: Could not process rule: No such file or directory";
     lit "set element does not exist"; lit "NO SUCH FILE OR DIRECTORY"] &&
  negb (existsb stderr_indicates_missing_element [lit "permission denied"; []]).

Example nftables_tests_pass :
  forallb id
    [init_submits_one_batch_with_table_set_chain_rule; init_ruleset_json_mentions_table_and_set_names;
     open_access_submits_one_element_per_port_in_a_single_batch;
     open_access_element_json_includes_per_element_timeout;
     open_access_before_init_returns_inconsistent_state; ipv6_access_returns_unsupported;
     remove_rule_submits_delete_per_handle_segment; remove_rule_rejects_malformed_handle;
     flush_submits_table_delete_and_clears_initialized; flush_swallows_backend_errors;
     init_propagates_backend_errors; remove_rule_translates_enoent_to_rulenotfound;
     remove_rule_propagates_non_enoent_backend_errors;
     stderr_matcher_recognises_nft_enoent_phrasings] = true.
Proof. vm_compute. reflexivity. Qed.
End NftablesTests.
