(* ===== verification/DaemonTests.v ===== *)
(** * The tests of fwknox-daemon, fwknox-privsep and fwknox-client

    The test modules of crates/fwknox-daemon/src/{matcher,pipeline,validate,
    run,shutdown,privsep_run}.rs, crates/fwknox-privsep/src/{ipc,workers}.rs and
    crates/fwknox-client/src/packet.rs, and the tests of the sandbox crate that
    touch no kernel, translated test by test and evaluated. Threads, sockets
    and sleeps become the schedule of events they bring about. *)

From S2P Require Import Prelude RustStd Net Lru Proto Instances NetText Serde Packet Persist Replay Config.
From S2P Require Import ConfigFile RateLimit Firewall Capture Privsep Sandbox Daemon DaemonRun Shutdown Client.
From S2P Require Import Testing.

#[local] Existing Instance million_entries.

#[local] Existing Instance keyed_ring.
#[local] Existing Instance verbatim_base64.
#[local] Existing Instance whole_seconds.
#[local] Existing Instance sorted_hash_iter.

Abbreviation check t := (test_passes (S := ()) t ()) (only parsing).

(** ** What the tests share *)

(** IPv4 networks, enough of [ipnet] for the documents of the tests. *)
Definition v4_number (o : bytes) : Z := foldl (λ a b, a * 256 + b) 0 o.
Definition v4_networks : IpNetOps := {|
  IpNet := bytes * Z;
  net_contains n i :=
    match i with
    | V4 o => Z.shiftr (v4_number o) (32 - n.2) =? Z.shiftr (v4_number n.1) (32 - n.2)
    | V6 _ => false
    end;
  net_parse s :=
    '(a, p) ← split_once 47 s;
    match parse_ip a, parse_uint 32 p with Some (V4 o), Ok k => Some (o, k) | _, _ => None end;
  net_show n := show_ipv4 n.1 ++ lit "/" ++ dec n.2 |}.
#[local] Existing Instance v4_networks.

Definition NOW : Z := 1700000000.
Definition key42 : bytes := replicate 32 0x42.
Definition here : IpAddr := ip "127.0.0.1".

Definition payload_for (nonce : bytes) (ports : list PortProto) : SpaPayload := {|
  nonce := nonce; timestamp := NOW; username := lit "alice"; message := Access here ports;
  client_timeout := Some 60 |}.
Definition fresh_payload (n : Z) : SpaPayload := payload_for (replicate 16 n) [PortProto_new Tcp 22].

(** The payload of the client's test, with the generator's nonce. *)
Definition client_payload : SpaPayload := {|
  nonce := replicate 16 9; timestamp := NOW; username := lit "fwknox";
  message := Access here [PortProto_new Tcp 22]; client_timeout := None |}.

Definition test_table : Rmp WirePayload :=
  table_rmp (serialize_payload <$>
    (client_payload :: payload_for (replicate 16 5) [PortProto_new Tcp 80] ::
     (fresh_payload <$> [1; 2; 3; 4; 0xaa; 0xcd]))).
#[local] Instance test_codec : Rmp SpaPayload := @payload_rmp _ test_table.

Definition build (p : SpaPayload) (key : bytes) : test () bytes :=
  unwrap_ok (build_packet p key (Some (replicate 12 5))).
Definition captured (data : bytes) (src : IpAddr) : CapturedPacket :=
  {| cap_source_ip := src; cap_data := data |}.

(** [write_test_config] and [load_daemon_config]. *)
Definition stanza_doc (name source : String.string) (key : bytes) : Value :=
  VTable [(lit "name", VStr (lit name)); (lit "source", VArr [VStr (lit source)]);
          (lit "open_ports", VArr [VStr (lit "tcp/22")]); (lit "master_key_base64", VStr (b64_encode key));
          (lit "require_source_match", VBool true)].
Arguments stanza_doc (name source)%_string_scope key.
Definition load_doc (access : list Value) : test () DaemonConfig :=
  let doc := VTable [(lit "daemon", VTable []);
                     (lit "replay", VTable [(lit "cache_path", VStr (lit "/d/replay.cache"))]);
                     (lit "access", VArr access)] in
  unwrap_ok (load_daemon_config (λ _, Ok []) (@daemon_from_str _ _ _ _ (constant_toml doc)) (lit "f")).
Definition ssh_config : test () DaemonConfig := load_doc [stanza_doc "ssh" "127.0.0.1/32" key42].

(** ** matcher.rs *)

Module MatcherTests.
Definition key_a : bytes := replicate 32 0x11.
Definition key_b : bytes := replicate 32 0x22.
Definition two_stanza_config : test () DaemonConfig :=
  load_doc [stanza_doc "stanza-a" "any" key_a; stanza_doc "stanza-b" "any" key_b].
Definition sample_payload : SpaPayload := fresh_payload 0xcd.

Definition matches_with (key : bytes) (name : str) : bool :=
  check (
    cfg ← two_stanza_config; wire ← build sample_payload key;
    match match_packet wire (access cfg) with
    | Matched stanza_name _ => assert_eq stanza_name name
    | _ => panic
    end).
Definition matches_first_stanza_when_first_key_is_used : bool := matches_with key_a (lit "stanza-a").
Definition matches_second_stanza_when_second_key_is_used : bool := matches_with key_b (lit "stanza-b").
Definition no_match_for_unknown_key : bool :=
  check (
    cfg ← two_stanza_config; wire ← build sample_payload (replicate 32 0x99);
    match match_packet wire (access cfg) with NoMatch => mret () | _ => panic end).
(** The toy codec writes one byte, so the corrupted byte is the first one of
    the ciphertext, at 16. *)
Definition rejected_when_hmac_matches_but_packet_is_corrupt : bool :=
  check (
    cfg ← two_stanza_config; wire ← build sample_payload key_a;
    b ← unwrap (wire !! 16%nat);
    let wire := <[16%nat := Z.lxor b 0x80]> wire in
    keys ← unwrap_ok (DerivedKeys_derive key_a);
    let signed := take (Z.to_nat (len wire - HMAC_LEN)) wire in
    let wire := signed ++ hmac_sign (SubKey_as_bytes (hmac keys)) signed in
    match match_packet wire (access cfg) with
    | MatchRejected name AeadFailed => assert_eq name (lit "stanza-a")
    | _ => panic
    end).

Example matcher_tests_pass :
  forallb id [matches_first_stanza_when_first_key_is_used; matches_second_stanza_when_second_key_is_used;
              no_match_for_unknown_key; rejected_when_hmac_matches_but_packet_is_corrupt] = true.
Proof. vm_compute. reflexivity. Qed.
End MatcherTests.

(** ** pipeline.rs *)

Module PipelineTests.
(** The world after [firewall.init()]. *)
Definition start : World Mock.MockState :=
  {| w_replay := ReplayCache_new; w_fs := ∅; w_fw := (Mock.mock_init Mock.mock_new).1 |}.
Definition env : PacketEnv := {| env_clock := Some NOW; env_replay_now := NOW; env_faults := no_faults |}.

Definition process (cfg : DaemonConfig) (pkt : CapturedPacket) (w : World Mock.MockState)
  : test () (World Mock.MockState * ProcessResult) :=
  let '(w, r) := process_packet pkt cfg env w in r ← unwrap_ok r; mret (w, r).
Definition rules_count (w : World Mock.MockState) : nat := size (Mock.installed_rules (w_fw w)).

Definition happy_path_installs_rule : bool :=
  check (
    cfg ← ssh_config; wire ← build (fresh_payload 1) key42;
    '(w, r) ← process cfg (captured wire here) start;
    match r with
    | Installed stanza_name _ =>
        _ ← assert_eq stanza_name (lit "ssh"); assert_eq (rules_count w) 1%nat
    | _ => panic
    end).
Definition replay_is_detected : bool :=
  check (
    cfg ← ssh_config; wire ← build (fresh_payload 2) key42;
    '(w, _) ← process cfg (captured wire here) start;
    '(w, r) ← process cfg (captured wire here) w;
    _ ← match r with ReplayHit _ => mret () | _ => panic end;
    assert_eq (rules_count w) 1%nat).
Definition unknown_key_returns_no_match : bool :=
  check (
    cfg ← ssh_config; wire ← build (fresh_payload 3) (replicate 32 0x99);
    '(w, r) ← process cfg (captured wire here) start;
    _ ← match r with PNoMatch => mret () | _ => panic end;
    assert_eq (rules_count w) 0%nat).
Definition rejected_with (r : ProcessResult) (words : String.string) : test () unit :=
  match r with Rejected _ reason => assert (str_contains reason (lit words)) | _ => panic end.
Arguments rejected_with r words%_string_scope.
Definition require_source_match_rejects_mismatched_packet_source : bool :=
  check (
    cfg ← ssh_config; wire ← build (fresh_payload 4) key42;
    '(w, r) ← process cfg (captured wire (ip "10.0.0.1")) start;
    rejected_with r "source mismatch").
Definition find_stanza_returns_invariant_error_for_unknown_name : bool :=
  check (
    cfg ← ssh_config; _ ← unwrap_ok (find_stanza cfg (lit "ssh"));
    match find_stanza cfg (lit "nonexistent") with
    | Err (InvariantViolation msg) => assert (str_contains msg (lit "nonexistent"))
    | _ => panic
    end).
Definition requested_port_outside_open_ports_is_rejected : bool :=
  check (
    cfg ← ssh_config; wire ← build (payload_for (replicate 16 5) [PortProto_new Tcp 80]) key42;
    '(w, r) ← process cfg (captured wire here) start;
    rejected_with r "not in stanza open_ports").

Example pipeline_tests_pass :
  forallb id [happy_path_installs_rule; replay_is_detected; unknown_key_returns_no_match;
              require_source_match_rejects_mismatched_packet_source;
              find_stanza_returns_invariant_error_for_unknown_name;
              requested_port_outside_open_ports_is_rejected] = true.
Proof. vm_compute. reflexivity. Qed.
End PipelineTests.

(** ** validate.rs *)

Module CryptoValidateTests.
Definition reply_to (p : SpaPayload) (key : bytes) (src : IpAddr) : test () CryptoMsg :=
  cfg ← ssh_config; wire ← build p key;
  mret (validate_capture_msg (CapturePacket src wire) cfg (Some NOW)).

Definition happy_path_returns_valid_request : bool :=
  check (
    r ← reply_to (fresh_payload 0xaa) key42 here;
    match r with ValidRequest stanza_name _ _ => assert_eq stanza_name (lit "ssh") | _ => panic end).
Definition unknown_key_gives_no_match : bool :=
  check (
    r ← reply_to (fresh_payload 0xaa) (replicate 32 0x99) here;
    match r with CryptoNoMatch _ => mret () | _ => panic end).
Definition missing_stanza_lookup_yields_invariant_error : bool :=
  check (
    cfg ← ssh_config; e ← unwrap_err (find_stanza cfg (lit "does-not-exist"));
    match e with InvariantViolation _ => mret () | _ => panic end).
Definition source_mismatch_returns_rejected : bool :=
  check (
    r ← reply_to (fresh_payload 0xaa) key42 (ip "10.0.0.1");
    match r with CryptoRejected _ reason => assert (str_contains reason (lit "source mismatch")) | _ => panic end).

Example crypto_validate_tests_pass :
  forallb id [happy_path_returns_valid_request; unknown_key_gives_no_match;
              missing_stanza_lookup_yields_invariant_error; source_mismatch_returns_rejected] = true.
Proof. vm_compute. reflexivity. Qed.
End CryptoValidateTests.

(** ** run.rs *)

Module RunTests.
(** The capture of the tests: a queue that times out when it is empty. *)
Record ScriptedCapture := { queue : list CapturedPacket }.
#[local] Instance scripted_capture : CaptureBackend ScriptedCapture () := {|
  cb_recv_timeout c _ _ :=
    match queue c with
    | [] => (c, Ok None)
    | p :: ps => ({| queue := ps |}, Ok (Some p))
    end |}.

(** The turns of the loop: one per packet of the queue, an idle one, and the
    turn in which the flag is set. *)
Fixpoint turns (n : nat) (c : ScriptedCapture) : list RunIter :=
  let '(c', r) := cb_recv_timeout c LOOP_TICK () in
  let it stop := {| ri_shutdown := stop; ri_recv := r; ri_reset_now := 0; ri_now := 0;
                    ri_env := PipelineTests.env; ri_prune_now := NOW; ri_prune_faults := no_faults |} in
  match n with
  | O => [it true]
  | S n => it false :: turns n c'
  end.

Definition disabled_limiter : test () RateLimiter :=
  unwrap (from_config {|
    enabled := false; per_source_rate_per_sec := default_per_source_rate_per_sec;
    per_source_burst := default_per_source_burst;
    tracked_sources_capacity := default_tracked_sources_capacity;
    global_rate_per_sec := default_global_rate_per_sec; global_burst := default_global_burst;
    promotion_threshold := default_promotion_threshold; ipv6_prefix_len := default_ipv6_prefix_len |}
    {| os_now := 0 |}).

(** [run] until the flag is set, with a firewall not yet initialised. *)
Definition run_scripted (packets : list CapturedPacket) (rl : RateLimiter)
  : test () (RunState (B := Mock.MockState)) :=
  cfg ← ssh_config;
  let w := {| w_replay := ReplayCache_new; w_fs := ∅; w_fw := Mock.mock_new |} in
  let '(s, r) := run cfg (turns (S (length packets)) {| queue := packets |}) no_faults w rl in
  match r with Some (Ok _) => mret s | _ => panic end.

Definition run_processes_one_packet_then_shuts_down : bool :=
  check (
    wire ← build (fresh_payload 1) key42; rl ← disabled_limiter;
    s ← run_scripted [captured wire here] rl;
    assert_eq (cache_len (w_replay (rs_world s))) 1).
Definition run_with_no_packets_just_idles_until_shutdown : bool :=
  check (
    rl ← disabled_limiter; s ← run_scripted [] rl;
    assert_eq (cache_len (w_replay (rs_world s))) 0).

Definition strict_config : RateLimitSection := {|
  enabled := true; per_source_rate_per_sec := 1; per_source_burst := 2;
  tracked_sources_capacity := default_tracked_sources_capacity;
  global_rate_per_sec := 10; global_burst := 10; promotion_threshold := 1;
  ipv6_prefix_len := default_ipv6_prefix_len |}.
Definition non_privsep_run_loop_drops_rate_limited_packets : bool :=
  check (
    rl ← unwrap (with_clock strict_config 0);
    s ← run_scripted (replicate 20 (captured (lit "garbage-not-a-real-spa-packet") (ip "10.0.0.1"))) rl;
    let snap := stats (rs_limiter s) in
    assert_eq [snap_allowed snap; snap_dropped_per_source snap; snap_dropped_global snap;
               snap_promotions snap] [3; 17; 0; 1]).

Example run_tests_pass :
  forallb id [run_processes_one_packet_then_shuts_down; run_with_no_packets_just_idles_until_shutdown;
              non_privsep_run_loop_drops_rate_limited_packets] = true.
Proof. vm_compute. reflexivity. Qed.
End RunTests.

(** ** shutdown.rs and privsep_run.rs *)

Module ShutdownTests.
Definition empty_signals : SignalState := {| cells := []; handlers := [] |}.
Definition fresh_signal_is_not_shutdown : bool :=
  let '(st, s) := ShutdownSignal_new empty_signals in negb (is_shutdown st s).
Definition trigger_flips_the_flag : bool :=
  let '(st, s) := ShutdownSignal_new empty_signals in is_shutdown (trigger st s) s.
(** A clone is another handle on the same cell. *)
Definition clones_share_state : bool :=
  let '(st, a) := ShutdownSignal_new empty_signals in
  let b := {| flag := flag_arc a |} in is_shutdown (trigger st a) b.
Definition parent_poll_interval_is_responsive : bool := PARENT_POLL_INTERVAL <=? from_millis 150.

Example shutdown_tests_pass :
  forallb id [fresh_signal_is_not_shutdown; trigger_flips_the_flag; clones_share_state;
              parent_poll_interval_is_responsive] = true.
Proof. vm_compute. reflexivity. Qed.
End ShutdownTests.

(** ** ipc.rs *)

Module IpcTests.
Definition capture_sample : CaptureMsg := CapturePacket here [1; 2; 3; 4; 5].
Definition hello (src : IpAddr) : CaptureMsg := CapturePacket src (lit "hello").
Definition capture_table : Rmp WireCaptureMsg :=
  table_rmp (serialize_capture <$> [capture_sample; hello here; CapturePacket here (lit "hello fwknox");
                                    CapturePacket here [0; 1; 2; 3]]).
Definition rejected_sample : CryptoMsg := CryptoRejected (ip "10.0.0.1") (lit "timestamp too old").
Definition crypto_table : Rmp WireCryptoMsg :=
  table_rmp (serialize_crypto <$> [rejected_sample; CryptoNoMatch (ip "203.0.113.1"); CryptoNoMatch here]).
#[export] Instance capture_codec : Rmp CaptureMsg := @capture_msg_rmp _ capture_table.
#[export] Instance crypto_codec : Rmp CryptoMsg := @crypto_msg_rmp _ crypto_table.

(** The datagram as the other end of the pair receives it. *)
Definition deliver_datagram (d : bytes) : result io_error (Z * bool * bytes) :=
  Ok (len d, bool_decide (MAX_IPC_MSG < len d), take (Z.to_nat MAX_IPC_MSG) d).
Definition send_and_receive {A} `{Rmp A} (m : A) : test () A :=
  d ← unwrap_ok (send_msg m (Ok ())); unwrap_ok (recv_msg (deliver_datagram d)).

Definition capture_msg_roundtrip_over_datagram_pair : bool :=
  check (
    received ← send_and_receive capture_sample;
    let '(CapturePacket source_ip data) := received in
    _ ← assert_eq source_ip here; assert_eq data [1; 2; 3; 4; 5]).
Definition crypto_msg_rejected_roundtrip : bool :=
  check (
    received ← send_and_receive rejected_sample;
    match received with
    | CryptoRejected source_ip reason =>
        _ ← assert_eq source_ip (ip "10.0.0.1"); assert_eq reason (lit "timestamp too old")
    | _ => panic
    end).
Definition crypto_msg_nomatch_roundtrip : bool :=
  check (
    received ← send_and_receive (CryptoNoMatch (ip "203.0.113.1"));
    match received with CryptoNoMatch _ => mret () | _ => panic end).
(** A codec that writes the data itself, so that the size shows. *)
Definition raw_capture : Rmp CaptureMsg :=
  {| rmp_to_vec m := let '(CapturePacket _ data) := m in Ok data; rmp_from_slice _ := Err [] |}.
Definition oversize_message_is_rejected_before_send : bool :=
  check (
    e ← unwrap_err (@send_msg _ raw_capture (CapturePacket here (fill (MAX_IPC_MSG + 1024) 0)) (Ok ()));
    match e with IpcEncode _ => mret () | _ => panic end).
Definition oversized_datagram_is_detected_as_truncated : bool :=
  check (
    e ← unwrap_err (recv_msg (A := CaptureMsg) (deliver_datagram (fill (MAX_IPC_MSG + 1024) 0)));
    match e with
    | IpcTruncated reported limit => _ ← assert_eq limit MAX_IPC_MSG; assert (MAX_IPC_MSG <=? reported)
    | _ => panic
    end).
Definition recv_from_closed_peer_returns_peer_closed : bool :=
  check (
    e ← unwrap_err (recv_msg (A := CaptureMsg) (Ok (0, false, [])));
    match e with PeerClosed | PIo _ => mret () | _ => panic end).

Example ipc_tests_pass :
  forallb id [capture_msg_roundtrip_over_datagram_pair; crypto_msg_rejected_roundtrip;
              crypto_msg_nomatch_roundtrip; oversize_message_is_rejected_before_send;
              oversized_datagram_is_detected_as_truncated; recv_from_closed_peer_returns_peer_closed] = true.
Proof. vm_compute. reflexivity. Qed.
End IpcTests.

(** ** workers.rs *)

Module WorkerTests.
Import IpcTests.

(** A datagram on the loopback socket, a timeout, and the turn that stops. *)
Definition would_block : io_error := {| io_kind := WouldBlock; io_text := lit "timed out" |}.
Definition capture_turn (stop : bool) (r : result io_error (bytes * IpAddr)) : CaptureIter :=
  {| ci_shutdown := stop; ci_recv := r; ci_reset_now := 0; ci_now := 0; ci_send := Ok () |}.
Definition crypto_turn (stop : bool) (r : result PrivsepError CaptureMsg) : CryptoIter :=
  {| yi_shutdown := stop; yi_recv := r; yi_clock := Some NOW; yi_send := Ok () |}.
Definition no_match_validator (_ : option Z) (m : CaptureMsg) : option CryptoMsg :=
  let '(CapturePacket source_ip _) := m in Some (CryptoNoMatch source_ip).

Definition ended_ok (st : option (result PrivsepError unit)) : test () unit :=
  match st with Some (Ok _) => mret () | _ => panic end.

Definition capture_worker_forwards_real_packet_over_loopback : bool :=
  check (
    rl ← RunTests.disabled_limiter;
    let '(_, sent, st) := run_capture_worker (Ok ()) rl
      [capture_turn false (Err would_block); capture_turn false (Ok (lit "hello fwknox", here));
       capture_turn true (Err would_block)] in
    _ ← match sent with
        | [CapturePacket source_ip data] =>
            _ ← assert_eq source_ip here; assert_eq data (lit "hello fwknox")
        | _ => panic
        end;
    ended_ok st).
Definition capture_worker_exits_cleanly_when_shutdown_is_true_before_first_recv : bool :=
  check (
    rl ← RunTests.disabled_limiter;
    ended_ok (run_capture_worker (Ok ()) rl [capture_turn true (Err would_block)]).2).
Definition crypto_worker_forwards_validation_result : bool :=
  check (
    let '(sent, st) := run_crypto_worker PanicUnwinds (Ok ()) no_match_validator
      [crypto_turn false (Ok (CapturePacket here [0; 1; 2; 3])); crypto_turn true (Err PeerClosed)] in
    _ ← match sent with [CryptoNoMatch _] => mret () | _ => panic end;
    match st with Some (Returned (Ok _)) => mret () | _ => panic end).
Definition crypto_worker_exits_when_capture_side_closes : bool :=
  check (
    let '(_, st) := run_crypto_worker PanicUnwinds (Ok ()) no_match_validator
      [crypto_turn false (Err (PIo would_block)); crypto_turn true (Err PeerClosed)] in
    match st with Some (Returned (Ok _)) => mret () | _ => panic end).
Definition capture_worker_drops_rate_limited_packets_before_ipc : bool :=
  check (
    rl ← unwrap (with_clock RunTests.strict_config 0);
    let '(_, sent, _) := run_capture_worker (Ok ()) rl
      (replicate 10 (capture_turn false (Ok (lit "hello", here))) ++ [capture_turn true (Err would_block)]) in
    assert_eq (length sent) 3%nat).

Example worker_tests_pass :
  forallb id [capture_worker_forwards_real_packet_over_loopback;
              capture_worker_exits_cleanly_when_shutdown_is_true_before_first_recv;
              crypto_worker_forwards_validation_result; crypto_worker_exits_when_capture_side_closes;
              capture_worker_drops_rate_limited_packets_before_ipc] = true.
Proof. vm_compute. reflexivity. Qed.
End WorkerTests.

(** ** udp.rs *)

Module UdpTests.
(** A loopback socket: what [recvmsg] leaves for a datagram from here. *)
Definition bound : SocketAddr := SocketAddr_new here 40001.
Definition from_here (d : bytes) : result io_error recvmsg_out :=
  Ok {| rm_n := len d; rm_trunc := bool_decide (MAX_DATAGRAM_LEN < len d);
        rm_name := {| ss_family := AF_INET; sin_addr := [127; 0; 0; 1]; sin6_addr := [] |};
        rm_namelen := SIZEOF_SOCKADDR_IN; rm_buf := take (Z.to_nat MAX_DATAGRAM_LEN) d |}.
Definition timed_out : result io_error recvmsg_out :=
  Err {| io_kind := WouldBlock; io_text := lit "Resource temporarily unavailable" |}.
Abbreviation server t := (test_passes (S := UdpCapture) t (from_socket bound)) (only parsing).
Definition recv (timeout : Duration) (sys : result io_error recvmsg_out)
  : test UdpCapture (option CapturedPacket) :=
  r ← update (λ c, cb_recv_timeout c timeout (Ok (), sys)); unwrap_ok r.

Definition bind_to_ephemeral_port_succeeds : bool :=
  check (
    cap ← unwrap_ok (bind (Ok bound)); a ← unwrap_ok (local_addr cap);
    _ ← assert_eq (sock_ip a) here; assert_ne (sock_port a) 0).
Definition bind_to_already_bound_port_fails : bool :=
  is_err (bind (Err {| io_kind := OtherKind; io_text := lit "Address already in use" |})).
Definition recv_returns_sent_payload : bool :=
  server (
    r ← recv (from_secs 1) (from_here (lit "hello fwknox")); pkt ← unwrap r;
    _ ← assert_eq (cap_data pkt) (lit "hello fwknox"); assert_eq (cap_source_ip pkt) here).
Definition oversize_udp_datagram_is_detected_and_dropped : bool :=
  server (
    first ← recv (from_secs 1) (from_here (fill (MAX_DATAGRAM_LEN + 500) 0xaa));
    _ ← match first with None => mret () | Some _ => panic end;
    second ← recv (from_secs 1) (from_here (lit "hello")); pkt ← unwrap second;
    assert_eq (cap_data pkt) (lit "hello")).
Definition exact_max_len_datagram_is_delivered_intact : bool :=
  server (
    let payload := fill MAX_DATAGRAM_LEN 0x5a in
    r ← recv (from_secs 1) (from_here payload); pkt ← unwrap r;
    _ ← assert_eq (len (cap_data pkt)) MAX_DATAGRAM_LEN; assert_eq (cap_data pkt) payload).
Definition recv_timeout_returns_none_on_timeout : bool :=
  server (r ← recv (from_millis 50) timed_out; match r with None => mret () | Some _ => panic end).
Definition recv_timeout_returns_packet_when_one_arrives : bool :=
  server (
    r ← recv (from_secs 1) (from_here (lit "hello timeout")); pkt ← unwrap r;
    assert_eq (cap_data pkt) (lit "hello timeout")).
Definition from_socket_wraps_existing_socket : bool :=
  check (a ← unwrap_ok (local_addr (from_socket bound)); assert_eq a bound).

Example udp_tests_pass :
  forallb id [bind_to_ephemeral_port_succeeds; bind_to_already_bound_port_fails;
              recv_returns_sent_payload; oversize_udp_datagram_is_detected_and_dropped;
              exact_max_len_datagram_is_delivered_intact; recv_timeout_returns_none_on_timeout;
              recv_timeout_returns_packet_when_one_arrives; from_socket_wraps_existing_socket] = true.
Proof. vm_compute. reflexivity. Qed.
End UdpTests.

(** ** packet.rs, keygen.rs and send.rs of the client *)

Module ClientTests.
(** What the command lines of the tests parse to. *)
Definition cli_with (access key : option str) : Cli := {|
  cli_name := None; cli_destination := None; cli_port := None; cli_access := access;
  cli_source_ip := None; cli_username := None; cli_timeout := None; cli_master_key_base64 := key;
  cli_config := None; cli_test := false; cli_generate_key := false; cli_verbose := 0 |}.
Definition cli_with_inline_args : Cli := {|
  cli_name := None; cli_destination := Some (lit "127.0.0.1"); cli_port := None;
  cli_access := Some (lit "tcp/22"); cli_source_ip := None; cli_username := None; cli_timeout := None;
  cli_master_key_base64 := Some (b64_encode key42); cli_config := None; cli_test := false;
  cli_generate_key := false; cli_verbose := 0 |}.
Definition env : ClientEnv := {|
  ce_user := None; ce_clock := Some NOW; ce_payload_rng := Some (replicate 16 9);
  ce_packet_rng := Some (replicate 12 5) |}.

Definition build_packet_from_inline_cli_args : bool :=
  check (
    wire ← unwrap_ok (build_spa_packet cli_with_inline_args None env);
    payload ← unwrap_ok (parse_packet wire key42);
    match message payload with
    | Access _ ports => assert_eq ports [PortProto_new Tcp 22]
    | _ => panic
    end).
Definition missing (cli : Cli) : bool :=
  check (e ← unwrap_err (build_spa_packet cli None env);
         match e with MissingArgument _ => mret () | _ => panic end).
Definition missing_master_key_returns_missing_argument : bool := missing (cli_with (Some (lit "tcp/22")) None).
Definition missing_access_returns_missing_argument : bool :=
  missing (cli_with None (Some (b64_encode (replicate 32 0)))).
Definition invalid_master_key_length_is_rejected : bool :=
  check (
    e ← unwrap_err (build_spa_packet (cli_with (Some (lit "tcp/22")) (Some (b64_encode (replicate 16 0)))) None env);
    match e with InvalidArgument _ _ => mret () | _ => panic end).
Definition parse_access_handles_multiple_ports : bool :=
  check (parsed ← unwrap_ok (parse_access_string (lit "tcp/22, udp/53,tcp/443")); assert_eq (length parsed) 3%nat).
Definition parse_access_rejects_empty_string : bool :=
  check (e ← unwrap_err (parse_access_string []); match e with InvalidArgument _ _ => mret () | _ => panic end).

Definition base64_form_decodes_to_32_bytes : bool :=
  check (
    s ← unwrap_ok (generate_master_key_base64 (Some (replicate 32 77)));
    bytes ← unwrap_ok (b64_decode s); assert_eq (len bytes) 32).

Example client_tests_pass :
  forallb id [build_packet_from_inline_cli_args; missing_master_key_returns_missing_argument;
              missing_access_returns_missing_argument; invalid_master_key_length_is_rejected;
              parse_access_handles_multiple_ports; parse_access_rejects_empty_string;
              base64_form_decodes_to_32_bytes] = true.
Proof. vm_compute. reflexivity. Qed.
End ClientTests.

(** ** landlock.rs and seccomp.rs of the sandbox *)

Module SandboxTests.
#[local] Instance RulesetOutcome_eq_dec : EqDecision RulesetOutcome.
Proof. solve_decision. Defined.
Definition outcome (s : RulesetStatus) (empty : bool) (o : RulesetOutcome) : bool :=
  bool_decide (classify_status s empty = o).
Definition classify_fully_enforced_is_always_enforced : bool :=
  outcome FullyEnforced true Enforced && outcome FullyEnforced false Enforced.
Definition classify_partially_enforced_empty_policy_is_insufficient : bool :=
  outcome PartiallyEnforced true Insufficient.
Definition classify_partially_enforced_non_empty_policy_is_enforced : bool :=
  outcome PartiallyEnforced false Enforced.
Definition classify_not_enforced_is_always_insufficient : bool :=
  outcome NotEnforced true Insufficient && outcome NotEnforced false Insufficient.
Definition worker_allowlist_excludes_prlimit64 : bool :=
  negb (bool_decide (lit "prlimit64" ∈ worker_syscall_list)).
Definition worker_allowlist_still_contains_essential_syscalls : bool :=
  forallb (λ s, bool_decide (s ∈ worker_syscall_list))
    [lit "read"; lit "write"; lit "recvfrom"; lit "sendto"; lit "close"; lit "futex"; lit "exit_group"].

Example sandbox_tests_pass :
  forallb id [classify_fully_enforced_is_always_enforced;
              classify_partially_enforced_empty_policy_is_insufficient;
              classify_partially_enforced_non_empty_policy_is_enforced;
              classify_not_enforced_is_always_insufficient; worker_allowlist_excludes_prlimit64;
              worker_allowlist_still_contains_essential_syscalls] = true.
Proof. vm_compute. reflexivity. Qed.
End SandboxTests.
