(* ===== verification/IntegrationTests.v ===== *)
(** * The integration tests that stay in one process

    tests/integration/tests/{proto_config,forged_packet,replay_firewall_capture,
    ratelimit_e2e,client_daemon_e2e}.rs: tests of several crates together,
    translated and evaluated like the unit tests. The threads and sockets of
    the last one become the turns of the daemon's loop. *)

From S2P Require Import Prelude RustStd Net Lru Proto Instances NetText Serde Packet Persist Replay Config.
From S2P Require Import ConfigFile RateLimit Firewall Capture Privsep Sandbox Daemon DaemonRun Client.
From S2P Require Import Testing DaemonTests.

#[local] Existing Instance million_entries.

#[local] Existing Instance keyed_ring.
#[local] Existing Instance verbatim_base64.
#[local] Existing Instance whole_seconds.
#[local] Existing Instance sorted_hash_iter.
#[local] Existing Instance v4_networks.

Abbreviation check t := (test_passes (S := ()) t ()) (only parsing).

(** ** What the tests share *)

Definition request (n : Z) (src : IpAddr) : SpaPayload := {|
  nonce := replicate 16 n; timestamp := NOW; username := lit "alice";
  message := Access src [PortProto_new Tcp 22]; client_timeout := Some 60 |}.

Definition integration_table : Rmp WirePayload :=
  table_rmp (serialize_payload <$>
    (client_payload :: request 0xcd (ip "192.168.1.5") :: ((λ n, request n here) <$> [1; 2; 3; 4; 5; 0xab]))).
#[local] Instance integration_codec : Rmp SpaPayload := @payload_rmp _ integration_table.

Definition build_wire (p : SpaPayload) (key : bytes) : test () bytes :=
  unwrap_ok (build_packet p key (Some (replicate 12 5))).

(** [write_test_config] with the sections of a test, and the load of it. *)
Definition load_with (sections : list (str * Value)) (stanza : Value) : test () DaemonConfig :=
  let doc := VTable (sections ++ [(lit "access", VArr [stanza])]) in
  unwrap_ok (load_daemon_config (λ _, Ok []) (@daemon_from_str _ _ _ _ (constant_toml doc)) (lit "f")).
Definition plain_sections : list (str * Value) := [(lit "daemon", VTable []); (lit "replay", VTable [])].

Definition process (cfg : DaemonConfig) (pkt : CapturedPacket) (w : World Mock.MockState)
  : test () (World Mock.MockState * ProcessResult) :=
  let '(w, r) := process_packet pkt cfg PipelineTests.env w in r ← unwrap_ok r; mret (w, r).

Definition in_allowlist (s : AccessStanza) (i : IpAddr) : bool :=
  existsb (λ x, SourceSpec_matches x i) (source s).

(** ** proto_config.rs *)

Definition end_to_end_packet_roundtrip_with_loaded_config : bool :=
  check (
    cfg ← load_with plain_sections (stanza_doc "ssh-admin" "192.168.1.0/24" key42);
    let payload := request 0xcd (ip "192.168.1.5") in
    wire ← build_wire payload key42;
    decoded ← unwrap_ok (parse_packet wire key42);
    _ ← assert_eq decoded payload;
    stanza ← unwrap (find_by_master_key cfg key42);
    _ ← assert_eq (stanza_name stanza) (lit "ssh-admin");
    _ ← assert (in_allowlist stanza (ip "192.168.1.5"));
    unwrap_ok (validate_against_clock decoded NOW DEFAULT_MAX_AGE_SECS DEFAULT_MAX_SKEW_SECS)).

Definition parse_with_wrong_key_fails_at_hmac : bool :=
  check (
    wire ← build_wire (request 0xcd (ip "192.168.1.5")) key42;
    assert (is_err (parse_packet wire (replicate 32 0x99)))).

(** ** forged_packet.rs *)

Definition not_installed (r : ProcessResult) : test () unit :=
  match r with PNoMatch | Rejected _ _ => mret () | _ => panic end.

(** One bit of the ciphertext flipped, twice the same packet. *)
Definition daemon_rejects_forged_ciphertext : bool :=
  check (
    cfg ← load_with plain_sections (stanza_doc "ssh" "127.0.0.1/32" key42);
    wire ← build_wire (request 0xab here) key42;
    let tamper_idx := Z.to_nat (HEADER_LEN + NONCE_LEN + 2) in
    b ← unwrap (wire !! tamper_idx);
    let forged := captured (<[tamper_idx := Z.lxor b 0x80]> wire) here in
    '(w, r) ← process cfg forged PipelineTests.start;
    _ ← not_installed r; _ ← assert_eq (PipelineTests.rules_count w) 0%nat;
    '(w, r) ← process cfg forged w;
    _ ← not_installed r; assert_eq (PipelineTests.rules_count w) 0%nat).

(** ** replay_firewall_capture.rs *)

Definition end_to_end_capture_validate_replay_install : bool :=
  check (
    cfg ← load_with plain_sections (stanza_doc "ssh-admin" "127.0.0.1/32" key42);
    wire ← build_wire (request 0xab here) key42;
    (* the datagram on the loopback socket *)
    let '(_, received) := cb_recv_timeout (from_socket UdpTests.bound) (from_secs 1)
                            (Ok (), UdpTests.from_here wire) in
    received ← unwrap_ok received; pkt ← unwrap received;
    parsed ← unwrap_ok (parse_packet (cap_data pkt) key42);
    _ ← unwrap_ok (validate_against_clock parsed NOW DEFAULT_MAX_AGE_SECS DEFAULT_MAX_SKEW_SECS);
    let '(c, fs, fresh) := check_and_insert ReplayCache_new (nonce parsed) NOW no_faults ∅ in
    fresh ← unwrap_ok fresh; _ ← assert fresh;
    stanza ← unwrap (find_by_master_key cfg key42);
    _ ← assert (require_source_match stanza); _ ← assert (in_allowlist stanza (cap_source_ip pkt));
    let '(fw, r) := Mock.mock_init Mock.mock_new in _ ← unwrap_ok r;
    match message parsed with
    | Access src ports =>
        let rule := {| rule_source_ip := src; rule_ports := ports; rule_timeout := from_secs 60;
                       rule_comment := lit "fwknox:" ++ username parsed ++ lit ":" ++ dec (timestamp parsed) |} in
        let '(fw, h) := Mock.mock_open_access fw rule in
        h ← unwrap_ok h;
        _ ← assert_eq (size (Mock.installed_rules fw)) 1%nat;
        stored ← unwrap (snd <$> head (map_to_list (Mock.installed_rules fw)));
        _ ← assert_eq (rule_source_ip stored) here;
        _ ← assert_eq (rule_ports stored) [PortProto_new Tcp 22];
        let '(_, _, again) := check_and_insert c (nonce parsed) NOW no_faults fs in
        again ← unwrap_ok again; _ ← assert (negb again);
        let '(fw, r) := Mock.mock_remove_rule fw h in
        _ ← unwrap_ok r; assert_eq (size (Mock.installed_rules fw)) 0%nat
    | _ => panic
    end).

Definition replay_cache_persists_across_save_and_load : bool :=
  check (
    let n := replicate 16 0x77 in
    let '(c, fs, r) := check_and_insert ReplayCache_new n NOW no_faults ∅ in _ ← unwrap_ok r;
    let '(fs, r) := save_to_file c (lit "/d/c.cache") no_faults fs in _ ← unwrap_ok r;
    loaded ← unwrap_ok (load_from_file (lit "/d/c.cache") None fs);
    let '(_, _, r) := check_and_insert loaded n NOW no_faults fs in
    r ← unwrap_ok r; assert (negb r)).

(** ** ratelimit_e2e.rs *)

Definition limited_sections : list (str * Value) :=
  plain_sections ++ [(lit "rate_limit", VTable [
    (lit "enabled", VBool true); (lit "per_source_rate_per_sec", VInt 2); (lit "per_source_burst", VInt 2);
    (lit "tracked_sources_capacity", VInt 16); (lit "global_rate_per_sec", VInt 2);
    (lit "global_burst", VInt 2); (lit "promotion_threshold", VInt 1000);
    (lit "ipv6_prefix_len", VInt 64)])].

(** Five packets within one instant; limiter, world and the three counters. *)
Definition limiter_drops_burst_overflow : bool :=
  check (
    let key := replicate 32 0x55 in
    cfg ← load_with limited_sections (stanza_doc "ssh" "127.0.0.1/32" key);
    _ ← assert (enabled (rate_limit cfg));
    _ ← assert_eq (per_source_rate_per_sec (rate_limit cfg)) 2;
    _ ← assert_eq (per_source_burst (rate_limit cfg)) 2;
    limiter ← unwrap (from_config (rate_limit cfg) {| os_now := 0 |});
    '(limiter, w, (passed, dropped)) ←
      for_fold (range 0 5) (limiter, PipelineTests.start, (0, 0)) (λ '(rl, w, (passed, dropped)) i,
        wire ← build_wire (request (i + 1) here) key;
        let '(rl, decision, _) := RateLimit.check rl here 0 0 in
        match decision with
        | Drop _ => mret (rl, w, (passed, dropped + 1))
        | Pass =>
            '(w, r) ← process cfg (captured wire here) w;
            match r with Installed _ _ => mret (rl, w, (passed + 1, dropped)) | _ => panic end
        end);
    let installed := Z.of_nat (PipelineTests.rules_count w) in
    _ ← assert (1 <=? installed); _ ← assert (installed <=? 2); _ ← assert_eq passed installed;
    _ ← assert (1 <=? dropped); _ ← assert_eq (passed + dropped) 5;
    let s := stats limiter in
    assert (1 <=? snap_dropped_per_source s + snap_dropped_global s)).

(** ** client_daemon_e2e.rs *)

(** A mock that also logs every rule it installs. *)
Record RecordingFirewall := { rec_inner : Mock.MockState; installed_log : list AccessRule }.
Definition rec_with (f : RecordingFirewall) (m : Mock.MockState) : RecordingFirewall :=
  {| rec_inner := m; installed_log := installed_log f |}.
#[local] Instance recording_firewall : FirewallBackend RecordingFirewall := {|
  fw_init f := let '(m, r) := Mock.mock_init (rec_inner f) in (rec_with f m, r);
  fw_open_access f rule :=
    let '(m, r) := Mock.mock_open_access (rec_inner f) rule in
    match r with
    | Err e => (rec_with f m, Err e)
    | Ok h => ({| rec_inner := m; installed_log := installed_log f ++ [rule] |}, Ok h)
    end;
  fw_remove_rule f h := let '(m, r) := Mock.mock_remove_rule (rec_inner f) h in (rec_with f m, r);
  fw_flush f := let '(m, r) := Mock.mock_flush (rec_inner f) in (rec_with f m, r) |}.

Definition e2e_cli (key : bytes) : Cli := {|
  cli_name := None; cli_destination := Some (lit "127.0.0.1"); cli_port := None;
  cli_access := Some (lit "tcp/22"); cli_source_ip := Some (lit "127.0.0.1"); cli_username := None;
  cli_timeout := None; cli_master_key_base64 := Some (b64_encode key); cli_config := None;
  cli_test := false; cli_generate_key := false; cli_verbose := 0 |}.

Definition client_sends_packet_daemon_installs_rule : bool :=
  check (
    let key := replicate 32 0x99 in
    cfg ← load_with [(lit "daemon", VTable [(lit "listen_addr", VStr (lit "127.0.0.1"));
                                            (lit "listen_port", VInt 40001)]);
                     (lit "replay", VTable [(lit "cache_path", VStr (lit "/d/replay.cache"))])]
            (stanza_doc "ssh" "127.0.0.1/32" key);
    limiter ← RunTests.disabled_limiter;
    wire ← unwrap_ok (build_spa_packet (e2e_cli key) None ClientTests.env);
    let w := {| w_replay := ReplayCache_new; w_fs := ∅;
                w_fw := {| rec_inner := Mock.mock_new; installed_log := [] |} |} in
    let '(s, r) := run cfg (RunTests.turns 2 {| RunTests.queue := [captured wire here] |}) no_faults w limiter in
    _ ← match r with Some (Ok _) => mret () | _ => panic end;
    match installed_log (w_fw (rs_world s)) with
    | [rule] => _ ← assert_eq (rule_source_ip rule) here; assert_eq (length (rule_ports rule)) 1%nat
    | _ => panic
    end).

Example integration_tests_pass :
  forallb id [end_to_end_packet_roundtrip_with_loaded_config; parse_with_wrong_key_fails_at_hmac;
              daemon_rejects_forged_ciphertext; end_to_end_capture_validate_replay_install;
              replay_cache_persists_across_save_and_load; limiter_drops_burst_overflow;
              client_sends_packet_daemon_installs_rule] = true.
Proof. vm_compute. reflexivity. Qed.
